(** * Hexagone Project Manager: the project/document codec

    A shallow embedding of the Markdown/HTML codec of
    [project_manager.py]: the [Project] record, the encoder
    ([_generate_project_md], [_generate_full_md]), the decoder
    ([_parse_md]) and the image resolver ([resolve_image_path]),
    together with the fragment of Python's [re] and [os.path] modules
    they call. *)

From Stdlib Require Import NArith ZArith String Ascii List Bool Lia DecimalString DecimalN.
From stdpp Require Import base option list gmap.

Local Open Scope N_scope.

(** ** Python strings

    A Python [str] is a sequence of Unicode code points.  Literals are
    written as ASCII Rocq strings through [u]; inside such a literal the
    apostrophe stands for the double quote (code point 34), which the
    literals of the program use heavily and which none of them mixes
    with a real apostrophe. *)

Abbreviation str := (list N).

Definition code_of_ascii (a : ascii) : N :=
  let c := N_of_ascii a in if c =? 39 then 34 else c.

Definition u (s : string) : str := List.map code_of_ascii (list_ascii_of_string s).
Arguments u : simpl never.

(** The newline character, which cannot be typed inside a literal. *)
Definition nl : str := [10].

(** [a == b] on strings, as a boolean. *)
Fixpoint str_eqb (a b : str) : bool :=
  match a, b with
  | [], [] => true
  | x :: a', y :: b' => (x =? y) && str_eqb a' b'
  | _, _ => false
  end.

(** [s.startswith(p)] *)
Fixpoint startswith (p s : str) : bool :=
  match p, s with
  | [], _ => true
  | x :: p', y :: s' => (x =? y) && startswith p' s'
  | _ :: _, [] => false
  end.

(** [sub in s] *)
Fixpoint contains (sub s : str) : bool :=
  startswith sub s ||
  match s with
  | [] => false
  | _ :: s' => contains sub s'
  end.

(** [sep.join(l)] *)
Fixpoint join (sep : str) (l : list str) : str :=
  match l with
  | [] => []
  | [a] => a
  | a :: l' => a ++ sep ++ join sep l'
  end.

(** [s.replace(a, b)] for a single character [a]. *)
Definition replace_char (a b : N) (s : str) : str :=
  List.map (fun c => if c =? a then b else c) s.

(** [s.lstrip(c)] for a one-character set. *)
Fixpoint lstrip_char (c : N) (s : str) : str :=
  match s with
  | x :: s' => if x =? c then lstrip_char c s' else s
  | [] => []
  end.

(** [str(n)] for an integer. *)
Definition digits_of_uint (d : Decimal.uint) : str :=
  u (NilEmpty.string_of_uint d).

Definition str_of_N (n : N) : str :=
  match n with
  | 0 => u "0"
  | _ => digits_of_uint (N.to_uint n)
  end.

Definition str_of_Z (z : Z) : str :=
  match z with
  | Z0 => u "0"
  | Zpos p => str_of_N (Npos p)
  | Zneg p => u "-" ++ str_of_N (Npos p)
  end.

(** ** The Unicode character database

    [str.lower], [str.strip], [int] and the classes [\s], [\d], [\w] of
    [re] consult Python's Unicode database.  Below 128 their behaviour
    is written out; at and above 128 it is read from the tables
    of this class, which belong to the interpreter and not to the program. *)

Class Unicode := {
  (** is the code point white space ([str.isspace]) *)
  uspace : N -> bool;
  (** the value of a decimal digit (category Nd), if the code point is one *)
  udigit : N -> option N;
  (** is the code point alphanumeric ([str.isalnum]) *)
  ualnum : N -> bool;
  (** the lower-case mapping of a code point, given the text before and
      after it (the mapping of capital sigma depends on them) *)
  ulower : str -> N -> str -> str
}.

(** The tables that know nothing above 127: used to run the program on
    texts whose characters above 127, if any, are neither white space,
    digits, alphanumeric nor cased. *)
Definition ascii_tables : Unicode :=
  {| uspace := fun _ => false;
     udigit := fun _ => None;
     ualnum := fun _ => false;
     ulower := fun _ c _ => [c] |}.

Definition in_range (lo hi c : N) : bool := (lo <=? c) && (c <=? hi).

Section Chars.
Context {U : Unicode}.

(** White space: tab, line feed, vertical tab, form feed, carriage
    return, the four separators 28-31 and the space. *)
Definition is_space (c : N) : bool :=
  if c <? 128 then in_range 9 13 c || in_range 28 31 c || (c =? 32)
  else uspace c.

Definition digit_value (c : N) : option N :=
  if c <? 128 then (if in_range 48 57 c then Some (c - 48) else None)
  else udigit c.

Definition is_digit (c : N) : bool :=
  match digit_value c with Some _ => true | None => false end.

Definition is_word (c : N) : bool :=
  if c <? 128 then
    in_range 97 122 c || in_range 65 90 c || in_range 48 57 c || (c =? 95)
  else ualnum c || is_digit c.

(** [s.lower()]: the text already passed is kept to give the tables
    their context. *)
Fixpoint lower_from (before : str) (s : str) : str :=
  match s with
  | [] => []
  | c :: s' =>
      (if c <? 128 then [if in_range 65 90 c then c + 32 else c]
       else ulower before c s')
      ++ lower_from (before ++ [c]) s'
  end.

Definition lower (s : str) : str := lower_from [] s.

(** [s.strip()] *)
Fixpoint lstrip (s : str) : str :=
  match s with
  | c :: s' => if is_space c then lstrip s' else s
  | [] => []
  end.

Definition rstrip (s : str) : str := rev (lstrip (rev s)).

Definition strip (s : str) : str := rstrip (lstrip s).
End Chars.

(** ** Exceptions

    The decoder calls operations that raise: [m.group] on [None], and
    [int] on text that is not a number. *)

Inductive exn := AttributeError | IndexError | ValueError.

Inductive exc (A : Type) :=
| Ok (a : A)
| Raise (e : exn).
Arguments Ok {A} a.
Arguments Raise {A} e.

#[global] Instance exc_ret : MRet exc := fun A a => Ok a.

#[global] Instance exc_bind : MBind exc := fun A B f x =>
  match x with
  | Ok a => f a
  | Raise e => Raise e
  end.

(** [try: body  except: handler] with a bare [except]. *)
Definition try_except {A} (body : exc A) (handler : A) : exc A :=
  match body with
  | Ok a => Ok a
  | Raise _ => Ok handler
  end.

Section Int.
Context {U : Unicode}.

Fixpoint int_digits (acc : N) (s : str) : exc N :=
  match s with
  | [] => Ok acc
  | c :: s' =>
      match digit_value c with
      | Some d => int_digits (10 * acc + d) s'
      | None => Raise ValueError
      end
  end.

(** [int(s)] on a run of decimal digits; any other text is reported
    as [ValueError] (the interpreter also accepts a sign, surrounding
    white space and underscores, which the decoder never passes). *)
Definition int (s : str) : exc Z :=
  match s with
  | [] => Raise ValueError
  | _ => n ← int_digits 0 s; Ok (Z.of_N n)
  end.
End Int.

(** ** Regular expressions

    The fragment of [re] the program's patterns are written in, matched
    by backtracking in the order of the [re] module: alternatives from
    left to right, greedy repetition longest first, lazy repetition
    shortest first.  Repetition applies to one-character classes, which
    is all the patterns do. *)

Inductive cls :=
| Dot                          (** [.] : anything but a newline *)
| DotAll                       (** [.] under [re.DOTALL] *)
| Space                        (** [\s] *)
| Digit                        (** [\d] *)
| Word                         (** [\w] *)
| NoneOf (rs : list (N * N)).  (** [[^...]] : ranges, a single character as a range of one *)

Inductive regex :=
| Str (s : str)                (** literal text *)
| Atom (c : cls)
| Cat (a b : regex)
| Alt (a b : regex)            (** [a|b] *)
| Grp (n : nat) (r : regex)    (** the capturing group number [n] *)
| Star (c : cls)               (** [c*] *)
| Lazy (c : cls)               (** [c*?] *)
| Ahead (r : regex)            (** [(?=r)] *)
| Eos.                         (** [$] without [re.MULTILINE] *)

(** [c+] *)
Definition Plus (c : cls) : regex := Cat (Atom c) (Star c).

Declare Scope re_scope.
Delimit Scope re_scope with re.
Bind Scope re_scope with regex.
Infix "⋅" := Cat (at level 40, left associativity) : re_scope.

(** A single character as a range. *)
Definition ch (s : string) : N * N :=
  match u s with
  | c :: _ => (c, c)
  | [] => (0, 0)
  end.

(** The range [a-b]. *)
Definition rg (a b : string) : N * N := (fst (ch a), fst (ch b)).

(** The groups captured so far, the latest first. *)
Abbreviation caps := (list (nat * str)).

Fixpoint cap_lookup (n : nat) (g : caps) : option str :=
  match g with
  | [] => None
  | (k, v) :: g' => if Nat.eqb k n then Some v else cap_lookup n g'
  end.

Section Matcher.
Context {U : Unicode}.

Definition cls_test (c : cls) (x : N) : bool :=
  match c with
  | Dot => negb (x =? 10)
  | DotAll => true
  | Space => is_space x
  | Digit => is_digit x
  | Word => is_word x
  | NoneOf rs => negb (existsb (fun r => in_range (fst r) (snd r) x) rs)
  end.

(** Greedy repetition of a class: take a character if there is one,
    and give it back if the rest of the pattern fails. *)
Fixpoint star {R} (p : N -> bool) (s : str) (k : str -> option R) : option R :=
  match s with
  | x :: s' =>
      if p x then
        match star p s' k with
        | Some r => Some r
        | None => k s
        end
      else k s
  | [] => k []
  end.

(** Lazy repetition: try the rest of the pattern first. *)
Fixpoint lazy_star {R} (p : N -> bool) (s : str) (k : str -> option R) : option R :=
  match k s with
  | Some r => Some r
  | None =>
      match s with
      | x :: s' => if p x then lazy_star p s' k else None
      | [] => None
      end
  end.

(** The text consumed between [s] and its suffix [s']. *)
Definition consumed (s s' : str) : str := take (length s - length s') s.

(** [m r s g k]: match [r] at the head of [s] with captures [g], then
    continue with [k] on what is left; the first success in
    backtracking order. *)
Fixpoint m (r : regex) (s : str) (g : caps)
    (k : str -> caps -> option (str * caps)) : option (str * caps) :=
  match r with
  | Str l => if startswith l s then k (drop (length l) s) g else None
  | Atom c =>
      match s with
      | x :: s' => if cls_test c x then k s' g else None
      | [] => None
      end
  | Cat a b => m a s g (fun s' g' => m b s' g' k)
  | Alt a b =>
      match m a s g k with
      | Some r => Some r
      | None => m b s g k
      end
  | Grp n a => m a s g (fun s' g' => k s' ((n, consumed s s') :: g'))
  | Star c => star (cls_test c) s (fun s' => k s' g)
  | Lazy c => lazy_star (cls_test c) s (fun s' => k s' g)
  | Ahead a =>
      match m a s g (fun s' g' => Some (s', g')) with
      | Some (_, g') => k s g'
      | None => None
      end
  | Eos =>
      match s with
      | [] => k s g
      | [x] => if x =? 10 then k s g else None
      | _ => None
      end
  end.

(** A match object: where it starts, the text of group 0, the groups. *)
Record Match := { m_start : nat; m_text : str; m_groups : caps }.

(** [pattern.match(s)] at the head of [s]: the matched text and the groups. *)
Definition match_at (r : regex) (s : str) : option (str * caps) :=
  match m r s [] (fun s' g => Some (s', g)) with
  | Some (s', g) => Some (consumed s s', g)
  | None => None
  end.

Fixpoint search_from (r : regex) (i : nat) (s : str) : option Match :=
  match match_at r s with
  | Some (t, g) => Some {| m_start := i; m_text := t; m_groups := g |}
  | None =>
      match s with
      | [] => None
      | _ :: s' => search_from r (S i) s'
      end
  end.

(** [re.search(r, s)] *)
Definition re_search (r : regex) (s : str) : option Match := search_from r 0 s.

(** [m.group(n)].  On [None] it raises [AttributeError].  A group that
    is not among the captures is reported as [IndexError]: the
    patterns of the program have no optional group, so this is the
    case of a group number the pattern does not have. *)
Definition group (mt : option Match) (n : nat) : exc str :=
  match mt with
  | None => Raise AttributeError
  | Some x =>
      match n with
      | O => Ok (m_text x)
      | _ =>
          match cap_lookup n (m_groups x) with
          | Some s => Ok s
          | None => Raise IndexError
          end
      end
  end.

(** The successive matches of [r] in [s], from left to right and not
    overlapping; [skip] characters still belong to the last match. *)
Fixpoint finditer_go (r : regex) (skip : nat) (s : str) : list (str * caps) :=
  match skip with
  | S n =>
      match s with
      | _ :: s' => finditer_go r n s'
      | [] => []
      end
  | O =>
      match match_at r s with
      | Some (t, g) =>
          (t, g) ::
          match s with
          | _ :: s' => finditer_go r (Nat.pred (length t)) s'
          | [] => []
          end
      | None =>
          match s with
          | _ :: s' => finditer_go r 0 s'
          | [] => []
          end
      end
  end.

Definition group_or_empty (n : nat) (g : caps) : str :=
  match cap_lookup n g with
  | Some s => s
  | None => []
  end.

(** [re.findall(r, s)] for a pattern with one group. *)
Definition re_findall1 (r : regex) (s : str) : list str :=
  List.map (fun tg => group_or_empty 1 (snd tg)) (finditer_go r 0 s).

(** [re.findall(r, s)] for a pattern with two groups. *)
Definition re_findall2 (r : regex) (s : str) : list (str * str) :=
  List.map (fun tg => (group_or_empty 1 (snd tg), group_or_empty 2 (snd tg)))
    (finditer_go r 0 s).

(** [re.split(r, s)] for a pattern without groups whose matches are
    never empty: [cur] is the piece being read. *)
Fixpoint split_go (r : regex) (cur : str) (skip : nat) (s : str) : list str :=
  match skip with
  | S n =>
      match s with
      | _ :: s' => split_go r cur n s'
      | [] => [cur]
      end
  | O =>
      match match_at r s, s with
      | Some (_ :: t, _), _ :: s' => cur :: split_go r [] (length t) s'
      | _, c :: s' => split_go r (cur ++ [c]) 0 s'
      | _, [] => [cur]
      end
  end.

Definition re_split (r : regex) (s : str) : list str := split_go r [] 0 s.

(** [re.sub(r, repl, s)] for a literal replacement and a pattern whose
    matches are never empty. *)
Fixpoint sub_go (r : regex) (repl : str) (skip : nat) (s : str) : str :=
  match skip with
  | S n =>
      match s with
      | _ :: s' => sub_go r repl n s'
      | [] => []
      end
  | O =>
      match match_at r s, s with
      | Some (_ :: t, _), _ :: s' => repl ++ sub_go r repl (length t) s'
      | _, c :: s' => c :: sub_go r repl 0 s'
      | _, [] => []
      end
  end.

Definition re_sub (r : regex) (repl : str) (s : str) : str := sub_go r repl 0 s.
End Matcher.

(** ** The project record

    [class Project]: the fields and the values [__init__] gives them.
    [links] is a Python dictionary from link names to URLs. *)

Record Project := {
  id : str;
  title : str;
  short_description : str;
  long_description : str;
  categories : list str;
  banner_image : str;
  banner_local_path : str;
  technologies : list str;
  features : list str;
  links : gmap str str;
  screenshots : list str;
  screenshots_local_paths : list str;
  show_logo : bool;
  logo_url : str;
  logo_position : str;
  show_border : bool;
  border_style : str;
  theme_color : str;
  screenshot_layout : str;
  screenshot_size : Z
}.

(** [Project()] *)
Definition Project_init : Project :=
  {| id := [];
     title := [];
     short_description := [];
     long_description := [];
     categories := [];
     banner_image := [];
     banner_local_path := [];
     technologies := [];
     features := [];
     links := ∅;
     screenshots := [];
     screenshots_local_paths := [];
     show_logo := true;
     logo_url := [];
     logo_position := u "center";
     show_border := false;
     border_style := u "rounded";
     theme_color := u "#000000";
     screenshot_layout := u "horizontal";
     screenshot_size := 200%Z |}.

(** Assignment to one attribute: [p.f = v]. *)

Definition set_id (v : str) (p : Project) : Project :=
  {| id := v; title := title p; short_description := short_description p;
     long_description := long_description p; categories := categories p;
     banner_image := banner_image p; banner_local_path := banner_local_path p;
     technologies := technologies p; features := features p; links := links p;
     screenshots := screenshots p; screenshots_local_paths := screenshots_local_paths p;
     show_logo := show_logo p; logo_url := logo_url p; logo_position := logo_position p;
     show_border := show_border p; border_style := border_style p;
     theme_color := theme_color p; screenshot_layout := screenshot_layout p;
     screenshot_size := screenshot_size p |}.

Definition set_title (v : str) (p : Project) : Project :=
  {| id := id p; title := v; short_description := short_description p;
     long_description := long_description p; categories := categories p;
     banner_image := banner_image p; banner_local_path := banner_local_path p;
     technologies := technologies p; features := features p; links := links p;
     screenshots := screenshots p; screenshots_local_paths := screenshots_local_paths p;
     show_logo := show_logo p; logo_url := logo_url p; logo_position := logo_position p;
     show_border := show_border p; border_style := border_style p;
     theme_color := theme_color p; screenshot_layout := screenshot_layout p;
     screenshot_size := screenshot_size p |}.

Definition set_short_description (v : str) (p : Project) : Project :=
  {| id := id p; title := title p; short_description := v;
     long_description := long_description p; categories := categories p;
     banner_image := banner_image p; banner_local_path := banner_local_path p;
     technologies := technologies p; features := features p; links := links p;
     screenshots := screenshots p; screenshots_local_paths := screenshots_local_paths p;
     show_logo := show_logo p; logo_url := logo_url p; logo_position := logo_position p;
     show_border := show_border p; border_style := border_style p;
     theme_color := theme_color p; screenshot_layout := screenshot_layout p;
     screenshot_size := screenshot_size p |}.

Definition set_long_description (v : str) (p : Project) : Project :=
  {| id := id p; title := title p; short_description := short_description p;
     long_description := v; categories := categories p; banner_image := banner_image p;
     banner_local_path := banner_local_path p; technologies := technologies p;
     features := features p; links := links p; screenshots := screenshots p;
     screenshots_local_paths := screenshots_local_paths p; show_logo := show_logo p;
     logo_url := logo_url p; logo_position := logo_position p;
     show_border := show_border p; border_style := border_style p;
     theme_color := theme_color p; screenshot_layout := screenshot_layout p;
     screenshot_size := screenshot_size p |}.

Definition set_categories (v : list str) (p : Project) : Project :=
  {| id := id p; title := title p; short_description := short_description p;
     long_description := long_description p; categories := v;
     banner_image := banner_image p; banner_local_path := banner_local_path p;
     technologies := technologies p; features := features p; links := links p;
     screenshots := screenshots p; screenshots_local_paths := screenshots_local_paths p;
     show_logo := show_logo p; logo_url := logo_url p; logo_position := logo_position p;
     show_border := show_border p; border_style := border_style p;
     theme_color := theme_color p; screenshot_layout := screenshot_layout p;
     screenshot_size := screenshot_size p |}.

Definition set_banner_image (v : str) (p : Project) : Project :=
  {| id := id p; title := title p; short_description := short_description p;
     long_description := long_description p; categories := categories p;
     banner_image := v; banner_local_path := banner_local_path p;
     technologies := technologies p; features := features p; links := links p;
     screenshots := screenshots p; screenshots_local_paths := screenshots_local_paths p;
     show_logo := show_logo p; logo_url := logo_url p; logo_position := logo_position p;
     show_border := show_border p; border_style := border_style p;
     theme_color := theme_color p; screenshot_layout := screenshot_layout p;
     screenshot_size := screenshot_size p |}.

Definition set_technologies (v : list str) (p : Project) : Project :=
  {| id := id p; title := title p; short_description := short_description p;
     long_description := long_description p; categories := categories p;
     banner_image := banner_image p; banner_local_path := banner_local_path p;
     technologies := v; features := features p; links := links p;
     screenshots := screenshots p; screenshots_local_paths := screenshots_local_paths p;
     show_logo := show_logo p; logo_url := logo_url p; logo_position := logo_position p;
     show_border := show_border p; border_style := border_style p;
     theme_color := theme_color p; screenshot_layout := screenshot_layout p;
     screenshot_size := screenshot_size p |}.

Definition set_features (v : list str) (p : Project) : Project :=
  {| id := id p; title := title p; short_description := short_description p;
     long_description := long_description p; categories := categories p;
     banner_image := banner_image p; banner_local_path := banner_local_path p;
     technologies := technologies p; features := v; links := links p;
     screenshots := screenshots p; screenshots_local_paths := screenshots_local_paths p;
     show_logo := show_logo p; logo_url := logo_url p; logo_position := logo_position p;
     show_border := show_border p; border_style := border_style p;
     theme_color := theme_color p; screenshot_layout := screenshot_layout p;
     screenshot_size := screenshot_size p |}.

Definition set_links (v : gmap str str) (p : Project) : Project :=
  {| id := id p; title := title p; short_description := short_description p;
     long_description := long_description p; categories := categories p;
     banner_image := banner_image p; banner_local_path := banner_local_path p;
     technologies := technologies p; features := features p; links := v;
     screenshots := screenshots p; screenshots_local_paths := screenshots_local_paths p;
     show_logo := show_logo p; logo_url := logo_url p; logo_position := logo_position p;
     show_border := show_border p; border_style := border_style p;
     theme_color := theme_color p; screenshot_layout := screenshot_layout p;
     screenshot_size := screenshot_size p |}.

Definition set_screenshots (v : list str) (p : Project) : Project :=
  {| id := id p; title := title p; short_description := short_description p;
     long_description := long_description p; categories := categories p;
     banner_image := banner_image p; banner_local_path := banner_local_path p;
     technologies := technologies p; features := features p; links := links p;
     screenshots := v; screenshots_local_paths := screenshots_local_paths p;
     show_logo := show_logo p; logo_url := logo_url p; logo_position := logo_position p;
     show_border := show_border p; border_style := border_style p;
     theme_color := theme_color p; screenshot_layout := screenshot_layout p;
     screenshot_size := screenshot_size p |}.

Definition set_screenshots_local_paths (v : list str) (p : Project) : Project :=
  {| id := id p; title := title p; short_description := short_description p;
     long_description := long_description p; categories := categories p;
     banner_image := banner_image p; banner_local_path := banner_local_path p;
     technologies := technologies p; features := features p; links := links p;
     screenshots := screenshots p; screenshots_local_paths := v;
     show_logo := show_logo p; logo_url := logo_url p; logo_position := logo_position p;
     show_border := show_border p; border_style := border_style p;
     theme_color := theme_color p; screenshot_layout := screenshot_layout p;
     screenshot_size := screenshot_size p |}.

Definition set_show_logo (v : bool) (p : Project) : Project :=
  {| id := id p; title := title p; short_description := short_description p;
     long_description := long_description p; categories := categories p;
     banner_image := banner_image p; banner_local_path := banner_local_path p;
     technologies := technologies p; features := features p; links := links p;
     screenshots := screenshots p; screenshots_local_paths := screenshots_local_paths p;
     show_logo := v; logo_url := logo_url p; logo_position := logo_position p;
     show_border := show_border p; border_style := border_style p;
     theme_color := theme_color p; screenshot_layout := screenshot_layout p;
     screenshot_size := screenshot_size p |}.

Definition set_logo_url (v : str) (p : Project) : Project :=
  {| id := id p; title := title p; short_description := short_description p;
     long_description := long_description p; categories := categories p;
     banner_image := banner_image p; banner_local_path := banner_local_path p;
     technologies := technologies p; features := features p; links := links p;
     screenshots := screenshots p; screenshots_local_paths := screenshots_local_paths p;
     show_logo := show_logo p; logo_url := v; logo_position := logo_position p;
     show_border := show_border p; border_style := border_style p;
     theme_color := theme_color p; screenshot_layout := screenshot_layout p;
     screenshot_size := screenshot_size p |}.

Definition set_show_border (v : bool) (p : Project) : Project :=
  {| id := id p; title := title p; short_description := short_description p;
     long_description := long_description p; categories := categories p;
     banner_image := banner_image p; banner_local_path := banner_local_path p;
     technologies := technologies p; features := features p; links := links p;
     screenshots := screenshots p; screenshots_local_paths := screenshots_local_paths p;
     show_logo := show_logo p; logo_url := logo_url p; logo_position := logo_position p;
     show_border := v; border_style := border_style p; theme_color := theme_color p;
     screenshot_layout := screenshot_layout p; screenshot_size := screenshot_size p |}.

Definition set_border_style (v : str) (p : Project) : Project :=
  {| id := id p; title := title p; short_description := short_description p;
     long_description := long_description p; categories := categories p;
     banner_image := banner_image p; banner_local_path := banner_local_path p;
     technologies := technologies p; features := features p; links := links p;
     screenshots := screenshots p; screenshots_local_paths := screenshots_local_paths p;
     show_logo := show_logo p; logo_url := logo_url p; logo_position := logo_position p;
     show_border := show_border p; border_style := v; theme_color := theme_color p;
     screenshot_layout := screenshot_layout p; screenshot_size := screenshot_size p |}.

Definition set_theme_color (v : str) (p : Project) : Project :=
  {| id := id p; title := title p; short_description := short_description p;
     long_description := long_description p; categories := categories p;
     banner_image := banner_image p; banner_local_path := banner_local_path p;
     technologies := technologies p; features := features p; links := links p;
     screenshots := screenshots p; screenshots_local_paths := screenshots_local_paths p;
     show_logo := show_logo p; logo_url := logo_url p; logo_position := logo_position p;
     show_border := show_border p; border_style := border_style p; theme_color := v;
     screenshot_layout := screenshot_layout p; screenshot_size := screenshot_size p |}.

Definition set_screenshot_layout (v : str) (p : Project) : Project :=
  {| id := id p; title := title p; short_description := short_description p;
     long_description := long_description p; categories := categories p;
     banner_image := banner_image p; banner_local_path := banner_local_path p;
     technologies := technologies p; features := features p; links := links p;
     screenshots := screenshots p; screenshots_local_paths := screenshots_local_paths p;
     show_logo := show_logo p; logo_url := logo_url p; logo_position := logo_position p;
     show_border := show_border p; border_style := border_style p;
     theme_color := theme_color p; screenshot_layout := v;
     screenshot_size := screenshot_size p |}.

Definition set_screenshot_size (v : Z) (p : Project) : Project :=
  {| id := id p; title := title p; short_description := short_description p;
     long_description := long_description p; categories := categories p;
     banner_image := banner_image p; banner_local_path := banner_local_path p;
     technologies := technologies p; features := features p; links := links p;
     screenshots := screenshots p; screenshots_local_paths := screenshots_local_paths p;
     show_logo := show_logo p; logo_url := logo_url p; logo_position := logo_position p;
     show_border := show_border p; border_style := border_style p;
     theme_color := theme_color p; screenshot_layout := screenshot_layout p;
     screenshot_size := v |}.

(** ** [os.path]

    The path functions the program calls, and the file system they look
    at.  They belong to the platform; the program is written against
    this interface. *)

Class OsPath := {
  path_exists : str -> bool;          (** [os.path.exists] *)
  isabs : str -> bool;                (** [os.path.isabs] *)
  path_join : str -> str -> str;      (** [os.path.join] of two components *)
  dirname : str -> str;               (** [os.path.dirname] *)
  basename : str -> str;              (** [os.path.basename] *)
  splitext : str -> str * str;        (** [os.path.splitext] *)
  (** joining onto a non-empty last component never gives the empty path *)
  path_join_nonempty : forall a b, b <> [] -> path_join a b <> []
}.

(** [posixpath], over a file system given by the paths that exist. *)
Module Posix.
Definition slash : N := 47.
Definition dot : N := 46.

Definition isabs (p : str) : bool := startswith [slash] p.

Definition endswith_slash (p : str) : bool :=
  match rev p with
  | c :: _ => c =? slash
  | [] => false
  end.

Definition join (a b : str) : str :=
  if startswith [slash] b then b
  else if match a with [] => true | _ => endswith_slash a end then a ++ b
  else a ++ [slash] ++ b.

(** The text after the last slash, and the text up to and including it. *)
Fixpoint tail_name (p : str) : str :=
  match p with
  | [] => []
  | c :: p' => if existsb (N.eqb slash) p then tail_name p' else p
  end.

Definition basename (p : str) : str := tail_name p.

Definition head_dir (p : str) : str := take (length p - length (tail_name p)) p.

Fixpoint rstrip_slash_rev (r : str) : str :=
  match r with
  | c :: r' => if c =? slash then rstrip_slash_rev r' else r
  | [] => []
  end.

Definition dirname (p : str) : str :=
  let head := head_dir p in
  if forallb (N.eqb slash) head then head else rev (rstrip_slash_rev (rev head)).

(** [splitext] of a file name without slashes: the extension starts at
    the last dot, unless only dots come before it. *)
Fixpoint ext_of_name (seen_other : bool) (name : str) : option str :=
  match name with
  | [] => None
  | c :: name' =>
      match ext_of_name (seen_other || negb (c =? dot)) name' with
      | Some e => Some e
      | None => if (c =? dot) && seen_other then Some name else None
      end
  end.

Definition splitext (p : str) : str * str :=
  match ext_of_name false (tail_name p) with
  | Some e => (take (length p - length e) p, e)
  | None => (p, [])
  end.

Lemma join_nonempty a b : b <> [] -> join a b <> [].
Proof.
  intros Hb. unfold join.
  destruct (startswith [slash] b); [exact Hb|].
  destruct a as [|x a]; [exact Hb|].
  destruct (endswith_slash (x :: a)); discriminate.
Qed.

Definition os_path (fs : str -> bool) : OsPath :=
  Build_OsPath fs isabs join dirname basename splitext join_nonempty.
End Posix.

(** ** The encoder *)

(** [s or d] on strings, and the truth value of a string. *)
Definition or_str (s d : str) : str :=
  match s with
  | [] => d
  | _ => s
  end.

Definition truthy (s : str) : bool :=
  match s with
  | [] => false
  | _ => true
  end.

(** [d.get(k)] followed by a truth test: the value when the key is
    present with a non-empty value. *)
Definition get_truthy (d : gmap str str) (k : str) : option str :=
  match d !! k with
  | Some v => if truthy v then Some v else None
  | None => None
  end.

(** [enumerate(l, start)] *)
Fixpoint enumerate {A} (start : nat) (l : list A) : list (nat * A) :=
  match l with
  | [] => []
  | a :: l' => (start, a) :: enumerate (S start) l'
  end.

(** [range(start, stop, step)] for a positive step: at most [stop]
    values lie below [stop]. *)
Fixpoint range_go (fuel start stop step : nat) : list nat :=
  match fuel with
  | O => []
  | S f => if Nat.ltb start stop then start :: range_go f (start + step) stop step else []
  end.

Definition range (start stop step : nat) : list nat := range_go stop start stop step.

Definition str_of_nat (n : nat) : str := str_of_N (N.of_nat n).

(** The slug of a title: the expression
    [re.sub(r'[^a-z0-9\-]', '', title.lower().replace(' ', '-'))], which
    the decoder uses for [id] and the table of contents for anchors. *)
Definition slug_re : regex := Atom (NoneOf [rg "a" "z"; rg "0" "9"; ch "-"]).

Definition slug {U : Unicode} (title : str) : str :=
  re_sub slug_re [] (replace_char 32 45 (lower title)).

Section Encoder.
Context {U : Unicode} {OS : OsPath}.

Definition border_css_of (show_border : bool) (border_style : str) : str :=
  if show_border then
    if str_eqb border_style (u "rounded") then
      u "border: 1px solid #e5e7eb; border-radius: 12px; padding: 24px; margin: 16px 0;"
    else if str_eqb border_style (u "square") then
      u "border: 1px solid #e5e7eb; padding: 24px; margin: 16px 0;"
    else if str_eqb border_style (u "dashed") then
      u "border: 2px dashed #e5e7eb; border-radius: 8px; padding: 24px; margin: 16px 0;"
    else []
  else [].

(** The path written for an image: its slot under [images/{id}/] when
    the file is there at encoding time, the reference itself otherwise. *)
Definition image_path (p : Project) (slot ref : str) : str :=
  if path_exists ref then u "images/" ++ id p ++ u "/" ++ slot ++ snd (splitext ref)
  else ref.

Definition badge (href img : str) : str :=
  u "<a href='" ++ href ++ u "'><img src='https://img.shields.io/badge/" ++ img ++ u "'></a>".

Definition link_badges (links : gmap str str) (theme_color : str) : list str :=
  (match get_truthy links (u "playStore") with
   | Some v => [badge v (u "Play_Store-414141?style=for-the-badge&logo=google-play&logoColor=white")]
   | None => []
   end) ++
  (match get_truthy links (u "appStore") with
   | Some v => [badge v (u "App_Store-0D96F6?style=for-the-badge&logo=app-store&logoColor=white")]
   | None => []
   end) ++
  (match get_truthy links (u "website") with
   | Some v => [badge v (u "Website-" ++ theme_color ++ u "?style=for-the-badge&logo=safari&logoColor=white")]
   | None => []
   end) ++
  (match get_truthy links (u "github") with
   | Some v => [badge v (u "GitHub-181717?style=for-the-badge&logo=github&logoColor=white")]
   | None => []
   end) ++
  (match get_truthy links (u "apk") with
   | Some v => [badge v (u "APK-3DDC84?style=for-the-badge&logo=android&logoColor=white")]
   | None => []
   end).

(** One screenshot image tag: [images/{id}/{i}{ext}] at the given width. *)
Definition screenshot_src (p : Project) (i : nat) (ss : str) : str :=
  u "images/" ++ id p ++ u "/" ++ str_of_nat i ++ or_str (snd (splitext ss)) (u ".png").

Definition screenshot_img (p : Project) (size : Z) (i : nat) (ss : str) : str :=
  u "<img src='" ++ screenshot_src p i ss ++ u "' width='" ++ str_of_Z size ++ u "'>".

(** The cell [j] of the table row that starts at screenshot [i]. *)
Definition grid_cell (p : Project) (size : Z) (screenshots_list : list (nat * str))
    (i j : nat) : str :=
  match screenshots_list !! (i + j)%nat with
  | Some (idx, ss) => u "    <td align='center'>" ++ screenshot_img p size idx ss ++ u "</td>"
  | None => u "    <td></td>"
  end.

Definition grid_row (p : Project) (size : Z) (screenshots_list : list (nat * str))
    (i : nat) : list str :=
  [u "  <tr>"] ++ List.map (grid_cell p size screenshots_list i) (range 0 2 1) ++ [u "  </tr>"].

Definition grid_rows (p : Project) (size : Z) : list str :=
  let screenshots_list := enumerate 1 (screenshots p) in
  concat (List.map (grid_row p size screenshots_list) (range 0 (length screenshots_list) 2)).

Definition screenshot_lines (p : Project) (layout : str) (size : Z) : list str :=
  if str_eqb layout (u "horizontal") then
    [u "<p>"] ++
    List.map (fun '(i, ss) => u "  " ++ screenshot_img p size i ss) (enumerate 1 (screenshots p)) ++
    [u "</p>"]
  else if str_eqb layout (u "grid") then
    [u "<table align='center'>"] ++ grid_rows p size ++ [u "</table>"]
  else if str_eqb layout (u "vertical") then
    [u "<p>"] ++
    List.map (fun '(i, ss) => u "  " ++ screenshot_img p size i ss ++ u "<br>")
      (enumerate 1 (screenshots p)) ++
    [u "</p>"]
  else [].

(** The sections of the centred block, in the order the program
    appends them. *)
Definition logo_lines (p : Project) : list str :=
  if show_logo p && truthy (logo_url p) then
    [u "<img src='" ++ image_path p (u "logo") (logo_url p) ++ u "' alt='" ++ title p
       ++ u " logo' height='64'>"; []]
  else [].

Definition title_lines (p : Project) : list str :=
  [u "## " ++ or_str (title p) (u "Untitled"); []].

Definition category_lines (p : Project) : list str :=
  match categories p with
  | [] => []
  | _ => [join (u " ") (List.map (fun cat => u "`" ++ cat ++ u "`") (categories p)); []]
  end.

Definition banner_lines (p : Project) : list str :=
  if truthy (banner_image p) then
    [u "<img src='" ++ image_path p (u "banner") (banner_image p) ++ u "' alt='" ++ title p
       ++ u "' width='100%'>"; []]
  else [].

Definition description_lines (p : Project) : list str :=
  (if truthy (short_description p) then [u "**" ++ short_description p ++ u "**"; []] else []) ++
  (if truthy (long_description p) then [u "<p>" ++ long_description p ++ u "</p>"; []] else []).

Definition links_lines (p : Project) : list str :=
  let theme_color := lstrip_char 35 (or_str (theme_color p) (u "#000000")) in
  match link_badges (links p) theme_color with
  | [] => []
  | badges => [u "<p>"] ++ List.map (fun b => u "  " ++ b) badges ++ [u "</p>"; []]
  end.

Definition tech_lines (p : Project) : list str :=
  match technologies p with
  | [] => []
  | _ =>
      [u "### Tech Stack"; []; u "<p>"] ++
      List.map (fun tech => u "  <code>" ++ tech ++ u "</code>") (technologies p) ++
      [u "</p>"; []]
  end.

Definition features_lines (p : Project) : list str :=
  match features p with
  | [] => []
  | _ => [u "### Features"; []] ++ List.map (fun f => u "- " ++ f) (features p) ++ [[]]
  end.

Definition screenshots_section (p : Project) : list str :=
  let screenshot_layout := or_str (screenshot_layout p) (u "horizontal") in
  let screenshot_size := if (screenshot_size p =? 0)%Z then 200%Z else screenshot_size p in
  match screenshots p with
  | [] => []
  | _ => [u "### Screenshots"; []] ++ screenshot_lines p screenshot_layout screenshot_size ++ [[]]
  end.

(** The lines between the opening and the closing of the centred block. *)
Definition content_lines (p : Project) : list str :=
  [u "<div align='center'>"; []] ++
  logo_lines p ++ title_lines p ++ category_lines p ++ banner_lines p ++
  description_lines p ++ links_lines p ++ tech_lines p ++ features_lines p ++
  screenshots_section p ++
  [u "</div>"; []].

Definition project_lines (p : Project) : list str :=
  let border_css := border_css_of (show_border p) (or_str (border_style p) (u "rounded")) in
  if show_border p && truthy border_css then
    [u "<div style='" ++ border_css ++ u "'>"; []] ++ content_lines p ++ [u "</div>"]
  else content_lines p.

(** [_generate_project_md(p)] *)
Definition _generate_project_md (p : Project) : str := join nl (project_lines p).
End Encoder.

(** The part of the application object the codec reads and writes. *)
Record App := {
  projects : list Project;
  file_path : str
}.

Section FullDocument.
Context {U : Unicode} {OS : OsPath}.

(** [p.category_display]; 8212 is the dash shown when there is no category. *)
Definition category_display (p : Project) : str :=
  match categories p with
  | [] => [8212]
  | _ => join (u ", ") (categories p)
  end.

Definition header_lines : list str :=
  [u "<div align='center'>"; [];
   u "<img src='images/icon-dark.png' alt='Hexagone' height='120'>"; [];
   u "# Hexagone Projects"; [];
   u "### About this Repository"; [];
   u "This repository contains a collection of projects we have built across industries including e-commerce, fintech, travel, education, healthcare, IoT, and lifestyle."; [];
   u "<p>";
   u "  <a href='https://theHexagone.com'><img src='https://img.shields.io/badge/theHexagone.com-000000?style=for-the-badge&logo=safari&logoColor=white'></a>";
   u "</p>"; [];
   u "</div>"; [];
   u "---"; []].

Definition toc_entry (ip : nat * Project) : str :=
  let '(i, p) := ip in
  let title := or_str (title p) (u "Project " ++ str_of_nat i) in
  let anchor := slug title in
  let cat := category_display p in
  u "| " ++ str_of_nat i ++ u " | [" ++ title ++ u "](#" ++ anchor ++ u ") | " ++ cat ++ u " |".

(** The table of contents; 128203 is the clipboard sign of its heading. *)
Definition toc_lines (ps : list Project) : list str :=
  match ps with
  | [] => []
  | _ =>
      [u "<div align='center'>"; [];
       u "## " ++ [128203] ++ u " Contents"; [];
       u "| # | Project | Categories |";
       u "|:---:|:----------|:------------|"] ++
      List.map toc_entry (enumerate 1 ps) ++
      [[]; u "</div>"; []; u "---"; []]
  end.

Definition project_blocks (ps : list Project) : list str :=
  concat (List.map (fun '(i, p) =>
                      (match i with
                       | O => []
                       | S _ => [[]; u "<hr>"; []]
                       end) ++ [_generate_project_md p])
                   (enumerate 0 ps)).

(** The footer; [today] is the date [datetime.now()] in the format [%B %d, %Y]. *)
Definition footer_lines (today : str) : list str :=
  [[]; u "---"; []; u "<div align='center'>"; [];
   u "<sub>Last updated: " ++ today ++ u "</sub>"; [];
   u "</div>"].

(** [_generate_full_md()] *)
Definition _generate_full_md (self : App) (today : str) : str :=
  join nl (header_lines ++ toc_lines (projects self) ++ project_blocks (projects self)
           ++ footer_lines today).
End FullDocument.

(** ** The decoder *)

(** The patterns of [_parse_md], in the order it uses them. *)
Definition sep_re : regex := Alt (Str (u "<hr>")) (Str (nl ++ u "---" ++ nl)).

Definition title_re : regex := (Str (u "##") ⋅ Plus Space ⋅ Grp 1 (Plus Dot))%re.

Definition category_re : regex :=
  (Str (u "`") ⋅ Grp 1 (Plus (NoneOf [ch "`"])) ⋅ Str (u "`"))%re.

Definition short_re : regex :=
  (Str (u "**") ⋅ Grp 1 (Plus (NoneOf [ch "*"])) ⋅ Str (u "**"))%re.

Definition long_re : regex :=
  (Str (u "<p>") ⋅ Grp 1 (Plus (NoneOf [ch "<"])) ⋅ Str (u "</p>"))%re.

(** [###\s*Tech Stack.*?<p>(.*?)</p>] under [re.DOTALL] *)
Definition tech_re : regex :=
  (Str (u "###") ⋅ Star Space ⋅ Str (u "Tech Stack") ⋅ Lazy DotAll ⋅ Str (u "<p>")
   ⋅ Grp 1 (Lazy DotAll) ⋅ Str (u "</p>"))%re.

Definition code_re : regex :=
  (Str (u "<code>") ⋅ Grp 1 (Plus (NoneOf [ch "<"])) ⋅ Str (u "</code>"))%re.

(** [###\s*Features(.*?)(?=###|$)] under [re.DOTALL] *)
Definition features_re : regex :=
  (Str (u "###") ⋅ Star Space ⋅ Str (u "Features") ⋅ Grp 1 (Lazy DotAll)
   ⋅ Ahead (Alt (Str (u "###")) Eos))%re.

Definition bullet_re : regex := (Str (u "-") ⋅ Plus Space ⋅ Grp 1 (Plus Dot))%re.

(** [href='(prefix[^']+)'], the quotes being double quotes *)
Definition href_re (prefix : str) : regex :=
  (Str (u "href='") ⋅ Grp 1 (Str prefix ⋅ Plus (NoneOf [ch "'"])) ⋅ Str (u "'"))%re.

(** [href='([^']+)'[^>]*>\s*<img[^>]*label] *)
Definition badge_re (label : str) : regex :=
  (Str (u "href='") ⋅ Grp 1 (Plus (NoneOf [ch "'"])) ⋅ Str (u "'") ⋅ Star (NoneOf [ch ">"])
   ⋅ Str (u ">") ⋅ Star Space ⋅ Str (u "<img") ⋅ Star (NoneOf [ch ">"]) ⋅ Str label)%re.

(** [images/[^/]+/(\d+)\.(png|jpg|jpeg|webp|gif)] *)
Definition screenshot_re : regex :=
  (Str (u "images/") ⋅ Plus (NoneOf [ch "/"]) ⋅ Str (u "/") ⋅ Grp 1 (Plus Digit) ⋅ Str (u ".")
   ⋅ Grp 2 (Alt (Str (u "png")) (Alt (Str (u "jpg")) (Alt (Str (u "jpeg"))
                (Alt (Str (u "webp")) (Str (u "gif")))))))%re.

(** [<img src='([^']+)'[^>]*alt='[^']*'[^>]*width='100%'] *)
Definition banner_re : regex :=
  (Str (u "<img src='") ⋅ Grp 1 (Plus (NoneOf [ch "'"])) ⋅ Str (u "'") ⋅ Star (NoneOf [ch ">"])
   ⋅ Str (u "alt='") ⋅ Star (NoneOf [ch "'"]) ⋅ Str (u "'") ⋅ Star (NoneOf [ch ">"])
   ⋅ Str (u "width='100%'"))%re.

(** [<img src='([^']+)'[^>]*alt='[^']*logo'[^>]*height='64'] *)
Definition logo_re : regex :=
  (Str (u "<img src='") ⋅ Grp 1 (Plus (NoneOf [ch "'"])) ⋅ Str (u "'") ⋅ Star (NoneOf [ch ">"])
   ⋅ Str (u "alt='") ⋅ Star (NoneOf [ch "'"]) ⋅ Str (u "logo'") ⋅ Star (NoneOf [ch ">"])
   ⋅ Str (u "height='64'"))%re.

Definition size_re : regex := (Str (u "width='") ⋅ Grp 1 (Plus Digit) ⋅ Str (u "'"))%re.

Definition known_categories : list str :=
  [u "Mobile App"; u "Website"; u "IoT"; u "Game"; u "AI/ML"; u "3D/AR/VR"; u "Other"].

(** [c in l] on a list of strings. *)
Definition str_in (c : str) (l : list str) : bool := existsb (str_eqb c) l.

Definition matched (mt : option Match) : bool :=
  match mt with
  | Some _ => true
  | None => false
  end.

Section Decoder.
Context {U : Unicode}.

(** The body of the loop of [_parse_md] for one part of the document,
    from [p = Project()] to the test of [p.title]: each step takes the
    record built so far. *)
Definition parse_title (part : str) (p : Project) : exc Project :=
  let mt := re_search title_re part in
  if matched mt then
    t ← group mt 1;
    let p := set_title (strip t) p in
    Ok (set_id (slug (title p)) p)
  else Ok p.

Definition parse_categories (part : str) (p : Project) : exc Project :=
  let category_matches := re_findall1 category_re part in
  Ok (set_categories (List.filter (fun c => str_in c known_categories) category_matches) p).

Definition parse_short (part : str) (p : Project) : exc Project :=
  let mt := re_search short_re part in
  if matched mt then t ← group mt 1; Ok (set_short_description (strip t) p)
  else Ok p.

Definition parse_long (part : str) (p : Project) : exc Project :=
  let mt := re_search long_re part in
  if matched mt then
    g0 ← group mt 0;
    if negb (contains (u "<a href") g0) then
      g0' ← group mt 0;
      if negb (contains (u "<img") g0') then
        t ← group mt 1; Ok (set_long_description (strip t) p)
      else Ok p
    else Ok p
  else Ok p.

Definition parse_technologies (part : str) (p : Project) : exc Project :=
  let tech_section := re_search tech_re part in
  if matched tech_section then
    t ← group tech_section 1; Ok (set_technologies (re_findall1 code_re t) p)
  else Ok p.

Definition parse_features (part : str) (p : Project) : exc Project :=
  let features_section := re_search features_re part in
  if matched features_section then
    t ← group features_section 1; Ok (set_features (re_findall1 bullet_re t) p)
  else Ok p.

(** [if gate in part: m = re.search(...); if m: p.links[key] = m.group(1)] *)
Definition parse_store_link (gate prefix key : str) (part : str) (p : Project) : exc Project :=
  if contains gate part then
    let mt := re_search (href_re prefix) part in
    if matched mt then t ← group mt 1; Ok (set_links (<[key := t]> (links p)) p)
    else Ok p
  else Ok p.

Definition parse_badge_link (label key : str) (part : str) (p : Project) : exc Project :=
  let mt := re_search (badge_re label) part in
  if matched mt then t ← group mt 1; Ok (set_links (<[key := t]> (links p)) p)
  else Ok p.

Definition parse_links (part : str) (p : Project) : exc Project :=
  p ← parse_store_link (u "play.google.com") (u "https://play.google.com") (u "playStore") part p;
  p ← parse_store_link (u "apps.apple.com") (u "https://apps.apple.com") (u "appStore") part p;
  p ← parse_store_link (u "github.com") (u "https://github.com") (u "github") part p;
  p ← parse_badge_link (u "Website") (u "website") part p;
  parse_badge_link (u "APK") (u "apk") part p.

Definition screenshot_name (ne : str * str) : str :=
  u "screenshot_" ++ fst ne ++ u "." ++ snd ne.

Definition parse_screenshots (part : str) (p : Project) : exc Project :=
  let ss_matches := re_findall2 screenshot_re part in
  Ok (fold_left (fun p ne =>
                   set_screenshots_local_paths (screenshots_local_paths p ++ [screenshot_name ne])
                     (set_screenshots (screenshots p ++ [screenshot_name ne]) p))
                ss_matches p).

Definition parse_banner (part : str) (p : Project) : exc Project :=
  let banner_match := re_search banner_re part in
  if matched banner_match then t ← group banner_match 1; Ok (set_banner_image t p)
  else Ok p.

Definition parse_logo (part : str) (p : Project) : exc Project :=
  let logo_match := re_search logo_re part in
  if matched logo_match then
    t ← group logo_match 1; Ok (set_show_logo true (set_logo_url t p))
  else Ok p.

Definition parse_border (part : str) (p : Project) : exc Project :=
  if contains (u "border: 1px solid") part || contains (u "border: 2px dashed") part then
    let p := set_show_border true p in
    if contains (u "border-radius: 12px") part then Ok (set_border_style (u "rounded") p)
    else if contains (u "dashed") part then Ok (set_border_style (u "dashed") p)
    else Ok (set_border_style (u "square") p)
  else Ok p.

Definition parse_layout (part : str) (p : Project) : exc Project :=
  if contains (u "<table") part then Ok (set_screenshot_layout (u "grid") p)
  else if contains (u "align='center'") part && contains (u "<br>") part then
    Ok (set_screenshot_layout (u "vertical") p)
  else Ok (set_screenshot_layout (u "horizontal") p).

Definition parse_size (part : str) (p : Project) : exc Project :=
  let size_match := re_search size_re part in
  if matched size_match then
    try_except (t ← group size_match 1; n ← int t; Ok (set_screenshot_size n p)) p
  else Ok p.

Definition parse_part (part : str) : exc Project :=
  p ← parse_title part Project_init;
  p ← parse_categories part p;
  p ← parse_short part p;
  p ← parse_long part p;
  p ← parse_technologies part p;
  p ← parse_features part p;
  p ← parse_links part p;
  p ← parse_screenshots part p;
  p ← parse_banner part p;
  p ← parse_logo part p;
  p ← parse_border part p;
  p ← parse_layout part p;
  parse_size part p.

(** [for part in parts: ...], with the list [self.projects] built so far. *)
Fixpoint parse_loop (parts : list str) (acc : list Project) : exc (list Project) :=
  match parts with
  | [] => Ok acc
  | part :: rest =>
      if negb (contains (u "## ") part) then parse_loop rest acc
      else
        p ← parse_part part;
        parse_loop rest (if truthy (title p) then acc ++ [p] else acc)
  end.

(** [_parse_md(content)]: the new state of the application.  The
    refresh of the list widget that ends it is not part of the codec. *)
Definition _parse_md (self : App) (content : str) : exc App :=
  let parts := re_split sep_re content in
  ps ← parse_loop parts [];
  Ok {| projects := ps; file_path := file_path self |}.
End Decoder.

(** ** The image resolver *)

(** [(\d+)\.\w+$] *)
Definition numeric_re : regex := (Grp 1 (Plus Digit) ⋅ Str (u ".") ⋅ Plus Word ⋅ Eos)%re.

Definition image_exts : list str := [u ".jpg"; u ".jpeg"; u ".png"; u ".webp"; u ".gif"].

Section Resolver.
Context {U : Unicode} {OS : OsPath}.

(** The directory of the program file, the base when no document is open. *)
Variable script_dir : str.

Definition base_dir (self : App) : str :=
  if truthy (file_path self) then dirname (file_path self) else script_dir.

Definition images_dir (self : App) (p : Project) : str :=
  if truthy (id p) then path_join (path_join (base_dir self) (u "images")) (id p) else [].

(** [for ext in [...]: img_path = join(images_dir, num + ext); if exists: return] *)
Fixpoint first_numbered (dir num : str) (exts : list str) : option str :=
  match exts with
  | [] => None
  | ext :: rest =>
      let img_path := path_join dir (num ++ ext) in
      if path_exists img_path then Some img_path else first_numbered dir num rest
  end.

(** [resolve_image_path(path)], the closure of
    [_md_to_full_html_with_images(self, p)]. *)
Definition resolve_image_path (self : App) (p : Project) (path : str) : exc str :=
  if negb (truthy path) then Ok []
  else if isabs path && path_exists path then Ok path
  else if truthy (file_path self) && path_exists (path_join (dirname (file_path self)) path)
  then Ok (path_join (dirname (file_path self)) path)
  else if truthy (images_dir self p) then
    let basename := basename path in
    let img_path := path_join (images_dir self p) basename in
    if path_exists img_path then Ok img_path
    else
      let num_match := re_search numeric_re basename in
      if matched num_match then
        num ← group num_match 1;
        match first_numbered (images_dir self p) num image_exts with
        | Some img_path => Ok img_path
        | None => Ok []
        end
      else Ok []
  else Ok [].

(** The first path of a list that exists, the empty result if none does. *)
Definition first_existing (l : list str) : str :=
  match List.filter path_exists l with
  | x :: _ => x
  | [] => []
  end.

(** The numeric token at the end of a base name. *)
Definition numeric_token (name : str) : option str :=
  match re_search numeric_re name with
  | Some mt => Some (group_or_empty 1 (m_groups mt))
  | None => None
  end.

(** The candidates in the order of the specification's resolution
    algorithm, for a reference, a base directory [D] and a project id. *)
Definition spec_candidates (D pid ref : str) : list str :=
  let folder := path_join (path_join D (u "images")) pid in
  (if isabs ref then [ref] else []) ++
  [path_join D ref] ++
  [path_join folder (basename ref)] ++
  match numeric_token (basename ref) with
  | Some num => List.map (fun ext => path_join folder (num ++ ext)) image_exts
  | None => []
  end.

(** The candidates the program tries: those of the specification, the
    second only when a document is open and the folder ones only when
    the project has an id. *)
Definition code_candidates (self : App) (p : Project) (ref : str) : list str :=
  (if isabs ref then [ref] else []) ++
  (if truthy (file_path self) then [path_join (dirname (file_path self)) ref] else []) ++
  (if truthy (id p) then
     [path_join (images_dir self p) (basename ref)] ++
     match numeric_token (basename ref) with
     | Some num => List.map (fun ext => path_join (images_dir self p) (num ++ ext)) image_exts
     | None => []
     end
   else []).
End Resolver.

(** ** The editor

    The widgets of the window that hold the data of a project, as the
    program reads and writes them: an entry or a string variable holds
    a text, a check box a truth value, a list box its rows, a label
    its text.  What a widget holds is what was last put into it. *)

Record Form := {
  id_entry : str;
  title_entry : str;
  (** the dictionary of the check boxes, in the order of its keys *)
  category_vars : list (str * bool);
  short_desc_entry : str;
  long_desc_text : str;
  tech_var : str;
  tech_listbox : list str;
  features_entry : str;
  features_listbox : list str;
  link_playstore : str;
  link_appstore : str;
  link_website : str;
  link_github : str;
  link_apk : str;
  banner_entry : str;
  banner_preview_label : str;
  screenshots_listbox : list str;
  ss_count_label : str;
  show_logo_var : bool;
  logo_url_entry : str;
  logo_position_var : str;
  show_border_var : bool;
  border_style_var : str;
  screenshot_layout_var : str;
  screenshot_size_var : str;
  theme_color_entry : str
}.

(** The names of the check boxes of [_build_basic_tab]. *)
Definition category_names : list str :=
  [u "Mobile App"; u "Website"; u "IoT"; u "Game"; u "AI/ML"; u "3D/AR/VR"; u "Other"].

(** The widgets as the constructor of the window builds them. *)
Definition Form_init : Form :=
  {| id_entry := [];
     title_entry := [];
     category_vars := List.map (fun cat => (cat, false)) category_names;
     short_desc_entry := [];
     long_desc_text := [];
     tech_var := [];
     tech_listbox := [];
     features_entry := [];
     features_listbox := [];
     link_playstore := [];
     link_appstore := [];
     link_website := [];
     link_github := [];
     link_apk := [];
     banner_entry := [];
     banner_preview_label := u "No banner selected";
     screenshots_listbox := [];
     ss_count_label := u "0 screenshots";
     show_logo_var := true;
     logo_url_entry := [];
     logo_position_var := u "center";
     show_border_var := false;
     border_style_var := u "rounded";
     screenshot_layout_var := u "horizontal";
     screenshot_size_var := u "200";
     theme_color_entry := u "#000000" |}.

(** [text.get('1.0', tk.END)]: a text box gives its text followed by
    the newline that ends it. *)
Definition text_get (s : str) : str := s ++ nl.

(** The assignments to the two attributes of [Project] the codec has
    no use for. *)
Definition set_banner_local_path (v : str) (p : Project) : Project :=
  {| id := id p; title := title p; short_description := short_description p;
     long_description := long_description p; categories := categories p;
     banner_image := banner_image p; banner_local_path := v;
     technologies := technologies p; features := features p; links := links p;
     screenshots := screenshots p; screenshots_local_paths := screenshots_local_paths p;
     show_logo := show_logo p; logo_url := logo_url p; logo_position := logo_position p;
     show_border := show_border p; border_style := border_style p;
     theme_color := theme_color p; screenshot_layout := screenshot_layout p;
     screenshot_size := screenshot_size p |}.

Definition set_logo_position (v : str) (p : Project) : Project :=
  {| id := id p; title := title p; short_description := short_description p;
     long_description := long_description p; categories := categories p;
     banner_image := banner_image p; banner_local_path := banner_local_path p;
     technologies := technologies p; features := features p; links := links p;
     screenshots := screenshots p; screenshots_local_paths := screenshots_local_paths p;
     show_logo := show_logo p; logo_url := logo_url p; logo_position := v;
     show_border := show_border p; border_style := border_style p;
     theme_color := theme_color p; screenshot_layout := screenshot_layout p;
     screenshot_size := screenshot_size p |}.

(** *** The strings of the list of screenshots *)

(** [s.split(sep)] for a separator of one character: [cur] is the
    piece being read. *)
Fixpoint split_char_go (c : N) (cur : str) (s : str) : list str :=
  match s with
  | [] => [cur]
  | x :: s' => if x =? c then cur :: split_char_go c [] s' else split_char_go c (cur ++ [x]) s'
  end.

Definition split_char (c : N) (s : str) : list str := split_char_go c [] s.

(** [s.rstrip(c)] for a one-character set. *)
Definition rstrip_char (c : N) (s : str) : str := rev (lstrip_char c (rev s)).

(** The row of the list box for a screenshot: [f'{filename}  ({path})']. *)
Definition screenshot_item {OS : OsPath} (path : str) : str :=
  basename path ++ u "  (" ++ path ++ u ")".

(** The path read back from a row:
    [item.split('(')[-1].rstrip(')')] when the row holds both
    parentheses, the row itself otherwise. *)
Definition item_path (item : str) : str :=
  if contains (u "(") item && contains (u ")") item
  then rstrip_char 41 (List.last (split_char 40 item) [])
  else item.

(** [f'{count} screenshot{...}'], the text of the counter under the list. *)
Definition screenshot_count_text (count : nat) : str :=
  str_of_nat count ++ u " screenshot" ++ (if Nat.eqb count 1 then [] else u "s").

(** *** [int] on a text typed by the user *)

Section IntText.
Context {U : Unicode}.

(** The white space [int] skips around a number: tab, line feed,
    vertical tab, form feed, carriage return and space, and the white
    space of the Unicode tables above 127. *)
Definition is_int_space (c : N) : bool :=
  if c <? 128 then in_range 9 13 c || (c =? 32) else uspace c.

Fixpoint skip_spaces (s : str) : str :=
  match s with
  | c :: s' => if is_int_space c then skip_spaces s' else s
  | [] => []
  end.

(** The digits of a number: underscores are allowed one at a time
    between two digits; [after_digit] tells that the character before
    was a digit. *)
Fixpoint literal_digits (acc : N) (after_digit : bool) (s : str) : exc N :=
  match s with
  | [] => if after_digit then Ok acc else Raise ValueError
  | c :: s' =>
      if c =? 95 then
        if after_digit then literal_digits acc false s' else Raise ValueError
      else
        match digit_value c with
        | Some d => literal_digits (10 * acc + d) true s'
        | None => Raise ValueError
        end
  end.

(** [int(s)] for a text [s]: white space around the number, a sign,
    decimal digits.  The interpreter's limit on the number of digits
    is not part of the model. *)
Definition int_text (s : str) : exc Z :=
  match rev (skip_spaces (rev (skip_spaces s))) with
  | 43 :: t => n ← literal_digits 0 false t; Ok (Z.of_N n)
  | 45 :: t => n ← literal_digits 0 false t; Ok (- Z.of_N n)%Z
  | t => n ← literal_digits 0 false t; Ok (Z.of_N n)
  end.
End IntText.

(** *** The window *)

(** The state of the window: the document, the index of the project
    being edited, the flag of unsaved changes, the form, and the rows
    and labels that show the list of projects.  The preview pane and
    the highlight of the list are not part of it: the program only
    writes them. *)
Record Editor := {
  doc : App;
  selected_index : option nat;
  has_changes : bool;
  form : Form;
  project_listbox : list str;
  count_label : str;
  status_label : str
}.

(** The window as its constructor leaves it; 8226 is the bullet of the
    status line. *)
Definition Editor_init : Editor :=
  {| doc := {| projects := []; file_path := [] |};
     selected_index := None;
     has_changes := false;
     form := Form_init;
     project_listbox := [];
     count_label := u "0";
     status_label := u "No file loaded " ++ [8226] ++ u " 0 projects" |}.

Definition set_doc (v : App) (e : Editor) : Editor :=
  {| doc := v; selected_index := selected_index e; has_changes := has_changes e;
     form := form e; project_listbox := project_listbox e; count_label := count_label e;
     status_label := status_label e |}.

Definition set_projects (v : list Project) (e : Editor) : Editor :=
  set_doc {| projects := v; file_path := file_path (doc e) |} e.

Definition set_file_path (v : str) (e : Editor) : Editor :=
  set_doc {| projects := projects (doc e); file_path := v |} e.

Definition set_selected_index (v : option nat) (e : Editor) : Editor :=
  {| doc := doc e; selected_index := v; has_changes := has_changes e;
     form := form e; project_listbox := project_listbox e; count_label := count_label e;
     status_label := status_label e |}.

Definition set_has_changes (v : bool) (e : Editor) : Editor :=
  {| doc := doc e; selected_index := selected_index e; has_changes := v;
     form := form e; project_listbox := project_listbox e; count_label := count_label e;
     status_label := status_label e |}.

Definition set_form (v : Form) (e : Editor) : Editor :=
  {| doc := doc e; selected_index := selected_index e; has_changes := has_changes e;
     form := v; project_listbox := project_listbox e; count_label := count_label e;
     status_label := status_label e |}.

(** [d.get(key, '')] *)
Definition dict_get (d : gmap str str) (key : str) : str := default [] (d !! key).

Section Window.
Context {U : Unicode} {OS : OsPath}.

(** [_update_status()] *)
Definition _update_status (e : Editor) : Editor :=
  let name := if truthy (file_path (doc e)) then basename (file_path (doc e)) else u "No file" in
  let mark := if has_changes e then u " " ++ [8226] else [] in
  {| doc := doc e; selected_index := selected_index e; has_changes := has_changes e;
     form := form e; project_listbox := project_listbox e; count_label := count_label e;
     status_label := name ++ mark ++ u " " ++ [8226] ++ u " "
                     ++ str_of_nat (length (projects (doc e))) ++ u " projects" |}.

(** The row of the list for the project number [i], counted from 0. *)
Definition project_row (ip : nat * Project) : str :=
  let '(i, p) := ip in
  let title := or_str (title p) (u "Untitled " ++ str_of_nat (i + 1)) in
  u "  " ++ title.

(** [_refresh_list()] *)
Definition _refresh_list (e : Editor) : Editor :=
  _update_status
    {| doc := doc e; selected_index := selected_index e; has_changes := has_changes e;
       form := form e;
       project_listbox := List.map project_row (enumerate 0 (projects (doc e)));
       count_label := str_of_nat (length (projects (doc e)));
       status_label := status_label e |}.

(** [_load_project(p)]: the form filled from a project. *)
Definition _load_project (p : Project) (f : Form) : Form :=
  let links := links p in
  let rows :=
    List.map (fun '(i, ss) =>
                let local := match screenshots_local_paths p !! i with
                             | Some l => l
                             | None => ss
                             end in
                screenshot_item local)
             (enumerate 0 (screenshots p)) in
  {| id_entry := id p;
     title_entry := title p;
     category_vars :=
       List.map (fun '(cat, _) => (cat, str_in cat (categories p))) (category_vars f);
     short_desc_entry := short_description p;
     long_desc_text := long_description p;
     tech_var := tech_var f;
     tech_listbox := technologies p;
     features_entry := features_entry f;
     features_listbox := features p;
     link_playstore := dict_get links (u "playStore");
     link_appstore := dict_get links (u "appStore");
     link_website := dict_get links (u "website");
     link_github := dict_get links (u "github");
     link_apk := dict_get links (u "apk");
     banner_entry := banner_image p;
     banner_preview_label :=
       if truthy (banner_image p) then
         u "Selected: "
         ++ (if path_exists (banner_image p) then basename (banner_image p) else banner_image p)
       else u "No banner selected";
     screenshots_listbox := rows;
     ss_count_label := screenshot_count_text (length rows);
     show_logo_var := show_logo p;
     logo_url_entry := logo_url p;
     logo_position_var := or_str (logo_position p) (u "left");
     show_border_var := show_border p;
     border_style_var := or_str (border_style p) (u "rounded");
     screenshot_layout_var := or_str (screenshot_layout p) (u "horizontal");
     screenshot_size_var :=
       str_of_Z (if (screenshot_size p =? 0)%Z then 200%Z else screenshot_size p);
     theme_color_entry := or_str (theme_color p) (u "#000000") |}.

(** The dictionary of the five links of the form. *)
Definition form_links (f : Form) : gmap str str :=
  <[u "apk" := strip (link_apk f)]>
    (<[u "github" := strip (link_github f)]>
       (<[u "website" := strip (link_website f)]>
          (<[u "appStore" := strip (link_appstore f)]>
             (<[u "playStore" := strip (link_playstore f)]> ∅)))).

(** [p.screenshots_local_paths.append(path); p.screenshots.append(path)]
    for the path of one row. *)
Definition add_row (p : Project) (item : str) : Project :=
  let path := item_path item in
  set_screenshots (screenshots p ++ [path])
    (set_screenshots_local_paths (screenshots_local_paths p ++ [path]) p).

(** [try: p.screenshot_size = int(...)  except: p.screenshot_size = 200] *)
Definition read_size (f : Form) (p : Project) : exc Project :=
  try_except (n ← int_text (screenshot_size_var f); Ok (set_screenshot_size n p))
    (set_screenshot_size 200%Z p).

(** The assignments of [_save_current] to the project being edited. *)
Definition save_form (f : Form) (p : Project) : exc Project :=
  let p := set_id (strip (id_entry f)) p in
  let p := set_title (strip (title_entry f)) p in
  let p := set_categories (List.map fst (List.filter snd (category_vars f))) p in
  let p := set_short_description (strip (short_desc_entry f)) p in
  let p := set_long_description (strip (text_get (long_desc_text f))) p in
  let p := set_technologies (tech_listbox f) p in
  let p := set_features (features_listbox f) p in
  let p := set_links (form_links f) p in
  let p := set_banner_image (strip (banner_entry f)) p in
  let p := if path_exists (banner_image p) then set_banner_local_path (banner_image p) p
           else p in
  let p := set_screenshots [] p in
  let p := set_screenshots_local_paths [] p in
  let p := fold_left add_row (screenshots_listbox f) p in
  let p := set_show_logo (show_logo_var f) p in
  let p := set_logo_url (strip (logo_url_entry f)) p in
  let p := set_logo_position (logo_position_var f) p in
  let p := set_show_border (show_border_var f) p in
  let p := set_border_style (border_style_var f) p in
  let p := set_screenshot_layout (screenshot_layout_var f) p in
  p ← read_size f p;
  Ok (set_theme_color (strip (theme_color_entry f)) p).

(** [_save_current()] *)
Definition _save_current (e : Editor) : exc Editor :=
  match selected_index e with
  | None => Ok e
  | Some i =>
      if Nat.leb (length (projects (doc e))) i then Ok e
      else
        match projects (doc e) !! i with
        | None => Raise IndexError
        | Some p =>
            p ← save_form (form e) p;
            Ok (_refresh_list (set_projects (<[i := p]> (projects (doc e))) e))
        end
  end.

(** [_get_current_project_data()] *)
Definition _get_current_project_data (f : Form) : exc Project :=
  let p := Project_init in
  let p := set_id (strip (id_entry f)) p in
  let p := set_title (strip (title_entry f)) p in
  let p := set_categories (List.map fst (List.filter snd (category_vars f))) p in
  let p := set_short_description (strip (short_desc_entry f)) p in
  let p := set_long_description (strip (text_get (long_desc_text f))) p in
  let p := set_technologies (tech_listbox f) p in
  let p := set_features (features_listbox f) p in
  let p := set_links (form_links f) p in
  let p := set_banner_image (strip (banner_entry f)) p in
  let p := set_screenshots [] p in
  let p := set_screenshots_local_paths [] p in
  let p := fold_left (fun p item =>
                        let path := item_path item in
                        set_screenshots_local_paths (screenshots_local_paths p ++ [path])
                          (set_screenshots (screenshots p ++ [path]) p))
                     (screenshots_listbox f) p in
  let p := set_show_logo (show_logo_var f) p in
  let p := set_logo_url (strip (logo_url_entry f)) p in
  let p := set_logo_position (logo_position_var f) p in
  let p := set_show_border (show_border_var f) p in
  let p := set_border_style (border_style_var f) p in
  let p := set_screenshot_layout (screenshot_layout_var f) p in
  p ← read_size f p;
  Ok (set_theme_color (strip (theme_color_entry f)) p).
End Window.

Section Commands.
Context {U : Unicode} {OS : OsPath}.

(** [_on_select(event)]; [sel] is the selection of the list when the
    event comes. *)
Definition _on_select (sel : list nat) (e : Editor) : exc Editor :=
  match sel with
  | [] => Ok e
  | i :: _ =>
      e ← _save_current e;
      let e := set_selected_index (Some i) e in
      match projects (doc e) !! i with
      | None => Raise IndexError
      | Some p => Ok (set_form (_load_project p (form e)) e)
      end
  end.

(** [_add_project()] *)
Definition _add_project (e : Editor) : exc Editor :=
  e ← _save_current e;
  let p := Project_init in
  let p := set_title (u "New Project " ++ str_of_nat (length (projects (doc e)) + 1)) p in
  let p := set_id (u "new-project-" ++ str_of_nat (length (projects (doc e)) + 1)) p in
  let e := set_projects (projects (doc e) ++ [p]) e in
  let e := _refresh_list e in
  let e := set_selected_index (Some (length (projects (doc e)) - 1)%nat) e in
  let e := set_form (_load_project p (form e)) e in
  let e := set_has_changes true e in
  Ok (_update_status e).

(** [_delete_project()]; [askyesno] is the answer of the user to a
    dialog, given its title and its message; 39 is the apostrophe
    around the title in the message. *)
Definition _delete_project (askyesno : str -> str -> bool) (e : Editor) : exc Editor :=
  match selected_index e with
  | None => Ok e
  | Some i =>
      match projects (doc e) !! i with
      | None => Raise IndexError
      | Some p =>
          let title := or_str (title p) (u "this project") in
          if negb (askyesno (u "Delete") (u "Delete " ++ [39] ++ title ++ [39] ++ u "?"))
          then Ok e
          else
            let e := set_projects (delete i (projects (doc e))) e in
            let e := set_selected_index None e in
            let e := _refresh_list e in
            let e := match projects (doc e) with
                     | [] => e
                     | p0 :: _ =>
                         set_form (_load_project p0 (form e)) (set_selected_index (Some 0%nat) e)
                     end in
            let e := set_has_changes true e in
            Ok (_update_status e)
      end
  end.

(** [l[i], l[j] = l[j], l[i]] *)
Definition swap (i j : nat) (l : list Project) : exc (list Project) :=
  match l !! j with
  | None => Raise IndexError
  | Some b =>
      match l !! i with
      | None => Raise IndexError
      | Some a => Ok (<[j := a]> (<[i := b]> l))
      end
  end.

(** [_move_up()]; the index read after [_save_current()] is the one
    read before it, which the call leaves as it is. *)
Definition _move_up (e : Editor) : exc Editor :=
  match selected_index e with
  | None => Ok e
  | Some i =>
      if Nat.eqb i 0 then Ok e
      else
        e ← _save_current e;
        ps ← swap i (i - 1) (projects (doc e));
        let e := set_projects ps e in
        let e := set_selected_index (Some (i - 1)%nat) e in
        let e := _refresh_list e in
        Ok (set_has_changes true e)
  end.

(** [_move_down()] *)
Definition _move_down (e : Editor) : exc Editor :=
  match selected_index e with
  | None => Ok e
  | Some i =>
      if Nat.leb (length (projects (doc e)) - 1) i then Ok e
      else
        e ← _save_current e;
        ps ← swap i (i + 1) (projects (doc e));
        let e := set_projects ps e in
        let e := set_selected_index (Some (i + 1)%nat) e in
        let e := _refresh_list e in
        Ok (set_has_changes true e)
  end.

(** [_on_change(event)] and [_on_change_simple()] *)
Definition _on_change (e : Editor) : Editor := _update_status (set_has_changes true e).
End Commands.

(** *** The list of screenshots *)

Definition set_screenshots_listbox (v : list str) (f : Form) : Form :=
  {| id_entry := id_entry f; title_entry := title_entry f; category_vars := category_vars f;
     short_desc_entry := short_desc_entry f; long_desc_text := long_desc_text f;
     tech_var := tech_var f; tech_listbox := tech_listbox f;
     features_entry := features_entry f; features_listbox := features_listbox f;
     link_playstore := link_playstore f; link_appstore := link_appstore f;
     link_website := link_website f; link_github := link_github f; link_apk := link_apk f;
     banner_entry := banner_entry f; banner_preview_label := banner_preview_label f;
     screenshots_listbox := v; ss_count_label := ss_count_label f;
     show_logo_var := show_logo_var f; logo_url_entry := logo_url_entry f;
     logo_position_var := logo_position_var f; show_border_var := show_border_var f;
     border_style_var := border_style_var f;
     screenshot_layout_var := screenshot_layout_var f;
     screenshot_size_var := screenshot_size_var f;
     theme_color_entry := theme_color_entry f |}.

(** [_update_screenshot_count()] *)
Definition _update_screenshot_count (f : Form) : Form :=
  {| id_entry := id_entry f; title_entry := title_entry f; category_vars := category_vars f;
     short_desc_entry := short_desc_entry f; long_desc_text := long_desc_text f;
     tech_var := tech_var f; tech_listbox := tech_listbox f;
     features_entry := features_entry f; features_listbox := features_listbox f;
     link_playstore := link_playstore f; link_appstore := link_appstore f;
     link_website := link_website f; link_github := link_github f; link_apk := link_apk f;
     banner_entry := banner_entry f; banner_preview_label := banner_preview_label f;
     screenshots_listbox := screenshots_listbox f;
     ss_count_label := screenshot_count_text (length (screenshots_listbox f));
     show_logo_var := show_logo_var f; logo_url_entry := logo_url_entry f;
     logo_position_var := logo_position_var f; show_border_var := show_border_var f;
     border_style_var := border_style_var f;
     screenshot_layout_var := screenshot_layout_var f;
     screenshot_size_var := screenshot_size_var f;
     theme_color_entry := theme_color_entry f |}.

Section Screenshots.
Context {U : Unicode} {OS : OsPath}.

(** [_add_screenshots()]; [paths] is the answer of the file dialog. *)
Definition _add_screenshots (paths : list str) (e : Editor) : Editor :=
  match paths with
  | [] => e
  | _ =>
      let f := form e in
      let f := set_screenshots_listbox
                 (screenshots_listbox f ++ List.map screenshot_item paths) f in
      _on_change (set_form (_update_screenshot_count f) e)
  end.

(** [_remove_screenshot()]; [sel] is the selection of the list of screenshots. *)
Definition _remove_screenshot (sel : list nat) (e : Editor) : Editor :=
  match sel with
  | [] => e
  | i :: _ =>
      let f := set_screenshots_listbox (delete i (screenshots_listbox (form e))) (form e) in
      _on_change (set_form (_update_screenshot_count f) e)
  end.

(** [_clear_screenshots()] *)
Definition _clear_screenshots (e : Editor) : Editor :=
  _on_change (set_form (_update_screenshot_count (set_screenshots_listbox [] (form e))) e).
End Screenshots.

(** *** Files *)

Section Files.
Context {U : Unicode} {OS : OsPath}.

(** [_parse_md(content)] with the refresh of the list that ends it. *)
Definition parse_and_refresh (content : str) (e : Editor) : exc Editor :=
  a ← _parse_md (doc e) content;
  Ok (_refresh_list (set_doc a e)).

(** [_open_file()]: [path] is the answer of the file dialog, [file]
    what reading the file gives.  The handler of the [try] shows a
    message; reading the file is the one step that raises, and it comes
    before the window is touched. *)
Definition _open_file (path : str) (file : exc str) (e : Editor) : Editor :=
  if negb (truthy path) then e
  else
    match (content ← file;
           e ← parse_and_refresh content e;
           let e := set_file_path path e in
           let e := set_has_changes false e in
           let e := _update_status e in
           match projects (doc e) with
           | [] => Ok e
           | p0 :: _ => Ok (set_form (_load_project p0 (form e)) (set_selected_index (Some 0%nat) e))
           end) with
    | Ok e' => e'
    | Raise _ => e
    end.

(** The copies [_copy_images] asks for, as pairs of a source and a
    destination, for one project and for the document.  Creating the
    folders is taken to succeed. *)
Definition project_copies (base_dir : str) (p : Project) : list (str * str) :=
  if negb (truthy (id p)) then []
  else
    let project_images_dir := path_join (path_join base_dir (u "images")) (id p) in
    (if show_logo p && truthy (logo_url p) && path_exists (logo_url p) then
       [(logo_url p, path_join project_images_dir (u "logo" ++ snd (splitext (logo_url p))))]
     else []) ++
    (if truthy (banner_image p) && path_exists (banner_image p) then
       [(banner_image p,
         path_join project_images_dir (u "banner" ++ snd (splitext (banner_image p))))]
     else []) ++
    concat (List.map (fun '(i, ss_path) =>
                        if path_exists ss_path then
                          [(ss_path,
                            path_join project_images_dir
                              (str_of_nat i ++ snd (splitext ss_path)))]
                        else [])
                     (enumerate 1 (screenshots_local_paths p))).

(** [_copy_images()] *)
Definition _copy_images (self : App) : list (str * str) :=
  if negb (truthy (file_path self)) then []
  else concat (List.map (project_copies (dirname (file_path self))) (projects self)).

(** The test of [_export_file] for images to copy. *)
Definition has_images (ps : list Project) : bool :=
  existsb (fun p => (truthy (banner_image p) && path_exists (banner_image p))
                    || existsb path_exists (screenshots_local_paths p)) ps.

(** What an export leaves outside the window: the file written, as a
    path and a text, and the copies asked for. *)
Record Export := {
  written : option (str * str);
  copies : list (str * str)
}.

Definition copy_question : str :=
  u "Do you want to copy images to the output directory?" ++ nl ++ nl
  ++ u "Images will be organized as:" ++ nl
  ++ u "  images/{project-id}/banner.ext" ++ nl
  ++ u "  images/{project-id}/1.ext, 2.ext, ...".

(** [_export_file()]: [asksaveasfilename] is the answer of the file
    dialog, [today] the date, [write_ok] tells whether the file could
    be written. *)
Definition _export_file (asksaveasfilename today : str) (write_ok : bool)
    (askyesno : str -> str -> bool) (e : Editor) : exc (Editor * Export) :=
  e ← _save_current e;
  let path := if truthy (file_path (doc e)) then file_path (doc e) else asksaveasfilename in
  if negb (truthy path) then Ok (e, {| written := None; copies := [] |})
  else
    let e := set_file_path path e in
    let content := _generate_full_md (doc e) today in
    if negb write_ok then Ok (e, {| written := None; copies := [] |})
    else
      let copies :=
        if has_images (projects (doc e)) && askyesno (u "Copy Images") copy_question
        then _copy_images (doc e) else [] in
      let e := _update_status (set_has_changes false e) in
      Ok (e, {| written := Some (path, content); copies := copies |}).
End Files.

(** ** What a pattern can match

    [matches r s g s' g']: the pattern [r] can match at the head of [s],
    leaving [s'], and turn the captures [g] into [g'].  The matcher
    returns the first such match in backtracking order. *)

Inductive matches {U : Unicode} : regex -> str -> caps -> str -> caps -> Prop :=
| M_Str l s g :
    matches (Str l) (l ++ s) g s g
| M_Atom c x s g :
    cls_test c x = true -> matches (Atom c) (x :: s) g s g
| M_Cat a b s g s1 g1 s2 g2 :
    matches a s g s1 g1 -> matches b s1 g1 s2 g2 -> matches (Cat a b) s g s2 g2
| M_AltL a b s g s' g' :
    matches a s g s' g' -> matches (Alt a b) s g s' g'
| M_AltR a b s g s' g' :
    matches b s g s' g' -> matches (Alt a b) s g s' g'
| M_Grp n a s g s' g' :
    matches a s g s' g' -> matches (Grp n a) s g s' ((n, consumed s s') :: g')
| M_Star0 c s g :
    matches (Star c) s g s g
| M_StarS c x s g s' :
    cls_test c x = true -> matches (Star c) s g s' g -> matches (Star c) (x :: s) g s' g
| M_Lazy0 c s g :
    matches (Lazy c) s g s g
| M_LazyS c x s g s' :
    cls_test c x = true -> matches (Lazy c) s g s' g -> matches (Lazy c) (x :: s) g s' g
| M_Ahead a s g s' g' :
    matches a s g s' g' -> matches (Ahead a) s g s g'
| M_Eos s g :
    s = [] \/ s = [10] -> matches Eos s g s g.

(** [binds n r]: every match of [r] captures the group [n]. *)
Fixpoint binds (n : nat) (r : regex) : bool :=
  match r with
  | Cat a b => binds n a || binds n b
  | Alt a b => binds n a && binds n b
  | Grp k a => Nat.eqb k n || binds n a
  | Ahead a => binds n a
  | _ => false
  end.

(** [first_char r]: the character every match of [r] starts with, when
    the pattern starts with a literal. *)
Fixpoint first_char (r : regex) : option N :=
  match r with
  | Str (c :: _) => Some c
  | Cat a _ => first_char a
  | Grp _ a => first_char a
  | _ => None
  end.

(** * Vocabulary of the properties *)

(** ** The record the decoder builds *)

(** An extraction guarded by a match: [if m: p = f(m, p)]. *)
Definition upd {A} (x : option A) (f : A -> Project -> Project) (p : Project) : Project :=
  match x with
  | Some a => f a p
  | None => p
  end.

Definition g1 {U : Unicode} (mt : Match) : str := group_or_empty 1 (m_groups mt).

Definition gated {A} (c : bool) (x : option A) : option A := if c then x else None.

Section DecoderStepsDefs.
Context {U : Unicode}.

Definition long_ok (mt : Match) : bool :=
  negb (contains (u "<a href") (m_text mt)) && negb (contains (u "<img") (m_text mt)).

Definition set_link (key : str) (mt : Match) (p : Project) : Project :=
  set_links (<[key := g1 mt]> (links p)) p.

Definition links_upd (part : str) (p : Project) : Project :=
  upd (re_search (badge_re (u "APK")) part) (set_link (u "apk"))
    (upd (re_search (badge_re (u "Website")) part) (set_link (u "website"))
       (upd (gated (contains (u "github.com") part)
               (re_search (href_re (u "https://github.com")) part)) (set_link (u "github"))
          (upd (gated (contains (u "apps.apple.com") part)
                  (re_search (href_re (u "https://apps.apple.com")) part)) (set_link (u "appStore"))
             (upd (gated (contains (u "play.google.com") part)
                     (re_search (href_re (u "https://play.google.com")) part))
                (set_link (u "playStore")) p)))).

Definition add_screenshot (p : Project) (ne : str * str) : Project :=
  set_screenshots_local_paths (screenshots_local_paths p ++ [screenshot_name ne])
    (set_screenshots (screenshots p ++ [screenshot_name ne]) p).

Definition border_gate (part : str) : bool :=
  contains (u "border: 1px solid") part || contains (u "border: 2px dashed") part.

Definition border_of (part : str) : str :=
  if contains (u "border-radius: 12px") part then u "rounded"
  else if contains (u "dashed") part then u "dashed"
  else u "square".

Definition layout_of (part : str) : str :=
  if contains (u "<table") part then u "grid"
  else if contains (u "align='center'") part && contains (u "<br>") part then u "vertical"
  else u "horizontal".

Definition size_of (mt : Match) (p : Project) : Project :=
  match int (g1 mt) with
  | Ok n => set_screenshot_size n p
  | Raise _ => p
  end.

(** The record [parse_part] builds, one extraction after the other. *)
Definition decoded (part : str) : Project :=
  upd (re_search size_re part) size_of
    (set_screenshot_layout (layout_of part)
       (upd (gated (border_gate part) (Some tt))
          (fun _ p => set_border_style (border_of part) (set_show_border true p))
          (upd (re_search logo_re part) (fun mt p => set_show_logo true (set_logo_url (g1 mt) p))
             (upd (re_search banner_re part) (fun mt => set_banner_image (g1 mt))
                (fold_left add_screenshot (re_findall2 screenshot_re part)
                   (links_upd part
                      (upd (re_search features_re part)
                         (fun mt => set_features (re_findall1 bullet_re (g1 mt)))
                         (upd (re_search tech_re part)
                            (fun mt => set_technologies (re_findall1 code_re (g1 mt)))
                            (upd (re_search long_re part)
                               (fun mt p => if long_ok mt
                                            then set_long_description (strip (g1 mt)) p else p)
                               (upd (re_search short_re part)
                                  (fun mt => set_short_description (strip (g1 mt)))
                                  (set_categories
                                     (List.filter (fun c => str_in c known_categories)
                                        (re_findall1 category_re part))
                                     (upd (re_search title_re part)
                                        (fun mt p => set_id (slug (strip (g1 mt)))
                                                       (set_title (strip (g1 mt)) p))
                                        Project_init)))))))))))).

(** The loop keeps the parts that hold ["## "] and decode to a titled record. *)
Definition kept (part : str) : bool :=
  contains (u "## ") part && truthy (title (decoded part)).

End DecoderStepsDefs.

Section DecodedFieldsDefs.
Context {U : Unicode}.

(** [d[key] = m.group(1)] when there is a match. *)
Definition link_ins (key : str) (x : option Match) (d : gmap str str) : gmap str str :=
  match x with
  | Some mt => <[key := g1 mt]> d
  | None => d
  end.

End DecodedFieldsDefs.

(** ** Patterns without empty match *)

(** [nonnull r]: no match of [r] is empty. *)
Fixpoint nonnull (r : regex) : bool :=
  match r with
  | Str l => truthy l
  | Atom _ => true
  | Cat a b => nonnull a || nonnull b
  | Alt a b => nonnull a && nonnull b
  | Grp _ a => nonnull a
  | _ => false
  end.

(** [grp_nonnull n r]: the group [n], wherever [r] captures it, encloses
    a pattern without empty match. *)
Fixpoint grp_nonnull (n : nat) (r : regex) : bool :=
  match r with
  | Cat a b | Alt a b => grp_nonnull n a && grp_nonnull n b
  | Grp k a => (if Nat.eqb k n then nonnull a else true) && grp_nonnull n a
  | Ahead a => grp_nonnull n a
  | _ => true
  end.

(** ** The keys of [links] *)

Definition link_keys : list str :=
  [u "playStore"; u "appStore"; u "website"; u "github"; u "apk"].

Section LinkKeysDefs.
Context {U : Unicode}.

(** What the decoder puts in [links]: only the five keys, only with a
    URL that is not empty. *)
Definition links_wf (d : gmap str str) : Prop :=
  forall k v, d !! k = Some v -> In k link_keys /\ v <> [].

End LinkKeysDefs.

Definition empty_app : App := {| projects := []; file_path := [] |}.

(** ** The characters of a slug *)

(** A character of [[a-z0-9-]]. *)
Definition is_slug_char (c : N) : bool :=
  in_range 97 122 c || in_range 48 57 c || (c =? 45).

(** ** The grid of screenshots *)

(** The number of lines of [ls] equal to [l]. *)
Definition count_line (l : str) (ls : list str) : nat :=
  length (List.filter (str_eqb l) ls).

Section GridDefs.
Context {U : Unicode} {OS : OsPath}.

(** A cell of the table, by the screenshot it shows. *)
Definition cell_text (p : Project) (size : Z) (x : option (nat * str)) : str :=
  match x with
  | Some (idx, ss) => u "    <td align='center'>" ++ screenshot_img p size idx ss ++ u "</td>"
  | None => u "    <td></td>"
  end.

Definition row_text (p : Project) (size : Z) (r : (nat * str) * option (nat * str)) : list str :=
  [u "  <tr>"; cell_text p size (Some (fst r)); cell_text p size (snd r); u "  </tr>"].

(** The rows of a list of screenshots, two by two. *)
Fixpoint rows_of (l : list (nat * str)) : list ((nat * str) * option (nat * str)) :=
  match l with
  | [] => []
  | [a] => [(a, None)]
  | a :: b :: l' => (a, Some b) :: rows_of l'
  end.

End GridDefs.

Section GridClaimDefs.
Context {U : Unicode} {OS : OsPath}.

Definition grid_size (p : Project) : Z :=
  if (screenshot_size p =? 0)%Z then 200%Z else screenshot_size p.

End GridClaimDefs.

(** ** Texts given in pieces *)

(** The literal text every match of a pattern starts with. *)
Fixpoint prefix_of (r : regex) : str :=
  match r with
  | Str l => l
  | Cat a _ => prefix_of a
  | Grp _ a => prefix_of a
  | _ => []
  end.

(** [nostart L a b]: in [a ++ b], no occurrence of [L] starts inside [a]. *)
Definition nostart (L a b : str) : Prop :=
  forall t1 x t2, a = t1 ++ x :: t2 -> startswith L (x :: t2 ++ b) = false.

(** No proper prefix of [L] that is not empty ends [a]. *)
Definition nocross_left (L a : str) : bool :=
  forallb (fun i => negb (startswith (rev (take i L)) (rev a))) (seq 1 (length L - 1)).

Section RepetitionDefs.
Context {U : Unicode}.

(** What does not start with a character of the class ends the repetition. *)
Definition stops (p : N -> bool) (b : str) : bool :=
  match b with
  | x :: _ => negb (p x)
  | [] => true
  end.

End RepetitionDefs.

(** ** Lines, and the front matter of a document *)

Definition no_newline (s : str) : bool := forallb (fun c => negb (c =? 10)) s.

(** The text ends, or goes on with a newline. *)
Definition line_end (s : str) : bool :=
  match s with
  | [] => true
  | c :: _ => c =? 10
  end.

(** The first block of every generated document: the front matter. *)
Definition front_matter : str :=
  Eval vm_compute in take (length (join nl header_lines) - 5) (join nl header_lines).

(** The front matter, around its level-3 heading. *)
Definition front_pre : str :=
  join nl [u "<div align='center'>"; [];
           u "<img src='images/icon-dark.png' alt='Hexagone' height='120'>"; [];
           u "# Hexagone Projects"; []; []].

Definition front_post : str := drop (length front_pre + 25) front_matter.

Definition no_char (c : N) (s : str) : bool := forallb (fun x => negb (x =? c)) s.

(** ** Pieces of a text in which nothing is found *)

Definition never (f : str -> bool) (a b : str) : Prop :=
  forall t1 x t2, a = t1 ++ x :: t2 -> f (x :: t2 ++ b) = false.

(** The same, decided by running [f] at each position of [a]. *)
Definition never_check (f : str -> bool) (a b : str) : bool :=
  forallb (fun i => negb (f (drop i a ++ b))) (seq 0 (length a)).

(** [hit r s]: the pattern [r] matches at the head of [s]. *)
Definition hit {U : Unicode} (r : regex) (s : str) : bool :=
  match match_at r s with
  | Some _ => true
  | None => false
  end.

(** No tail of [L] from its character [1] to its character [n - 1] starts [b]. *)
Definition nocross_upto (n : nat) (L b : str) : bool :=
  forallb (fun i => negb (startswith (drop i L) b)) (seq 1 (n - 1)).

(** ** The records of the round trip *)

(** The fragments the decoder looks for in a block, and the two
    separators it splits a document at: [<hr>], and the line [---]
    between two newlines. *)
Definition markers : list str :=
  [u "##"; u "`"; u "**"; u "<p>"; u "href="; u "images/"; u "<img"; u "width=";
   u "border: 1px solid"; u "border: 2px dashed"; u "border-radius: 12px"; u "dashed";
   u "<table"; u "<br>"; u "<hr>"; nl ++ u "---" ++ nl].

Definition clean (s : str) : bool := forallb (fun P => negb (contains P s)) markers.

Definition play_prefix : str := u "https://play.google.com".

Definition apps_prefix : str := u "https://apps.apple.com".

Definition github_prefix : str := u "https://github.com".

(** [d.get(key, '')]: the link, or the empty text when the key is absent. *)
Definition link_of (d : gmap str str) (key : str) : str := default [] (d !! key).

Section RoundTripDomainDefs.
Context {U : Unicode}.

(** A title: one line, not empty, without white space around it. *)
Definition title_ok (s : str) : bool :=
  truthy s && no_newline s && clean s && str_eqb (strip s) s.

Definition short_ok (s : str) : bool := no_char 42 s && clean s && str_eqb (strip s) s.

Definition long_text_ok (s : str) : bool := no_char 60 s && clean s && str_eqb (strip s) s.

Definition tech_ok (s : str) : bool := truthy s && no_char 60 s && clean s.

Definition feature_ok (s : str) : bool :=
  truthy s && no_newline s && clean s && str_eqb (lstrip s) s.

Definition url_ok (s : str) : bool := no_char 34 s && clean s.

(** The link of a store: absent, or an address of the store. *)
Definition store_ok (prefix url : str) : bool :=
  match url with
  | [] => true
  | _ => startswith prefix url && Nat.ltb (length prefix) (length url) && url_ok url
  end.

(** Another link: absent, or an address that is not one of a store. *)
Definition other_ok (url : str) : bool :=
  url_ok url && negb (startswith play_prefix url) && negb (startswith apps_prefix url)
  && negb (startswith github_prefix url).

Definition border_ok (p : Project) : bool :=
  negb (show_border p)
  || str_in (border_style p) [u "rounded"; u "square"; u "dashed"].

(** The records of the round trip: the listed fields hold text the
    decoder reads back, the image fields are empty, the colour of the
    badges is the constructor's. *)
Definition round_trip_ok (p : Project) : bool :=
  title_ok (title p)
  && forallb (fun c => str_in c known_categories) (categories p)
  && short_ok (short_description p)
  && long_text_ok (long_description p)
  && forallb tech_ok (technologies p)
  && forallb feature_ok (features p)
  && store_ok play_prefix (link_of (links p) (u "playStore"))
  && store_ok apps_prefix (link_of (links p) (u "appStore"))
  && store_ok github_prefix (link_of (links p) (u "github"))
  && other_ok (link_of (links p) (u "website"))
  && other_ok (link_of (links p) (u "apk"))
  && negb (truthy (logo_url p)) && negb (truthy (banner_image p))
  && match screenshots p with [] => true | _ => false end
  && str_eqb (theme_color p) (u "#000000")
  && border_ok p.

End RoundTripDomainDefs.

(** Each line followed by a newline. *)
Definition unlines (ls : list str) : str := concat (List.map (fun l => l ++ nl) ls).

Section EncodedTextDefs.
Context {U : Unicode} {OS : OsPath}.

Definition border_on (p : Project) : bool :=
  show_border p && truthy (border_css_of (show_border p) (or_str (border_style p) (u "rounded"))).

Definition border_open (p : Project) : str :=
  if border_on p then
    u "<div style='" ++ border_css_of (show_border p) (or_str (border_style p) (u "rounded"))
      ++ u "'>" ++ nl ++ nl
  else [].

Definition border_close (p : Project) : str :=
  if border_on p then nl ++ u "</div>" else [].

End EncodedTextDefs.

(** ** Fragments that do not occur in a section *)

(** No tail of [L] cut inside its head of length [n] starts the text
    [fol], or is started by it. *)
Definition nocross_strict (n : nat) (L fol : str) : bool :=
  forallb (fun i => negb (startswith (drop i L) fol) && negb (startswith fol (drop i L)))
    (seq 1 (n - 1)).

(** The fragment [L], whose head [P] is a marker, does not start in a
    clean field followed by [fol]. *)
Definition quiet_field (P L fol : str) : bool :=
  str_in P markers && startswith P L && nocross_strict (length P) L fol.

(** ** The sections of an encoded block *)

(** The markup of each section. *)
Definition g_div : str := u "<div align='center'>" ++ nl ++ nl.

Definition g_close : str := u "</div>" ++ nl.

Definition g_title : str := u "## ".

Definition g_par : str := nl ++ nl.

Definition g_tick : str := u "`".

Definition g_tick2 : str := u " `".

Definition g_bold : str := u "**".

Definition g_bold_end : str := u "**" ++ nl ++ nl.

Definition g_p : str := u "<p>".

Definition g_p_end : str := u "</p>" ++ nl ++ nl.

Definition g_p_nl : str := u "<p>" ++ nl.

Definition g_anchor : str := u "  <a href='".

Definition g_tech : str := u "### Tech Stack" ++ nl ++ nl ++ u "<p>" ++ nl.

Definition g_code : str := u "  <code>".

Definition g_code_end : str := u "</code>" ++ nl.

Definition g_features : str := u "### Features" ++ nl ++ nl.

Definition g_bullet : str := u "- ".

(** The text that ends the anchor of a badge, after the address. *)
Definition anchor_tail (img : str) : str :=
  u "'><img src='https://img.shields.io/badge/" ++ img ++ u "'></a>" ++ nl.

Definition img_play : str :=
  u "Play_Store-414141?style=for-the-badge&logo=google-play&logoColor=white".

Definition img_apps : str :=
  u "App_Store-0D96F6?style=for-the-badge&logo=app-store&logoColor=white".

Definition img_web : str :=
  u "Website-000000?style=for-the-badge&logo=safari&logoColor=white".

Definition img_github : str :=
  u "GitHub-181717?style=for-the-badge&logo=github&logoColor=white".

Definition img_apk : str :=
  u "APK-3DDC84?style=for-the-badge&logo=android&logoColor=white".

Definition anchor_tails : list str :=
  [anchor_tail img_play; anchor_tail img_apps; anchor_tail img_web; anchor_tail img_github;
   anchor_tail img_apk].

Definition g_border_close : str := nl ++ u "</div>".

(** The text of each section. *)
Definition title_text (t : str) : str := g_title ++ t ++ g_par.

Definition cat_text (cs : list str) : str :=
  match cs with
  | [] => []
  | c :: cs' =>
      g_tick ++ c ++ g_tick
      ++ concat (List.map (fun x => g_tick2 ++ x ++ g_tick) cs') ++ g_par
  end.

Definition short_text (s : str) : str :=
  if truthy s then g_bold ++ s ++ g_bold_end else [].

Definition long_text (s : str) : str :=
  if truthy s then g_p ++ s ++ g_p_end else [].

Definition anchor_text (url img : str) : str :=
  if truthy url then g_anchor ++ url ++ anchor_tail img else [].

Definition anchors_text (d : gmap str str) : str :=
  anchor_text (link_of d (u "playStore")) img_play
  ++ anchor_text (link_of d (u "appStore")) img_apps
  ++ anchor_text (link_of d (u "website")) img_web
  ++ anchor_text (link_of d (u "github")) img_github
  ++ anchor_text (link_of d (u "apk")) img_apk.

Definition links_text (d : gmap str str) : str :=
  match anchors_text d with
  | [] => []
  | a => g_p_nl ++ a ++ g_p_end
  end.

Definition tech_text (ts : list str) : str :=
  match ts with
  | [] => []
  | _ => g_tech ++ concat (List.map (fun t => g_code ++ t ++ g_code_end) ts) ++ g_p_end
  end.

Definition feat_text (fs : list str) : str :=
  match fs with
  | [] => []
  | _ => g_features ++ concat (List.map (fun f => g_bullet ++ f ++ nl) fs) ++ nl
  end.

(** ** Scanning the sections *)

Definition links_clean (d : gmap str str) : bool :=
  forallb (fun k => clean (link_of d k)) link_keys.

Section SegmentsDefs.
Context {U : Unicode}.

(** The test [f] fails inside the markup [c], whatever follows it. *)
Definition glue_ok (f : str -> bool) (c : str) : Prop := forall b, never f c b.

(** The test [f] fails inside a field that passes [ok] and that [fol] follows. *)
Definition field_ok_for (f : str -> bool) (ok : str -> bool) (fol : str) : Prop :=
  forall x b, ok x = true -> never f x (fol ++ b).

(** The same for a clean field. *)
Definition field_ok (f : str -> bool) (fol : str) : Prop := field_ok_for f clean fol.

End SegmentsDefs.

(** The line [---] starts with a newline, and the markup of a block
    ends most of its lines with one: what follows such a line must not
    start with the rest of the separator. *)
Definition calm (b : str) : bool := negb (startswith (u "---" ++ nl) b).

(** The separator [---] starts nowhere in the piece [s], and [s] may
    follow a newline, whenever what follows [s] may. *)
Definition passes (s : str) : Prop :=
  forall b, calm b = true ->
    never (startswith (nl ++ u "---" ++ nl)) s b /\ calm (s ++ b) = true.

(** ** The block of a record of the round trip *)

(** The text of a block without images, between the two lines of its border. *)
Definition inner_text (p : Project) : str :=
  g_div ++ title_text (title p) ++ cat_text (categories p)
  ++ short_text (short_description p) ++ long_text (long_description p)
  ++ links_text (links p) ++ tech_text (technologies p) ++ feat_text (features p)
  ++ g_close.

Definition block_text {U : Unicode} (p : Project) : str :=
  border_open p ++ inner_text p ++ border_close p.

Definition border_styles : list str := [u "rounded"; u "square"; u "dashed"].

Definition border_open_of {U : Unicode} (style : str) : str :=
  u "<div style='" ++ border_css_of true style ++ u "'>" ++ nl ++ nl.

(** ** The fields between two delimiters *)

(** [a([^c]+)b] *)
Definition delimited (a : str) (c : N) (b : str) : regex :=
  (Str a ⋅ Grp 1 (Plus (NoneOf [(c, c)])) ⋅ Str b)%re.

Section TechScanDefs.
Context {U : Unicode}.

Definition is_some {A} (x : option A) : bool :=
  match x with
  | Some _ => true
  | None => false
  end.

(** A technology: not empty and without the character that opens a tag. *)
Definition code_ok (t : str) : bool := truthy t && no_char 60 t.

End TechScanDefs.

Section FeatureScanDefs.
Context {U : Unicode}.

(** A feature: a line that is not empty and does not start with white space. *)
Definition bullet_ok (f : str) : bool := truthy f && no_newline f && str_eqb (lstrip f) f.

(** Where [$] matches: at the end of the text, or before a newline that ends it. *)
Definition ends (s : str) : bool :=
  match s with
  | [] => true
  | [x] => x =? 10
  | _ => false
  end.

End FeatureScanDefs.

(** ** The anchors of the badges *)

Section AnchorsDefs.
Context {U : Unicode}.

(** What the pattern of a badge goes on with after the address. *)
Definition badge_tail (label : str) : regex :=
  (Str (u "'") ⋅ Star (NoneOf [ch ">"]) ⋅ Str (u ">") ⋅ Star Space ⋅ Str (u "<img")
   ⋅ Star (NoneOf [ch ">"]) ⋅ Str label)%re.

Definition imgs : list str := [img_play; img_apps; img_web; img_github; img_apk].

(** What follows the quote that ends the address. *)
Definition tail_rest (img : str) : str :=
  u "><img src='https://img.shields.io/badge/" ++ img ++ u "'></a>" ++ nl.

(** The badges in the order of the paragraph: the key of the link and
    the image of the badge. *)
Definition badge_table : list (str * str) :=
  [(u "playStore", img_play); (u "appStore", img_apps); (u "website", img_web);
   (u "github", img_github); (u "apk", img_apk)].

Definition anchor_of (d : gmap str str) (e : str * str) : str :=
  anchor_text (link_of d (fst e)) (snd e).

Definition misses (r : regex) (d : gmap str str) (e : str * str) : Prop :=
  In (snd e) imgs /\ clean (link_of d (fst e)) = true /\
  (link_of d (fst e) = [] \/
   forall b, hit r (u "href='" ++ link_of d (fst e) ++ anchor_tail (snd e) ++ b) = false).

(** The block around its paragraph of badges. *)
Definition before_links (p : Project) : str :=
  border_open p ++ g_div ++ title_text (title p) ++ cat_text (categories p)
  ++ short_text (short_description p) ++ long_text (long_description p).

Definition after_links (p : Project) : str :=
  tech_text (technologies p) ++ feat_text (features p) ++ g_close ++ border_close p.

End AnchorsDefs.

(** [reads x url]: the search [x] finds the link [url], or nothing when
    there is no link. *)
Definition reads {U : Unicode} (x : option Match) (url : str) : Prop :=
  (url = [] /\ x = None) \/ (url <> [] /\ exists mt, x = Some mt /\ g1 mt = url).

(** [d[key] = url] when the link is not empty. *)
Definition put (key url : str) (d : gmap str str) : gmap str str :=
  if truthy url then <[key := url]> d else d.

(** ** The table of screenshots in the text of a block *)

(** The lines of a text: [text.split('\n')]. *)
Definition lines_of (text : str) : list str := split_char 10 text.

Section GridTextDefs.
Context {U : Unicode} {OS : OsPath}.

(** The cell of the screenshot [ss] of number [k], written out: the
    image [images/{id}/{k}{ext}], with [.png] for a name without
    extension, at the width of the record; the empty cell. *)
Definition table_cell (p : Project) (x : option (nat * str)) : str :=
  match x with
  | Some (k, ss) =>
      u "    <td align='center'><img src='images/" ++ id p ++ u "/" ++ str_of_nat k
      ++ or_str (snd (splitext ss)) (u ".png") ++ u "' width='" ++ str_of_Z (grid_size p)
      ++ u "'></td>"
  | None => u "    <td></td>"
  end.

(** A row of the table: four lines. *)
Definition table_row (p : Project) (r : (nat * str) * option (nat * str)) : list str :=
  [u "  <tr>"; table_cell p (Some (fst r)); table_cell p (snd r); u "  </tr>"].

(** The lines of the table: the screenshots two by two, numbered from 1. *)
Definition table_lines (p : Project) : list str :=
  [u "<table align='center'>"]
  ++ concat (List.map (table_row p) (rows_of (enumerate 1 (screenshots p))))
  ++ [u "</table>"].

(** No text the encoder writes for the record holds a newline. *)
Definition one_line_fields (p : Project) : bool :=
  no_newline (id p) && no_newline (title p) && forallb no_newline (categories p)
  && no_newline (short_description p) && no_newline (long_description p)
  && forallb no_newline (technologies p) && forallb no_newline (features p)
  && forallb (fun k => no_newline (link_of (links p) k)) link_keys
  && no_newline (theme_color p)
  && no_newline (logo_url p) && no_newline (snd (splitext (logo_url p)))
  && no_newline (banner_image p) && no_newline (snd (splitext (banner_image p)))
  && forallb (fun ss => no_newline (snd (splitext ss))) (screenshots p).

End GridTextDefs.

(** ** Example records *)

(** A record with three screenshots in a grid: two rows, the last with
    an empty second cell. *)
Definition grid_demo : Project :=
  set_screenshot_layout (u "grid")
    (set_screenshots [u "a.png"; u "b.jpg"; u "c.png"]
       (set_title (u "Demo") (set_id (u "demo") Project_init))).

(** The same record with a feature of two lines, the second one the
    opening of a row. *)
Definition grid_feature : Project :=
  set_features [u "x" ++ nl ++ u "  <tr>"] grid_demo.

(** A record of the round trip, with a link of a store and two other links. *)
Definition round_trip_demo : Project :=
  set_border_style (u "dashed")
    (set_show_border true
       (set_links (<[u "playStore" := u "https://play.google.com/store/apps/details?id=demo"]>
                     (<[u "website" := u "https://example.org/demo"]>
                        (<[u "apk" := u "https://example.org/demo.apk"]> ∅)))
          (set_features [u "Works offline"; u "Dark mode"]
             (set_technologies [u "Flutter"; u "Dart"]
                (set_long_description (u "A longer text about the demo.")
                   (set_short_description (u "A short demo")
                      (set_categories [u "Mobile App"; u "Game"]
                         (set_title (u "Demo App") Project_init)))))))).

(** A record of the domain of C2 whose layout and size are lost. *)
Definition round_trip_grid : Project :=
  set_screenshot_size 300
    (set_screenshot_layout (u "grid")
       (set_border_style (u "rounded")
          (set_show_border true (set_title (u "Demo") Project_init)))).

(** A record of the domain of C2 whose short description holds the
    character of its own markup. *)
Definition round_trip_star : Project :=
  set_short_description (u "2*3 ways") (set_title (u "Demo") Project_init).

(** A record of the domain of C2 whose long description holds a code span. *)
Definition round_trip_span : Project :=
  set_long_description (u "Built as a `Game` engine") (set_title (u "Demo") Project_init).

(** A record of the domain of C2 whose store link is not an address of the store. *)
Definition round_trip_store : Project :=
  set_links (<[u "playStore" := u "https://example.org/app"]> ∅)
    (set_title (u "Demo") Project_init).

(** A record of the domain of C2 whose long description holds a line
    [---], the separator of two blocks. *)
Definition round_trip_rule : Project :=
  set_technologies [u "Flutter"]
    (set_long_description (u "Intro" ++ nl ++ u "---" ++ nl ++ u "Details")
       (set_title (u "Demo") Project_init)).

(** ** What a captured group holds *)

(** [grp_all Q n r]: wherever [r] captures the group [n], every text
    the enclosed pattern matches satisfies [Q]. *)
Fixpoint grp_all {U : Unicode} (Q : str -> Prop) (n : nat) (r : regex) : Prop :=
  match r with
  | Cat a b | Alt a b => grp_all Q n a /\ grp_all Q n b
  | Grp k a =>
      (k = n -> forall s g s' g', matches a s g s' g' -> Q (consumed s s')) /\ grp_all Q n a
  | Ahead a => grp_all Q n a
  | _ => True
  end.

(** [part] is a piece of [s]. *)
Definition infix_of (part s : str) : Prop := exists a b, s = a ++ part ++ b.

(** The extensions the decoder recognises in the name of a screenshot. *)
Definition screenshot_exts : list str := [u "png"; u "jpg"; u "jpeg"; u "webp"; u "gif"].

Definition layouts : list str := [u "grid"; u "vertical"; u "horizontal"].

(** The text ends with [>], or with [>] and a newline. *)
Definition ends_with_tag (s : str) : Prop :=
  exists X e, s = X ++ 62 :: e /\ (e = [] \/ e = [10]).

(** ** The editor *)

Section EditorDefs.
Context {U : Unicode} {OS : OsPath}.

(** The width read from the form: the number typed, 200 when it is
    not a number. *)
Definition size_of_form (f : Form) : Z :=
  match int_text (screenshot_size_var f) with
  | Ok n => n
  | Raise _ => 200%Z
  end.

(** The record [_save_current] leaves in place of [p]: every field is
    read from the form, but for the local path of the banner, which is
    kept when the banner of the form is not a file. *)
Definition saved (f : Form) (p : Project) : Project :=
  {| id := strip (id_entry f);
     title := strip (title_entry f);
     short_description := strip (short_desc_entry f);
     long_description := strip (text_get (long_desc_text f));
     categories := List.map fst (List.filter snd (category_vars f));
     banner_image := strip (banner_entry f);
     banner_local_path :=
       if path_exists (strip (banner_entry f)) then strip (banner_entry f)
       else banner_local_path p;
     technologies := tech_listbox f;
     features := features_listbox f;
     links := form_links f;
     screenshots := List.map item_path (screenshots_listbox f);
     screenshots_local_paths := List.map item_path (screenshots_listbox f);
     show_logo := show_logo_var f;
     logo_url := strip (logo_url_entry f);
     logo_position := logo_position_var f;
     show_border := show_border_var f;
     border_style := border_style_var f;
     theme_color := strip (theme_color_entry f);
     screenshot_layout := screenshot_layout_var f;
     screenshot_size := size_of_form f |}.

(** The window after [_save_current]. *)
Definition save_state (e : Editor) : Editor :=
  match selected_index e with
  | Some i =>
      match projects (doc e) !! i with
      | Some p =>
          _refresh_list (set_projects (<[i := saved (form e) p]> (projects (doc e))) e)
      | None => e
      end
  | None => e
  end.

(** The index of the project being edited is one of the list. *)
Definition selection_ok (e : Editor) : bool :=
  match selected_index e with
  | Some i => Nat.ltb i (length (projects (doc e)))
  | None => true
  end.

(** The list box and its counter show the projects of the document. *)
Definition list_shown (e : Editor) : Prop :=
  project_listbox e = List.map project_row (enumerate 0 (projects (doc e))) /\
  count_label e = str_of_nat (length (projects (doc e))).
End EditorDefs.

Arguments save_state : simpl never.

(** A path that can be read back from its row in the list of
    screenshots: it holds no opening parenthesis and does not end with
    a closing one. *)
Definition path_ok (path : str) : bool :=
  no_char 40 path && negb (startswith [41] (rev path)).

(** The number read from decimal digits, the most significant first,
    after the number [acc] of the digits before them. *)
Fixpoint horner (acc : N) (d : Decimal.uint) : N :=
  match d with
  | Decimal.Nil => acc
  | Decimal.D0 d' => horner (10 * acc + 0) d'
  | Decimal.D1 d' => horner (10 * acc + 1) d'
  | Decimal.D2 d' => horner (10 * acc + 2) d'
  | Decimal.D3 d' => horner (10 * acc + 3) d'
  | Decimal.D4 d' => horner (10 * acc + 4) d'
  | Decimal.D5 d' => horner (10 * acc + 5) d'
  | Decimal.D6 d' => horner (10 * acc + 6) d'
  | Decimal.D7 d' => horner (10 * acc + 7) d'
  | Decimal.D8 d' => horner (10 * acc + 8) d'
  | Decimal.D9 d' => horner (10 * acc + 9) d'
  end.

Definition is_ascii_digit (c : N) : bool := in_range 48 57 c.

(** The dictionary of the five links of [d], each key with the link of
    [d] or the empty text. *)
Definition five_links (d : gmap str str) : gmap str str :=
  <[u "apk" := dict_get d (u "apk")]>
    (<[u "github" := dict_get d (u "github")]>
       (<[u "website" := dict_get d (u "website")]>
          (<[u "appStore" := dict_get d (u "appStore")]>
             (<[u "playStore" := dict_get d (u "playStore")]> ∅)))).

Section EditorNormalDefs.
Context {U : Unicode} {OS : OsPath}.

(** A record as the editor writes it: texts without white space around
    them, the categories in the order of the check boxes, the two
    lists of screenshots equal and of paths that can be read back from
    the rows of the list, the options of the styling not empty. *)
Definition editor_normal (p : Project) : Prop :=
  strip (id p) = id p /\
  strip (title p) = title p /\
  categories p = List.filter (fun c => str_in c (categories p)) category_names /\
  strip (short_description p) = short_description p /\
  strip (long_description p) = long_description p /\
  Forall (fun key => strip (dict_get (links p) key) = dict_get (links p) key)
    [u "playStore"; u "appStore"; u "website"; u "github"; u "apk"] /\
  strip (banner_image p) = banner_image p /\
  (path_exists (banner_image p) = true -> banner_local_path p = banner_image p) /\
  screenshots_local_paths p = screenshots p /\
  forallb path_ok (screenshots p) = true /\
  strip (logo_url p) = logo_url p /\
  logo_position p <> [] /\
  border_style p <> [] /\
  screenshot_layout p <> [] /\
  screenshot_size p <> 0%Z /\
  theme_color p <> [] /\
  strip (theme_color p) = theme_color p.
End EditorNormalDefs.

(** The check boxes of the form are those of the program. *)
Definition form_ok (f : Form) : Prop := List.map fst (category_vars f) = category_names.

(** A record as the editor writes it, to run the editor on. *)
Definition editor_demo : Project :=
  set_links (<[u "github" := u "https://github.com/acme/app"]> ∅)
    (set_screenshots [u "shots/home.png"; u "shots/cart.png"]
       (set_screenshots_local_paths [u "shots/home.png"; u "shots/cart.png"]
          (set_categories [u "Mobile App"; u "Game"]
             (set_short_description (u "A shop in your pocket")
                (set_id (u "shop") (set_title (u "Shop") Project_init)))))).

Section WindowDefs.
Context {U : Unicode} {OS : OsPath}.

(** The window is consistent: the index of the project being edited is
    one of the list, and the list box shows the projects. *)
Definition window_ok (e : Editor) : Prop := selection_ok e = true /\ list_shown e.

(** A window with two projects, the second being edited. *)
Definition window_demo : Editor :=
  set_form (_load_project editor_demo Form_init)
    (set_selected_index (Some 1%nat)
       (_refresh_list
          (set_projects [set_title (u "First") Project_init; editor_demo] Editor_init))).
End WindowDefs.

(** A project with a logo, a banner and two screenshots on the disk,
    the second one without an extension, in a document that has been
    given a path. *)
Definition export_demo : Project :=
  set_show_logo true
    (set_logo_url (u "/pics/mark.svg")
       (set_banner_image (u "/pics/top.jpg")
          (set_screenshots [u "/pics/home.png"; u "/pics/raw"]
             (set_screenshots_local_paths [u "/pics/home.png"; u "/pics/raw"]
                (set_id (u "shop") (set_title (u "Shop") Project_init)))))).

Definition export_app : App :=
  {| projects := [export_demo]; file_path := u "/out/README.md" |}.

(** A window on one project whose only image on the disk is its logo. *)
Definition logo_only_demo : Project :=
  set_show_logo true
    (set_logo_url (u "/pics/mark.svg")
       (set_id (u "shop") (set_title (u "Shop") Project_init))).

Definition logo_only_fs (path : str) : bool := str_eqb path (u "/pics/mark.svg").

Definition logo_only_window : Editor :=
  set_doc {| projects := [logo_only_demo]; file_path := u "/out/README.md" |} Editor_init.

(** * Properties *)

(** ** Strings *)

Lemma str_eqb_eq a b : str_eqb a b = true <-> a = b.
Proof.
  revert b; induction a as [|x a IH]; intros [|y b]; simpl; try (split; congruence).
  rewrite andb_true_iff, N.eqb_eq, IH. split; [intros [-> ->]; reflexivity|].
  intros [= -> ->]; split; reflexivity.
Qed.

Lemma str_eqb_refl a : str_eqb a a = true.
Proof. apply str_eqb_eq; reflexivity. Qed.

Lemma startswith_spec p s : startswith p s = true <-> exists t, s = p ++ t.
Proof.
  revert s; induction p as [|x p IH]; intros s; simpl.
  - split; [eauto|reflexivity].
  - destruct s as [|y s]; [split; [discriminate|intros [t [=]]]|].
    rewrite andb_true_iff, N.eqb_eq, IH. split.
    + intros [-> [t ->]]; eauto.
    + intros [t [= -> ->]]; eauto.
Qed.

Lemma startswith_app p t : startswith p (p ++ t) = true.
Proof. apply startswith_spec; eauto. Qed.

Lemma drop_app_length' (p t : str) : drop (length p) (p ++ t) = t.
Proof. induction p; simpl; auto. Qed.

Lemma consumed_app (t s' : str) : consumed (t ++ s') s' = t.
Proof.
  unfold consumed. rewrite length_app.
  replace (length t + length s' - length s')%nat with (length t) by lia.
  induction t; simpl; [destruct s'; reflexivity|]. f_equal; assumption.
Qed.

(** ** The matcher returns matches *)

Section MatcherFacts.
Context {U : Unicode}.

Lemma star_sound c s g (k : str -> option (str * caps)) res :
  star (cls_test c) s k = Some res ->
  exists s', matches (Star c) s g s' g /\ k s' = Some res.
Proof.
  induction s as [|x s IH]; simpl.
  - intros H; exists []; split; [constructor|assumption].
  - destruct (cls_test c x) eqn:Hx.
    + destruct (star (cls_test c) s k) eqn:Hs.
      * intros [= <-]. destruct (IH eq_refl) as (s' & Hm & Hk).
        exists s'; split; [constructor; assumption|assumption].
      * intros H; exists (x :: s); split; [constructor|assumption].
    + intros H; exists (x :: s); split; [constructor|assumption].
Qed.

Lemma lazy_sound c s g (k : str -> option (str * caps)) res :
  lazy_star (cls_test c) s k = Some res ->
  exists s', matches (Lazy c) s g s' g /\ k s' = Some res.
Proof.
  induction s as [|x s IH]; simpl.
  - destruct (k []) eqn:Hk; [|discriminate].
    intros [= <-]; exists []; split; [constructor|assumption].
  - destruct (k (x :: s)) eqn:Hk.
    + intros [= <-]; exists (x :: s); split; [constructor|assumption].
    + destruct (cls_test c x) eqn:Hx; [|discriminate].
      intros H. destruct (IH H) as (s' & Hm & Hk').
      exists s'; split; [constructor; assumption|assumption].
Qed.

Lemma m_sound r : forall s g k res,
  m r s g k = Some res ->
  exists s' g', matches r s g s' g' /\ k s' g' = Some res.
Proof.
  induction r as [l|c|a IHa b IHb|a IHa b IHb|n a IHa|c|c|a IHa|]; intros s g k res; simpl.
  - destruct (startswith l s) eqn:Hl; [|discriminate].
    apply startswith_spec in Hl as [t ->]. rewrite drop_app_length'.
    intros H; exists t, g; split; [constructor|assumption].
  - destruct s as [|x s]; [discriminate|].
    destruct (cls_test c x) eqn:Hx; [|discriminate].
    intros H; exists s, g; split; [constructor; assumption|assumption].
  - intros H. apply IHa in H as (s1 & g1 & Ha & H).
    apply IHb in H as (s2 & g2 & Hb & H).
    exists s2, g2; split; [econstructor; eassumption|assumption].
  - destruct (m a s g k) eqn:Ha.
    + intros [= <-]. apply IHa in Ha as (s' & g' & Ha & H).
      exists s', g'; split; [apply M_AltL; assumption|assumption].
    + intros H. apply IHb in H as (s' & g' & Hb & H).
      exists s', g'; split; [apply M_AltR; assumption|assumption].
  - intros H. apply IHa in H as (s' & g' & Ha & H).
    exists s', ((n, consumed s s') :: g'); split; [constructor; assumption|assumption].
  - intros H. apply (star_sound c s g) in H as (s' & Hm & H). eauto.
  - intros H. apply (lazy_sound c s g) in H as (s' & Hm & H). eauto.
  - destruct (m a s g _) as [[s1 g1]|] eqn:Ha; [|discriminate].
    apply IHa in Ha as (s' & g' & Ha & [= -> ->]).
    intros H; exists s, g1; split; [econstructor; eassumption|assumption].
  - destruct s as [|x [|y s]].
    + intros H; exists [], g; split; [constructor; auto|assumption].
    + destruct (x =? 10) eqn:Hx; [|discriminate]. apply N.eqb_eq in Hx as ->.
      intros H; exists [10], g; split; [constructor; auto|assumption].
    + discriminate.
Qed.

(** A match leaves a suffix of the text it started on. *)
Lemma matches_suffix r s g s' g' :
  matches r s g s' g' -> s = consumed s s' ++ s'.
Proof.
  assert (Hx : forall r s g s' g', matches r s g s' g' -> exists t, s = t ++ s').
  { clear. induction 1.
    - eauto.
    - exists [x]; reflexivity.
    - destruct IHmatches1 as [t1 ->], IHmatches2 as [t2 ->].
      exists (t1 ++ t2). rewrite <- app_assoc; reflexivity.
    - assumption.
    - assumption.
    - assumption.
    - exists []; reflexivity.
    - destruct IHmatches as [t ->]. exists (x :: t); reflexivity.
    - exists []; reflexivity.
    - destruct IHmatches as [t ->]. exists (x :: t); reflexivity.
    - exists []; reflexivity.
    - exists []; reflexivity. }
  intros H. destruct (Hx _ _ _ _ _ H) as [t ->]. rewrite consumed_app; reflexivity.
Qed.

(** Captures are only added, and a pattern that binds a group has it
    among the captures of each of its matches. *)
Lemma matches_binds n r s g s' g' :
  matches r s g s' g' ->
  (binds n r = true \/ is_Some (cap_lookup n g)) -> is_Some (cap_lookup n g').
Proof.
  induction 1; simpl.
  - intros [[=]|Hg]; exact Hg.
  - intros [[=]|Hg]; exact Hg.
  - rewrite orb_true_iff. intros [[Ha|Hb]|Hg]; auto.
  - rewrite andb_true_iff. intros [[Ha Hb]|Hg]; auto.
  - rewrite andb_true_iff. intros [[Ha Hb]|Hg]; auto.
  - rewrite orb_true_iff. intros Hn.
    destruct (Nat.eqb n0 n) eqn:E; [eauto|].
    apply IHmatches. destruct Hn as [[[=]|Ha]|Hg]; auto.
  - intros [[=]|Hg]; exact Hg.
  - intros [[=]|Hg]; exact Hg.
  - intros [[=]|Hg]; exact Hg.
  - intros [[=]|Hg]; exact Hg.
  - auto.
  - intros [[=]|Hg]; exact Hg.
Qed.

Lemma match_at_sound r s t g :
  match_at r s = Some (t, g) ->
  exists s', matches r s [] s' g /\ s = t ++ s'.
Proof.
  unfold match_at. destruct (m r s [] _) as [[s' g']|] eqn:Hm; [|discriminate].
  intros [= <- <-]. apply m_sound in Hm as (s1 & g1 & Hm & [= -> ->]).
  exists s'; split; [assumption|]. apply matches_suffix in Hm; assumption.
Qed.

Lemma search_from_sound r : forall s i mt,
  search_from r i s = Some mt ->
  exists pre s', s = pre ++ s' /\ match_at r s' = Some (m_text mt, m_groups mt).
Proof.
  induction s as [|x s IH]; intros i mt; simpl.
  - destruct (match_at r []) as [[t g]|] eqn:Hm; [|discriminate].
    intros [= <-]; exists [], []; auto.
  - destruct (match_at r (x :: s)) as [[t g]|] eqn:Hm.
    + intros [= <-]; exists [], (x :: s); auto.
    + intros H. apply IH in H as (pre & s' & -> & H).
      exists (x :: pre), s'; auto.
Qed.

(** The group a pattern binds can be read from every match found. *)
Lemma search_group r n s mt :
  binds n r = true -> re_search r s = Some mt ->
  is_Some (cap_lookup n (m_groups mt)).
Proof.
  intros Hb Hs. apply search_from_sound in Hs as (pre & s' & _ & Hm).
  apply match_at_sound in Hm as (s1 & Hm & _).
  eapply matches_binds; [eassumption|auto].
Qed.

Lemma group_ok r n s mt :
  binds (S n) r = true -> re_search r s = Some mt ->
  group (Some mt) (S n) = Ok (group_or_empty (S n) (m_groups mt)).
Proof.
  intros Hb Hs. destruct (search_group r (S n) s mt Hb Hs) as [v Hv].
  unfold group, group_or_empty. rewrite Hv. reflexivity.
Qed.
End MatcherFacts.

(** ** The decoder never raises, and what it computes *)

Lemma bind_Ok {A B} (a : A) (f : A -> exc B) : (Ok a ≫= f) = f a.
Proof. reflexivity. Qed.

Lemma upd_frame {A B} (proj : Project -> B) (x : option A) f p :
  (forall a q, proj (f a q) = proj q) -> proj (upd x f p) = proj p.
Proof. intros H; destruct x; simpl; auto. Qed.

Section DecoderSteps.
Context {U : Unicode}.

Lemma guarded_group r part (f : str -> Project -> Project) p :
  binds 1 r = true ->
  (if matched (re_search r part) then t ← group (re_search r part) 1; Ok (f t p) else Ok p)
  = Ok (upd (re_search r part) (fun mt => f (g1 mt)) p).
Proof.
  intros Hb. destruct (re_search r part) as [mt|] eqn:E; [|reflexivity].
  rewrite (group_ok r 0 part mt Hb E). reflexivity.
Qed.

Lemma parse_title_ok part p :
  parse_title part p =
  Ok (upd (re_search title_re part)
        (fun mt p => set_id (slug (strip (g1 mt))) (set_title (strip (g1 mt)) p)) p).
Proof. apply (guarded_group title_re part (fun t p => set_id (slug (strip t)) (set_title (strip t) p))). reflexivity. Qed.

Lemma parse_short_ok part p :
  parse_short part p =
  Ok (upd (re_search short_re part) (fun mt => set_short_description (strip (g1 mt))) p).
Proof. apply (guarded_group short_re part (fun t => set_short_description (strip t))). reflexivity. Qed.

Lemma parse_long_ok part p :
  parse_long part p =
  Ok (upd (re_search long_re part)
        (fun mt p => if long_ok mt then set_long_description (strip (g1 mt)) p else p) p).
Proof.
  unfold parse_long, long_ok. destruct (re_search long_re part) as [mt|] eqn:E; [|reflexivity].
  rewrite (group_ok long_re 0 part mt eq_refl E). cbn.
  destruct (contains (u "<a href") (m_text mt)); [reflexivity|].
  destruct (contains (u "<img") (m_text mt)); reflexivity.
Qed.

Lemma parse_technologies_ok part p :
  parse_technologies part p =
  Ok (upd (re_search tech_re part) (fun mt => set_technologies (re_findall1 code_re (g1 mt))) p).
Proof. apply (guarded_group tech_re part (fun t => set_technologies (re_findall1 code_re t))). reflexivity. Qed.

Lemma parse_features_ok part p :
  parse_features part p =
  Ok (upd (re_search features_re part) (fun mt => set_features (re_findall1 bullet_re (g1 mt))) p).
Proof. apply (guarded_group features_re part (fun t => set_features (re_findall1 bullet_re t))). reflexivity. Qed.

Lemma binds_href prefix : binds 1 (href_re prefix) = true.
Proof. reflexivity. Qed.

Lemma binds_badge label : binds 1 (badge_re label) = true.
Proof. reflexivity. Qed.

Lemma parse_store_link_ok gate prefix key part p :
  parse_store_link gate prefix key part p =
  Ok (upd (gated (contains gate part) (re_search (href_re prefix) part)) (set_link key) p).
Proof.
  unfold parse_store_link, gated. destruct (contains gate part); [|reflexivity].
  apply (guarded_group (href_re prefix) part (fun t p => set_links (<[key := t]> (links p)) p)).
  apply binds_href.
Qed.

Lemma parse_badge_link_ok label key part p :
  parse_badge_link label key part p =
  Ok (upd (re_search (badge_re label) part) (set_link key) p).
Proof.
  apply (guarded_group (badge_re label) part (fun t p => set_links (<[key := t]> (links p)) p)).
  apply binds_badge.
Qed.

Lemma parse_links_ok part p : parse_links part p = Ok (links_upd part p).
Proof.
  unfold parse_links, links_upd.
  rewrite !parse_store_link_ok, !bind_Ok, !parse_store_link_ok, !bind_Ok.
  rewrite !parse_store_link_ok, !bind_Ok, !parse_badge_link_ok, !bind_Ok.
  rewrite parse_badge_link_ok. reflexivity.
Qed.

Lemma parse_banner_ok part p :
  parse_banner part p = Ok (upd (re_search banner_re part) (fun mt => set_banner_image (g1 mt)) p).
Proof. apply (guarded_group banner_re part set_banner_image). reflexivity. Qed.

Lemma parse_logo_ok part p :
  parse_logo part p =
  Ok (upd (re_search logo_re part) (fun mt p => set_show_logo true (set_logo_url (g1 mt) p)) p).
Proof. apply (guarded_group logo_re part (fun t p => set_show_logo true (set_logo_url t p))). reflexivity. Qed.

Lemma parse_border_ok part p :
  parse_border part p =
  Ok (upd (gated (border_gate part) (Some tt))
        (fun _ p => set_border_style (border_of part) (set_show_border true p)) p).
Proof.
  unfold parse_border, border_gate, border_of, gated.
  destruct (_ || _); simpl; [|reflexivity].
  destruct (contains (u "border-radius: 12px") part); [reflexivity|].
  destruct (contains (u "dashed") part); reflexivity.
Qed.

Lemma parse_layout_ok part p :
  parse_layout part p = Ok (set_screenshot_layout (layout_of part) p).
Proof.
  unfold parse_layout, layout_of. destruct (contains (u "<table") part); [reflexivity|].
  destruct (_ && _); reflexivity.
Qed.

Lemma parse_size_ok part p :
  parse_size part p = Ok (upd (re_search size_re part) size_of p).
Proof.
  unfold parse_size, size_of. destruct (re_search size_re part) as [mt|] eqn:E; [|reflexivity].
  rewrite (group_ok size_re 0 part mt eq_refl E). cbn. fold (g1 mt).
  destruct (int (g1 mt)); reflexivity.
Qed.

Lemma parse_part_ok part : parse_part part = Ok (decoded part).
Proof.
  unfold parse_part, decoded.
  rewrite parse_title_ok, bind_Ok. unfold parse_categories at 1. rewrite bind_Ok.
  rewrite parse_short_ok, bind_Ok, parse_long_ok, bind_Ok, parse_technologies_ok, bind_Ok.
  rewrite parse_features_ok, bind_Ok, parse_links_ok, bind_Ok.
  unfold parse_screenshots at 1. rewrite bind_Ok.
  rewrite parse_banner_ok, bind_Ok, parse_logo_ok, bind_Ok, parse_border_ok, bind_Ok.
  rewrite parse_layout_ok, bind_Ok, parse_size_ok. reflexivity.
Qed.

Lemma parse_loop_ok parts : forall acc,
  parse_loop parts acc = Ok (acc ++ List.map decoded (List.filter kept parts)).
Proof.
  induction parts as [|part rest IH]; intros acc; simpl.
  - rewrite app_nil_r; reflexivity.
  - unfold kept at 1. destruct (contains (u "## ") part); simpl; [|apply IH].
    rewrite parse_part_ok, bind_Ok, IH.
    destruct (truthy (title (decoded part))); simpl; [|reflexivity].
    rewrite <- app_assoc; reflexivity.
Qed.

Lemma parse_md_ok self content :
  _parse_md self content =
  Ok {| projects := List.map decoded (List.filter kept (re_split sep_re content));
        file_path := file_path self |}.
Proof. unfold _parse_md. rewrite parse_loop_ok, bind_Ok. reflexivity. Qed.
End DecoderSteps.

(** ** Reading a field of the decoded record *)

Lemma fold_frame {B} (proj : Project -> B) (l : list (str * str)) : forall p,
  (forall q ne, proj (add_screenshot q ne) = proj q) ->
  proj (fold_left add_screenshot l p) = proj p.
Proof.
  induction l as [|ne l IH]; intros p H; simpl; [reflexivity|].
  rewrite IH by assumption. apply H.
Qed.

Ltac frame_side :=
  intros; unfold size_of, set_link, add_screenshot; repeat case_match; reflexivity.

(** Skip the extractions that do not assign the field [proj]. *)
Ltac frame proj :=
  repeat first
    [ rewrite (upd_frame proj) by frame_side
    | rewrite (fold_frame proj) by frame_side
    | progress unfold links_upd
    | progress simpl ].

Section DecodedFields.
Context {U : Unicode}.

Lemma decoded_show_logo part : show_logo (decoded part) = true.
Proof.
  unfold decoded. frame show_logo.
  destruct (re_search logo_re part); simpl; frame show_logo; reflexivity.
Qed.

Lemma decoded_title part :
  title (decoded part) =
  match re_search title_re part with
  | Some mt => strip (g1 mt)
  | None => []
  end.
Proof. unfold decoded. frame title. destruct (re_search title_re part); reflexivity. Qed.

Lemma decoded_id part :
  id (decoded part) =
  match re_search title_re part with
  | Some mt => slug (strip (g1 mt))
  | None => []
  end.
Proof. unfold decoded. frame id. destruct (re_search title_re part); reflexivity. Qed.

Lemma decoded_categories part :
  categories (decoded part) =
  List.filter (fun c => str_in c known_categories) (re_findall1 category_re part).
Proof. unfold decoded. frame categories. reflexivity. Qed.

Lemma decoded_short part :
  short_description (decoded part) =
  match re_search short_re part with
  | Some mt => strip (g1 mt)
  | None => []
  end.
Proof.
  unfold decoded. frame short_description.
  destruct (re_search short_re part); simpl; frame short_description; reflexivity.
Qed.

Lemma decoded_long part :
  long_description (decoded part) =
  match re_search long_re part with
  | Some mt => if long_ok mt then strip (g1 mt) else []
  | None => []
  end.
Proof.
  unfold decoded. frame long_description.
  destruct (re_search long_re part) as [mt|]; simpl;
    [destruct (long_ok mt); simpl|]; frame long_description; reflexivity.
Qed.

Lemma decoded_technologies part :
  technologies (decoded part) =
  match re_search tech_re part with
  | Some mt => re_findall1 code_re (g1 mt)
  | None => []
  end.
Proof.
  unfold decoded. frame technologies.
  destruct (re_search tech_re part); simpl; frame technologies; reflexivity.
Qed.

Lemma decoded_features part :
  features (decoded part) =
  match re_search features_re part with
  | Some mt => re_findall1 bullet_re (g1 mt)
  | None => []
  end.
Proof.
  unfold decoded. frame features.
  destruct (re_search features_re part); simpl; frame features; reflexivity.
Qed.

Lemma links_upd_set key (x : option Match) p :
  links (upd x (set_link key) p) = link_ins key x (links p).
Proof. destruct x; reflexivity. Qed.

Lemma decoded_links part :
  links (decoded part) =
  link_ins (u "apk") (re_search (badge_re (u "APK")) part)
    (link_ins (u "website") (re_search (badge_re (u "Website")) part)
       (link_ins (u "github")
          (gated (contains (u "github.com") part)
             (re_search (href_re (u "https://github.com")) part))
          (link_ins (u "appStore")
             (gated (contains (u "apps.apple.com") part)
                (re_search (href_re (u "https://apps.apple.com")) part))
             (link_ins (u "playStore")
                (gated (contains (u "play.google.com") part)
                   (re_search (href_re (u "https://play.google.com")) part)) ∅)))).
Proof.
  unfold decoded. frame links. rewrite !links_upd_set. frame links. reflexivity.
Qed.

Lemma fold_add_screenshot l : forall p,
  screenshots (fold_left add_screenshot l p) = screenshots p ++ List.map screenshot_name l /\
  screenshots_local_paths (fold_left add_screenshot l p)
  = screenshots_local_paths p ++ List.map screenshot_name l.
Proof.
  induction l as [|ne l IH]; intros p; simpl; [rewrite !app_nil_r; auto|].
  destruct (IH (add_screenshot p ne)) as [-> ->]. simpl.
  rewrite <- !app_assoc. auto.
Qed.

Lemma decoded_screenshots part :
  screenshots (decoded part) = List.map screenshot_name (re_findall2 screenshot_re part).
Proof.
  unfold decoded. frame screenshots.
  rewrite (proj1 (fold_add_screenshot _ _)). frame screenshots. reflexivity.
Qed.

Lemma decoded_screenshots_local_paths part :
  screenshots_local_paths (decoded part)
  = List.map screenshot_name (re_findall2 screenshot_re part).
Proof.
  unfold decoded. frame screenshots_local_paths.
  rewrite (proj2 (fold_add_screenshot _ _)). frame screenshots_local_paths. reflexivity.
Qed.

Lemma decoded_banner part :
  banner_image (decoded part) =
  match re_search banner_re part with
  | Some mt => g1 mt
  | None => []
  end.
Proof.
  unfold decoded. frame banner_image.
  destruct (re_search banner_re part); simpl; frame banner_image; reflexivity.
Qed.

Lemma decoded_logo_url part :
  logo_url (decoded part) =
  match re_search logo_re part with
  | Some mt => g1 mt
  | None => []
  end.
Proof.
  unfold decoded. frame logo_url.
  destruct (re_search logo_re part); simpl; frame logo_url; reflexivity.
Qed.

Lemma decoded_show_border part : show_border (decoded part) = border_gate part.
Proof.
  unfold decoded. frame show_border.
  destruct (border_gate part); simpl; frame show_border; reflexivity.
Qed.

Lemma decoded_border_style part :
  border_style (decoded part) = if border_gate part then border_of part else u "rounded".
Proof.
  unfold decoded. frame border_style.
  destruct (border_gate part); simpl; frame border_style; reflexivity.
Qed.

Lemma decoded_layout part : screenshot_layout (decoded part) = layout_of part.
Proof. unfold decoded. frame screenshot_layout. reflexivity. Qed.

Lemma decoded_size part :
  screenshot_size (decoded part) =
  match re_search size_re part with
  | Some mt => match int (g1 mt) with Ok n => n | Raise _ => 200%Z end
  | None => 200%Z
  end.
Proof.
  unfold decoded. frame screenshot_size.
  destruct (re_search size_re part) as [mt|]; simpl; [unfold size_of; destruct (int (g1 mt))|];
    simpl; frame screenshot_size; reflexivity.
Qed.

Lemma decoded_untouched part :
  banner_local_path (decoded part) = [] /\ logo_position (decoded part) = u "center" /\
  theme_color (decoded part) = u "#000000".
Proof.
  unfold decoded. repeat split.
  - frame banner_local_path; reflexivity.
  - frame logo_position; reflexivity.
  - frame theme_color; reflexivity.
Qed.
End DecodedFields.

(** ** The values of captured groups *)

Section Captures.
Context {U : Unicode}.

Lemma matches_length r s g s' g' :
  matches r s g s' g' ->
  (length s' <= length s)%nat /\ (nonnull r = true -> (length s' < length s)%nat).
Proof.
  induction 1; simpl.
  - rewrite length_app. split; [lia|]. destruct l; [discriminate|simpl; lia].
  - split; [lia|intros _; lia].
  - rewrite orb_true_iff. split; [lia|]. intros [Ha|Hb]; [apply IHmatches1 in Ha|apply IHmatches2 in Hb]; lia.
  - rewrite andb_true_iff. split; [lia|]. intros [Ha _]. apply IHmatches; assumption.
  - rewrite andb_true_iff. split; [lia|]. intros [_ Hb]. apply IHmatches; assumption.
  - assumption.
  - split; [lia|discriminate].
  - split; [lia|discriminate].
  - split; [lia|discriminate].
  - split; [lia|discriminate].
  - split; [lia|discriminate].
  - split; [lia|discriminate].
Qed.

Lemma consumed_nonempty (s s' : str) : (length s' < length s)%nat -> consumed s s' <> [].
Proof.
  unfold consumed. intros H E. apply (f_equal length) in E.
  rewrite length_take in E. simpl in E. lia.
Qed.

Lemma matches_cap_nonempty n r s g s' g' :
  matches r s g s' g' -> grp_nonnull n r = true ->
  (forall v, cap_lookup n g = Some v -> v <> []) ->
  forall v, cap_lookup n g' = Some v -> v <> [].
Proof.
  induction 1; simpl; try (intros _ Hg; exact Hg).
  - rewrite andb_true_iff. intros [Ha Hb] Hg. auto.
  - rewrite andb_true_iff. intros [Ha Hb] Hg. auto.
  - rewrite andb_true_iff. intros [Ha Hb] Hg. auto.
  - rewrite andb_true_iff. intros [Hn Ha] Hg v.
    destruct (Nat.eqb n0 n).
    + intros [= <-]. apply consumed_nonempty. apply (matches_length _ _ _ _ _ H). assumption.
    + apply IHmatches; assumption.
  - auto.
Qed.

Lemma search_cap_nonempty r n s mt :
  grp_nonnull n r = true -> re_search r s = Some mt ->
  group_or_empty n (m_groups mt) <> [] \/ cap_lookup n (m_groups mt) = None.
Proof.
  intros Hn Hs. apply search_from_sound in Hs as (pre & s' & _ & Hm).
  apply match_at_sound in Hm as (s1 & Hm & _). unfold group_or_empty.
  destruct (cap_lookup n (m_groups mt)) as [v|] eqn:E; [left|right; reflexivity].
  eapply matches_cap_nonempty; [eassumption..| |eassumption]. discriminate.
Qed.

Lemma search_g1_nonempty r s mt :
  binds 1 r = true -> grp_nonnull 1 r = true -> re_search r s = Some mt -> g1 mt <> [].
Proof.
  intros Hb Hn Hs. destruct (search_cap_nonempty r 1 s mt Hn Hs) as [H|H]; [exact H|].
  destruct (search_group r 1 s mt Hb Hs) as [v Hv]. congruence.
Qed.
End Captures.

(** ** The keys of [links] *)

Section LinkKeys.
Context {U : Unicode}.

Lemma link_ins_wf key x d :
  In key link_keys -> (forall mt, x = Some mt -> g1 mt <> []) ->
  links_wf d -> links_wf (link_ins key x d).
Proof.
  intros Hk Hx Hd. destruct x as [mt|]; simpl; [|exact Hd].
  intros k v. destruct (decide (key = k)) as [<-|Hne].
  - rewrite lookup_insert_eq. intros [= <-]. split; [assumption|]. apply Hx; reflexivity.
  - rewrite lookup_insert_ne by assumption. apply Hd.
Qed.

Lemma gated_some {A} c (x : option A) a : gated c x = Some a -> x = Some a.
Proof. unfold gated. destruct c; [auto|discriminate]. Qed.

Lemma decoded_links_wf part : links_wf (links (decoded part)).
Proof.
  rewrite decoded_links.
  repeat apply link_ins_wf; try (simpl; tauto).
  - intros mt H. apply (search_g1_nonempty (badge_re (u "APK")) part mt); auto.
  - intros mt H. apply (search_g1_nonempty (badge_re (u "Website")) part mt); auto.
  - intros mt H%gated_some.
    apply (search_g1_nonempty (href_re (u "https://github.com")) part mt); auto.
  - intros mt H%gated_some.
    apply (search_g1_nonempty (href_re (u "https://apps.apple.com")) part mt); auto.
  - intros mt H%gated_some.
    apply (search_g1_nonempty (href_re (u "https://play.google.com")) part mt); auto.
  - intros k v. rewrite lookup_empty. discriminate.
Qed.
End LinkKeys.

(** ** Claims about every decoded record *)

Section DecoderClaims.
Context {U : Unicode}.

Lemma kept_title part : kept part = true -> title (decoded part) <> [].
Proof.
  unfold kept. rewrite andb_true_iff. intros [_ H].
  destruct (title (decoded part)); [discriminate|discriminate].
Qed.

Lemma parse_md_projects self content app :
  _parse_md self content = Ok app ->
  projects app = List.map decoded (List.filter kept (re_split sep_re content)).
Proof. rewrite parse_md_ok. intros [= <-]. reflexivity. Qed.

Lemma Forall_decoded (P : Project -> Prop) parts :
  (forall part, P (decoded part)) -> Forall P (List.map decoded parts).
Proof. intros H. induction parts; simpl; constructor; auto. Qed.
End DecoderClaims.

(** C10: every record the decoder returns has [show_logo = True]: the
    constructor sets it, and the decoder assigns it only [True]; so a
    record encoded with [show_logo = False] is decoded with
    [show_logo = True]. *)
Theorem decoder_show_logo_true {U : Unicode} {OS : OsPath} :
  show_logo Project_init = true /\
  (forall self content,
     exists app, _parse_md self content = Ok app /\
                 Forall (fun p => show_logo p = true) (projects app)) /\
  (forall p, exists q, parse_part (_generate_project_md p) = Ok q /\ show_logo q = true).
Proof.
  split; [reflexivity|]. split.
  - intros self content. eexists. split; [apply parse_md_ok|]. simpl.
    apply Forall_decoded, decoded_show_logo.
  - intros p. exists (decoded (_generate_project_md p)).
    split; [apply parse_part_ok|apply decoded_show_logo].
Qed.

(** A document with one project whose logo is switched off comes back
    with the logo switched on. *)
Example show_logo_false_comes_back_true :
  let U := ascii_tables in
  let OS := Posix.os_path (fun _ => false) in
  let p := set_show_logo false (set_title (u "Demo") Project_init) in
  (app ← _parse_md empty_app (_generate_project_md p);
   Ok (List.map (fun q => (title q, show_logo q)) (projects app)))
  = Ok [(u "Demo", true)].
Proof. vm_compute. reflexivity. Qed.

(** C3, as the program has it: a record just constructed has no key in
    [links], and every record of a decoded document has only keys among
    the five, each with a URL that is not empty.  An absent link is an
    absent key. *)
Theorem decoder_links_keys {U : Unicode} :
  links Project_init = ∅ /\
  (forall self content,
     exists app, _parse_md self content = Ok app /\
       Forall (fun p => forall k v, links p !! k = Some v -> In k link_keys /\ v <> [])
              (projects app)).
Proof.
  split; [reflexivity|].
  intros self content. eexists. split; [apply parse_md_ok|]. simpl.
  apply Forall_decoded. exact decoded_links_wf.
Qed.

(** C3 fails as stated: the record of the constructor and the record
    decoded from a block without links have none of the five keys. *)
Lemma links_keys_absent :
  let U := ascii_tables in
  Forall (fun k => links Project_init !! k = None) link_keys /\
  (p ← parse_part (u "## Demo"); Ok (title p, map_to_list (links p))) = Ok (u "Demo", []).
Proof. split; [repeat constructor|vm_compute; reflexivity]. Qed.

(** ** The decoder is total and best-effort *)

Ltac key_ne := let H := fresh in intros H; vm_compute in H; discriminate H.

Section Defaults.
Context {U : Unicode}.


Lemma gated_none {A} c (x : option A) : x = None -> gated c x = None.
Proof. intros ->. destruct c; reflexivity. Qed.



End Defaults.


(** ** The slug *)

Section Slug.
Context {U : Unicode}.

Lemma match_at_atom c x s :
  match_at (Atom c) (x :: s) = if cls_test c x then Some ([x], []) else None.
Proof.
  unfold match_at. simpl. destruct (cls_test c x); [|reflexivity].
  unfold consumed. simpl. replace (S (length s) - length s)%nat with 1%nat by lia.
  reflexivity.
Qed.

(** Substituting the empty string for a one-character class drops the
    characters of the class. *)
Lemma re_sub_atom c s :
  re_sub (Atom c) [] s = List.filter (fun x => negb (cls_test c x)) s.
Proof.
  unfold re_sub. induction s as [|x s IH]; [reflexivity|].
  cbn [sub_go List.filter]. rewrite match_at_atom.
  destruct (cls_test c x); simpl; rewrite IH; reflexivity.
Qed.

Lemma slug_ranges : [rg "a" "z"; rg "0" "9"; ch "-"] = [(97, 122); (48, 57); (45, 45)].
Proof. reflexivity. Qed.

Lemma slug_class x : negb (cls_test (NoneOf [rg "a" "z"; rg "0" "9"; ch "-"]) x) = is_slug_char x.
Proof.
  rewrite slug_ranges. unfold is_slug_char. simpl.
  rewrite negb_involutive, orb_false_r, orb_assoc. f_equal.
  unfold in_range. destruct (N.eqb_spec x 45) as [->|Hne]; [reflexivity|].
  destruct (N.leb_spec 45 x), (N.leb_spec x 45); try reflexivity. lia.
Qed.

Lemma slug_filter s : slug s = List.filter is_slug_char (replace_char 32 45 (lower s)).
Proof.
  unfold slug, slug_re. rewrite re_sub_atom.
  apply filter_ext. intros x. apply slug_class.
Qed.

Lemma slug_char_facts c :
  is_slug_char c = true -> (c <? 128) = true /\ in_range 65 90 c = false /\ (c =? 32) = false.
Proof.
  unfold is_slug_char, in_range. rewrite !orb_true_iff, !andb_true_iff, !N.leb_le, N.eqb_eq.
  intros H. rewrite N.ltb_lt, andb_false_iff, N.leb_gt, N.leb_gt, N.eqb_neq. lia.
Qed.

Lemma lower_slug_chars s : forall before,
  forallb is_slug_char s = true -> lower_from before s = s.
Proof.
  induction s as [|c s IH]; intros before; simpl; [reflexivity|].
  rewrite andb_true_iff. intros [Hc Hs].
  destruct (slug_char_facts c Hc) as (-> & -> & _). simpl. f_equal. apply IH; assumption.
Qed.

Lemma replace_slug_chars s :
  forallb is_slug_char s = true -> replace_char 32 45 s = s.
Proof.
  induction s as [|c s IH]; simpl; [reflexivity|].
  rewrite andb_true_iff. intros [Hc Hs].
  destruct (slug_char_facts c Hc) as (_ & _ & ->). f_equal. apply IH; assumption.
Qed.

Lemma filter_all {A} (f : A -> bool) l : forallb f l = true -> List.filter f l = l.
Proof.
  induction l as [|a l IH]; simpl; [reflexivity|].
  rewrite andb_true_iff. intros [-> Hl]. f_equal. apply IH; assumption.
Qed.

Lemma forallb_filter {A} (f : A -> bool) l : forallb f (List.filter f l) = true.
Proof.
  induction l as [|a l IH]; simpl; [reflexivity|].
  destruct (f a) eqn:E; simpl; [rewrite E|]; assumption.
Qed.
End Slug.

(** C6: the slug of any string is defined, holds only characters of
    [[a-z0-9-]], and is its own slug. *)
Theorem slug_idempotent {U : Unicode} (s : str) :
  forallb is_slug_char (slug s) = true /\ slug (slug s) = slug s.
Proof.
  assert (H : forallb is_slug_char (slug s) = true).
  { rewrite slug_filter. apply forallb_filter. }
  split; [exact H|].
  rewrite (slug_filter (slug s)). unfold lower.
  rewrite lower_slug_chars, replace_slug_chars, filter_all; auto.
Qed.

(** ** The grid of screenshots *)

(** Replace the literals of the goal by their characters. *)
Ltac lits :=
  repeat match goal with
    | |- context [u ?s] => let v := eval vm_compute in (u s) in change (u s) with v
    | |- context [ch ?s] => let v := eval vm_compute in (ch s) in change (ch s) with v
    | |- context [rg ?a ?b] => let v := eval vm_compute in (rg a b) in change (rg a b) with v
    end.

Ltac lits_in H :=
  repeat match type of H with
    | context [u ?s] => let v := eval vm_compute in (u s) in change (u s) with v in H
    end.

Section Grid.
Context {U : Unicode} {OS : OsPath}.
Variables (p : Project) (size : Z).

Lemma pair_ind {A} (P : list A -> Prop) :
  P [] -> (forall a, P [a]) -> (forall a b l, P l -> P (a :: b :: l)) -> forall l, P l.
Proof.
  intros H0 H1 H2 l. enough (P l /\ forall a, P (a :: l)) by tauto.
  induction l as [|b l [IH1 IH2]]; [auto|]. split; [apply IH2|]. intros a. apply H2, IH1.
Qed.

Lemma drop_lookup {A} (l : list A) i a :
  l !! i = Some a -> drop i l = a :: drop (S i) l.
Proof.
  revert i; induction l as [|x l IH]; intros [|i]; simpl; try discriminate.
  - intros [= ->]. rewrite drop_0. reflexivity.
  - apply IH.
Qed.

Lemma grid_row_text l i a :
  l !! i = Some a ->
  grid_row p size l i = row_text p size (a, l !! S i).
Proof.
  intros H. unfold grid_row, row_text, grid_cell. simpl.
  rewrite Nat.add_0_r, Nat.add_1_r, H. destruct a as [idx ss]. reflexivity.
Qed.

Lemma range_rows l fuel : forall start,
  (length l - start <= fuel)%nat ->
  List.map (grid_row p size l) (range_go fuel start (length l) 2)
  = List.map (row_text p size) (rows_of (drop start l)).
Proof.
  induction fuel as [|f IH]; intros start Hf.
  - rewrite drop_ge by lia. reflexivity.
  - simpl. destruct (Nat.ltb_spec start (length l)) as [Hlt|Hge].
    2:{ rewrite drop_ge by lia. reflexivity. }
    destruct (lookup_lt_is_Some_2 l start Hlt) as [a Ha].
    simpl. rewrite (grid_row_text l start a Ha), IH by lia.
    rewrite (drop_lookup l start a Ha).
    destruct (l !! S start) as [b|] eqn:Hb.
    + rewrite (drop_lookup l (S start) b Hb). replace (start + 2)%nat with (S (S start)) by lia.
      reflexivity.
    + apply lookup_ge_None in Hb. rewrite !drop_ge by lia. reflexivity.
Qed.

Lemma grid_rows_text :
  grid_rows p size = concat (List.map (row_text p size) (rows_of (enumerate 1 (screenshots p)))).
Proof.
  unfold grid_rows, range. rewrite range_rows by lia. rewrite drop_0. reflexivity.
Qed.

Lemma rows_of_length (l : list (nat * str)) :
  length (rows_of l) = Nat.div2 (S (length l)).
Proof.
  induction l as [| |a b l IH] using pair_ind; [reflexivity..|].
  simpl in *. rewrite IH. reflexivity.
Qed.

Lemma rows_of_last (l : list (nat * str)) :
  l <> [] ->
  exists init a c2, rows_of l = init ++ [(a, c2)] /\ (c2 = None <-> Nat.odd (length l) = true).
Proof.
  induction l as [| |a b l IH] using pair_ind; intros Hl.
  - congruence.
  - exists [], a, None. split; [reflexivity|]. simpl. tauto.
  - destruct l as [|c l].
    + exists [], a, (Some b). split; [reflexivity|]. simpl. split; discriminate.
    + destruct IH as (init & a' & c2 & E & Hodd); [discriminate|].
      exists ((a, Some b) :: init), a', c2. split.
      * change (rows_of (a :: b :: c :: l)) with ((a, Some b) :: rows_of (c :: l)).
        rewrite E. reflexivity.
      * rewrite Hodd. change (length (a :: b :: c :: l)) with (S (S (length (c :: l)))).
        rewrite Nat.odd_succ_succ. tauto.
Qed.

Lemma cell_text_not_tr x : str_eqb (u "  <tr>") (cell_text p size x) = false.
Proof. destruct x as [[idx ss]|]; reflexivity. Qed.

Lemma count_rows rs :
  count_line (u "  <tr>") (concat (List.map (row_text p size) rs)) = length rs.
Proof.
  unfold count_line. induction rs as [|r rs IH]; [reflexivity|].
  cbn [List.map concat row_text app List.filter].
  rewrite !cell_text_not_tr. simpl. f_equal. exact IH.
Qed.

Lemma cell_text_empty x : cell_text p size x = u "    <td></td>" <-> x = None.
Proof.
  destruct x as [[idx ss]|]; simpl; [|tauto].
  split; [|discriminate]. intros H. lits_in H. simpl in H. discriminate H.
Qed.
End Grid.

Section GridClaim.
Context {U : Unicode} {OS : OsPath}.

Lemma count_line_app l a b : count_line l (a ++ b) = (count_line l a + count_line l b)%nat.
Proof. unfold count_line. rewrite List.filter_app, length_app. reflexivity. Qed.

Lemma count_line_zero l ls :
  Forall (fun x => str_eqb l x = false) ls -> count_line l ls = 0%nat.
Proof.
  unfold count_line. induction 1 as [|x ls Hx _ IH]; simpl; [reflexivity|].
  rewrite Hx. exact IH.
Qed.

Lemma Forall_map_all {A} (P : str -> Prop) (f : A -> str) l :
  (forall x, P (f x)) -> Forall P (List.map f l).
Proof. intros H. induction l; simpl; constructor; auto. Qed.

(** No line before the table is the opening of a row. *)
Lemma head_no_tr p :
  count_line (u "  <tr>") (logo_lines p) = 0%nat /\
  count_line (u "  <tr>") (title_lines p) = 0%nat /\
  count_line (u "  <tr>") (category_lines p) = 0%nat /\
  count_line (u "  <tr>") (banner_lines p) = 0%nat /\
  count_line (u "  <tr>") (description_lines p) = 0%nat /\
  count_line (u "  <tr>") (links_lines p) = 0%nat /\
  count_line (u "  <tr>") (tech_lines p) = 0%nat /\
  count_line (u "  <tr>") (features_lines p) = 0%nat.
Proof.
  assert (H1 : count_line (u "  <tr>") (logo_lines p) = 0%nat).
  { unfold logo_lines. destruct (_ && _); reflexivity. }
  assert (H2 : count_line (u "  <tr>") (title_lines p) = 0%nat) by reflexivity.
  assert (H3 : count_line (u "  <tr>") (category_lines p) = 0%nat).
  { unfold category_lines. destruct (categories p) as [|c [|c2 cs]]; reflexivity. }
  assert (H4 : count_line (u "  <tr>") (banner_lines p) = 0%nat).
  { unfold banner_lines. destruct (truthy _); reflexivity. }
  assert (H5 : count_line (u "  <tr>") (description_lines p) = 0%nat).
  { unfold description_lines. destruct (truthy _), (truthy _); reflexivity. }
  assert (H6 : count_line (u "  <tr>") (links_lines p) = 0%nat).
  { unfold links_lines. destruct (link_badges _ _) as [|b bs] eqn:E; [reflexivity|].
    rewrite <- E. clear E. rewrite !count_line_app.
    rewrite (count_line_zero _ (List.map _ _)); [reflexivity|].
    apply List.Forall_map. unfold link_badges.
    repeat (apply Forall_app; split);
      destruct (get_truthy _ _); constructor; try reflexivity; constructor. }
  assert (H7 : count_line (u "  <tr>") (tech_lines p) = 0%nat).
  { unfold tech_lines. destruct (technologies p) as [|t ts] eqn:E; [reflexivity|].
    rewrite <- E. clear E. rewrite !count_line_app.
    rewrite (count_line_zero _ (List.map _ _)); [reflexivity|].
    apply Forall_map_all. intros x. reflexivity. }
  assert (H8 : count_line (u "  <tr>") (features_lines p) = 0%nat).
  { unfold features_lines. destruct (features p) as [|t ts] eqn:E; [reflexivity|].
    rewrite <- E. clear E. rewrite !count_line_app.
    rewrite (count_line_zero _ (List.map _ _)); [reflexivity|].
    apply Forall_map_all. intros x. reflexivity. }
  tauto.
Qed.
Lemma enumerate_length {A} (l : list A) : forall start, length (enumerate start l) = length l.
Proof. induction l as [|a l IH]; intros start; simpl; [reflexivity|]. rewrite IH. reflexivity. Qed.

Lemma screenshots_section_grid p :
  screenshot_layout p = u "grid" -> screenshots p <> [] ->
  screenshots_section p
  = [u "### Screenshots"; []; u "<table align='center'>"] ++ grid_rows p (grid_size p)
    ++ [u "</table>"; []].
Proof.
  intros Hl Hs. unfold screenshots_section, grid_size. rewrite Hl.
  destruct (screenshots p) as [|x xs] eqn:E; [congruence|]. clear E.
  change (or_str (u "grid") (u "horizontal")) with (u "grid").
  unfold screenshot_lines.
  change (str_eqb (u "grid") (u "horizontal")) with false.
  change (str_eqb (u "grid") (u "grid")) with true.
  cbv iota. rewrite <- !app_assoc. reflexivity.
Qed.

Lemma project_lines_border p :
  exists B1 B2, project_lines p = B1 ++ content_lines p ++ B2 /\
                count_line (u "  <tr>") B1 = 0%nat /\ count_line (u "  <tr>") B2 = 0%nat.
Proof.
  unfold project_lines. destruct (show_border p && _).
  - eexists [_; _], [_]. split; [reflexivity|]. split; reflexivity.
  - exists [], []. rewrite app_nil_r. split; [reflexivity|]. split; reflexivity.
Qed.
End GridClaim.

(** ** Matching on a text given in pieces *)

Section Pieces.
Context {U : Unicode}.

Lemma m_prefix_fail r : forall s g k,
  startswith (prefix_of r) s = false -> m r s g k = None.
Proof.
  induction r as [l|c|a IHa b IHb|a IHa b IHb|n a IHa|c|c|a IHa|]; intros s g k; simpl;
    try (destruct s; discriminate).
  - intros ->. reflexivity.
  - intros H. apply IHa. exact H.
  - intros H. apply IHa. exact H.
Qed.

Lemma match_at_prefix_fail r s :
  startswith (prefix_of r) s = false -> match_at r s = None.
Proof. intros H. unfold match_at. rewrite m_prefix_fail by exact H. reflexivity. Qed.

(** The search passes over a piece in which no match starts. *)
Lemma search_skip r a : forall i b,
  (forall t1 x t2, a = t1 ++ x :: t2 -> match_at r (x :: t2 ++ b) = None) ->
  search_from r i (a ++ b) = search_from r (i + length a) b.
Proof.
  induction a as [|x a IH]; intros i b H; simpl.
  - rewrite Nat.add_0_r. reflexivity.
  - rewrite (H [] x a eq_refl).
    rewrite IH; [f_equal; lia|].
    intros t1 y t2 ->. apply (H (x :: t1) y t2). reflexivity.
Qed.

Lemma search_skip_nostart r a i b :
  nostart (prefix_of r) a b ->
  search_from r i (a ++ b) = search_from r (i + length a) b.
Proof.
  intros H. apply search_skip. intros t1 x t2 E.
  apply match_at_prefix_fail. apply (H t1 x t2 E).
Qed.

Lemma contains_skip L a : forall b,
  nostart L a b -> contains L (a ++ b) = contains L b.
Proof.
  induction a as [|x a IH]; intros b H; [reflexivity|].
  change (contains L ((x :: a) ++ b)) with (startswith L (x :: a ++ b) || contains L (a ++ b)).
  rewrite (H [] x a eq_refl). simpl. apply IH.
  intros t1 y t2 ->. apply (H (x :: t1) y t2). reflexivity.
Qed.

Lemma contains_false_suffix L : forall t1 s, contains L (t1 ++ s) = false -> startswith L s = false.
Proof.
  induction t1 as [|y t1 IH]; intros s.
  - destruct s; simpl; rewrite orb_false_iff; tauto.
  - change (contains L ((y :: t1) ++ s))
      with (startswith L (y :: t1 ++ s) || contains L (t1 ++ s)).
    rewrite orb_false_iff. intros [_ H]. apply IH. exact H.
Qed.

(** What is read of [s] by [startswith L s] are its first [length L] characters. *)
Lemma startswith_take L : forall s, startswith L s = startswith L (take (length L) s).
Proof.
  induction L as [|c L IH]; intros s; [reflexivity|].
  destruct s as [|x s]; [reflexivity|]. simpl. rewrite <- IH. reflexivity.
Qed.

Lemma nostart_contains L a b : contains L (a ++ b) = false -> nostart L a b.
Proof.
  intros H t1 x t2 ->. apply (contains_false_suffix L t1).
  rewrite <- app_assoc in H. exact H.
Qed.

Lemma startswith_app_split L : forall t b,
  startswith L (t ++ b) = true ->
  startswith L t = true \/
  ((length t < length L)%nat /\ startswith (drop (length t) L) b = true
   /\ t = take (length t) L).
Proof.
  induction L as [|c L IH]; intros t b; simpl; [auto|].
  destruct t as [|x t]; simpl.
  - intros H. right. split; [lia|]. split; [exact H|reflexivity].
  - rewrite andb_true_iff. intros [Hx H]. apply N.eqb_eq in Hx as ->.
    destruct (IH t b H) as [Ht|(Hl & Hd & Hr)].
    + left. rewrite N.eqb_refl. exact Ht.
    + right. split; [lia|]. split; [exact Hd|]. f_equal. exact Hr.
Qed.

Lemma forallb_seq_neg (f : nat -> bool) lo n i :
  forallb (fun i => negb (f i)) (seq lo n) = true ->
  (lo <= i < lo + n)%nat -> f i = false.
Proof.
  rewrite forallb_forall. intros H Hi. apply negb_true_iff. apply H.
  apply in_seq. lia.
Qed.

Lemma contains_suffix_true L : forall t1 s, startswith L s = true -> contains L (t1 ++ s) = true.
Proof.
  intros t1 s H. destruct (contains L (t1 ++ s)) eqn:E; [reflexivity|].
  apply contains_false_suffix in E. congruence.
Qed.

(** A piece that does not contain [L] and that no head of [L] ends:
    no occurrence of [L] starts in the piece, whatever follows. *)
Lemma nostart_left L a b :
  contains L a = false -> nocross_left L a = true -> nostart L a b.
Proof.
  intros Ha Hla t1 x t2 ->.
  destruct (startswith L (x :: t2 ++ b)) eqn:E; [|reflexivity].
  apply (startswith_app_split L (x :: t2) b) in E as [Ht|(Hl & _ & Hr)].
  - apply (contains_suffix_true L t1) in Ht. simpl in Ht. congruence.
  - unfold nocross_left in Hla.
    pose proof (forallb_seq_neg (fun i => startswith (rev (take i L)) (rev (t1 ++ x :: t2)))
                  1 _ (length (x :: t2)) Hla) as Hf.
    rewrite rev_app_distr, <- Hr, startswith_app in Hf.
    simpl in Hl. discriminate Hf. simpl. lia.
Qed.

(** A piece without the first character of [L]. *)
Lemma nostart_char c L a b :
  forallb (fun x => negb (x =? c)) a = true -> nostart (c :: L) a b.
Proof.
  intros H t1 x t2 ->. rewrite forallb_app in H. apply andb_true_iff in H as [_ H].
  simpl in H. apply andb_true_iff in H as [Hx _]. apply negb_true_iff in Hx.
  simpl. rewrite N.eqb_sym, Hx. reflexivity.
Qed.

End Pieces.

Section Repetition.
Context {U : Unicode}.

Lemma star_stop {R} p b (k : str -> option R) : stops p b = true -> star p b k = k b.
Proof. destruct b as [|x b]; simpl; [reflexivity|]. intros ->%negb_true_iff. reflexivity. Qed.

Lemma star_app_some {R} p a b (k : str -> option R) r :
  forallb p a = true -> star p b k = Some r -> star p (a ++ b) k = Some r.
Proof.
  induction a as [|x a IH]; simpl; [auto|].
  rewrite andb_true_iff. intros [-> Ha] Hb. rewrite (IH Ha Hb). reflexivity.
Qed.

(** A greedy repetition that runs over [a] and succeeds right after it. *)
Lemma star_over {R} p a b (k : str -> option R) r :
  forallb p a = true -> stops p b = true -> k b = Some r -> star p (a ++ b) k = Some r.
Proof. intros Ha Hb Hk. apply star_app_some; [exact Ha|]. rewrite star_stop; assumption. Qed.

Lemma lazy_here {R} p b (k : str -> option R) r : k b = Some r -> lazy_star p b k = Some r.
Proof. intros H. destruct b; simpl; rewrite H; reflexivity. Qed.

(** [lstrip] splits a text into white space and a text that does not
    start with white space. *)
Lemma lstrip_split s :
  exists ws, s = ws ++ lstrip s /\ forallb is_space ws = true /\ stops is_space (lstrip s) = true.
Proof.
  induction s as [|c s (ws & E & Hws & Hst)]; [exists []; auto|].
  simpl. destruct (is_space c) eqn:Hc.
  - exists (c :: ws). simpl. rewrite Hc, Hws. rewrite <- E. auto.
  - exists []. simpl. rewrite Hc. auto.
Qed.

Lemma lstrip_stops s : stops is_space s = true -> lstrip s = s.
Proof. destruct s as [|c s]; simpl; [reflexivity|]. intros ->%negb_true_iff. reflexivity. Qed.

Lemma lstrip_idem s : lstrip (lstrip s) = lstrip s.
Proof. destruct (lstrip_split s) as (ws & _ & _ & H). apply lstrip_stops. exact H. Qed.

Lemma strip_lstrip s : strip (lstrip s) = strip s.
Proof. unfold strip. rewrite lstrip_idem. reflexivity. Qed.

Lemma strip_nonempty s : strip s <> [] -> lstrip s <> [].
Proof. unfold strip, rstrip. intros H E. rewrite E in H. apply H. reflexivity. Qed.

Lemma consumed_cons_app x (t s' : str) : consumed (x :: t ++ s') s' = x :: t.
Proof. apply (consumed_app (x :: t)). Qed.

Lemma take_take_le {A} (l : list A) n k : (n <= k)%nat -> take n (take k l) = take n l.
Proof. intros H. rewrite take_take. f_equal. lia. Qed.

Lemma nostart_window L a b1 b2 :
  take (length L - 1) b1 = take (length L - 1) b2 -> nostart L a b1 -> nostart L a b2.
Proof.
  intros Hw H t1 x t2 E. rewrite <- (H t1 x t2 E).
  rewrite (startswith_take L (x :: t2 ++ b2)), (startswith_take L (x :: t2 ++ b1)).
  f_equal. destruct L as [|c L]; [reflexivity|]. simpl in *. f_equal.
  rewrite Nat.sub_0_r in Hw. rewrite !take_app. f_equal.
  rewrite <- (take_take_le b2 _ (length L)), <- (take_take_le b1 _ (length L)) by lia.
  rewrite Hw. reflexivity.
Qed.
End Repetition.

(** ** Level-3 headings pass for project titles *)

Section Heading.
Context {U : Unicode}.

Lemma no_newline_app a b : no_newline (a ++ b) = no_newline a && no_newline b.
Proof. apply forallb_app. Qed.

Lemma line_end_stops s : line_end s = true -> stops (cls_test Dot) s = true.
Proof. destruct s as [|c s]; simpl; [reflexivity|]. intros ->. reflexivity. Qed.

(** [##\s+(.+)] at a heading: the group is the heading's text without
    the white space that leads it. *)
Lemma title_at_heading T post :
  no_newline T = true -> lstrip T <> [] -> line_end post = true ->
  match_at title_re (u "## " ++ T ++ post)
  = Some (u "## " ++ T, [(1%nat, lstrip T)]).
Proof.
  intros HT Hs Hpost.
  destruct (lstrip_split T) as (ws & E & Hws & Hst).
  destruct (lstrip T) as [|x T1] eqn:El; [congruence|].
  assert (HT1 : no_newline (x :: T1) = true).
  { rewrite E, no_newline_app in HT. apply andb_true_iff in HT. tauto. }
  simpl in HT1. apply andb_true_iff in HT1 as [Hx HT1].
  unfold match_at, title_re, Plus. lits. rewrite E. clear E El Hs HT.
  cbn [app]. simpl. rewrite <- app_assoc.
  rewrite (star_over (cls_test Space) ws ((x :: T1) ++ post) _
             (post, [(1%nat, consumed ((x :: T1) ++ post) post)])); try assumption.
  - rewrite (consumed_app (x :: T1)). f_equal. f_equal.
    change (35 :: 35 :: 32 :: ws ++ (x :: T1) ++ post)
      with ([35; 35; 32] ++ ws ++ (x :: T1) ++ post).
    rewrite !app_assoc. rewrite consumed_app. rewrite <- !app_assoc. reflexivity.
  - simpl. rewrite Hx.
    apply star_over; [exact HT1|apply line_end_stops; exact Hpost|reflexivity].
Qed.

Lemma title_not_at_hash s : match_at title_re (u "###" ++ s) = None.
Proof. reflexivity. Qed.

Lemma search_title_heading pre T post :
  contains (u "##") (pre ++ u "#") = false ->
  no_newline T = true -> strip T <> [] -> line_end post = true ->
  exists mt, re_search title_re (pre ++ u "### " ++ T ++ post) = Some mt /\
             g1 mt = lstrip T.
Proof.
  intros Hpre HT Hs Hpost. unfold re_search.
  rewrite search_skip_nostart.
  2:{ apply nostart_window with (b1 := u "#"); [reflexivity|].
      apply nostart_contains. exact Hpre. }
  change (u "### " ++ T ++ post) with (35 :: (u "## " ++ T ++ post)).
  cbn [search_from].
  change (35 :: u "## " ++ T ++ post) with (u "###" ++ (32 :: T ++ post)).
  rewrite title_not_at_hash.
  change (u "###" ++ 32 :: T ++ post) with (35 :: (35 :: 35 :: 32 :: T ++ post)).
  cbv iota.
  change (35 :: 35 :: 32 :: T ++ post) with (u "## " ++ T ++ post).
  destruct (u "## " ++ T ++ post) as [|c s] eqn:Es; [discriminate Es|].
  cbn [search_from]. rewrite <- Es.
  rewrite title_at_heading; [|assumption|apply strip_nonempty; assumption|assumption].
  eexists. split; reflexivity.
Qed.
End Heading.

Section HeadingClaim.
Context {U : Unicode}.

Lemma search_here r i s t g :
  match_at r s = Some (t, g) ->
  search_from r i s = Some {| m_start := i; m_text := t; m_groups := g |}.
Proof. intros H. destruct s; simpl; rewrite H; reflexivity. Qed.

Lemma truthy_nonempty s : s <> [] -> truthy s = true.
Proof. destruct s; [congruence|reflexivity]. Qed.

Lemma level3_heading pre T post :
  contains (u "##") (pre ++ u "#") = false ->
  no_newline T = true -> strip T <> [] -> line_end post = true ->
  contains (u "## ") (pre ++ u "### " ++ T ++ post) = true /\
  title (decoded (pre ++ u "### " ++ T ++ post)) = strip T.
Proof.
  intros Hpre HT Hs Hpost. split.
  - change (u "### " ++ T ++ post) with ([35] ++ (u "## " ++ T ++ post)).
    rewrite app_assoc. apply contains_suffix_true. reflexivity.
  - rewrite decoded_title.
    destruct (search_title_heading pre T post Hpre HT Hs Hpost) as (mt & -> & ->).
    apply strip_lstrip.
Qed.
End HeadingClaim.

(** C9: the filter of the decoder looks for ["## "], which every
    level-3 heading holds.  A block whose first heading of level 2 or
    more is a level-3 heading [### T], with [T] a line that is not
    blank, passes the filter, gets the text of that heading as its
    title, and is kept as a project. *)
Theorem level3_heading_kept {U : Unicode} (pre T post : str) :
  contains (u "##") (pre ++ u "#") = false ->
  no_newline T = true -> strip T <> [] -> line_end post = true ->
  let part := pre ++ u "### " ++ T ++ post in
  contains (u "## ") part = true /\
  exists p, parse_part part = Ok p /\ title p = strip T /\ parse_loop [part] [] = Ok [p].
Proof.
  intros Hpre HT Hs Hpost part.
  destruct (level3_heading pre T post Hpre HT Hs Hpost) as [Hc Ht]. fold part in Hc, Ht.
  split; [exact Hc|]. exists (decoded part).
  split; [apply parse_part_ok|]. split; [exact Ht|].
  simpl. rewrite Hc, parse_part_ok, bind_Ok. simpl.
  rewrite Ht, truthy_nonempty by exact Hs. reflexivity.
Qed.

Lemma front_matter_heading :
  front_matter = front_pre ++ u "### " ++ u "About this Repository" ++ front_post.
Proof. vm_compute. reflexivity. Qed.

(** The front matter of the generated documents is such a block. *)
Lemma level3_heading_kept_front_matter :
  let U := ascii_tables in
  contains (u "##") (front_pre ++ u "#") = false /\
  no_newline (u "About this Repository") = true /\
  strip (u "About this Repository") <> [] /\
  line_end front_post = true /\
  contains (u "## ") front_matter = true /\
  exists p, parse_part front_matter = Ok p /\ title p = u "About this Repository" /\
            parse_loop [front_matter] [] = Ok [p].
Proof.
  intros U.
  assert (H1 : contains (u "##") (front_pre ++ u "#") = false) by (vm_compute; reflexivity).
  assert (H2 : no_newline (u "About this Repository") = true) by (vm_compute; reflexivity).
  assert (H3 : strip (u "About this Repository") <> []) by (vm_compute; discriminate).
  assert (H4 : line_end front_post = true) by (vm_compute; reflexivity).
  do 4 (split; [assumption|]).
  rewrite front_matter_heading.
  exact (level3_heading_kept front_pre (u "About this Repository") front_post H1 H2 H3 H4).
Defined.

(** ** Decoding a generated document *)

Section Split.
Context {U : Unicode}.

Lemma split_skip r a : forall cur b,
  (forall t1 x t2, a = t1 ++ x :: t2 -> match_at r (x :: t2 ++ b) = None) ->
  split_go r cur 0 (a ++ b) = split_go r (cur ++ a) 0 b.
Proof.
  induction a as [|x a IH]; intros cur b H; simpl.
  - rewrite app_nil_r. reflexivity.
  - rewrite (H [] x a eq_refl).
    rewrite IH; [rewrite <- app_assoc; reflexivity|].
    intros t1 y t2 ->. apply (H (x :: t1) y t2). reflexivity.
Qed.

Lemma match_at_rule rest :
  match_at sep_re ((nl ++ u "---" ++ nl) ++ rest) = Some (nl ++ u "---" ++ nl, []).
Proof.
  unfold match_at, sep_re, nl. lits. simpl. rewrite drop_0.
  change (10 :: 45 :: 45 :: 45 :: 10 :: rest) with ([10; 45; 45; 45; 10] ++ rest).
  rewrite consumed_app. reflexivity.
Qed.

Lemma split_at_rule cur rest :
  split_go sep_re cur 0 ((nl ++ u "---" ++ nl) ++ rest) = cur :: split_go sep_re [] 0 rest.
Proof.
  change ((nl ++ u "---" ++ nl) ++ rest) with (10 :: (u "---" ++ nl) ++ rest).
  cbn [split_go].
  change (10 :: (u "---" ++ nl) ++ rest) with ((nl ++ u "---" ++ nl) ++ rest).
  rewrite match_at_rule. reflexivity.
Qed.

(** Neither separator starts in the piece [a] when [b] follows. *)
Lemma no_separator a b :
  nostart (u "<hr>") a b -> nostart (nl ++ u "---" ++ nl) a b ->
  forall t1 x t2, a = t1 ++ x :: t2 -> match_at sep_re (x :: t2 ++ b) = None.
Proof.
  intros H1 H2 t1 x t2 E. unfold match_at, sep_re. cbn [m].
  rewrite (H1 t1 x t2 E), (H2 t1 x t2 E). reflexivity.
Qed.

(** A text without separator is its only part. *)
Lemma split_whole content :
  contains (u "<hr>") content = false ->
  contains (nl ++ u "---" ++ nl) content = false ->
  re_split sep_re content = [content].
Proof.
  intros H1 H2. unfold re_split. rewrite <- (app_nil_r content) at 1.
  rewrite split_skip.
  - cbn [split_go app]. destruct (match_at sep_re []) as [[[|? ?] ?]|]; reflexivity.
  - apply no_separator; apply nostart_contains; rewrite app_nil_r; assumption.
Qed.

Lemma join_app sep (a b : list str) :
  a <> [] -> b <> [] -> join sep (a ++ b) = join sep a ++ sep ++ join sep b.
Proof.
  intros Ha Hb. induction a as [|x a IH]; [congruence|].
  destruct a as [|y a].
  - simpl. destruct b; [congruence|reflexivity].
  - change (join sep ((x :: y :: a) ++ b)) with (x ++ sep ++ join sep ((y :: a) ++ b)).
    rewrite IH by discriminate.
    change (join sep (x :: y :: a)) with (x ++ sep ++ join sep (y :: a)).
    rewrite <- !app_assoc. reflexivity.
Qed.

Lemma header_text : join nl header_lines = front_matter ++ (nl ++ u "---" ++ nl).
Proof. vm_compute. reflexivity. Qed.

Lemma front_matter_no_separator b :
  forall t1 x t2, front_matter = t1 ++ x :: t2 ->
                  match_at sep_re (x :: t2 ++ (nl ++ u "---" ++ nl) ++ b) = None.
Proof.
  apply no_separator.
  - apply nostart_left; vm_compute; reflexivity.
  - apply nostart_window with (b1 := nl ++ u "---"); [reflexivity|].
    apply nostart_contains. vm_compute. reflexivity.
Qed.

(** The first block of a generated document is the front matter. *)
Lemma split_generated {OS : OsPath} self today :
  exists rest, re_split sep_re (_generate_full_md self today) = front_matter :: rest.
Proof.
  unfold _generate_full_md, re_split.
  rewrite join_app; [|discriminate|].
  2:{ intros E. apply app_eq_nil in E as [_ E]. apply app_eq_nil in E as [_ E].
      discriminate E. }
  rewrite header_text, <- !app_assoc.
  rewrite split_skip by apply front_matter_no_separator.
  change (nl ++ u "---" ++ nl ++ nl ++ ?x) with ((nl ++ u "---" ++ nl) ++ nl ++ x).
  rewrite split_at_rule. eexists. reflexivity.
Qed.

Lemma front_matter_decoded :
  kept front_matter = true /\ title (decoded front_matter) = u "About this Repository".
Proof. split; vm_compute; reflexivity. Qed.
End Split.

(** C1 fails on every generated document: whatever the records, the
    decoder returns first a project made of the front matter, titled
    after its level-3 heading; and the document of one record titled
    [Demo] comes back as three projects, the front matter, the table of
    contents and the record. *)
Theorem decode_generated_front_matter :
  (forall (U : Unicode) (OS : OsPath) (self : App) (today : str),
     exists app q qs,
       _parse_md self (_generate_full_md self today) = Ok app /\
       projects app = q :: qs /\ title q = u "About this Repository") /\
  (let U := ascii_tables in
   let OS := Posix.os_path (fun _ => false) in
   let self := {| projects := [set_title (u "Demo") Project_init]; file_path := [] |} in
   (app ← _parse_md self (_generate_full_md self (u "November 03, 2026"));
    Ok (List.map title (projects app)))
   = Ok [u "About this Repository"; [128203] ++ u " Contents"; u "Demo"]).
Proof.
  split.
  - intros U OS self today.
    destruct (split_generated self today) as [rest E].
    destruct front_matter_decoded as [Hk Ht].
    eexists. eexists. eexists. split; [apply parse_md_ok|]. cbn [projects].
    rewrite E. cbn [List.filter]. rewrite Hk. cbn [List.map]. split; [reflexivity|exact Ht].
  - vm_compute. reflexivity.
Qed.

(** ** Categories *)

Section Spans.
Context {U : Unicode}.

Lemma finditer_skip_n r a : forall b, finditer_go r (length a) (a ++ b) = finditer_go r 0 b.
Proof. induction a as [|x a IH]; intros b; simpl; [destruct b; reflexivity|apply IH]. Qed.

Lemma finditer_nomatch r a : forall b,
  (forall t1 x t2, a = t1 ++ x :: t2 -> match_at r (x :: t2 ++ b) = None) ->
  finditer_go r 0 (a ++ b) = finditer_go r 0 b.
Proof.
  induction a as [|x a IH]; intros b H; [reflexivity|].
  cbn [app finditer_go]. rewrite (H [] x a eq_refl).
  apply IH. intros t1 y t2 ->. apply (H (x :: t1) y t2). reflexivity.
Qed.

Lemma finditer_nostart r a b :
  nostart (prefix_of r) a b -> finditer_go r 0 (a ++ b) = finditer_go r 0 b.
Proof.
  intros H. apply finditer_nomatch. intros t1 x t2 E.
  apply match_at_prefix_fail. apply (H t1 x t2 E).
Qed.

Lemma finditer_match r t g s :
  t <> [] -> match_at r (t ++ s) = Some (t, g) ->
  finditer_go r 0 (t ++ s) = (t, g) :: finditer_go r 0 s.
Proof.
  destruct t as [|x t]; [congruence|]. intros _ H.
  cbn [app finditer_go]. change (x :: t ++ s) with ((x :: t) ++ s). rewrite H.
  f_equal. apply finditer_skip_n.
Qed.

Lemma finditer_end r : match_at r [] = None -> finditer_go r 0 [] = [].
Proof. simpl. intros ->. reflexivity. Qed.

Lemma no_char_cls c s : no_char c s = true -> forallb (cls_test (NoneOf [(c, c)])) s = true.
Proof.
  unfold no_char. intros H. rewrite forallb_forall in *. intros x Hx.
  specialize (H x Hx). simpl. rewrite orb_false_r. unfold in_range.
  apply negb_true_iff in H. apply negb_true_iff.
  destruct (N.leb_spec c x), (N.leb_spec x c); try reflexivity.
  apply N.eqb_neq in H. lia.
Qed.

Lemma cls_none_self c : cls_test (NoneOf [(c, c)]) c = false.
Proof. simpl. unfold in_range. rewrite N.leb_refl. reflexivity. Qed.

(** The pattern of categories at a code span. *)
Lemma category_at_span c post :
  c <> [] -> no_char 96 c = true ->
  match_at category_re ((u "`" ++ c ++ u "`") ++ post)
  = Some (u "`" ++ c ++ u "`", [(1%nat, c)]).
Proof.
  intros Hc Hn. destruct c as [|x c]; [congruence|].
  apply no_char_cls in Hn as Hn'. simpl in Hn'. apply andb_true_iff in Hn' as [Hx Hc'].
  unfold match_at, category_re, Plus. lits. rewrite <- !app_assoc. cbn [app]. simpl.
  rewrite Hx.
  rewrite (star_over _ c (96 :: post) _ (post, [(1%nat, consumed (x :: c ++ 96 :: post) (96 :: post))])).
  - rewrite consumed_cons_app.
    change (96 :: x :: c ++ 96 :: post) with ((96 :: x :: c) ++ [96] ++ post).
    rewrite app_assoc, consumed_app. reflexivity.
  - exact Hc'.
  - reflexivity.
  - simpl. rewrite drop_0. reflexivity.
Qed.

Lemma findall_span pre c post :
  no_char 96 pre = true -> c <> [] -> no_char 96 c = true ->
  re_findall1 category_re (pre ++ u "`" ++ c ++ u "`" ++ post)
  = c :: re_findall1 category_re post.
Proof.
  intros Hpre Hc Hn. unfold re_findall1.
  rewrite finditer_nostart by (apply (nostart_char 96 []); exact Hpre).
  change (u "`" ++ c ++ u "`" ++ post) with (u "`" ++ (c ++ u "`" ++ post)).
  rewrite (app_assoc c), (app_assoc (u "`")).
  rewrite (finditer_match category_re (u "`" ++ c ++ u "`") [(1%nat, c)]).
  - reflexivity.
  - discriminate.
  - apply category_at_span; assumption.
Qed.

Lemma findall_no_span s : no_char 96 s = true -> re_findall1 category_re s = [].
Proof.
  intros H. unfold re_findall1. rewrite <- (app_nil_r s).
  rewrite finditer_nostart by (apply (nostart_char 96 []); exact H).
  reflexivity.
Qed.

Lemma str_in_In c l : str_in c l = true -> In c l.
Proof.
  unfold str_in. rewrite existsb_exists. intros (x & Hx & E).
  apply str_eqb_eq in E as ->. exact Hx.
Qed.
End Spans.

(** C8: the categories of a decoded block are the contents of its
    inline-code spans that belong to the vocabulary, in their order; a
    span is a run of characters between two backquotes.  A block with
    the spans [Mobile App] and [Nonexistent] gets the single category
    [Mobile App], and nothing outside the vocabulary is ever a category. *)
Theorem decoder_categories {U : Unicode} :
  (forall part,
     exists p, parse_part part = Ok p /\
       categories p = List.filter (fun c => str_in c known_categories)
                        (re_findall1 category_re part) /\
       Forall (fun c => In c known_categories) (categories p)) /\
  (forall pre c post,
     no_char 96 pre = true -> c <> [] -> no_char 96 c = true ->
     re_findall1 category_re (pre ++ u "`" ++ c ++ u "`" ++ post)
     = c :: re_findall1 category_re post) /\
  (forall s, no_char 96 s = true -> re_findall1 category_re s = []) /\
  (exists p,
     parse_part (u "## Demo" ++ nl ++ nl ++ u "`Mobile App` `Nonexistent`" ++ nl) = Ok p /\
     categories p = [u "Mobile App"]).
Proof.
  split; [|split; [|split]].
  - intros part. exists (decoded part). split; [apply parse_part_ok|].
    split; [apply decoded_categories|]. rewrite decoded_categories.
    apply List.Forall_forall. intros c [_ Hc]%filter_In. apply str_in_In. exact Hc.
  - exact findall_span.
  - exact findall_no_span.
  - eexists. split; [apply parse_part_ok|]. rewrite decoded_categories.
    vm_compute. reflexivity.
Qed.

(** ** The image resolver *)

Section ResolverFacts.
Context {U : Unicode} {OS : OsPath}.
Variable script_dir : str.

Lemma first_existing_cons x l :
  first_existing (x :: l) = if path_exists x then x else first_existing l.
Proof. unfold first_existing. simpl. destruct (path_exists x); reflexivity. Qed.

Lemma first_numbered_spec dir num exts :
  match first_numbered dir num exts with
  | Some img_path => img_path
  | None => []
  end = first_existing (List.map (fun ext => path_join dir (num ++ ext)) exts).
Proof.
  induction exts as [|ext exts IH]; simpl; [reflexivity|].
  rewrite first_existing_cons. destruct (path_exists _); [reflexivity|exact IH].
Qed.

Lemma images_dir_truthy self p : truthy (images_dir script_dir self p) = truthy (id p).
Proof.
  unfold images_dir. destruct (id p) as [|c s] eqn:E; [reflexivity|]. simpl.
  apply truthy_nonempty. apply path_join_nonempty. discriminate.
Qed.

Lemma resolve_ok self p path :
  resolve_image_path script_dir self p path
  = Ok (if truthy path then first_existing (code_candidates script_dir self p path) else []).
Proof.
  unfold resolve_image_path, code_candidates.
  destruct (truthy path); [|reflexivity]. cbn [negb].
  destruct (isabs path) eqn:Ha; cbn [andb app].
  - rewrite first_existing_cons. destruct (path_exists path); [reflexivity|].
    destruct (truthy (file_path self)); cbn [andb app].
    + rewrite first_existing_cons. destruct (path_exists _); [reflexivity|].
      rewrite images_dir_truthy. destruct (truthy (id p)); [|reflexivity].
      cbn [app]. rewrite first_existing_cons. destruct (path_exists _); [reflexivity|].
      unfold numeric_token.
      destruct (re_search numeric_re (basename path)) as [mt|] eqn:Em; [|reflexivity].
      cbn [matched]. rewrite (group_ok numeric_re 0 _ mt eq_refl Em), bind_Ok.
      rewrite <- first_numbered_spec. destruct (first_numbered _ _ _); reflexivity.
    + rewrite images_dir_truthy. destruct (truthy (id p)); [|reflexivity].
      cbn [app]. rewrite first_existing_cons. destruct (path_exists _); [reflexivity|].
      unfold numeric_token.
      destruct (re_search numeric_re (basename path)) as [mt|] eqn:Em; [|reflexivity].
      cbn [matched]. rewrite (group_ok numeric_re 0 _ mt eq_refl Em), bind_Ok.
      rewrite <- first_numbered_spec. destruct (first_numbered _ _ _); reflexivity.
  - destruct (truthy (file_path self)); cbn [andb app].
    + rewrite first_existing_cons. destruct (path_exists _); [reflexivity|].
      rewrite images_dir_truthy. destruct (truthy (id p)); [|reflexivity].
      cbn [app]. rewrite first_existing_cons. destruct (path_exists _); [reflexivity|].
      unfold numeric_token.
      destruct (re_search numeric_re (basename path)) as [mt|] eqn:Em; [|reflexivity].
      cbn [matched]. rewrite (group_ok numeric_re 0 _ mt eq_refl Em), bind_Ok.
      rewrite <- first_numbered_spec. destruct (first_numbered _ _ _); reflexivity.
    + rewrite images_dir_truthy. destruct (truthy (id p)); [|reflexivity].
      cbn [app]. rewrite first_existing_cons. destruct (path_exists _); [reflexivity|].
      unfold numeric_token.
      destruct (re_search numeric_re (basename path)) as [mt|] eqn:Em; [|reflexivity].
      cbn [matched]. rewrite (group_ok numeric_re 0 _ mt eq_refl Em), bind_Ok.
      rewrite <- first_numbered_spec. destruct (first_numbered _ _ _); reflexivity.
Qed.

Lemma code_candidates_spec self p path :
  truthy (file_path self) = true -> truthy (id p) = true ->
  code_candidates script_dir self p path
  = spec_candidates (dirname (file_path self)) (id p) path.
Proof.
  intros Hf Hi. unfold code_candidates, spec_candidates, images_dir, base_dir.
  rewrite Hf, Hi. reflexivity.
Qed.
End ResolverFacts.

(** C7, as the program has it: the resolver never raises.  An empty
    reference resolves to the empty result.  Any other reference
    resolves to the first existing path among, in this order: the
    reference itself if absolute; the reference under the directory of
    the open document, if a document is open; and, if the project has
    an id, the file of the same base name in the images folder of the
    project, then [N] with each of the five extensions when the base
    name ends in a numeric token [N] before its extension; to the empty
    result if none exists.  With an open document and an id these are
    the candidates of the specification. *)
Theorem resolve_image_path_order {U : Unicode} {OS : OsPath}
    (script_dir : str) (self : App) (p : Project) (path : str) :
  resolve_image_path script_dir self p path
  = Ok (if truthy path then first_existing (code_candidates script_dir self p path) else []) /\
  (truthy (file_path self) = true -> truthy (id p) = true ->
   code_candidates script_dir self p path
   = spec_candidates (dirname (file_path self)) (id p) path).
Proof. split; [apply resolve_ok|apply code_candidates_spec]. Qed.

(** C7 fails as stated on a project without id, for which the images
    folder is not searched, and on the empty reference, for which
    nothing is searched. *)
Lemma resolve_image_path_guards :
  let U := ascii_tables in
  let OS := Posix.os_path (fun f => str_eqb f (u "/d/images/1.png") || str_eqb f (u "/d/")) in
  let self := {| projects := []; file_path := u "/d/README.md" |} in
  resolve_image_path (u "/app") self Project_init (u "shot_1.png") = Ok [] /\
  first_existing (spec_candidates (u "/d") (id Project_init) (u "shot_1.png"))
  = u "/d/images/1.png" /\
  resolve_image_path (u "/app") self (set_id (u "demo") Project_init) [] = Ok [] /\
  first_existing (spec_candidates (u "/d") (u "demo") []) = u "/d/".
Proof. vm_compute. repeat split; reflexivity. Qed.

(** ** The table of screenshots in the text of a block *)

Section GridText.
Context {U : Unicode} {OS : OsPath}.

Lemma cell_text_table p x : cell_text p (grid_size p) x = table_cell p x.
Proof.
  destruct x as [[k ss]|]; [|reflexivity].
  unfold cell_text, table_cell, screenshot_img, screenshot_src.
  lits. rewrite <- !app_assoc. reflexivity.
Qed.

Lemma row_text_table p r : row_text p (grid_size p) r = table_row p r.
Proof. unfold row_text, table_row. rewrite !cell_text_table. reflexivity. Qed.

Lemma grid_rows_table p :
  [u "<table align='center'>"] ++ grid_rows p (grid_size p) ++ [u "</table>"] = table_lines p.
Proof.
  unfold table_lines. rewrite grid_rows_text.
  rewrite (List.map_ext _ _ (row_text_table p)). reflexivity.
Qed.

Lemma table_count p :
  count_line (u "  <tr>") (table_lines p) = ((length (screenshots p) + 1) / 2)%nat.
Proof.
  rewrite <- grid_rows_table, grid_rows_text, !count_line_app, count_rows.
  rewrite rows_of_length, enumerate_length, Nat.div2_div, Nat.add_1_r.
  change (count_line (u "  <tr>") [u "<table align='center'>"]) with 0%nat.
  change (count_line (u "  <tr>") [u "</table>"]) with 0%nat.
  lia.
Qed.

Lemma table_last p :
  screenshots p <> [] ->
  exists init c1 c2,
    table_lines p = init ++ [u "  <tr>"; c1; c2; u "  </tr>"; u "</table>"] /\
    (c2 = u "    <td></td>" <-> Nat.odd (length (screenshots p)) = true).
Proof.
  intros Hs.
  destruct (rows_of_last (enumerate 1 (screenshots p))) as (init & a & c2 & Er & Hodd).
  { destruct (screenshots p); [congruence|discriminate]. }
  rewrite enumerate_length in Hodd.
  exists ([u "<table align='center'>"] ++ concat (List.map (table_row p) init)),
    (table_cell p (Some a)), (table_cell p c2).
  split.
  - unfold table_lines. rewrite Er, map_app, concat_app.
    cbn [List.map concat table_row fst snd]. rewrite app_nil_r, <- !app_assoc. reflexivity.
  - rewrite <- cell_text_table, cell_text_empty. exact Hodd.
Qed.

(** The lines of the block, around the table. *)
Lemma grid_lines_split p :
  screenshot_layout p = u "grid" -> screenshots p <> [] ->
  exists A B,
    project_lines p = A ++ table_lines p ++ B /\ A <> [] /\ B <> [] /\
    count_line (u "  <tr>") A = 0%nat /\ count_line (u "  <tr>") B = 0%nat.
Proof.
  intros Hl Hs.
  destruct (project_lines_border p) as (B1 & B2 & E & HB1 & HB2).
  pose proof (screenshots_section_grid p Hl Hs) as Hsec.
  destruct (head_no_tr p) as (H1 & H2 & H3 & H4 & H5 & H6 & H7 & H8).
  exists (B1 ++ [u "<div align='center'>"; []] ++ logo_lines p ++ title_lines p
          ++ category_lines p ++ banner_lines p ++ description_lines p ++ links_lines p
          ++ tech_lines p ++ features_lines p ++ [u "### Screenshots"; []]),
    ([[]; u "</div>"; []] ++ B2).
  split; [|split; [|split; [|split]]].
  - rewrite E. unfold content_lines. rewrite Hsec, <- grid_rows_table, <- !app_assoc.
    reflexivity.
  - intros H. destruct B1; discriminate H.
  - discriminate.
  - rewrite !count_line_app, HB1, H1, H2, H3, H4, H5, H6, H7, H8. reflexivity.
  - rewrite count_line_app, HB2. reflexivity.
Qed.

Lemma table_lines_nonempty p : table_lines p <> [].
Proof. unfold table_lines. cbn [app]. discriminate. Qed.

(** The text of the block, around the lines of the table. *)
Lemma grid_text_split p :
  screenshot_layout p = u "grid" -> screenshots p <> [] ->
  exists pre post,
    _generate_project_md p = pre ++ nl ++ join nl (table_lines p) ++ nl ++ post.
Proof.
  intros Hl Hs. destruct (grid_lines_split p Hl Hs) as (A & B & E & HA & HB & _).
  exists (join nl A), (join nl B). unfold _generate_project_md. rewrite E.
  rewrite join_app; [|exact HA|].
  - rewrite join_app; [|apply table_lines_nonempty|exact HB]. reflexivity.
  - intros H. apply app_eq_nil in H as [H _]. exact (table_lines_nonempty p H).
Qed.
End GridText.

(** *** The lines of a text written line by line *)

Section Lines.

Lemma split_char_go_line c l : forall cur s,
  no_char c l = true -> split_char_go c cur (l ++ s) = split_char_go c (cur ++ l) s.
Proof.
  induction l as [|x l IH]; intros cur s H.
  - rewrite app_nil_r. reflexivity.
  - cbn [no_char forallb] in H. apply andb_true_iff in H as [Hx Hl].
    apply negb_true_iff in Hx. cbn [app split_char_go]. rewrite Hx.
    rewrite IH by exact Hl. rewrite <- app_assoc. reflexivity.
Qed.

(** Lines without newline, joined by newlines, are the lines of the text. *)
Lemma lines_join ls :
  ls <> [] -> forallb no_newline ls = true -> lines_of (join nl ls) = ls.
Proof.
  induction ls as [|a ls IH]; [congruence|]. intros _ H.
  cbn [forallb] in H. apply andb_true_iff in H as [Ha Hls].
  unfold lines_of, split_char in *. destruct ls as [|b ls].
  - cbn [join]. rewrite <- (app_nil_r a) at 1.
    rewrite (split_char_go_line 10 a [] []) by exact Ha. reflexivity.
  - change (join nl (a :: b :: ls)) with (a ++ 10 :: join nl (b :: ls)).
    rewrite (split_char_go_line 10 a []) by exact Ha.
    cbn [split_char_go app]. rewrite N.eqb_refl, IH by (discriminate || exact Hls).
    reflexivity.
Qed.

Lemma no_newline_join sep l :
  no_newline sep = true -> forallb no_newline l = true -> no_newline (join sep l) = true.
Proof.
  intros Hsep. induction l as [|a l IH]; [reflexivity|].
  cbn [forallb]. rewrite andb_true_iff. intros [Ha Hl]. destruct l as [|b l]; [exact Ha|].
  change (join sep (a :: b :: l)) with (a ++ sep ++ join sep (b :: l)).
  rewrite !no_newline_app, Ha, Hsep, IH by exact Hl. reflexivity.
Qed.

Lemma no_newline_or a b :
  no_newline a = true -> no_newline b = true -> no_newline (or_str a b) = true.
Proof. intros Ha Hb. destruct a; [exact Hb|exact Ha]. Qed.

Lemma no_newline_lstrip_char c s : no_newline s = true -> no_newline (lstrip_char c s) = true.
Proof.
  induction s as [|x s IH]; [reflexivity|]. cbn [lstrip_char]. intros H.
  destruct (x =? c); [|exact H].
  apply IH. cbn [no_newline forallb] in H. apply andb_true_iff in H as [_ H]. exact H.
Qed.

Lemma digits_line d : no_newline (digits_of_uint d) = true.
Proof.
  unfold digits_of_uint.
  induction d; cbn [NilEmpty.string_of_uint]; [reflexivity|..]; exact IHd.
Qed.

Lemma str_of_N_line n : no_newline (str_of_N n) = true.
Proof. destruct n; [reflexivity|apply digits_line]. Qed.

Lemma str_of_Z_line z : no_newline (str_of_Z z) = true.
Proof. destruct z; [reflexivity|apply digits_line|apply digits_line]. Qed.

Lemma border_css_line b style : no_newline (border_css_of b style) = true.
Proof.
  unfold border_css_of.
  repeat match goal with |- context [if ?c then _ else _] => destruct c end; reflexivity.
Qed.

Lemma get_truthy_link_of d k v : get_truthy d k = Some v -> v = link_of d k.
Proof.
  unfold get_truthy, link_of. destruct (d !! k) as [w|]; [|discriminate].
  destruct (truthy w); [|discriminate]. intros [= ->]. reflexivity.
Qed.

Lemma forallb_map_line {A} (f : A -> str) l :
  (forall x, In x l -> no_newline (f x) = true) -> forallb no_newline (List.map f l) = true.
Proof.
  intros H. apply forallb_forall. intros y Hy.
  apply in_map_iff in Hy as (x & <- & Hx). apply H. exact Hx.
Qed.

Lemma rows_of_Forall (P : nat * str -> Prop) l :
  Forall P l ->
  Forall (fun r => P (fst r) /\ forall b, snd r = Some b -> P b) (rows_of l).
Proof.
  induction l as [| |a b l IH] using pair_ind; intros H.
  - constructor.
  - apply Forall_cons_1 in H as [Ha _]. constructor; [|constructor].
    split; [exact Ha|discriminate].
  - apply Forall_cons_1 in H as [Ha H]. apply Forall_cons_1 in H as [Hb H].
    change (rows_of (a :: b :: l)) with ((a, Some b) :: rows_of l).
    constructor; [|apply IH; exact H].
    split; [exact Ha|]. intros b' [= <-]. exact Hb.
Qed.

Lemma enumerate_Forall {A} (P : A -> Prop) l : forall k,
  Forall P l -> Forall (fun ia => P (snd ia)) (enumerate k l).
Proof.
  induction l as [|a l IH]; intros k H; [constructor|].
  apply Forall_cons_1 in H as [Ha H]. constructor; [exact Ha|apply IH; exact H].
Qed.
End Lines.

(** Split the test of the lines into the tests of the pieces of each line. *)
Ltac one_line :=
  cbn [forallb app];
  rewrite ?forallb_app, ?no_newline_app, ?andb_true_iff;
  repeat split;
  first [ assumption | reflexivity | apply str_of_N_line | apply str_of_Z_line
        | apply border_css_line | idtac ].

Section OneLine.
Context {U : Unicode} {OS : OsPath}.
Variable p : Project.
Hypothesis Hone : one_line_fields p = true.

Lemma one_line_facts :
  no_newline (id p) = true /\ no_newline (title p) = true /\
  forallb no_newline (categories p) = true /\
  no_newline (short_description p) = true /\ no_newline (long_description p) = true /\
  forallb no_newline (technologies p) = true /\ forallb no_newline (features p) = true /\
  forallb (fun k => no_newline (link_of (links p) k)) link_keys = true /\
  no_newline (theme_color p) = true /\
  no_newline (logo_url p) = true /\ no_newline (snd (splitext (logo_url p))) = true /\
  no_newline (banner_image p) = true /\ no_newline (snd (splitext (banner_image p))) = true /\
  forallb (fun ss => no_newline (snd (splitext ss))) (screenshots p) = true.
Proof.
  pose proof Hone as H. unfold one_line_fields in H.
  repeat (apply andb_true_iff in H as [H ?]). repeat split; assumption.
Qed.

Lemma one_line_head :
  forallb no_newline (logo_lines p) = true /\ forallb no_newline (title_lines p) = true /\
  forallb no_newline (category_lines p) = true /\ forallb no_newline (banner_lines p) = true /\
  forallb no_newline (description_lines p) = true.
Proof.
  destruct one_line_facts as (Hid & Ht & Hc & Hs & Hl & _ & _ & _ & _ & Hlu & Hle & Hb & Hbe & _).
  split; [|split; [|split; [|split]]].
  - unfold logo_lines. destruct (show_logo p && truthy (logo_url p)); [|reflexivity].
    unfold image_path. destruct (path_exists (logo_url p)); one_line.
  - unfold title_lines. one_line. apply no_newline_or; [exact Ht|reflexivity].
  - unfold category_lines. destruct (categories p) as [|c cs]; [reflexivity|].
    one_line. apply no_newline_join; [reflexivity|]. apply forallb_map_line. intros x Hx.
    rewrite forallb_forall in Hc. one_line. apply Hc. exact Hx.
  - unfold banner_lines. destruct (truthy (banner_image p)); [|reflexivity].
    unfold image_path. destruct (path_exists (banner_image p)); one_line.
  - unfold description_lines.
    destruct (truthy (short_description p)), (truthy (long_description p)); one_line.
Qed.

Lemma one_line_badges theme :
  no_newline theme = true -> forallb no_newline (link_badges (links p) theme) = true.
Proof.
  intros Hth. destruct one_line_facts as (_ & _ & _ & _ & _ & _ & _ & Hk & _).
  cbn [forallb link_keys] in Hk.
  repeat (apply andb_true_iff in Hk as [? Hk]).
  unfold link_badges.
  repeat match goal with
         | |- context [get_truthy ?d ?k] =>
             let E := fresh "E" in
             destruct (get_truthy d k) as [?v|] eqn:E;
             [apply get_truthy_link_of in E; subst|]
         end;
    unfold badge; one_line.
Qed.

Lemma one_line_tail :
  forallb no_newline (links_lines p) = true /\ forallb no_newline (tech_lines p) = true /\
  forallb no_newline (features_lines p) = true.
Proof.
  destruct one_line_facts as (_ & _ & _ & _ & _ & Ht & Hf & _ & Hth & _).
  split; [|split].
  - unfold links_lines.
    pose proof (one_line_badges (lstrip_char 35 (or_str (theme_color p) (u "#000000")))) as Hb.
    cbv zeta.
    destruct (link_badges (links p) (lstrip_char 35 (or_str (theme_color p) (u "#000000"))))
      as [|b bs]; [reflexivity|].
    assert (Hall : forallb no_newline (b :: bs) = true).
    { apply Hb. apply no_newline_lstrip_char. apply no_newline_or; [exact Hth|reflexivity]. }
    rewrite !forallb_app. rewrite !andb_true_iff.
    split; [reflexivity|]. split; [|reflexivity].
    apply forallb_map_line. intros x Hx. one_line.
    rewrite forallb_forall in Hall. apply Hall. exact Hx.
  - unfold tech_lines. destruct (technologies p) as [|t ts]; [reflexivity|].
    rewrite !forallb_app. rewrite !andb_true_iff.
    split; [reflexivity|]. split; [|reflexivity].
    apply forallb_map_line. intros x Hx. one_line.
    rewrite forallb_forall in Ht. apply Ht. exact Hx.
  - unfold features_lines. destruct (features p) as [|t ts]; [reflexivity|].
    rewrite !forallb_app. rewrite !andb_true_iff.
    split; [reflexivity|]. split; [|reflexivity].
    apply forallb_map_line. intros x Hx. one_line.
    rewrite forallb_forall in Hf. apply Hf. exact Hx.
Qed.

Lemma one_line_cell x :
  (forall k ss, x = Some (k, ss) -> no_newline (snd (splitext ss)) = true) ->
  no_newline (table_cell p x) = true.
Proof.
  destruct one_line_facts as (Hid & _).
  intros H. destruct x as [[k ss]|]; [|reflexivity].
  unfold table_cell. one_line.
  apply no_newline_or; [apply (H k ss); reflexivity|reflexivity].
Qed.

Lemma one_line_table : forallb no_newline (table_lines p) = true.
Proof.
  destruct one_line_facts as (_ & _ & _ & _ & _ & _ & _ & _ & _ & _ & _ & _ & _ & Hss).
  unfold table_lines. rewrite !forallb_app. rewrite !andb_true_iff.
  split; [reflexivity|]. split; [|reflexivity].
  apply forallb_forall. intros l Hl. apply in_concat in Hl as (row & Hrow & Hl).
  apply in_map_iff in Hrow as (r & <- & Hr).
  assert (HF : Forall (fun ia : nat * str => no_newline (snd (splitext (snd ia))) = true)
                 (enumerate 1 (screenshots p))).
  { apply (enumerate_Forall (fun ss => no_newline (snd (splitext ss)) = true)).
    apply List.Forall_forall. rewrite forallb_forall in Hss. exact Hss. }
  apply rows_of_Forall in HF. rewrite List.Forall_forall in HF.
  destruct (HF r Hr) as [Ha Hb]. unfold table_row in Hl. cbn [In] in Hl.
  destruct Hl as [<-|[<-|[<-|[<-|[]]]]]; try reflexivity.
  - apply one_line_cell. intros k ss E. destruct r as [a c2]. cbn [fst] in *.
    injection E as ->. exact Ha.
  - apply one_line_cell. intros k ss E. apply (Hb _ E).
Qed.

(** Every line the encoder writes for the record is one line of its text. *)
Lemma one_line_project :
  screenshot_layout p = u "grid" -> screenshots p <> [] ->
  forallb no_newline (project_lines p) = true.
Proof.
  intros Hl Hs.
  destruct one_line_head as (H1 & H2 & H3 & H4 & H5).
  destruct one_line_tail as (H6 & H7 & H8).
  assert (Hc : forallb no_newline (content_lines p) = true).
  { unfold content_lines. rewrite (screenshots_section_grid p Hl Hs).
    replace ([u "### Screenshots"; []; u "<table align='center'>"] ++ grid_rows p (grid_size p)
             ++ [u "</table>"; []])
      with ([u "### Screenshots"; []]
            ++ ([u "<table align='center'>"] ++ grid_rows p (grid_size p) ++ [u "</table>"])
            ++ [[]])
      by (rewrite <- !app_assoc; reflexivity).
    rewrite grid_rows_table, !forallb_app, H1, H2, H3, H4, H5, H6, H7, H8, one_line_table.
    reflexivity. }
  unfold project_lines.
  match goal with |- context [if ?c then _ else _] => destruct c end; [|exact Hc].
  rewrite !forallb_app, Hc. one_line.
Qed.
End OneLine.

(** C4, on the text of the block: with the grid layout and [N >= 1]
    screenshots, the table the encoder writes has [ceil(N/2)] rows, of
    four lines each, it ends with a row whose second cell is the empty
    cell exactly when [N] is odd, each other cell holds the image of
    its screenshot, and the lines of the table stand in the text of
    the block, between two newlines.  When no text written for the
    record holds a newline, the lines of the block are those of the
    table and, around them, lines that open no row: the text has
    exactly [ceil(N/2)] lines that open a row. *)
Theorem grid_table_rows {U : Unicode} {OS : OsPath} (p : Project) :
  screenshot_layout p = u "grid" -> screenshots p <> [] ->
  let N := length (screenshots p) in
  count_line (u "  <tr>") (table_lines p) = ((N + 1) / 2)%nat /\
  (exists init c1 c2,
     table_lines p = init ++ [u "  <tr>"; c1; c2; u "  </tr>"; u "</table>"] /\
     (c2 = u "    <td></td>" <-> Nat.odd N = true)) /\
  (exists pre post,
     _generate_project_md p = pre ++ nl ++ join nl (table_lines p) ++ nl ++ post) /\
  (one_line_fields p = true ->
   exists pre post,
     lines_of (_generate_project_md p) = pre ++ table_lines p ++ post /\
     count_line (u "  <tr>") pre = 0%nat /\ count_line (u "  <tr>") post = 0%nat /\
     count_line (u "  <tr>") (lines_of (_generate_project_md p)) = ((N + 1) / 2)%nat).
Proof.
  intros Hl Hs N.
  split; [apply table_count|]. split; [apply table_last; exact Hs|].
  split; [apply grid_text_split; assumption|].
  intros Hone. destruct (grid_lines_split p Hl Hs) as (A & B & E & HA & _ & HcA & HcB).
  assert (Hlines : lines_of (_generate_project_md p) = project_lines p).
  { unfold _generate_project_md. apply lines_join.
    - rewrite E. intros H. apply app_eq_nil in H as [H _]. exact (HA H).
    - apply one_line_project; assumption. }
  exists A, B. rewrite Hlines. split; [exact E|]. split; [exact HcA|]. split; [exact HcB|].
  rewrite E, !count_line_app, HcA, HcB, table_count. fold N. lia.
Qed.

Lemma grid_table_rows_demo :
  let U := ascii_tables in
  let OS := Posix.os_path (fun _ => false) in
  let p := grid_demo in
  screenshot_layout p = u "grid" /\
  screenshots p <> [] /\
  one_line_fields p = true /\
  count_line (u "  <tr>") (table_lines p) = 2%nat /\
  (exists init c1 c2,
     table_lines p = init ++ [u "  <tr>"; c1; c2; u "  </tr>"; u "</table>"] /\
     (c2 = u "    <td></td>" <-> Nat.odd 3 = true)) /\
  (exists pre post,
     _generate_project_md p = pre ++ nl ++ join nl (table_lines p) ++ nl ++ post) /\
  exists pre post,
    lines_of (_generate_project_md p) = pre ++ table_lines p ++ post /\
    count_line (u "  <tr>") pre = 0%nat /\ count_line (u "  <tr>") post = 0%nat /\
    count_line (u "  <tr>") (lines_of (_generate_project_md p)) = 2%nat.
Proof.
  intros U OS p.
  assert (H1 : screenshot_layout p = u "grid") by reflexivity.
  assert (H2 : screenshots p <> []) by discriminate.
  assert (H3 : one_line_fields p = true) by reflexivity.
  destruct (grid_table_rows p H1 H2) as (Hc & Hlast & Htext & Hlines).
  split; [exact H1|]. split; [exact H2|]. split; [exact H3|].
  split; [exact Hc|]. split; [exact Hlast|]. split; [exact Htext|].
  exact (Hlines H3).
Defined.

(** C4 fails as stated, on the text of the block: a feature of two
    lines whose second line opens a row adds a row to the text, which
    has three lines that open a row for the two rows of a table of
    three screenshots. *)
Lemma grid_rows_in_feature :
  let U := ascii_tables in
  let OS := Posix.os_path (fun _ => false) in
  let p := grid_feature in
  screenshot_layout p = u "grid" /\ length (screenshots p) = 3%nat /\
  features p = [u "x" ++ nl ++ u "  <tr>"] /\
  count_line (u "  <tr>") (table_lines p) = 2%nat /\
  count_line (u "  <tr>") (lines_of (_generate_project_md p)) = 3%nat /\
  ((3 + 1) / 2 = 2)%nat.
Proof. intros U OS p. repeat split; vm_compute; reflexivity. Qed.

(** ** Pieces of a text in which nothing is found

    [never f a b]: in the text [a ++ b], the test [f] fails at every
    position inside the piece [a]. *)

Section Never.
Context {U : Unicode}.

Lemma never_nil f b : never f [] b.
Proof. intros [|y t1] x t2; discriminate. Qed.

Lemma never_cons f x a b : f (x :: a ++ b) = false -> never f a b -> never f (x :: a) b.
Proof.
  intros Hx Ha [|y t1] z t2 E.
  - injection E as <- <-. exact Hx.
  - injection E as <- E. apply (Ha t1 z t2 E).
Qed.

Lemma never_app f a1 a2 b : never f a1 (a2 ++ b) -> never f a2 b -> never f (a1 ++ a2) b.
Proof.
  revert a2 b. induction a1 as [|y a1 IH]; intros a2 b H1 H2; [exact H2|].
  apply never_cons.
  - rewrite <- app_assoc. apply (H1 [] y a1). reflexivity.
  - apply IH; [|exact H2]. intros t1 x t2 ->. apply (H1 (y :: t1) x t2). reflexivity.
Qed.

Lemma never_impl (f g : str -> bool) a b :
  (forall s, g s = false -> f s = false) -> never g a b -> never f a b.
Proof. intros Hfg H t1 x t2 E. apply Hfg. apply (H t1 x t2 E). Qed.

Lemma drop_app_length_cons (t1 : str) x t2 : drop (length t1) (t1 ++ x :: t2) = x :: t2.
Proof. induction t1; simpl; auto. Qed.

Lemma never_check_sound f a b : never_check f a b = true -> never f a b.
Proof.
  unfold never_check. rewrite forallb_forall. intros H t1 x t2 ->.
  specialize (H (length t1)). rewrite drop_app_length_cons in H.
  apply negb_true_iff. apply H. apply in_seq. rewrite length_app. simpl. lia.
Qed.

Lemma hit_prefix r s : startswith (prefix_of r) s = false -> hit r s = false.
Proof. intros H. unfold hit. rewrite match_at_prefix_fail by exact H. reflexivity. Qed.

Lemma hit_none r s : hit r s = false -> match_at r s = None.
Proof. unfold hit. destruct (match_at r s); [discriminate|reflexivity]. Qed.

Lemma never_hit r a b : nostart (prefix_of r) a b -> never (hit r) a b.
Proof. apply never_impl. apply hit_prefix. Qed.

Lemma search_never r a i b :
  never (hit r) a b -> search_from r i (a ++ b) = search_from r (i + length a) b.
Proof.
  intros H. apply search_skip. intros t1 x t2 E. apply hit_none. apply (H t1 x t2 E).
Qed.

Lemma finditer_never r a b :
  never (hit r) a b -> finditer_go r 0 (a ++ b) = finditer_go r 0 b.
Proof.
  intros H. apply finditer_nomatch. intros t1 x t2 E. apply hit_none. apply (H t1 x t2 E).
Qed.

Lemma contains_never L a b : never (startswith L) a b -> contains L (a ++ b) = contains L b.
Proof. apply contains_skip. Qed.

Lemma search_end r i : hit r [] = false -> search_from r i [] = None.
Proof. intros H. simpl. rewrite (hit_none _ _ H). reflexivity. Qed.

(** A piece that does not contain the head [P] of [L], before a text
    that none of the tails of [L] cut inside [P] starts. *)
Lemma nostart_prefix P L a b :
  startswith P L = true -> contains P a = false ->
  nocross_upto (length P) L b = true -> nostart L a b.
Proof.
  intros HP Ha Hb t1 x t2 ->.
  destruct (startswith L (x :: t2 ++ b)) eqn:E; [|reflexivity].
  apply startswith_spec in HP as [Q ->].
  apply (startswith_app_split (P ++ Q) (x :: t2) b) in E as [Ht|(Hl & Hd & Ht)].
  - apply startswith_spec in Ht as [w Hw].
    assert (Hc : contains P (t1 ++ x :: t2) = true).
    { apply contains_suffix_true. rewrite Hw, <- app_assoc. apply startswith_app. }
    congruence.
  - destruct (Nat.lt_ge_cases (length (x :: t2)) (length P)) as [Hlt|Hge].
    + unfold nocross_upto in Hb.
      rewrite (forallb_seq_neg (fun i => startswith (drop i (P ++ Q)) b) 1 _
                 (length (x :: t2)) Hb) in Hd; [discriminate|]. simpl in *. lia.
    + assert (Hc : contains P (t1 ++ x :: t2) = true).
      { apply contains_suffix_true. rewrite Ht. apply startswith_spec.
        exists (take (length (x :: t2) - length P) Q).
        rewrite take_app. rewrite take_ge by lia. reflexivity. }
      congruence.
Qed.
End Never.

(** ** Round trip through the encoder and the decoder

    The records whose text the decoder reads back: their fields hold
    none of the fragments of markup the decoder scans for. *)

Section EncodedText.
Context {U : Unicode} {OS : OsPath}.

Lemma join_unlines ls last : join nl (ls ++ [last]) = unlines ls ++ last.
Proof.
  induction ls as [|x ls IH]; [reflexivity|].
  change (join nl ((x :: ls) ++ [last])) with (join nl (x :: ls ++ [last])).
  destruct (ls ++ [last]) as [|y l] eqn:E; [destruct ls; discriminate E|].
  change (join nl (x :: y :: l)) with (x ++ nl ++ join nl (y :: l)).
  rewrite IH. unfold unlines. simpl. rewrite <- !app_assoc. reflexivity.
Qed.

Lemma unlines_app a b : unlines (a ++ b) = unlines a ++ unlines b.
Proof. unfold unlines. rewrite map_app, concat_app. reflexivity. Qed.

Lemma unlines_cons x l : unlines (x :: l) = x ++ nl ++ unlines l.
Proof. unfold unlines. simpl. rewrite <- app_assoc. reflexivity. Qed.

Lemma unlines_nil : unlines [] = [].
Proof. reflexivity. Qed.

(** The text of a block without images, section by section. *)
Lemma encoded_text p :
  truthy (logo_url p) = false -> truthy (banner_image p) = false -> screenshots p = [] ->
  _generate_project_md p
  = border_open p ++ (u "<div align='center'>" ++ nl ++ nl) ++ unlines (title_lines p)
    ++ unlines (category_lines p) ++ unlines (description_lines p) ++ unlines (links_lines p)
    ++ unlines (tech_lines p) ++ unlines (features_lines p) ++ (u "</div>" ++ nl)
    ++ border_close p.
Proof.
  intros Hl Hb Hs.
  assert (Hc : content_lines p
               = ([u "<div align='center'>"; []] ++ title_lines p ++ category_lines p
                  ++ description_lines p ++ links_lines p ++ tech_lines p ++ features_lines p
                  ++ [u "</div>"]) ++ [[]]).
  { unfold content_lines, logo_lines, banner_lines, screenshots_section.
    rewrite Hl, Hb, Hs, andb_false_r. cbn [app]. rewrite <- !app_assoc. reflexivity. }
  unfold _generate_project_md, project_lines, border_open, border_close. fold (border_on p).
  destruct (border_on p).
  - rewrite Hc. rewrite !app_assoc. rewrite join_unlines.
    rewrite !unlines_app, !unlines_cons, !unlines_nil, <- !app_assoc.
    cbn [app]. reflexivity.
  - rewrite Hc, join_unlines.
    rewrite !unlines_app, !unlines_cons, !unlines_nil, <- !app_assoc.
    cbn [app]. rewrite app_nil_r. reflexivity.
Qed.
End EncodedText.

(** ** Fragments that do not occur in a section *)

Section Quiet.
Context {U : Unicode}.

Lemma startswith_app_cases X fol b :
  startswith X (fol ++ b) = true -> startswith X fol = true \/ startswith fol X = true.
Proof.
  intros H. apply startswith_app_split in H as [H|(_ & _ & E)]; [left; exact H|right].
  apply startswith_spec. exists (drop (length fol) X).
  rewrite E at 1. symmetry. apply take_drop.
Qed.

Lemma nocross_strict_sound n L fol b :
  nocross_strict n L fol = true -> nocross_upto n L (fol ++ b) = true.
Proof.
  unfold nocross_strict, nocross_upto. rewrite !forallb_forall. intros H i Hi.
  specialize (H i Hi). apply andb_true_iff in H as [H1 H2].
  apply negb_true_iff in H1, H2. apply negb_true_iff.
  destruct (startswith (drop i L) (fol ++ b)) eqn:E; [|reflexivity].
  apply startswith_app_cases in E as [E|E]; congruence.
Qed.

Lemma clean_marker P s : clean s = true -> str_in P markers = true -> contains P s = false.
Proof.
  unfold clean. rewrite forallb_forall. intros H HP.
  apply str_in_In in HP. apply negb_true_iff. apply H. exact HP.
Qed.

Lemma field_never P L fol f b :
  quiet_field P L fol = true -> clean f = true -> never (startswith L) f (fol ++ b).
Proof.
  unfold quiet_field. rewrite !andb_true_iff. intros [[HP HL] Hn] Hf.
  apply (nostart_prefix P L); [exact HL|apply clean_marker; assumption|].
  apply nocross_strict_sound. exact Hn.
Qed.

End Quiet.

(** ** The sections of an encoded block *)

Ltac qt := vm_compute; reflexivity.
Ltac in_list := cbn [In]; repeat first [ left; reflexivity | right ]; fail.

(** Bring both sides of an equation between texts to the same bracketing. *)
Ltac app_norm :=
  repeat first [ rewrite <- !app_assoc | rewrite !app_nil_r | progress cbn [app] ].

Section Sections.
Context {U : Unicode} {OS : OsPath}.

Lemma title_lines_text p : truthy (title p) = true -> unlines (title_lines p) = title_text (title p).
Proof.
  intros H. unfold title_lines, title_text, g_title, g_par.
  destruct (title p); [discriminate|]. rewrite !unlines_cons, unlines_nil.
  cbn [or_str]. app_norm. reflexivity.
Qed.

Lemma join_wrap c cs :
  join (u " ") (List.map (fun cat => u "`" ++ cat ++ u "`") (c :: cs))
  = g_tick ++ c ++ g_tick ++ concat (List.map (fun x => g_tick2 ++ x ++ g_tick) cs).
Proof.
  revert c. induction cs as [|d cs IH]; intros c.
  - cbn [List.map join concat]. unfold g_tick. app_norm. reflexivity.
  - change (join (u " ") (List.map (fun cat => u "`" ++ cat ++ u "`") (c :: d :: cs)))
      with ((u "`" ++ c ++ u "`") ++ u " "
            ++ join (u " ") (List.map (fun cat => u "`" ++ cat ++ u "`") (d :: cs))).
    rewrite IH. cbn [List.map concat]. unfold g_tick, g_tick2.
    app_norm. reflexivity.
Qed.

Lemma category_lines_text p : unlines (category_lines p) = cat_text (categories p).
Proof.
  unfold category_lines, cat_text. destruct (categories p) as [|c cs]; [reflexivity|].
  rewrite !unlines_cons, unlines_nil, join_wrap. unfold g_par.
  app_norm. reflexivity.
Qed.

Lemma description_lines_text p :
  unlines (description_lines p)
  = short_text (short_description p) ++ long_text (long_description p).
Proof.
  unfold description_lines, short_text, long_text, g_bold, g_bold_end, g_p, g_p_end.
  rewrite unlines_app.
  destruct (truthy (short_description p)), (truthy (long_description p));
    rewrite ?unlines_cons, ?unlines_nil; app_norm; reflexivity.
Qed.

Lemma unlines_map {A} (f : A -> str) l :
  unlines (List.map f l) = concat (List.map (fun x => f x ++ nl) l).
Proof. unfold unlines. rewrite List.map_map. reflexivity. Qed.

Lemma concat_map_ext {A} (f g : A -> str) l :
  (forall x, f x = g x) -> concat (List.map f l) = concat (List.map g l).
Proof. intros H. f_equal. apply List.map_ext. exact H. Qed.

Lemma tech_lines_text p : unlines (tech_lines p) = tech_text (technologies p).
Proof.
  unfold tech_lines, tech_text. destruct (technologies p) as [|t ts] eqn:E; [reflexivity|].
  rewrite <- E. clear E. rewrite !unlines_app, !unlines_cons, !unlines_nil, unlines_map.
  unfold g_tech, g_code, g_code_end, g_p_end.
  rewrite (concat_map_ext _ (fun t => u "  <code>" ++ t ++ u "</code>" ++ nl))
    by (intros x; app_norm; reflexivity).
  app_norm. reflexivity.
Qed.

Lemma features_lines_text p : unlines (features_lines p) = feat_text (features p).
Proof.
  unfold features_lines, feat_text. destruct (features p) as [|t ts] eqn:E; [reflexivity|].
  rewrite <- E. clear E. rewrite !unlines_app, !unlines_cons, !unlines_nil, unlines_map.
  unfold g_features, g_bullet.
  rewrite (concat_map_ext _ (fun f => u "- " ++ f ++ nl))
    by (intros x; app_norm; reflexivity).
  app_norm. reflexivity.
Qed.
End Sections.

Section LinksText.
Context {U : Unicode} {OS : OsPath}.

Lemma get_truthy_link d k :
  get_truthy d k = if truthy (link_of d k) then Some (link_of d k) else None.
Proof.
  unfold get_truthy, link_of. destruct (d !! k) as [v|]; [|reflexivity].
  simpl. destruct (truthy v); reflexivity.
Qed.

Lemma anchor_of_badge d k img :
  concat (List.map (fun b => (u "  " ++ b) ++ nl)
            (match get_truthy d k with
             | Some v => [badge v img]
             | None => []
             end))
  = anchor_text (link_of d k) img.
Proof.
  rewrite get_truthy_link. unfold anchor_text.
  destruct (truthy (link_of d k)); [|reflexivity].
  cbn [List.map concat]. unfold badge, g_anchor, anchor_tail. app_norm. reflexivity.
Qed.

Lemma anchors_of_badges d :
  concat (List.map (fun b => (u "  " ++ b) ++ nl) (link_badges d (u "000000")))
  = anchors_text d.
Proof.
  unfold link_badges, anchors_text. rewrite !map_app, !concat_app.
  rewrite !anchor_of_badge. reflexivity.
Qed.

Lemma links_lines_text p :
  theme_color p = u "#000000" -> unlines (links_lines p) = links_text (links p).
Proof.
  intros Ht. unfold links_lines, links_text. rewrite Ht.
  change (lstrip_char 35 (or_str (u "#000000") (u "#000000"))) with (u "000000").
  rewrite <- anchors_of_badges.
  destruct (link_badges (links p) (u "000000")) as [|b bs]; [reflexivity|].
  rewrite !unlines_app, !unlines_cons, !unlines_nil, unlines_map.
  cbn [List.map concat]. unfold g_p_nl, g_p_end.
  change (((u "  " ++ b) ++ nl) ++ concat (List.map (fun b0 => (u "  " ++ b0) ++ nl) bs))
    with (32 :: (32 :: b ++ nl) ++ concat (List.map (fun b0 => (u "  " ++ b0) ++ nl) bs)).
  cbv iota. app_norm. reflexivity.
Qed.
End LinksText.

(** ** Scanning the sections *)

Section Segments.
Context {U : Unicode}.
Variable f : str -> bool.

Lemma seg_lines_for ok pre post items b :
  glue_ok f pre -> glue_ok f post -> field_ok_for f ok post -> forallb ok items = true ->
  never f (concat (List.map (fun x => pre ++ x ++ post) items)) b.
Proof.
  intros Hpre Hpost Hf. revert b. induction items as [|x items IH]; intros b Hc.
  - apply never_nil.
  - cbn [forallb] in Hc. apply andb_true_iff in Hc as [Hx Hc].
    cbn [List.map concat]. apply never_app; [|apply IH; exact Hc].
    apply never_app; [apply Hpre|].
    apply never_app; [|apply Hpost].
    apply Hf. exact Hx.
Qed.

Lemma seg_lines pre post items b :
  glue_ok f pre -> glue_ok f post -> field_ok f post -> forallb clean items = true ->
  never f (concat (List.map (fun x => pre ++ x ++ post) items)) b.
Proof. apply seg_lines_for. Qed.

(** A field between two pieces of markup, written only when not empty. *)
Lemma seg_wrapped pre post s b :
  glue_ok f pre -> glue_ok f post -> field_ok f post -> clean s = true ->
  never f (if truthy s then pre ++ s ++ post else []) b.
Proof.
  intros Hpre Hpost Hf Hc. destruct (truthy s); [|apply never_nil].
  apply never_app; [apply Hpre|].
  apply never_app; [|apply Hpost].
  apply Hf. exact Hc.
Qed.

Lemma seg_title t b :
  glue_ok f g_title -> glue_ok f g_par -> field_ok f g_par -> clean t = true ->
  never f (title_text t) b.
Proof.
  intros Hpre Hpost Hf Hc. unfold title_text.
  apply never_app; [apply Hpre|].
  apply never_app; [|apply Hpost].
  apply Hf. exact Hc.
Qed.

Lemma known_category c :
  str_in c known_categories = true -> clean c = true /\ no_char 96 c = true /\ c <> [].
Proof.
  intros H. apply str_in_In in H. simpl in H.
  repeat (destruct H as [<-|H]; [repeat split; try qt; discriminate|]). destruct H.
Qed.

Lemma known_categories_clean cs :
  forallb (fun c => str_in c known_categories) cs = true -> forallb clean cs = true.
Proof.
  induction cs as [|c cs IH]; cbn [forallb]; [reflexivity|].
  rewrite !andb_true_iff. intros [Hc Hcs]. split; [exact (proj1 (known_category c Hc))|auto].
Qed.

Lemma seg_cat cs b :
  glue_ok f g_tick -> glue_ok f g_tick2 -> glue_ok f g_par -> field_ok f g_tick ->
  forallb (fun c => str_in c known_categories) cs = true ->
  never f (cat_text cs) b.
Proof.
  intros H1 H2 H3 Hf Hk. destruct cs as [|c cs]; [apply never_nil|].
  cbn [forallb] in Hk. apply andb_true_iff in Hk as [Hc Hcs]. unfold cat_text.
  apply never_app; [apply H1|].
  apply never_app.
  { rewrite <- !app_assoc. apply Hf. exact (proj1 (known_category c Hc)). }
  apply never_app; [apply H1|].
  apply never_app; [|apply H3].
  apply seg_lines; try assumption. apply known_categories_clean; exact Hcs.
Qed.

Lemma seg_short s b :
  glue_ok f g_bold -> glue_ok f g_bold_end -> field_ok f g_bold_end -> clean s = true ->
  never f (short_text s) b.
Proof. apply seg_wrapped. Qed.

Lemma seg_long s b :
  glue_ok f g_p -> glue_ok f g_p_end -> field_ok f g_p_end -> clean s = true ->
  never f (long_text s) b.
Proof. apply seg_wrapped. Qed.

Lemma seg_anchor url img b :
  glue_ok f g_anchor -> glue_ok f (anchor_tail img) -> field_ok f (anchor_tail img) ->
  clean url = true -> never f (anchor_text url img) b.
Proof. apply seg_wrapped. Qed.

Lemma seg_anchors d b :
  glue_ok f g_anchor -> Forall (glue_ok f) anchor_tails -> Forall (field_ok f) anchor_tails ->
  links_clean d = true -> never f (anchors_text d) b.
Proof.
  intros Ha Hg Hf Hc. unfold links_clean in Hc. cbn [forallb link_keys] in Hc.
  repeat (apply andb_true_iff in Hc as [? Hc]).
  unfold anchor_tails in Hg, Hf.
  repeat match goal with
         | H : Forall _ (_ :: _) |- _ => apply Forall_cons_1 in H as [? H]
         end.
  unfold anchors_text.
  repeat (apply never_app; [apply seg_anchor; assumption|]).
  apply seg_anchor; assumption.
Qed.

(** The first anchor of a paragraph of badges starts the text of the anchors. *)
Lemma anchors_text_head d : anchors_text d = [] \/ exists rest, anchors_text d = g_anchor ++ rest.
Proof.
  unfold anchors_text, anchor_text.
  repeat match goal with
         | |- context [truthy ?x] => destruct (truthy x)
         end;
    cbn [app]; rewrite <- ?app_assoc; eauto.
Qed.

Lemma seg_links d b :
  (forall b, never f g_p_nl (g_anchor ++ b)) -> glue_ok f g_p_end ->
  glue_ok f g_anchor -> Forall (glue_ok f) anchor_tails -> Forall (field_ok f) anchor_tails ->
  links_clean d = true -> never f (links_text d) b.
Proof.
  intros Hp He Ha Hg Hf Hc. unfold links_text.
  pose proof (seg_anchors d (g_p_end ++ b) Ha Hg Hf Hc) as Hs.
  destruct (anchors_text_head d) as [E|[rest E]]; rewrite E in *; [apply never_nil|].
  destruct (g_anchor ++ rest) as [|x a] eqn:Ea; [discriminate Ea|]. rewrite <- Ea in *.
  apply never_app; [rewrite <- app_assoc; apply Hp|].
  apply never_app; [exact Hs|apply He].
Qed.

Lemma seg_tech ts b :
  (forall b, never f g_tech (g_code ++ b)) -> glue_ok f g_code -> glue_ok f g_code_end ->
  glue_ok f g_p_end -> field_ok f g_code_end -> forallb clean ts = true ->
  never f (tech_text ts) b.
Proof.
  intros Ht Hc He Hp Hf Hts. unfold tech_text. destruct ts as [|t ts]; [apply never_nil|].
  apply never_app.
  { cbn [List.map concat]. rewrite <- !app_assoc. apply Ht. }
  apply never_app; [|apply Hp].
  apply seg_lines; assumption.
Qed.

Lemma seg_feat fs b :
  glue_ok f g_features -> glue_ok f g_bullet -> glue_ok f nl -> field_ok f nl ->
  forallb clean fs = true -> never f (feat_text fs) b.
Proof.
  intros Hg Hb Hn Hf Hfs. unfold feat_text. destruct fs as [|x fs]; [apply never_nil|].
  apply never_app; [apply Hg|].
  apply never_app; [|apply Hn].
  apply seg_lines; assumption.
Qed.
End Segments.

(** ** The block of a record of the round trip *)

Section Border.
Context {U : Unicode}.

Lemma border_cases p :
  border_ok p = true ->
  (show_border p = false /\ border_open p = [] /\ border_close p = []) \/
  (show_border p = true /\ In (border_style p) border_styles /\
   border_open p = border_open_of (border_style p) /\ border_close p = g_border_close).
Proof.
  unfold border_ok, border_open, border_close, border_on.
  destruct (show_border p); cbn [negb orb andb]; [|intros _; left; auto].
  intros H. right. apply str_in_In in H. fold border_styles in H.
  split; [reflexivity|]. split; [exact H|].
  unfold border_styles in H. cbn [In] in H.
  destruct H as [<-|[<-|[<-|[]]]]; split; reflexivity.
Qed.

Lemma seg_open f p b :
  Forall (glue_ok f) (List.map border_open_of border_styles) -> border_ok p = true ->
  never f (border_open p) b.
Proof.
  intros Hg Hb. destruct (border_cases p Hb) as [(_ & -> & _)|(_ & Hs & -> & _)].
  - apply never_nil.
  - rewrite List.Forall_forall in Hg. apply Hg. apply List.in_map. exact Hs.
Qed.

Lemma seg_bclose f p b :
  glue_ok f g_border_close -> border_ok p = true -> never f (border_close p) b.
Proof.
  intros Hg Hb. destruct (border_cases p Hb) as [(_ & _ & ->)|(_ & _ & _ & ->)].
  - apply never_nil.
  - apply Hg.
Qed.

Lemma field_hit P r fol : quiet_field P (prefix_of r) fol = true -> field_ok (hit r) fol.
Proof. intros H x b Hx. apply never_hit. apply (field_never P); assumption. Qed.

Lemma field_lit P L fol : quiet_field P L fol = true -> field_ok (startswith L) fol.
Proof. intros H x b Hx. apply (field_never P); assumption. Qed.
End Border.

(** The markup is concrete: the test is run at each of its positions.
    A field is clean: the fragment [P] that starts what is looked for
    does not occur in it. *)
Ltac glue :=
  lazymatch goal with
  | |- never _ _ ?b =>
      first [ generalize b; intros ?; apply never_check_sound; vm_compute; reflexivity
            | apply never_check_sound; vm_compute; reflexivity ]
  | |- nostart ?L ?a ?b => change (never (startswith L) a b); glue
  | |- _ => intros ?; glue
  end.

Ltac piece P :=
  lazymatch goal with
  | |- glue_ok _ _ => glue
  | |- field_ok (hit _) _ => apply (field_hit P); vm_compute; reflexivity
  | |- field_ok _ _ => apply (field_lit P); vm_compute; reflexivity
  | |- Forall _ _ =>
      unfold border_styles, anchor_tails; cbn [List.map];
      repeat (apply List.Forall_cons; [piece P|]); apply List.Forall_nil
  | |- forall b, never _ _ _ => glue
  | |- _ = true => assumption
  end.

(** One section of the block, then the sections that follow it. *)
Ltac seg P :=
  first
    [ apply never_nil
    | apply seg_open; piece P
    | apply seg_bclose; piece P
    | apply seg_title; piece P
    | apply seg_cat; piece P
    | apply seg_short; piece P
    | apply seg_long; piece P
    | apply seg_links; piece P
    | apply seg_tech; piece P
    | apply seg_feat; piece P
    | apply seg_lines; piece P
    | glue ].

Ltac segs P :=
  repeat match goal with
         | |- never _ (_ ++ _) _ => apply never_app; [seg P|]
         end;
  seg P.

Section RoundTripFacts.
Context {U : Unicode}.
Variable p : Project.
Hypothesis Hrt : round_trip_ok p = true.

Lemma store_clean prefix url : store_ok prefix url = true -> clean url = true.
Proof.
  unfold store_ok, url_ok. destruct url as [|c url]; [reflexivity|].
  rewrite !andb_true_iff. tauto.
Qed.

Lemma other_clean url : other_ok url = true -> clean url = true.
Proof. unfold other_ok, url_ok. rewrite !andb_true_iff. tauto. Qed.

Lemma rt_clean :
  clean (title p) = true /\
  forallb (fun c => str_in c known_categories) (categories p) = true /\
  clean (short_description p) = true /\ clean (long_description p) = true /\
  forallb clean (technologies p) = true /\ forallb clean (features p) = true /\
  links_clean (links p) = true /\ border_ok p = true.
Proof.
  pose proof Hrt as H. unfold round_trip_ok in H.
  repeat (apply andb_true_iff in H as [H ?]).
  unfold title_ok, short_ok, long_text_ok in *.
  repeat match goal with
         | X : _ && _ = true |- _ => apply andb_true_iff in X as [? ?]
         end.
  repeat split; try assumption.
  - apply forallb_forall. intros x Hx.
    match goal with
    | X : forallb tech_ok _ = true |- _ => rewrite forallb_forall in X; specialize (X x Hx)
    end.
    unfold tech_ok in *. rewrite !andb_true_iff in *. tauto.
  - apply forallb_forall. intros x Hx.
    match goal with
    | X : forallb feature_ok _ = true |- _ => rewrite forallb_forall in X; specialize (X x Hx)
    end.
    unfold feature_ok in *. rewrite !andb_true_iff in *. tauto.
  - unfold links_clean. cbn [forallb link_keys]. rewrite !andb_true_iff.
    repeat split; eauto using store_clean, other_clean.
Qed.
End RoundTripFacts.

(** ** What the decoder finds in the block *)

Ltac rt_facts H := destruct (rt_clean _ H) as (? & ? & ? & ? & ? & ? & ? & ?).

Section AbsentScans.
Context {U : Unicode}.
Variable p : Project.
Hypothesis Hrt : round_trip_ok p = true.

Lemma scan_size : re_search size_re (block_text p) = None.
Proof.
  rt_facts Hrt. unfold re_search. rewrite <- (app_nil_r (block_text p)).
  rewrite search_never; [apply search_end; reflexivity|].
  unfold block_text, inner_text. rewrite <- !app_assoc. segs (u "width=").
Qed.

Lemma scan_screenshots : re_findall2 screenshot_re (block_text p) = [].
Proof.
  rt_facts Hrt. unfold re_findall2. rewrite <- (app_nil_r (block_text p)).
  rewrite finditer_never; [reflexivity|].
  unfold block_text, inner_text. rewrite <- !app_assoc. segs (u "images/").
Qed.

Lemma scan_banner : re_search banner_re (block_text p) = None.
Proof.
  rt_facts Hrt. unfold re_search. rewrite <- (app_nil_r (block_text p)).
  rewrite search_never; [apply search_end; reflexivity|].
  unfold block_text, inner_text. rewrite <- !app_assoc. segs (u "<img").
Qed.

Lemma scan_logo : re_search logo_re (block_text p) = None.
Proof.
  rt_facts Hrt. unfold re_search. rewrite <- (app_nil_r (block_text p)).
  rewrite search_never; [apply search_end; reflexivity|].
  unfold block_text, inner_text. rewrite <- !app_assoc. segs (u "<img").
Qed.

Lemma absent L s : L <> [] -> never (startswith L) s [] -> contains L s = false.
Proof.
  intros HL H. rewrite <- (app_nil_r s). rewrite contains_never by exact H.
  destruct L; [congruence|reflexivity].
Qed.

Lemma scan_table : contains (u "<table") (block_text p) = false.
Proof.
  rt_facts Hrt. apply absent; [discriminate|].
  unfold block_text, inner_text. rewrite <- !app_assoc. segs (u "<table").
Qed.

Lemma scan_br : contains (u "<br>") (block_text p) = false.
Proof.
  rt_facts Hrt. apply absent; [discriminate|].
  unfold block_text, inner_text. rewrite <- !app_assoc. segs (u "<br>").
Qed.

Lemma scan_layout : layout_of (block_text p) = u "horizontal".
Proof. unfold layout_of. rewrite scan_table, scan_br, andb_false_r. reflexivity. Qed.

Lemma scan_hr : contains (u "<hr>") (block_text p) = false.
Proof.
  rt_facts Hrt. apply absent; [discriminate|].
  unfold block_text, inner_text. rewrite <- !app_assoc. segs (u "<hr>").
Qed.
End AbsentScans.

(** ** The block holds no line [---]

    The separator starts with a newline, as most pieces of markup end:
    each section is followed through with what may come after it. *)

Section RuleScan.
Context {U : Unicode}.

Lemma passes_nil : passes [].
Proof. intros b Hb. split; [apply never_nil|exact Hb]. Qed.

Lemma passes_app a c : passes a -> passes c -> passes (a ++ c).
Proof.
  intros Ha Hc b Hb. destruct (Hc b Hb) as [Hn Hcalm].
  destruct (Ha (c ++ b) Hcalm) as [Hn' Hcalm'].
  split; [apply never_app; assumption|]. rewrite <- app_assoc. exact Hcalm'.
Qed.

(** A piece of markup in which no newline is followed by a dash. *)
Lemma passes_glue c :
  contains (nl ++ u "-") c = false -> (forall b, calm (c ++ b) = true) -> passes c.
Proof.
  intros Hc Hcalm b Hb. split; [|apply Hcalm].
  intros t1 x t2 E.
  change (nl ++ u "---" ++ nl) with (10 :: u "---" ++ nl).
  cbn [app startswith]. destruct (N.eqb_spec 10 x) as [<-|]; [|reflexivity].
  cbn [andb]. destruct t2 as [|y t2].
  - cbn [app]. unfold calm in Hb. apply negb_true_iff in Hb. exact Hb.
  - change (u "---" ++ nl) with (45 :: u "--" ++ nl).
    cbn [app startswith]. destruct (N.eqb_spec 45 y) as [<-|]; [|reflexivity].
    exfalso. subst c.
    rewrite (contains_suffix_true (nl ++ u "-") t1 (10 :: 45 :: t2)) in Hc by reflexivity.
    discriminate Hc.
Qed.

(** A text of one line. *)
Lemma rule_line x b : no_newline x = true -> never (startswith (nl ++ u "---" ++ nl)) x b.
Proof. intros H. apply (nostart_char 10 (u "---" ++ nl)). exact H. Qed.

(** A clean text, before markup that starts with neither a dash nor a newline. *)
Lemma rule_clean x post b :
  quiet_field (nl ++ u "---" ++ nl) (nl ++ u "---" ++ nl) post = true -> clean x = true ->
  never (startswith (nl ++ u "---" ++ nl)) x (post ++ b).
Proof. intros Hq Hx. apply (field_never (nl ++ u "---" ++ nl)); assumption. Qed.

(** A field between two pieces of markup. *)
Lemma passes_wrapped pre x post :
  no_newline pre = true -> (forall b, calm (pre ++ b) = true) ->
  (forall b, never (startswith (nl ++ u "---" ++ nl)) x (post ++ b)) ->
  passes post -> passes (pre ++ x ++ post).
Proof.
  intros Hpre Hcalm Hx Hpost b Hb. destruct (Hpost b Hb) as [Hn _]. split.
  - apply never_app; [apply rule_line; exact Hpre|].
    apply never_app; [apply Hx|exact Hn].
  - rewrite <- app_assoc. apply Hcalm.
Qed.

Lemma passes_lines (ok : str -> bool) pre post items :
  (forall x, ok x = true -> passes (pre ++ x ++ post)) -> forallb ok items = true ->
  passes (concat (List.map (fun x => pre ++ x ++ post) items)).
Proof.
  intros H. induction items as [|x items IH]; cbn [forallb List.map concat].
  - intros _. apply passes_nil.
  - rewrite andb_true_iff. intros [Hx Hi]. apply passes_app; [apply H; exact Hx|apply IH; exact Hi].
Qed.
End RuleScan.

Ltac calm_glue := intros ?; vm_compute; reflexivity.
Ltac rule_glue := apply passes_glue; [vm_compute; reflexivity|calm_glue].
Ltac rule_wrapped :=
  apply passes_wrapped;
  [ vm_compute; reflexivity
  | calm_glue
  | first [ intros ?; apply rule_clean; [vm_compute; reflexivity|assumption]
          | intros ?; apply rule_line; assumption ]
  | rule_glue ].

Section RuleSections.
Context {U : Unicode}.
Variable p : Project.
Hypothesis Hrt : round_trip_ok p = true.

Lemma rt_lines :
  no_newline (title p) = true /\ forallb no_newline (features p) = true.
Proof.
  pose proof Hrt as H. unfold round_trip_ok in H.
  repeat (apply andb_true_iff in H as [H ?]).
  unfold title_ok in *.
  repeat match goal with
         | X : _ && _ = true |- _ => apply andb_true_iff in X as [? ?]
         end.
  split; [assumption|].
  apply forallb_forall. intros x Hx.
  match goal with
  | X : forallb feature_ok _ = true |- _ => rewrite forallb_forall in X; specialize (X x Hx)
  end.
  unfold feature_ok in *. rewrite !andb_true_iff in *. tauto.
Qed.

Lemma passes_title : passes (title_text (title p)).
Proof. destruct rt_lines as [Ht _]. unfold title_text. rule_wrapped. Qed.

Lemma passes_cat : passes (cat_text (categories p)).
Proof.
  rt_facts Hrt.
  match goal with
  | X : forallb (fun c => str_in c known_categories) _ = true |- _ =>
      apply known_categories_clean in X; rename X into Hc
  end.
  unfold cat_text. destruct (categories p) as [|c cs]; [apply passes_nil|].
  cbn [forallb] in Hc. apply andb_true_iff in Hc as [Hc Hcs].
  rewrite !app_assoc, <- (app_assoc _ c). apply passes_app; [|rule_glue].
  apply passes_app; [rule_wrapped|].
  apply (passes_lines clean); [|exact Hcs]. intros x Hx. rule_wrapped.
Qed.

Lemma passes_short : passes (short_text (short_description p)).
Proof.
  rt_facts Hrt. unfold short_text. destruct (truthy _); [|apply passes_nil]. rule_wrapped.
Qed.

Lemma passes_long : passes (long_text (long_description p)).
Proof.
  rt_facts Hrt. unfold long_text. destruct (truthy _); [|apply passes_nil]. rule_wrapped.
Qed.

Lemma passes_anchor url img :
  In img imgs -> clean url = true -> passes (anchor_text url img).
Proof.
  intros Hi Hu. unfold anchor_text. destruct (truthy url); [|apply passes_nil].
  unfold imgs in Hi. cbn [In] in Hi.
  repeat (destruct Hi as [<-|Hi]; [rule_wrapped|]). destruct Hi.
Qed.

Lemma passes_links : passes (links_text (links p)).
Proof.
  rt_facts Hrt.
  match goal with
  | X : links_clean _ = true |- _ =>
      unfold links_clean in X; cbn [forallb link_keys] in X;
      repeat (apply andb_true_iff in X as [? X])
  end.
  assert (Ha : passes (anchors_text (links p))).
  { unfold anchors_text.
    repeat (apply passes_app; [apply passes_anchor; [unfold imgs; in_list|assumption]|]).
    apply passes_anchor; [unfold imgs; in_list|assumption]. }
  unfold links_text. destruct (anchors_text (links p)) as [|x a] eqn:E; [apply passes_nil|].
  apply passes_app; [rule_glue|]. apply passes_app; [exact Ha|rule_glue].
Qed.

Lemma passes_tech : passes (tech_text (technologies p)).
Proof.
  rt_facts Hrt. unfold tech_text.
  destruct (technologies p) as [|t ts]; [apply passes_nil|]. cbv iota.
  apply passes_app; [rule_glue|]. apply passes_app; [|rule_glue].
  apply (passes_lines clean); [|assumption]. intros x Hx. rule_wrapped.
Qed.

Lemma passes_feat : passes (feat_text (features p)).
Proof.
  destruct rt_lines as [_ Hf]. unfold feat_text.
  destruct (features p) as [|t ts]; [apply passes_nil|]. cbv iota.
  apply passes_app; [rule_glue|]. apply passes_app; [|rule_glue].
  apply (passes_lines no_newline); [|assumption]. intros x Hx. rule_wrapped.
Qed.

Lemma passes_border :
  passes (border_open p) /\ passes (border_close p).
Proof.
  rt_facts Hrt.
  match goal with X : border_ok p = true |- _ => destruct (border_cases p X) as
      [(_ & -> & ->)|(_ & Hs & -> & ->)] end.
  - split; apply passes_nil.
  - split; [|rule_glue].
    unfold border_styles in Hs. cbn [In] in Hs.
    destruct Hs as [<-|[<-|[<-|[]]]]; rule_glue.
Qed.

Lemma scan_rule : contains (nl ++ u "---" ++ nl) (block_text p) = false.
Proof.
  apply absent; [discriminate|].
  destruct passes_border as [Ho Hc].
  assert (H : passes (block_text p)).
  { unfold block_text, inner_text.
    apply passes_app; [exact Ho|]. apply passes_app; [|exact Hc].
    apply passes_app; [rule_glue|].
    apply passes_app; [apply passes_title|].
    apply passes_app; [apply passes_cat|].
    apply passes_app; [apply passes_short|].
    apply passes_app; [apply passes_long|].
    apply passes_app; [apply passes_links|].
    apply passes_app; [apply passes_tech|].
    apply passes_app; [apply passes_feat|].
    rule_glue. }
  apply (H []). reflexivity.
Qed.

(** The block is the one part of its text. *)
Lemma block_whole : re_split sep_re (block_text p) = [block_text p].
Proof. apply split_whole; [apply scan_hr; exact Hrt|apply scan_rule]. Qed.
End RuleSections.

Section BorderScan.
Context {U : Unicode}.

Lemma existsb_seq_S (f : nat -> bool) n : forall k,
  existsb f (seq (S k) n) = existsb (fun i => f (S i)) (seq k n).
Proof. induction n as [|n IH]; intros k; simpl; [reflexivity|]. rewrite IH. reflexivity. Qed.

(** An occurrence of [L] in [a ++ b] starts inside [a] or lies in [b]. *)
Lemma contains_app_cases L a b :
  contains L (a ++ b)
  = existsb (fun i => startswith L (drop i a ++ b)) (seq 0 (length a)) || contains L b.
Proof.
  induction a as [|x a IH]; [reflexivity|].
  change (contains L ((x :: a) ++ b)) with (startswith L (x :: a ++ b) || contains L (a ++ b)).
  rewrite IH. cbn [length seq existsb]. rewrite existsb_seq_S. cbn [drop].
  rewrite orb_assoc. reflexivity.
Qed.

Variable p : Project.
Hypothesis Hrt : round_trip_ok p = true.

Lemma inner_no_border L :
  In L [u "border: 1px solid"; u "border: 2px dashed"; u "border-radius: 12px"; u "dashed"] ->
  contains L (inner_text p ++ border_close p) = false.
Proof.
  rt_facts Hrt. cbn [In]. intros [<-|[<-|[<-|[<-|[]]]]]; (apply absent; [discriminate|]);
    unfold inner_text; rewrite <- !app_assoc.
  - segs (u "border: 1px solid").
  - segs (u "border: 2px dashed").
  - segs (u "border-radius: 12px").
  - segs (u "dashed").
Qed.

Lemma scan_border :
  border_gate (block_text p) = show_border p /\
  (show_border p = true -> border_of (block_text p) = border_style p).
Proof.
  rt_facts Hrt. unfold border_gate, border_of, block_text.
  destruct (border_cases p) as [(Hs & -> & E)|(Hs & Hin & -> & E)]; [assumption| |].
  - cbn [app]. rewrite !inner_no_border by in_list. rewrite Hs. split; [reflexivity|discriminate].
  - rewrite !(contains_app_cases _ (border_open_of _)), !inner_no_border by in_list.
    rewrite Hs, !orb_false_r.
    generalize (inner_text p ++ border_close p). intros rest.
    unfold border_styles in Hin. cbn [In] in Hin.
    destruct Hin as [<-|[<-|[<-|[]]]]; split; intros; vm_compute; reflexivity.
Qed.
End BorderScan.

(** ** The fields between two delimiters *)

Section Delimited.
Context {U : Unicode}.

Lemma delimited_at a c b' x post :
  x <> [] -> no_char c x = true ->
  match_at (delimited a c (c :: b')) (a ++ x ++ (c :: b') ++ post)
  = Some (a ++ x ++ c :: b', [(1%nat, x)]).
Proof.
  intros Hx Hn. destruct x as [|y x]; [congruence|].
  apply no_char_cls in Hn as Hn'. cbn [forallb] in Hn'. apply andb_true_iff in Hn' as [Hy Hx'].
  unfold match_at, delimited, Plus. cbn [m]. rewrite startswith_app, drop_app_length'.
  cbn [app]. rewrite Hy.
  rewrite (star_over _ x (c :: b' ++ post) _
             (post, [(1%nat, consumed (y :: x ++ c :: b' ++ post) (c :: b' ++ post))])).
  - rewrite consumed_cons_app. f_equal. f_equal.
    replace (a ++ y :: x ++ c :: b' ++ post) with ((a ++ y :: x ++ c :: b') ++ post).
    + apply consumed_app.
    + rewrite <- !app_assoc. cbn [app]. rewrite <- app_assoc. reflexivity.
  - exact Hx'.
  - cbn [stops]. rewrite cls_none_self. reflexivity.
  - change (c :: b' ++ post) with ((c :: b') ++ post).
    rewrite startswith_app, drop_app_length'. reflexivity.
Qed.

Lemma search_delimited pre a c b' x post :
  never (hit (delimited a c (c :: b'))) pre (a ++ x ++ (c :: b') ++ post) ->
  x <> [] -> no_char c x = true ->
  exists mt, re_search (delimited a c (c :: b')) (pre ++ a ++ x ++ (c :: b') ++ post) = Some mt /\
             m_text mt = a ++ x ++ c :: b' /\ g1 mt = x.
Proof.
  intros Hpre Hx Hn. unfold re_search. rewrite search_never by exact Hpre.
  rewrite (search_here _ _ _ _ _ (delimited_at a c b' x post Hx Hn)).
  eexists. split; [reflexivity|]. split; reflexivity.
Qed.

Lemma search_absent r s : hit r [] = false -> never (hit r) s [] -> re_search r s = None.
Proof.
  intros He H. unfold re_search. rewrite <- (app_nil_r s), search_never by exact H.
  apply search_end. exact He.
Qed.

Lemma re_findall1_never r a b :
  never (hit r) a b -> re_findall1 r (a ++ b) = re_findall1 r b.
Proof. intros H. unfold re_findall1. rewrite finditer_never by exact H. reflexivity. Qed.

Lemma re_findall1_end r a :
  hit r [] = false -> never (hit r) a [] -> re_findall1 r a = [].
Proof.
  intros He H. rewrite <- (app_nil_r a), re_findall1_never by exact H.
  unfold re_findall1. rewrite finditer_end by (apply hit_none; exact He). reflexivity.
Qed.

Lemma re_findall1_delimited a c b' x post :
  a <> [] -> x <> [] -> no_char c x = true ->
  re_findall1 (delimited a c (c :: b')) (a ++ x ++ (c :: b') ++ post)
  = x :: re_findall1 (delimited a c (c :: b')) post.
Proof.
  intros Ha Hx Hn. unfold re_findall1.
  replace (a ++ x ++ (c :: b') ++ post) with ((a ++ x ++ c :: b') ++ post)
    by (rewrite <- !app_assoc; reflexivity).
  rewrite (finditer_match _ (a ++ x ++ c :: b') [(1%nat, x)]).
  - reflexivity.
  - destruct a; [congruence|discriminate].
  - rewrite <- (delimited_at a c b' x post Hx Hn). rewrite <- !app_assoc. reflexivity.
Qed.
End Delimited.

Section FieldScans.
Context {U : Unicode}.
Variable p : Project.
Hypothesis Hrt : round_trip_ok p = true.

Lemma rt_title : title p <> [] /\ no_newline (title p) = true /\ strip (title p) = title p.
Proof.
  pose proof Hrt as H. unfold round_trip_ok in H.
  repeat (apply andb_true_iff in H as [H ?]).
  match goal with
  | X : str_eqb (strip (title p)) (title p) = true |- _ => apply str_eqb_eq in X
  end.
  repeat split; try assumption.
  intros E. rewrite E in H. discriminate.
Qed.

Lemma rt_short :
  no_char 42 (short_description p) = true /\ strip (short_description p) = short_description p.
Proof.
  pose proof Hrt as H. unfold round_trip_ok in H.
  repeat (apply andb_true_iff in H as [H ?]).
  match goal with X : short_ok _ = true |- _ => unfold short_ok in X;
    rewrite !andb_true_iff in X; destruct X as [[Hn _] Hs] end.
  apply str_eqb_eq in Hs. auto.
Qed.

Lemma rt_long :
  no_char 60 (long_description p) = true /\ strip (long_description p) = long_description p.
Proof.
  pose proof Hrt as H. unfold round_trip_ok in H.
  repeat (apply andb_true_iff in H as [H ?]).
  match goal with X : long_text_ok _ = true |- _ => unfold long_text_ok in X;
    rewrite !andb_true_iff in X; destruct X as [[Hn _] Hs] end.
  apply str_eqb_eq in Hs. auto.
Qed.

Lemma scan_title :
  exists mt, re_search title_re (block_text p) = Some mt /\ strip (g1 mt) = title p.
Proof.
  rt_facts Hrt. destruct rt_title as (Ht & Hn & Hs).
  unfold re_search, block_text, inner_text. rewrite <- !app_assoc.
  rewrite search_never by seg (u "##").
  rewrite search_never by seg (u "##").
  unfold title_text. rewrite <- !app_assoc.
  erewrite search_here.
  2:{ apply title_at_heading; [exact Hn| |reflexivity].
      apply strip_nonempty. rewrite Hs. exact Ht. }
  eexists. split; [reflexivity|].
  change (strip (lstrip (title p)) = title p). rewrite strip_lstrip. exact Hs.
Qed.

Lemma scan_short :
  match re_search short_re (block_text p) with
  | Some mt => strip (g1 mt)
  | None => []
  end = short_description p.
Proof.
  rt_facts Hrt. destruct rt_short as (Hn & Hs).
  unfold block_text, inner_text. rewrite <- !app_assoc.
  destruct (short_description p) as [|c s] eqn:E.
  - rewrite search_absent; [reflexivity|reflexivity|]. segs (u "**").
  - rewrite <- E in *. unfold short_text. rewrite E at 1. cbn [truthy]. rewrite <- !app_assoc.
    rewrite !(app_assoc (border_open p)), !(app_assoc (_ ++ g_div)), !(app_assoc (_ ++ title_text _)).
    destruct (search_delimited ((((border_open p ++ g_div) ++ title_text (title p))
                                   ++ cat_text (categories p)))
                (u "**") 42 [42] (short_description p)
                (nl ++ nl ++ long_text (long_description p) ++ links_text (links p)
                 ++ tech_text (technologies p) ++ feat_text (features p) ++ g_close
                 ++ border_close p)) as (mt & Hm & _ & Hg).
    + rewrite <- !app_assoc. segs (u "**").
    + rewrite E. discriminate.
    + exact Hn.
    + rewrite <- !app_assoc in Hm. rewrite <- !app_assoc.
      replace (re_search short_re _) with (Some mt) by (symmetry; exact Hm).
      rewrite Hg. exact Hs.
Qed.

Lemma no_anchor_in s :
  no_char 60 s = true -> clean s = true ->
  contains (u "<a href") (u "<p>" ++ s ++ 60 :: u "/p>") = false /\
  contains (u "<img") (u "<p>" ++ s ++ 60 :: u "/p>") = false.
Proof.
  intros Hn Hc. split; (apply absent; [discriminate|]).
  - apply never_app; [glue|]. apply never_app; [|glue].
    apply (nostart_char 60). exact Hn.
  - apply never_app; [glue|]. apply never_app; [|glue].
    rewrite <- (app_nil_r (60 :: u "/p>")). apply (field_lit (u "<img")); [qt|exact Hc].
Qed.

Lemma scan_long :
  match re_search long_re (block_text p) with
  | Some mt => if long_ok mt then strip (g1 mt) else []
  | None => []
  end = long_description p.
Proof.
  rt_facts Hrt. destruct rt_long as (Hn & Hs).
  unfold block_text, inner_text. rewrite <- !app_assoc.
  destruct (long_description p) as [|c s] eqn:E.
  - rewrite search_absent; [reflexivity|reflexivity|]. segs (u "<p>").
  - rewrite <- E in *. unfold long_text. rewrite E at 1. cbn [truthy]. rewrite <- !app_assoc.
    destruct (search_delimited
                (border_open p ++ g_div ++ title_text (title p) ++ cat_text (categories p)
                 ++ short_text (short_description p))
                (u "<p>") 60 (u "/p>") (long_description p)
                (nl ++ nl ++ links_text (links p)
                 ++ tech_text (technologies p) ++ feat_text (features p) ++ g_close
                 ++ border_close p)) as (mt & Hm & Ht & Hg).
    + segs (u "<p>").
    + rewrite E. discriminate.
    + exact Hn.
    + rewrite <- !app_assoc in Hm.
      replace (re_search long_re _) with (Some mt) by (symmetry; exact Hm).
      unfold long_ok. rewrite Ht.
      destruct (no_anchor_in (long_description p) Hn) as [-> ->]; [assumption|].
      cbn [negb andb]. rewrite Hg. exact Hs.
Qed.
End FieldScans.

Section CategoryScan.
Context {U : Unicode}.

Lemma findall_cats cs rest :
  forallb (fun c => str_in c known_categories) cs = true ->
  re_findall1 category_re (concat (List.map (fun x => g_tick2 ++ x ++ g_tick) cs) ++ rest)
  = cs ++ re_findall1 category_re rest.
Proof.
  induction cs as [|c cs IH]; cbn [forallb]; [reflexivity|].
  rewrite andb_true_iff. intros [Hc Hcs]. destruct (known_category c Hc) as (_ & Hn & Hne).
  cbn [List.map concat]. rewrite <- !app_assoc.
  change (g_tick2 ++ c ++ g_tick ++ ?r) with (u " " ++ u "`" ++ c ++ u "`" ++ r).
  rewrite findall_span by (try assumption; reflexivity).
  rewrite IH by exact Hcs. reflexivity.
Qed.

Variable p : Project.
Hypothesis Hrt : round_trip_ok p = true.

Lemma scan_categories :
  List.filter (fun c => str_in c known_categories) (re_findall1 category_re (block_text p))
  = categories p.
Proof.
  rt_facts Hrt. unfold block_text, inner_text. rewrite <- !app_assoc.
  rewrite re_findall1_never by seg (u "`").
  rewrite re_findall1_never by seg (u "`").
  rewrite re_findall1_never by seg (u "`").
  destruct (categories p) as [|c cs] eqn:E.
  - cbn [cat_text app]. rewrite re_findall1_end; [reflexivity|reflexivity|]. segs (u "`").
  - match goal with X : forallb _ (c :: cs) = true |- _ => pose proof X as Hk end.
    cbn [forallb] in Hk. apply andb_true_iff in Hk as [Hc Hcs].
    destruct (known_category c Hc) as (_ & Hn & Hne).
    unfold cat_text. rewrite <- !app_assoc.
    change (g_tick ++ c ++ g_tick ++ ?r) with ([] ++ u "`" ++ c ++ u "`" ++ r).
    rewrite findall_span by (try assumption; reflexivity).
    rewrite findall_cats by exact Hcs.
    rewrite (re_findall1_end category_re); [|reflexivity|segs (u "`")].
    rewrite app_nil_r. apply (filter_all _ (c :: cs)). assumption.
Qed.
End CategoryScan.

Section TechScan.
Context {U : Unicode}.

Lemma lazy_skip_never {R} p a b (k : str -> option R) :
  (forall t1 x t2, a = t1 ++ x :: t2 -> k (x :: t2 ++ b) = None) -> forallb p a = true ->
  lazy_star p (a ++ b) k = lazy_star p b k.
Proof.
  induction a as [|x a IH]; intros Hk; [reflexivity|].
  cbn [forallb]. rewrite andb_true_iff. intros [Hx Ha].
  cbn [app lazy_star]. rewrite (Hk [] x a eq_refl), Hx.
  apply IH; [|exact Ha]. intros t1 y t2 ->. apply (Hk (x :: t1) y t2). reflexivity.
Qed.

Lemma forallb_dotall a : forallb (cls_test DotAll) a = true.
Proof. induction a; [reflexivity|assumption]. Qed.

(** A lazy [.*?] under [re.DOTALL] runs to the first place where the
    rest of the pattern matches. *)
Lemma lazy_until {R} a b (k : str -> option R) res :
  never (fun s => is_some (k s)) a b -> k b = Some res ->
  lazy_star (cls_test DotAll) (a ++ b) k = Some res.
Proof.
  intros Hk Hb. rewrite lazy_skip_never; [apply lazy_here; exact Hb| |apply forallb_dotall].
  intros t1 x t2 E. specialize (Hk t1 x t2 E). cbv beta in Hk.
  destruct (k (x :: t2 ++ b)); [discriminate|reflexivity].
Qed.

Lemma tech_at G R :
  never (startswith (u "</p>")) G (u "</p>" ++ R) ->
  match_at tech_re (u "###" ++ u " " ++ u "Tech Stack" ++ (nl ++ nl) ++ u "<p>" ++ G ++ u "</p>" ++ R)
  = Some (u "###" ++ u " " ++ u "Tech Stack" ++ (nl ++ nl) ++ u "<p>" ++ G ++ u "</p>",
          [(1%nat, G)]).
Proof.
  intros HG.
  assert (Hm : m tech_re (u "###" ++ u " " ++ u "Tech Stack" ++ (nl ++ nl) ++ u "<p>" ++ G
                          ++ u "</p>" ++ R) [] (fun s' g => Some (s', g))
               = Some (R, [(1%nat, G)])).
  { unfold tech_re. cbn [m]. rewrite startswith_app, drop_app_length'.
    apply star_over; [reflexivity|reflexivity|].
    rewrite startswith_app, drop_app_length'.
    apply lazy_until; [apply never_check_sound; vm_compute; reflexivity|].
    rewrite startswith_app, drop_app_length'.
    apply lazy_until.
    - apply (never_impl _ (startswith (u "</p>"))); [|exact HG].
      intros s Hs. rewrite Hs. reflexivity.
    - rewrite startswith_app, drop_app_length', consumed_app. reflexivity. }
  unfold match_at. rewrite Hm. f_equal. f_equal.
  rewrite !(app_assoc _ _ (_ ++ R)), !(app_assoc _ _ R).
  rewrite consumed_app, <- !app_assoc. reflexivity.
Qed.

Lemma search_at r pre s t g :
  never (hit r) pre s -> match_at r s = Some (t, g) ->
  re_search r (pre ++ s) = Some {| m_start := (0 + length pre); m_text := t; m_groups := g |}.
Proof.
  intros Hpre Hm. unfold re_search. rewrite search_never by exact Hpre.
  apply search_here. exact Hm.
Qed.

Lemma findall_codes ts rest :
  forallb code_ok ts = true ->
  re_findall1 code_re (concat (List.map (fun t => g_code ++ t ++ g_code_end) ts) ++ rest)
  = ts ++ re_findall1 code_re rest.
Proof.
  induction ts as [|t ts IH]; cbn [forallb]; [reflexivity|].
  rewrite andb_true_iff. intros [Ht Hts]. unfold code_ok in Ht.
  apply andb_true_iff in Ht as [Hne Hn].
  cbn [List.map concat]. rewrite <- !app_assoc.
  change (g_code ++ t ++ g_code_end ++ ?r)
    with (u "  " ++ u "<code>" ++ t ++ (60 :: u "/code>") ++ nl ++ r).
  rewrite re_findall1_never by glue.
  change code_re with (delimited (u "<code>") 60 (60 :: u "/code>")).
  rewrite re_findall1_delimited; [|discriminate|destruct t; discriminate|exact Hn].
  rewrite re_findall1_never by glue.
  change (delimited (u "<code>") 60 (60 :: u "/code>")) with code_re.
  rewrite IH by exact Hts. reflexivity.
Qed.

Lemma code_lines_quiet ts b :
  forallb code_ok ts = true ->
  never (startswith (u "</p>"))
    (concat (List.map (fun t => g_code ++ t ++ g_code_end) ts)) b.
Proof.
  intros H. apply (seg_lines_for _ code_ok); [glue|glue| |exact H].
  intros x b' Hx. unfold code_ok in Hx. apply andb_true_iff in Hx as [_ Hx].
  apply (nostart_char 60). exact Hx.
Qed.

Variable p : Project.
Hypothesis Hrt : round_trip_ok p = true.

Lemma rt_tech : forallb code_ok (technologies p) = true.
Proof.
  pose proof Hrt as H. unfold round_trip_ok in H.
  repeat (apply andb_true_iff in H as [H ?]).
  match goal with X : forallb tech_ok _ = true |- _ => rename X into Ht end.
  rewrite forallb_forall in *. intros x Hx. specialize (Ht x Hx).
  unfold tech_ok, code_ok in *. rewrite !andb_true_iff in *. tauto.
Qed.

Lemma scan_tech :
  match re_search tech_re (block_text p) with
  | Some mt => re_findall1 code_re (g1 mt)
  | None => []
  end = technologies p.
Proof.
  rt_facts Hrt. pose proof rt_tech as Hts.
  unfold block_text, inner_text. rewrite <- !app_assoc.
  destruct (technologies p) as [|t ts] eqn:E.
  - rewrite search_absent; [reflexivity|reflexivity|]. segs (u "##").
  - rewrite <- E in *. unfold tech_text. rewrite E at 1. rewrite <- !app_assoc.
    assert (Hat := tech_at
                     (nl ++ concat (List.map (fun t => g_code ++ t ++ g_code_end)
                                      (technologies p)))
                     (nl ++ nl ++ feat_text (features p) ++ g_close ++ border_close p)).
    specialize (Hat ltac:(apply never_app; [glue|apply code_lines_quiet; exact Hts])).
    assert (Hm := search_at tech_re
                    (border_open p ++ g_div ++ title_text (title p) ++ cat_text (categories p)
                     ++ short_text (short_description p) ++ long_text (long_description p)
                     ++ links_text (links p)) _ _ _ ltac:(segs (u "##")) Hat).
    rewrite <- !app_assoc in Hm.
    replace (re_search tech_re _) with (Some {|
      m_start := 0 + length (border_open p ++ g_div ++ title_text (title p)
                            ++ cat_text (categories p) ++ short_text (short_description p)
                            ++ long_text (long_description p) ++ links_text (links p));
      m_text := u "###" ++ u " " ++ u "Tech Stack" ++ (nl ++ nl) ++ u "<p>"
                ++ (nl ++ concat (List.map (fun t => g_code ++ t ++ g_code_end)
                                    (technologies p))) ++ u "</p>";
      m_groups := [(1%nat, nl ++ concat (List.map (fun t => g_code ++ t ++ g_code_end)
                                           (technologies p)))] |})
      by (symmetry; exact Hm).
    change (re_findall1 code_re
              (nl ++ concat (List.map (fun t => g_code ++ t ++ g_code_end) (technologies p)))
            = technologies p).
    rewrite re_findall1_never by glue.
    rewrite <- (app_nil_r (concat _)), findall_codes by exact Hts.
    apply app_nil_r.
Qed.
End TechScan.

Section FeatureScan.
Context {U : Unicode}.

(** [-\s+(.+)] at a bullet whose text does not start with white space. *)
Lemma bullet_at f post :
  f <> [] -> no_newline f = true -> lstrip f = f -> line_end post = true ->
  match_at bullet_re (u "-" ++ 32 :: f ++ post) = Some (u "-" ++ 32 :: f, [(1%nat, f)]).
Proof.
  intros Hne Hn Hl Hpost. destruct f as [|x f]; [congruence|].
  assert (Hx : is_space x = false).
  { cbn [lstrip] in Hl. destruct (is_space x) eqn:Hx; [|reflexivity].
    exfalso. pose proof (lstrip_split f) as (ws & E & _ & _).
    assert (Hlen : (length (lstrip f) <= length f)%nat).
    { rewrite E at 2. rewrite length_app. lia. }
    rewrite Hl in Hlen. cbn [length] in Hlen. lia. }
  cbn [no_newline forallb] in Hn. apply andb_true_iff in Hn as [Hx10 Hf].
  unfold match_at, bullet_re, Plus. cbn [m]. rewrite startswith_app, drop_app_length'.
  change (cls_test Space 32) with true. cbv iota.
  cbn [app]. rewrite star_stop by (cbn [stops cls_test]; rewrite Hx; reflexivity).
  cbn [cls_test]. rewrite Hx10.
  rewrite (star_over _ f post _ (post, [(1%nat, consumed (x :: f ++ post) post)])).
  - rewrite consumed_cons_app. f_equal. f_equal.
    change (u "-" ++ 32 :: x :: f ++ post) with ((u "-" ++ 32 :: x :: f) ++ post).
    apply consumed_app.
  - exact Hf.
  - apply line_end_stops. exact Hpost.
  - reflexivity.
Qed.

Lemma re_findall1_match r t g s :
  t <> [] -> match_at r (t ++ s) = Some (t, g) ->
  re_findall1 r (t ++ s) = group_or_empty 1 g :: re_findall1 r s.
Proof.
  intros Ht Hm. unfold re_findall1. rewrite (finditer_match r t g s Ht Hm). reflexivity.
Qed.

Lemma findall_bullets fs rest :
  forallb bullet_ok fs = true ->
  re_findall1 bullet_re (concat (List.map (fun f => g_bullet ++ f ++ nl) fs) ++ rest)
  = fs ++ re_findall1 bullet_re rest.
Proof.
  induction fs as [|f fs IH]; cbn [forallb]; [reflexivity|].
  rewrite andb_true_iff. intros [Hf Hfs]. unfold bullet_ok in Hf.
  rewrite !andb_true_iff in Hf. destruct Hf as [[Hne Hn] Hl]. apply str_eqb_eq in Hl.
  cbn [List.map concat]. rewrite <- !app_assoc.
  change (g_bullet ++ f ++ nl ++ ?r) with ((u "-" ++ 32 :: f) ++ nl ++ r).
  rewrite (re_findall1_match bullet_re (u "-" ++ 32 :: f) [(1%nat, f)]).
  - rewrite re_findall1_never by glue. rewrite IH by exact Hfs. reflexivity.
  - discriminate.
  - rewrite <- (bullet_at f (nl ++ concat (List.map (fun f0 => g_bullet ++ f0 ++ nl) fs) ++ rest));
      try assumption; try reflexivity.
    destruct f; [discriminate|discriminate].
Qed.

Lemma never_ends a b : b <> [] -> never ends a b.
Proof.
  intros Hb t1 x t2 _. destruct b as [|y b]; [congruence|].
  destruct t2; reflexivity.
Qed.

Lemma never_or (f g : str -> bool) a b :
  never f a b -> never g a b -> never (fun s => f s || g s) a b.
Proof. intros Hf Hg t1 x t2 E. rewrite (Hf t1 x t2 E), (Hg t1 x t2 E). reflexivity. Qed.

(** [###\s*Features(.*?)(?=###|$)]: the group runs to the next level-3
    heading, or to the end of the text. *)
Lemma features_at G E :
  never (startswith (u "###")) G E -> never ends G E -> ends E = true ->
  match_at features_re (u "###" ++ u " " ++ u "Features" ++ G ++ E)
  = Some (u "###" ++ u " " ++ u "Features" ++ G, [(1%nat, G)]).
Proof.
  intros HG He HE.
  assert (Hm : m features_re (u "###" ++ u " " ++ u "Features" ++ G ++ E) []
                 (fun s' g => Some (s', g))
               = Some (E, [(1%nat, G)])).
  { unfold features_re. cbn [m]. rewrite startswith_app, drop_app_length'.
    apply star_over; [reflexivity|reflexivity|].
    rewrite startswith_app, drop_app_length'.
    apply lazy_until.
    - apply (never_impl _ (fun s => startswith (u "###") s || ends s));
        [|apply never_or; assumption].
      intros s Hs. apply orb_false_iff in Hs as [Hs1 Hs2]. rewrite Hs1.
      destruct s as [|x [|y s]]; cbn [ends] in Hs2; [discriminate| |reflexivity].
      rewrite Hs2. reflexivity.
    - rewrite consumed_app.
      destruct E as [|x [|y E]]; cbn [ends] in HE; [reflexivity| |discriminate].
      apply N.eqb_eq in HE as ->. reflexivity. }
  unfold match_at. rewrite Hm. f_equal. f_equal.
  rewrite !(app_assoc _ _ (_ ++ E)), !(app_assoc _ _ E).
  rewrite consumed_app, <- !app_assoc. reflexivity.
Qed.

Lemma features_found pre B C E fs :
  never (hit features_re) pre
    (u "###" ++ u " " ++ u "Features" ++ ((nl ++ nl ++ B ++ nl) ++ C) ++ E) ->
  never (startswith (u "###")) (nl ++ nl ++ B ++ nl ++ C) E ->
  C <> [] -> never ends C E -> ends E = true ->
  re_findall1 bullet_re (nl ++ nl ++ B ++ nl ++ C) = fs ->
  match re_search features_re
          (pre ++ u "###" ++ u " " ++ u "Features" ++ nl ++ nl ++ B ++ nl ++ C ++ E) with
  | Some mt => re_findall1 bullet_re (g1 mt)
  | None => []
  end = fs.
Proof.
  intros Hpre HG HC He HE Hfs.
  assert (Hat := features_at ((nl ++ nl ++ B ++ nl) ++ C) E).
  rewrite <- !app_assoc in Hat.
  specialize (Hat HG).
  assert (He' : never ends (nl ++ nl ++ B ++ nl ++ C) E).
  { rewrite !(app_assoc _ _ C), !(app_assoc _ _ (_ ++ nl)).
    apply never_app; [|exact He]. apply never_ends.
    destruct C; [congruence|discriminate]. }
  specialize (Hat He' HE).
  rewrite <- !app_assoc in Hpre.
  rewrite (search_at _ _ _ _ _ Hpre Hat). exact Hfs.
Qed.

Variable p : Project.
Hypothesis Hrt : round_trip_ok p = true.

Lemma rt_feat : forallb bullet_ok (features p) = true.
Proof.
  pose proof Hrt as H. unfold round_trip_ok in H.
  repeat (apply andb_true_iff in H as [H ?]).
  match goal with X : forallb feature_ok _ = true |- _ => rename X into Ht end.
  rewrite forallb_forall in *. intros x Hx. specialize (Ht x Hx).
  unfold feature_ok, bullet_ok in *. rewrite !andb_true_iff in *. tauto.
Qed.

Lemma scan_features :
  match re_search features_re (block_text p) with
  | Some mt => re_findall1 bullet_re (g1 mt)
  | None => []
  end = features p.
Proof.
  rt_facts Hrt. pose proof rt_feat as Hfs.
  unfold block_text, inner_text. rewrite <- !app_assoc.
  destruct (features p) as [|f fs] eqn:E.
  - rewrite search_absent; [reflexivity|reflexivity|]. segs (u "##").
  - rewrite <- E in *. unfold feat_text. rewrite E at 1. rewrite <- !app_assoc.
    set (B := concat (List.map (fun f => g_bullet ++ f ++ nl) (features p))).
    set (pre := border_open p ++ g_div ++ title_text (title p) ++ cat_text (categories p)
                ++ short_text (short_description p) ++ long_text (long_description p)
                ++ links_text (links p) ++ tech_text (technologies p)).
    assert (Ht : forall R,
               border_open p ++ g_div ++ title_text (title p) ++ cat_text (categories p)
               ++ short_text (short_description p) ++ long_text (long_description p)
               ++ links_text (links p) ++ tech_text (technologies p) ++ R = pre ++ R).
    { intros R. unfold pre. rewrite <- !app_assoc. reflexivity. }
    rewrite Ht. clear Ht.
    destruct (border_cases p) as [(_ & _ & Hc)|(_ & _ & _ & Hc)]; try assumption; rewrite Hc.
    + apply (features_found pre B (u "</div>") nl (features p)).
      * unfold pre. segs (u "##").
      * unfold B. segs (u "##").
      * discriminate.
      * apply never_check_sound. vm_compute. reflexivity.
      * reflexivity.
      * rewrite !re_findall1_never by glue. unfold B.
        rewrite findall_bullets by exact Hfs.
        rewrite re_findall1_end; [apply app_nil_r|reflexivity|].
        apply never_check_sound. vm_compute. reflexivity.
    + apply (features_found pre B (u "</div>" ++ nl ++ g_border_close) [] (features p)).
      * unfold pre. segs (u "##").
      * unfold B. segs (u "##").
      * discriminate.
      * apply never_check_sound. vm_compute. reflexivity.
      * reflexivity.
      * rewrite !re_findall1_never by glue. unfold B.
        rewrite findall_bullets by exact Hfs.
        rewrite re_findall1_end; [apply app_nil_r|reflexivity|].
        apply never_check_sound. vm_compute. reflexivity.
Qed.
End FeatureScan.

(** ** The anchors of the badges *)

Section Anchors.
Context {U : Unicode}.

(** A greedy repetition that runs over [a], stops before [b], and to
    which the rest of the pattern gives nothing back. *)
Lemma star_exact {R} p a b (k : str -> option R) :
  forallb p a = true -> stops p b = true ->
  (forall t1 x t2, a = t1 ++ x :: t2 -> k (x :: t2 ++ b) = None) ->
  star p (a ++ b) k = k b.
Proof.
  induction a as [|x a IH]; intros Ha Hb Hk.
  - apply star_stop. exact Hb.
  - cbn [forallb] in Ha. apply andb_true_iff in Ha as [Hx Ha].
    cbn [app star]. rewrite Hx.
    rewrite IH; [|exact Ha|exact Hb|intros t1 y t2 ->; apply (Hk (x :: t1) y t2); reflexivity].
    destruct (k b); [reflexivity|]. apply (Hk [] x a). reflexivity.
Qed.

(** [[^c]+] before the character [c], in a pattern that goes on with [c]. *)
Lemma plus_none_exact c x rest g (k : str -> caps -> option (str * caps)) :
  x <> [] -> no_char c x = true ->
  (forall y t, y <> c -> k (y :: t) g = None) ->
  m (Plus (NoneOf [(c, c)])) (x ++ c :: rest) g k = k (c :: rest) g.
Proof.
  intros Hx Hn Hk. destruct x as [|y x]; [congruence|].
  apply no_char_cls in Hn as Hc. cbn [forallb] in Hc. apply andb_true_iff in Hc as [Hy Hc].
  unfold Plus. cbn [m app]. rewrite Hy.
  apply (star_exact _ x (c :: rest) (fun s' => k s' g)); [exact Hc| |].
  - cbn [stops]. rewrite cls_none_self. reflexivity.
  - intros t1 z t2 E. apply Hk. intros ->.
    unfold no_char in Hn. cbn [forallb] in Hn. apply andb_true_iff in Hn as [_ Hn].
    rewrite E, forallb_app in Hn. apply andb_true_iff in Hn as [_ Hn].
    cbn [forallb] in Hn. rewrite N.eqb_refl in Hn. discriminate.
Qed.

(** [href='(P[^']+)'] at the anchor of an address that starts with [P]. *)
Lemma href_at P w R :
  w <> [] -> no_char 34 w = true ->
  match_at (href_re P) (u "href='" ++ (P ++ w) ++ 34 :: R)
  = Some (u "href='" ++ (P ++ w) ++ [34], [(1%nat, P ++ w)]).
Proof.
  intros Hw Hn.
  assert (Hm : m (href_re P) (u "href='" ++ (P ++ w) ++ 34 :: R) []
                 (fun s' g => Some (s', g))
               = Some (R, [(1%nat, P ++ w)])).
  { unfold href_re. cbn [m]. rewrite startswith_app, drop_app_length'.
    rewrite <- app_assoc. rewrite startswith_app, drop_app_length'.
    change (ch "'") with (34, 34).
    rewrite plus_none_exact; [|exact Hw|exact Hn|].
    - change (34 :: R) with (u "'" ++ R).
      rewrite startswith_app, drop_app_length', app_assoc, consumed_app. reflexivity.
    - intros y t Hy. change (startswith (u "'") (y :: t)) with ((34 =? y) && true).
      apply N.eqb_neq in Hy. rewrite N.eqb_sym, Hy. reflexivity. }
  unfold match_at. rewrite Hm. f_equal. f_equal.
  change (34 :: R) with ([34] ++ R). rewrite !app_assoc. apply consumed_app.
Qed.

(** The same pattern at the anchor of another address. *)
Lemma href_miss P url R :
  startswith P url = false -> no_char 34 P = true ->
  hit (href_re P) (u "href='" ++ url ++ 34 :: R) = false.
Proof.
  intros Hs HP. unfold hit, match_at, href_re. cbn [m].
  rewrite startswith_app, drop_app_length'.
  destruct (startswith P (url ++ 34 :: R)) eqn:E; [|reflexivity].
  exfalso. apply startswith_app_split in E as [E|(Hl & Hd & _)]; [congruence|].
  apply startswith_spec in Hd as [t Ht].
  destruct (drop (length url) P) as [|c q] eqn:Ed.
  - apply (f_equal length) in Ed. rewrite length_drop in Ed. cbn [length] in Ed. lia.
  - injection Ht as <- _.
    assert (Hin : In 34 P).
    { rewrite <- (take_drop (length url) P), Ed. apply in_or_app. right. left. reflexivity. }
    unfold no_char in HP. rewrite forallb_forall in HP. specialize (HP 34 Hin).
    discriminate.
Qed.

Lemma badge_step label url R k :
  url <> [] -> no_char 34 url = true ->
  m (badge_re label) (u "href='" ++ url ++ 34 :: R) [] k
  = m (badge_tail label) (34 :: R) [(1%nat, url)] k.
Proof.
  intros Hu Hn. unfold badge_re, badge_tail. cbn [m].
  rewrite startswith_app, drop_app_length'.
  change (ch "'") with (34, 34).
  rewrite plus_none_exact; [|exact Hu|exact Hn|].
  - change (34 :: R) with ([34] ++ R) at 2. rewrite consumed_app. reflexivity.
  - intros y t Hy. change (startswith (u "'") (y :: t)) with ((34 =? y) && true).
    apply N.eqb_neq in Hy. rewrite N.eqb_sym, Hy. reflexivity.
Qed.

Lemma badge_miss label url R :
  url <> [] -> no_char 34 url = true ->
  m (badge_tail label) (34 :: R) [(1%nat, url)] (fun s' g => Some (s', g)) = None ->
  hit (badge_re label) (u "href='" ++ url ++ 34 :: R) = false.
Proof.
  intros Hu Hn Hm. unfold hit, match_at. rewrite badge_step, Hm by assumption. reflexivity.
Qed.

Lemma badge_at label url R rem :
  url <> [] -> no_char 34 url = true ->
  m (badge_tail label) (34 :: R) [(1%nat, url)] (fun s' g => Some (s', g))
  = Some (rem, [(1%nat, url)]) ->
  exists t, match_at (badge_re label) (u "href='" ++ url ++ 34 :: R) = Some (t, [(1%nat, url)]).
Proof.
  intros Hu Hn Hm. unfold match_at. rewrite badge_step, Hm by assumption. eauto.
Qed.

Lemma anchor_tail_rest img : anchor_tail img = 34 :: tail_rest img.
Proof. reflexivity. Qed.

Lemma anchors_text_table d : anchors_text d = concat (List.map (anchor_of d) badge_table).
Proof.
  unfold anchors_text, badge_table, anchor_of. cbn [List.map concat fst snd].
  rewrite app_nil_r. reflexivity.
Qed.

(** A pattern that starts with [href='] and does not match at the
    anchor of [url] matches nowhere in this anchor. *)
Lemma anchor_miss r url img b :
  prefix_of r = u "href='" -> In img imgs -> clean url = true ->
  (url = [] \/ forall b, hit r (u "href='" ++ url ++ anchor_tail img ++ b) = false) ->
  never (hit r) (anchor_text url img) b.
Proof.
  intros Hr Hi Hc Hm. unfold anchor_text. destruct url as [|c url]; [apply never_nil|].
  destruct Hm as [Hm|Hm]; [discriminate|]. cbn [truthy].
  change g_anchor with (u "  <a " ++ 104 :: u "ref='"). rewrite <- !app_assoc.
  apply never_app; [apply never_hit; rewrite Hr; glue|].
  cbn [app]. apply never_cons.
  { app_norm. apply (Hm b). }
  apply never_hit. rewrite Hr.
  change (never (startswith (u "href='")) (u "ref='" ++ (c :: url) ++ anchor_tail img) b).
  apply never_app; [glue|].
  apply never_app.
  - unfold imgs in Hi. cbn [In] in Hi.
    destruct Hi as [<-|[<-|[<-|[<-|[<-|[]]]]]];
      (apply (field_lit (u "href=")); [vm_compute; reflexivity|exact Hc]).
  - unfold imgs in Hi. cbn [In] in Hi.
    destruct Hi as [<-|[<-|[<-|[<-|[<-|[]]]]]]; glue.
Qed.

Lemma table_miss r d T b :
  prefix_of r = u "href='" -> Forall (misses r d) T ->
  never (hit r) (concat (List.map (anchor_of d) T)) b.
Proof.
  intros Hr HT. revert b. induction HT as [|e T (Hi & Hc & Hm) HT IH]; intros b.
  - apply never_nil.
  - cbn [List.map concat]. apply never_app; [|apply IH].
    apply anchor_miss; assumption.
Qed.

Lemma block_text_links p :
  block_text p = before_links p ++ links_text (links p) ++ after_links p.
Proof.
  unfold block_text, inner_text, before_links, after_links. rewrite <- !app_assoc. reflexivity.
Qed.

Lemma links_text_anchors d :
  anchors_text d <> [] -> links_text d = g_p_nl ++ anchors_text d ++ g_p_end.
Proof. unfold links_text. destruct (anchors_text d); [congruence|reflexivity]. Qed.

Lemma block_at_anchor p k img T1 T2 :
  badge_table = T1 ++ (k, img) :: T2 -> link_of (links p) k <> [] ->
  block_text p
  = (before_links p ++ g_p_nl ++ concat (List.map (anchor_of (links p)) T1) ++ u "  <a ")
    ++ u "href='" ++ link_of (links p) k ++ anchor_tail img
    ++ (concat (List.map (anchor_of (links p)) T2) ++ g_p_end ++ after_links p).
Proof.
  intros HT Hk. rewrite block_text_links.
  assert (Ha : anchors_text (links p)
               = concat (List.map (anchor_of (links p)) T1)
                 ++ (g_anchor ++ link_of (links p) k ++ anchor_tail img)
                 ++ concat (List.map (anchor_of (links p)) T2)).
  { rewrite anchors_text_table, HT, map_app, concat_app. cbn [List.map concat].
    unfold anchor_of at 2. cbn [fst snd]. unfold anchor_text.
    destruct (link_of (links p) k); [congruence|reflexivity]. }
  rewrite links_text_anchors.
  - rewrite Ha. change g_anchor with (u "  <a " ++ u "href='").
    rewrite <- !app_assoc. reflexivity.
  - rewrite Ha. destruct (link_of (links p) k); [congruence|].
    intros E. apply app_eq_nil in E as [_ E]. discriminate E.
Qed.

Section LinkScan.
Variable p : Project.
Hypothesis Hrt : round_trip_ok p = true.
Variable r : regex.
Hypothesis Hr : prefix_of r = u "href='".

Lemma before_links_quiet b : never (hit r) (before_links p) b.
Proof.
  rt_facts Hrt. apply never_hit. rewrite Hr.
  change (never (startswith (u "href='")) (before_links p) b).
  unfold before_links. segs (u "href=").
Qed.

Lemma after_links_quiet b : never (hit r) (after_links p) b.
Proof.
  rt_facts Hrt. apply never_hit. rewrite Hr.
  change (never (startswith (u "href='")) (after_links p) b).
  unfold after_links. segs (u "href=").
Qed.

Lemma link_absent :
  hit r [] = false -> Forall (misses r (links p)) badge_table ->
  re_search r (block_text p) = None.
Proof.
  intros He Hm. apply search_absent; [exact He|].
  rewrite block_text_links.
  apply never_app; [apply before_links_quiet|].
  apply never_app; [|apply after_links_quiet].
  unfold links_text. destruct (anchors_text (links p)) as [|x a] eqn:E; [apply never_nil|].
  rewrite <- E. apply never_app; [apply never_hit; rewrite Hr; glue|].
  apply never_app; [|apply never_hit; rewrite Hr; glue].
  rewrite anchors_text_table. apply table_miss; assumption.
Qed.

Lemma link_found k img T1 T2 :
  badge_table = T1 ++ (k, img) :: T2 -> Forall (misses r (links p)) T1 ->
  link_of (links p) k <> [] ->
  (forall b, exists t,
     match_at r (u "href='" ++ link_of (links p) k ++ anchor_tail img ++ b)
     = Some (t, [(1%nat, link_of (links p) k)])) ->
  exists mt, re_search r (block_text p) = Some mt /\ g1 mt = link_of (links p) k.
Proof.
  intros HT Hm Hk Hat. rewrite (block_at_anchor p k img T1 T2 HT Hk).
  destruct (Hat (concat (List.map (anchor_of (links p)) T2) ++ g_p_end ++ after_links p))
    as [t Ht].
  eexists. split.
  - apply search_at; [|exact Ht].
    apply never_app; [apply before_links_quiet|].
    apply never_app; [apply never_hit; rewrite Hr; glue|].
    apply never_app; [apply table_miss; assumption|].
    apply never_hit; rewrite Hr; glue.
  - reflexivity.
Qed.
End LinkScan.
End Anchors.

Section LinkFacts.
Context {U : Unicode}.

Lemma store_url prefix url :
  store_ok prefix url = true ->
  clean url = true /\ no_char 34 url = true /\
  (url = [] \/ exists w, url = prefix ++ w /\ w <> [] /\ no_char 34 w = true).
Proof.
  intros H. split; [exact (store_clean prefix url H)|].
  unfold store_ok in H. destruct url as [|c url]; [split; [reflexivity|left; reflexivity]|].
  unfold url_ok in H. rewrite !andb_true_iff in H. destruct H as [[Hs Hl] [Hq _]].
  split; [exact Hq|]. right.
  apply startswith_spec in Hs as [w Hw]. exists w. split; [exact Hw|]. split.
  - intros ->. rewrite app_nil_r in Hw. rewrite Hw in Hl.
    apply Nat.ltb_lt in Hl. lia.
  - rewrite Hw in Hq. unfold no_char in *. rewrite forallb_app in Hq.
    apply andb_true_iff in Hq as [_ Hq]. exact Hq.
Qed.

Lemma other_url url :
  other_ok url = true ->
  clean url = true /\ no_char 34 url = true /\
  startswith play_prefix url = false /\ startswith apps_prefix url = false /\
  startswith github_prefix url = false.
Proof.
  intros H. split; [exact (other_clean url H)|].
  unfold other_ok, url_ok in H. rewrite !andb_true_iff, !negb_true_iff in H.
  tauto.
Qed.

(** Two prefixes of which none starts the other do not start the same text. *)
Lemma prefix_clash P Q url :
  startswith P Q = false -> startswith Q P = false ->
  startswith Q url = true -> startswith P url = false.
Proof.
  intros H1 H2 HQ. apply startswith_spec in HQ as [w ->].
  destruct (startswith P (Q ++ w)) eqn:E; [|reflexivity].
  apply startswith_app_cases in E as [E|E]; congruence.
Qed.

Lemma store_misses P Q d k img :
  startswith P Q = false -> startswith Q P = false -> no_char 34 P = true ->
  In img imgs -> store_ok Q (link_of d k) = true ->
  misses (href_re P) d (k, img).
Proof.
  intros H1 H2 HP Hi Hs. destruct (store_url _ _ Hs) as (Hc & Hq & Hu).
  unfold misses. cbn [fst snd]. split; [exact Hi|]. split; [exact Hc|].
  destruct Hu as [Hu|(w & Hw & _)]; [left; exact Hu|right].
  intros b. rewrite anchor_tail_rest. apply href_miss; [|exact HP].
  apply (prefix_clash P Q); try assumption.
  rewrite Hw. apply startswith_app.
Qed.

Lemma other_misses P d k img :
  In P [play_prefix; apps_prefix; github_prefix] ->
  In img imgs -> other_ok (link_of d k) = true ->
  misses (href_re P) d (k, img).
Proof.
  intros HP Hi Ho. destruct (other_url _ Ho) as (Hc & Hq & H1 & H2 & H3).
  unfold misses. cbn [fst snd]. split; [exact Hi|]. split; [exact Hc|]. right.
  intros b. rewrite anchor_tail_rest.
  cbn [In] in HP. destruct HP as [<-|[<-|[<-|[]]]]; apply href_miss; try assumption;
    reflexivity.
Qed.

Lemma badge_misses label d k img :
  In img imgs -> clean (link_of d k) = true -> no_char 34 (link_of d k) = true ->
  (forall url b,
     m (badge_tail label) (34 :: tail_rest img ++ b) [(1%nat, url)] (fun s' g => Some (s', g))
     = None) ->
  misses (badge_re label) d (k, img).
Proof.
  intros Hi Hc Hq Hm. unfold misses. cbn [fst snd]. split; [exact Hi|]. split; [exact Hc|].
  destruct (link_of d k) as [|c url] eqn:E; [left; reflexivity|right].
  intros b. rewrite anchor_tail_rest. apply badge_miss; [discriminate|exact Hq|apply Hm].
Qed.

Lemma badge_other label img url b :
  In (label, img) [(u "Website", img_play); (u "Website", img_apps); (u "Website", img_github);
                   (u "Website", img_apk); (u "APK", img_play); (u "APK", img_apps);
                   (u "APK", img_web); (u "APK", img_github)] ->
  m (badge_tail label) (34 :: tail_rest img ++ b) [(1%nat, url)] (fun s' g => Some (s', g))
  = None.
Proof.
  cbn [In]. intros H.
  repeat (destruct H as [[= <- <-]|H]; [vm_compute; reflexivity|]). destruct H.
Qed.
End LinkFacts.

Section LinkResults.
Context {U : Unicode}.

Lemma link_ins_reads key x url d : reads x url -> link_ins key x d = put key url d.
Proof.
  intros [[-> ->]|(Hu & mt & -> & Hg)]; [reflexivity|].
  unfold put, link_ins. rewrite Hg. destruct url; [congruence|reflexivity].
Qed.

Lemma contains_split L : forall x,
  contains L x = true -> exists t1 s, x = t1 ++ s /\ startswith L s = true.
Proof.
  induction x as [|c x IH].
  - cbn [contains]. rewrite orb_false_r. intros H. exists [], []. auto.
  - change (contains L (c :: x)) with (startswith L (c :: x) || contains L x).
    destruct (startswith L (c :: x)) eqn:E.
    + intros _. exists [], (c :: x). auto.
    + cbn [orb]. intros H. destruct (IH H) as (t1 & s & -> & Hs).
      exists (c :: t1), s. auto.
Qed.

Lemma contains_mid L a x b : contains L x = true -> contains L (a ++ x ++ b) = true.
Proof.
  intros H. destruct (contains_split L x H) as (t1 & s & -> & Hs).
  rewrite <- app_assoc, app_assoc. apply contains_suffix_true.
  apply startswith_spec in Hs as [w ->]. rewrite <- app_assoc. apply startswith_app.
Qed.

Lemma absent_misses r d k img : In img imgs -> link_of d k = [] -> misses r d (k, img).
Proof.
  intros Hi E. unfold misses. cbn [fst snd]. rewrite E. repeat split; auto.
Qed.

Variable p : Project.
Hypothesis Hrt : round_trip_ok p = true.

Lemma rt_links :
  store_ok play_prefix (link_of (links p) (u "playStore")) = true /\
  store_ok apps_prefix (link_of (links p) (u "appStore")) = true /\
  store_ok github_prefix (link_of (links p) (u "github")) = true /\
  other_ok (link_of (links p) (u "website")) = true /\
  other_ok (link_of (links p) (u "apk")) = true.
Proof.
  pose proof Hrt as H. unfold round_trip_ok in H.
  repeat (apply andb_true_iff in H as [H ?]). repeat split; assumption.
Qed.

(** The link of a store: the pattern of its addresses finds it, and
    the name of the store is in the block. *)
Lemma scan_store P dom k img T1 T2 :
  badge_table = T1 ++ (k, img) :: T2 -> In img imgs ->
  store_ok P (link_of (links p) k) = true ->
  Forall (misses (href_re P) (links p)) T1 -> Forall (misses (href_re P) (links p)) T2 ->
  contains dom P = true ->
  reads (gated (contains dom (block_text p)) (re_search (href_re P) (block_text p)))
    (link_of (links p) k).
Proof.
  intros HT Hi Hs H1 H2 Hd. destruct (store_url _ _ Hs) as (Hc & Hq & [Hu|(w & Hw & Hne & Hqw)]).
  - left. split; [exact Hu|]. apply gated_none. apply link_absent; try assumption; try reflexivity.
    rewrite HT. apply Forall_app. split; [exact H1|].
    apply List.Forall_cons; [|exact H2]. apply absent_misses; assumption.
  - right. assert (Hk : link_of (links p) k <> []).
    { rewrite Hw. intros E. apply app_eq_nil in E as [_ E]. congruence. }
    split; [exact Hk|].
    destruct (link_found p Hrt (href_re P) eq_refl k img T1 T2 HT H1 Hk) as (mt & Hm & Hg).
    + intros b. rewrite Hw, anchor_tail_rest. eexists. apply href_at; assumption.
    + exists mt. split; [|exact Hg]. rewrite Hm.
      rewrite (block_at_anchor p k img T1 T2 HT Hk), Hw.
      rewrite <- !app_assoc.
      rewrite !(app_assoc _ _ (P ++ _)).
      rewrite contains_mid by exact Hd. reflexivity.
Qed.

Lemma scan_badge label k img T1 T2 rem :
  badge_table = T1 ++ (k, img) :: T2 -> In img imgs ->
  other_ok (link_of (links p) k) = true ->
  Forall (misses (badge_re label) (links p)) T1 ->
  Forall (misses (badge_re label) (links p)) T2 ->
  (forall url b,
     m (badge_tail label) (34 :: tail_rest img ++ b) [(1%nat, url)] (fun s' g => Some (s', g))
     = Some (rem b, [(1%nat, url)])) ->
  reads (re_search (badge_re label) (block_text p)) (link_of (links p) k).
Proof.
  intros HT Hi Ho H1 H2 Hm. destruct (other_url _ Ho) as (Hc & Hq & _).
  destruct (link_of (links p) k) as [|c url] eqn:E.
  - left. split; [reflexivity|]. apply link_absent; try assumption; try reflexivity.
    rewrite HT. apply Forall_app. split; [exact H1|].
    apply List.Forall_cons; [|exact H2]. apply absent_misses; assumption.
  - right. split; [discriminate|]. rewrite <- E in *.
    destruct (link_found p Hrt (badge_re label) eq_refl k img T1 T2 HT H1) as (mt & Hmt & Hg).
    + rewrite E. discriminate.
    + intros b. rewrite anchor_tail_rest.
      apply (badge_at label _ _ (rem b)); [rewrite E; discriminate|exact Hq|apply Hm].
    + exists mt. split; assumption.
Qed.
End LinkResults.

Ltac miss :=
  first
    [ apply (store_misses _ play_prefix);
        [reflexivity|reflexivity|reflexivity|unfold imgs; in_list|assumption]
    | apply (store_misses _ apps_prefix);
        [reflexivity|reflexivity|reflexivity|unfold imgs; in_list|assumption]
    | apply (store_misses _ github_prefix);
        [reflexivity|reflexivity|reflexivity|unfold imgs; in_list|assumption]
    | apply other_misses; [in_list|unfold imgs; in_list|assumption]
    | apply badge_misses;
        [unfold imgs; in_list|assumption|assumption|intros; apply badge_other; in_list] ].

Ltac misses_all := repeat (apply List.Forall_cons; [miss|]); apply List.Forall_nil.

Section LinksScan.
Context {U : Unicode}.
Variable p : Project.
Hypothesis Hrt : round_trip_ok p = true.

Lemma scan_links :
  links (decoded (block_text p))
  = put (u "apk") (link_of (links p) (u "apk"))
      (put (u "website") (link_of (links p) (u "website"))
         (put (u "github") (link_of (links p) (u "github"))
            (put (u "appStore") (link_of (links p) (u "appStore"))
               (put (u "playStore") (link_of (links p) (u "playStore")) ∅)))).
Proof.
  destruct (rt_links p Hrt) as (Hplay & Happs & Hgit & Hweb & Hapk).
  destruct (store_url _ _ Hplay) as (? & ? & _), (store_url _ _ Happs) as (? & ? & _),
    (store_url _ _ Hgit) as (? & ? & _), (other_url _ Hweb) as (? & ? & _),
    (other_url _ Hapk) as (? & ? & _).
  rewrite decoded_links.
  rewrite (link_ins_reads (u "playStore") _ (link_of (links p) (u "playStore"))).
  2:{ apply (scan_store p Hrt play_prefix _ (u "playStore") img_play []
               [(u "appStore", img_apps); (u "website", img_web); (u "github", img_github);
                (u "apk", img_apk)]);
        [reflexivity|unfold imgs; in_list|assumption|misses_all|misses_all|reflexivity]. }
  rewrite (link_ins_reads (u "appStore") _ (link_of (links p) (u "appStore"))).
  2:{ apply (scan_store p Hrt apps_prefix _ (u "appStore") img_apps
               [(u "playStore", img_play)]
               [(u "website", img_web); (u "github", img_github); (u "apk", img_apk)]);
        [reflexivity|unfold imgs; in_list|assumption|misses_all|misses_all|reflexivity]. }
  rewrite (link_ins_reads (u "github") _ (link_of (links p) (u "github"))).
  2:{ apply (scan_store p Hrt github_prefix _ (u "github") img_github
               [(u "playStore", img_play); (u "appStore", img_apps); (u "website", img_web)]
               [(u "apk", img_apk)]);
        [reflexivity|unfold imgs; in_list|assumption|misses_all|misses_all|reflexivity]. }
  rewrite (link_ins_reads (u "website") _ (link_of (links p) (u "website"))).
  2:{ apply (scan_badge p Hrt (u "Website") (u "website") img_web
               [(u "playStore", img_play); (u "appStore", img_apps)]
               [(u "github", img_github); (u "apk", img_apk)]
               (fun b => u "-000000?style=for-the-badge&logo=safari&logoColor=white'></a>"
                         ++ nl ++ b));
        [reflexivity|unfold imgs; in_list|assumption|misses_all|misses_all|].
      intros url b. vm_compute. reflexivity. }
  rewrite (link_ins_reads (u "apk") _ (link_of (links p) (u "apk"))).
  2:{ apply (scan_badge p Hrt (u "APK") (u "apk") img_apk
               [(u "playStore", img_play); (u "appStore", img_apps); (u "website", img_web);
                (u "github", img_github)]
               []
               (fun b => u "-3DDC84?style=for-the-badge&logo=android&logoColor=white'></a>"
                         ++ nl ++ b));
        [reflexivity|unfold imgs; in_list|assumption|misses_all|misses_all|].
      intros url b. vm_compute. reflexivity. }
  reflexivity.
Qed.
End LinksScan.

Section GeneratedText.
Context {U : Unicode} {OS : OsPath}.
Variable p : Project.
Hypothesis Hrt : round_trip_ok p = true.

Lemma rt_images :
  truthy (logo_url p) = false /\ truthy (banner_image p) = false /\ screenshots p = [] /\
  theme_color p = u "#000000".
Proof.
  pose proof Hrt as H. unfold round_trip_ok in H.
  repeat (apply andb_true_iff in H as [H ?]).
  repeat match goal with
         | X : negb _ = true |- _ => apply negb_true_iff in X
         | X : str_eqb (theme_color p) _ = true |- _ => apply str_eqb_eq in X
         end.
  repeat split; try assumption.
  destruct (screenshots p); [reflexivity|discriminate].
Qed.

(** The encoder writes the block section by section. *)
Lemma generated_text : _generate_project_md p = block_text p.
Proof.
  destruct rt_images as (Hl & Hb & Hs & Ht). destruct (rt_title p Hrt) as (Hne & _ & _).
  rewrite encoded_text by assumption.
  rewrite title_lines_text by (apply truthy_nonempty; exact Hne).
  rewrite category_lines_text, description_lines_text, links_lines_text by exact Ht.
  rewrite tech_lines_text, features_lines_text.
  unfold block_text, inner_text. rewrite <- !app_assoc. reflexivity.
Qed.
End GeneratedText.

Section PutLinks.

Lemma link_of_put key url d k :
  link_of (put key url d) k = if str_eqb k key && truthy url then url else link_of d k.
Proof.
  unfold put, link_of. destruct (truthy url); [|rewrite andb_false_r; reflexivity].
  rewrite andb_true_r. destruct (str_eqb k key) eqn:E.
  - apply str_eqb_eq in E as ->. rewrite lookup_insert_eq. reflexivity.
  - rewrite lookup_insert_ne; [reflexivity|]. intros ->. rewrite str_eqb_refl in E. discriminate.
Qed.

Lemma truthy_or_empty s : (if truthy s then s else []) = s.
Proof. destruct s; reflexivity. Qed.

(** The five links read back from the dictionary of the decoder. *)
Lemma put_links d :
  Forall (fun key =>
            link_of
              (put (u "apk") (link_of d (u "apk"))
                 (put (u "website") (link_of d (u "website"))
                    (put (u "github") (link_of d (u "github"))
                       (put (u "appStore") (link_of d (u "appStore"))
                          (put (u "playStore") (link_of d (u "playStore")) ∅))))) key
            = link_of d key) link_keys.
Proof.
  unfold link_keys.
  repeat (apply List.Forall_cons;
          [rewrite !link_of_put;
           repeat match goal with
                  | |- context [str_eqb ?a ?b] =>
                      let v := eval vm_compute in (str_eqb a b) in
                      change (str_eqb a b) with v
                  end;
           cbn [andb]; apply truthy_or_empty|]).
  apply List.Forall_nil.
Qed.
End PutLinks.

Section DecodedBlock.
Context {U : Unicode}.
Variable p : Project.
Hypothesis Hrt : round_trip_ok p = true.

(** The decoder splits the text of the block into the block alone, and
    keeps it: the document decodes to one project. *)
Lemma parse_md_block (self : App) :
  _parse_md self (block_text p)
  = Ok {| projects := [decoded (block_text p)]; file_path := file_path self |}.
Proof.
  rewrite parse_md_ok, (block_whole p Hrt). cbn [List.filter].
  assert (Ht : title (decoded (block_text p)) = title p).
  { rewrite decoded_title. destruct (scan_title p Hrt) as (mt & -> & Hg). exact Hg. }
  unfold kept. rewrite Ht.
  destruct (rt_title p Hrt) as (Hne & _ & _). rewrite (truthy_nonempty _ Hne), andb_true_r.
  replace (contains (u "## ") (block_text p)) with true; [reflexivity|].
  symmetry. unfold block_text, inner_text, title_text.
  change g_title with (u "## "). rewrite <- !app_assoc.
  rewrite !(app_assoc (border_open p)). apply contains_mid. reflexivity.
Qed.
End DecodedBlock.

(** C2, with the records and the fields the format carries: for a
    record whose text fields hold none of the markup the decoder
    splits a document at or looks for (a title of one line, texts
    without white space around them, store links that are addresses of
    their store, a recognised border style when the border is shown),
    whose image fields are empty and whose badge colour is the
    constructor's, [_parse_md] applied to the block
    [_generate_project_md] writes never raises and returns one
    project, which has the title, the categories, both descriptions,
    the technologies, the features, the five links and the border of
    the record.  The layout and the size of the screenshots are not
    written without screenshots: they come back as the constructor's
    [horizontal] and [200]. *)
Theorem round_trip {U : Unicode} {OS : OsPath} (p : Project) (self : App) :
  round_trip_ok p = true ->
  exists q,
    _parse_md self (_generate_project_md p)
    = Ok {| projects := [q]; file_path := file_path self |} /\
    title q = title p /\
    categories q = categories p /\
    short_description q = short_description p /\
    long_description q = long_description p /\
    technologies q = technologies p /\
    features q = features p /\
    Forall (fun key => link_of (links q) key = link_of (links p) key) link_keys /\
    show_border q = show_border p /\
    (show_border p = true -> border_style q = border_style p) /\
    screenshots q = [] /\ banner_image q = [] /\ logo_url q = [] /\
    screenshot_layout q = u "horizontal" /\
    screenshot_size q = 200%Z.
Proof.
  intros Hrt. rewrite (generated_text p Hrt).
  exists (decoded (block_text p)).
  split; [apply parse_md_block; exact Hrt|].
  split.
  { rewrite decoded_title. destruct (scan_title p Hrt) as (mt & -> & Hg). exact Hg. }
  split; [rewrite decoded_categories; apply (scan_categories p Hrt)|].
  split; [rewrite decoded_short; apply (scan_short p Hrt)|].
  split; [rewrite decoded_long; apply (scan_long p Hrt)|].
  split; [rewrite decoded_technologies; apply (scan_tech p Hrt)|].
  split; [rewrite decoded_features; apply (scan_features p Hrt)|].
  split; [rewrite (scan_links p Hrt); apply put_links|].
  destruct (scan_border p Hrt) as [Hg Hs].
  split; [rewrite decoded_show_border; exact Hg|].
  split.
  { intros Hb. rewrite decoded_border_style, Hg, Hb. apply Hs. exact Hb. }
  split; [rewrite decoded_screenshots, (scan_screenshots p Hrt); reflexivity|].
  split; [rewrite decoded_banner, (scan_banner p Hrt); reflexivity|].
  split; [rewrite decoded_logo_url, (scan_logo p Hrt); reflexivity|].
  split; [rewrite decoded_layout; apply (scan_layout p Hrt)|].
  rewrite decoded_size, (scan_size p Hrt). reflexivity.
Qed.

Lemma round_trip_witness :
  let U := ascii_tables in
  let OS := Posix.os_path (fun _ => false) in
  round_trip_ok round_trip_demo = true /\
  exists q,
    _parse_md empty_app (_generate_project_md round_trip_demo)
    = Ok {| projects := [q]; file_path := [] |} /\
    title q = title round_trip_demo /\
    categories q = categories round_trip_demo /\
    short_description q = short_description round_trip_demo /\
    long_description q = long_description round_trip_demo /\
    technologies q = technologies round_trip_demo /\
    features q = features round_trip_demo /\
    Forall (fun key => link_of (links q) key = link_of (links round_trip_demo) key) link_keys /\
    show_border q = show_border round_trip_demo /\
    (show_border round_trip_demo = true -> border_style q = border_style round_trip_demo) /\
    screenshots q = [] /\ banner_image q = [] /\ logo_url q = [] /\
    screenshot_layout q = u "horizontal" /\
    screenshot_size q = 200%Z.
Proof.
  intros U OS. split; [vm_compute; reflexivity|].
  apply (round_trip round_trip_demo empty_app). vm_compute. reflexivity.
Defined.

(** C2 fails as stated: with no screenshots the encoder writes neither
    the layout nor the size, and the decoder gives the record the
    layout [horizontal] and the size [200]; a short description that
    holds a star is not read back; a code span in the long description
    is read as a category; a store link that is not an address of the
    store is not read back; a long description that holds a line [---]
    cuts the block in two, and two projects come back, the first
    without its description and its technology, the second under the
    title [Tech Stack]. *)
Lemma round_trip_loses_layout :
  let U := ascii_tables in
  let OS := Posix.os_path (fun _ => false) in
  (screenshots round_trip_grid = [] /\
   screenshot_layout round_trip_grid = u "grid" /\
   screenshot_size round_trip_grid = 300%Z /\
   exists q,
     parse_part (_generate_project_md round_trip_grid) = Ok q /\
     _parse_md empty_app (_generate_project_md round_trip_grid)
     = Ok {| projects := [q]; file_path := [] |} /\
     title q = u "Demo" /\
     screenshot_layout q = u "horizontal" /\
     screenshot_size q = 200%Z) /\
  (short_description round_trip_star = u "2*3 ways" /\
   exists q,
     parse_part (_generate_project_md round_trip_star) = Ok q /\
     _parse_md empty_app (_generate_project_md round_trip_star)
     = Ok {| projects := [q]; file_path := [] |} /\
     title q = u "Demo" /\
     short_description q = []) /\
  (categories round_trip_span = [] /\
   exists q,
     parse_part (_generate_project_md round_trip_span) = Ok q /\
     _parse_md empty_app (_generate_project_md round_trip_span)
     = Ok {| projects := [q]; file_path := [] |} /\
     title q = u "Demo" /\
     categories q = [u "Game"]) /\
  (links round_trip_store !! u "playStore" = Some (u "https://example.org/app") /\
   exists q,
     parse_part (_generate_project_md round_trip_store) = Ok q /\
     _parse_md empty_app (_generate_project_md round_trip_store)
     = Ok {| projects := [q]; file_path := [] |} /\
     title q = u "Demo" /\
     links q !! u "playStore" = None) /\
  (long_description round_trip_rule = u "Intro" ++ nl ++ u "---" ++ nl ++ u "Details" /\
   technologies round_trip_rule = [u "Flutter"] /\
   exists q1 q2,
     _parse_md empty_app (_generate_project_md round_trip_rule)
     = Ok {| projects := [q1; q2]; file_path := [] |} /\
     title q1 = u "Demo" /\ long_description q1 = [] /\ technologies q1 = [] /\
     title q2 = u "Tech Stack" /\ technologies q2 = [u "Flutter"]).
Proof.
  intros U OS. split; [|split; [|split; [|split]]].
  - repeat split.
    exists (decoded (_generate_project_md round_trip_grid)).
    split; [apply parse_part_ok|]. split; [vm_compute; reflexivity|].
    repeat split; vm_compute; reflexivity.
  - split; [reflexivity|].
    exists (decoded (_generate_project_md round_trip_star)).
    split; [apply parse_part_ok|]. split; [vm_compute; reflexivity|].
    repeat split; vm_compute; reflexivity.
  - split; [reflexivity|].
    exists (decoded (_generate_project_md round_trip_span)).
    split; [apply parse_part_ok|]. split; [vm_compute; reflexivity|].
    repeat split; vm_compute; reflexivity.
  - split; [vm_compute; reflexivity|].
    exists (decoded (_generate_project_md round_trip_store)).
    split; [apply parse_part_ok|]. split; [vm_compute; reflexivity|].
    repeat split; vm_compute; reflexivity.
  - split; [reflexivity|]. split; [reflexivity|].
    rewrite parse_md_ok.
    assert (E : List.filter kept (re_split sep_re (_generate_project_md round_trip_rule))
                = re_split sep_re (_generate_project_md round_trip_rule))
      by (vm_compute; reflexivity).
    rewrite E.
    assert (Hs : re_split sep_re (_generate_project_md round_trip_rule)
                 = [hd [] (re_split sep_re (_generate_project_md round_trip_rule));
                    hd [] (tl (re_split sep_re (_generate_project_md round_trip_rule)))])
      by (vm_compute; reflexivity).
    rewrite Hs. cbn [List.map].
    eexists _, _. split; [reflexivity|].
    repeat split; vm_compute; reflexivity.
Qed.

(** * Further properties of the decoder *)

(** ** The texts of captured groups *)

Section GroupTexts.
Context {U : Unicode}.

Lemma matches_cap_all Q n r s g s' g' :
  matches r s g s' g' -> grp_all Q n r ->
  (forall v, cap_lookup n g = Some v -> Q v) ->
  forall v, cap_lookup n g' = Some v -> Q v.
Proof.
  induction 1; simpl; try (intros _ Hg; exact Hg).
  - intros [Ha Hb] Hg. auto.
  - intros [Ha Hb] Hg. auto.
  - intros [Ha Hb] Hg. auto.
  - intros [Hn Ha] Hg v. destruct (Nat.eqb_spec n0 n) as [E|E].
    + intros [= <-]. eapply Hn; eassumption.
    + apply IHmatches; assumption.
  - auto.
Qed.

Lemma matches_star c s g s' g' :
  matches (Star c) s g s' g' -> exists t, s = t ++ s' /\ forallb (cls_test c) t = true.
Proof.
  remember (Star c) as r eqn:E. induction 1; try discriminate.
  - exists []. auto.
  - injection E as ->. destruct (IHmatches eq_refl) as (t & -> & Ht).
    exists (x :: t). simpl. rewrite H, Ht. auto.
Qed.

(** What [c+] matches: a text that is not empty, of characters of the class. *)
Lemma matches_plus c s g s' g' :
  matches (Plus c) s g s' g' ->
  consumed s s' <> [] /\ forallb (cls_test c) (consumed s s') = true.
Proof.
  unfold Plus. inversion 1 as [| |a b s0 g0 s1 g1 s2 g2 Ha Hb| | | | | | | | |]; subst.
  inversion Ha as [|c0 x s0 g0 Hx| | | | | | | | | |]; subst.
  apply matches_star in Hb as (t & -> & Ht).
  rewrite consumed_cons_app. split; [discriminate|]. simpl. rewrite Hx, Ht. reflexivity.
Qed.

Lemma matches_str l s g s' g' : matches (Str l) s g s' g' -> consumed s s' = l.
Proof. inversion 1; subst. apply consumed_app. Qed.

Lemma finditer_sound r : forall s skip tg,
  In tg (finditer_go r skip s) -> exists s', match_at r s' = Some tg.
Proof.
  induction s as [|x s IH]; intros skip tg.
  - destruct skip; simpl; [|intros []].
    destruct (match_at r []) as [[t g]|] eqn:E; simpl; [|intros []].
    intros [<-|[]]. eauto.
  - destruct skip; simpl; [|apply IH].
    destruct (match_at r (x :: s)) as [[t g]|] eqn:E; simpl.
    + intros [<-|H]; [eauto|apply IH in H; exact H].
    + apply IH.
Qed.

(** The group 1 of a match found by [re.search]. *)
Lemma search_g1_all Q r s mt :
  binds 1 r = true -> grp_all Q 1 r -> re_search r s = Some mt -> Q (g1 mt).
Proof.
  intros Hb Hq Hs. destruct (search_group r 1 s mt Hb Hs) as [v Hv].
  apply search_from_sound in Hs as (pre & s' & _ & Hm).
  apply match_at_sound in Hm as (s1 & Hm & _).
  unfold g1, group_or_empty. rewrite Hv.
  eapply matches_cap_all; [eassumption..| |eassumption]. discriminate.
Qed.

Lemma match_at_group_all Q n r s tg :
  binds n r = true -> grp_all Q n r -> match_at r s = Some tg ->
  Q (group_or_empty n (snd tg)).
Proof.
  destruct tg as [t g]. intros Hb Hq Hm.
  apply match_at_sound in Hm as (s1 & Hm & _).
  destruct (matches_binds n _ _ _ _ _ Hm (or_introl Hb)) as [v Hv].
  unfold group_or_empty. simpl. rewrite Hv.
  eapply matches_cap_all; [eassumption..| |eassumption]. discriminate.
Qed.

(** The texts [re.findall] returns for a pattern with one group. *)
Lemma findall1_all Q r s :
  binds 1 r = true -> grp_all Q 1 r -> Forall Q (re_findall1 r s).
Proof.
  intros Hb Hq. unfold re_findall1. apply List.Forall_forall.
  intros v (tg & <- & Hin)%in_map_iff.
  apply finditer_sound in Hin as [s' Hm].
  eapply match_at_group_all; eassumption.
Qed.

(** The pairs [re.findall] returns for a pattern with two groups. *)
Lemma findall2_all Q1 Q2 r s :
  binds 1 r = true -> grp_all Q1 1 r -> binds 2 r = true -> grp_all Q2 2 r ->
  Forall (fun ne => Q1 (fst ne) /\ Q2 (snd ne)) (re_findall2 r s).
Proof.
  intros Hb1 Hq1 Hb2 Hq2. unfold re_findall2. apply List.Forall_forall.
  intros v (tg & <- & Hin)%in_map_iff.
  apply finditer_sound in Hin as [s' Hm]. simpl.
  split; eapply match_at_group_all; eassumption.
Qed.
End GroupTexts.

(** ** White space around a text *)

Section Strip.
Context {U : Unicode}.

(** [rstrip] splits a text into a text that does not end with white
    space and white space. *)
Lemma rstrip_split s :
  exists ws, s = rstrip s ++ ws /\ forallb is_space ws = true.
Proof.
  destruct (lstrip_split (rev s)) as (ws & E & Hws & _).
  exists (rev ws). split.
  - unfold rstrip. rewrite <- rev_app_distr, <- E, rev_involutive. reflexivity.
  - rewrite forallb_forall in *. intros x Hx. apply Hws. apply in_rev. exact Hx.
Qed.

Lemma rstrip_idem s : rstrip (rstrip s) = rstrip s.
Proof. unfold rstrip. rewrite rev_involutive, lstrip_idem. reflexivity. Qed.

Lemma rstrip_stops s : stops is_space s = true -> stops is_space (rstrip s) = true.
Proof.
  destruct (rstrip_split s) as (ws & E & _). destruct (rstrip s) as [|c t]; [reflexivity|].
  rewrite E. simpl. auto.
Qed.

(** Stripping twice strips once. *)
Lemma strip_idem s : strip (strip s) = strip s.
Proof.
  unfold strip. destruct (lstrip_split s) as (ws & _ & _ & Hst).
  rewrite (lstrip_stops (rstrip (lstrip s))) by (apply rstrip_stops; exact Hst).
  apply rstrip_idem.
Qed.

(** What holds of every character of a text holds of those of its strip. *)
Lemma forallb_strip (P : N -> bool) s : forallb P s = true -> forallb P (strip s) = true.
Proof.
  unfold strip. destruct (lstrip_split s) as (ws & E & _ & _).
  destruct (rstrip_split (lstrip s)) as (ws' & E' & _).
  intros H. rewrite E, E' in H. rewrite !forallb_app, !andb_true_iff in H. tauto.
Qed.

Lemma int_nonneg s n : int s = Ok n -> (0 <= n)%Z.
Proof.
  unfold int. destruct s as [|c s]; [discriminate|].
  destruct (int_digits 0 (c :: s)) as [k|e]; [|discriminate].
  intros [= <-]. lia.
Qed.
End Strip.

(** ** The shape of the fields of a decoded record *)

Section DecodedShape.
Context {U : Unicode}.

Lemma decoded_id_slug part : id (decoded part) = slug (title (decoded part)).
Proof.
  rewrite decoded_id, decoded_title. destruct (re_search title_re part); reflexivity.
Qed.

Lemma enumerate_In {A} (l : list A) : forall k i a, In (i, a) (enumerate k l) -> In a l.
Proof.
  induction l as [|x l IH]; intros k i a; simpl; [auto|].
  intros [[= _ ->]|H]; [auto|right; eapply IH; exact H].
Qed.

Lemma none_of_no_char (c : string) x t :
  ch c = (x, x) -> forallb (cls_test (NoneOf [ch c])) t = true -> no_char x t = true.
Proof.
  intros E. rewrite E. unfold no_char. rewrite !forallb_forall. intros H y Hy.
  specialize (H y Hy). simpl in H. rewrite orb_false_r in H.
  apply negb_true_iff in H. apply negb_true_iff.
  unfold in_range in H. apply N.eqb_neq. intros ->.
  rewrite N.leb_refl in H. discriminate.
Qed.

Lemma grp_title :
  grp_all (fun v => v <> [] /\ no_newline v = true) 1 title_re.
Proof.
  simpl. repeat split; intros; try apply matches_plus in H0 as [? ?]; auto.
Qed.

Lemma grp_short : grp_all (fun v => v <> [] /\ no_char 42 v = true) 1 short_re.
Proof.
  simpl. repeat split; intros; try apply matches_plus in H0 as [? ?]; auto.
  apply (none_of_no_char "*"); [reflexivity|assumption].
Qed.

Lemma grp_long : grp_all (fun v => v <> [] /\ no_char 60 v = true) 1 long_re.
Proof.
  simpl. repeat split; intros; try apply matches_plus in H0 as [? ?]; auto.
  apply (none_of_no_char "<"); [reflexivity|assumption].
Qed.

Lemma grp_code : grp_all (fun v => v <> [] /\ no_char 60 v = true) 1 code_re.
Proof.
  simpl. repeat split; intros; try apply matches_plus in H0 as [? ?]; auto.
  apply (none_of_no_char "<"); [reflexivity|assumption].
Qed.

Lemma grp_bullet : grp_all (fun v => v <> [] /\ no_newline v = true) 1 bullet_re.
Proof.
  simpl. repeat split; intros; try apply matches_plus in H0 as [? ?]; auto.
Qed.

Lemma decoded_title_shape part :
  strip (title (decoded part)) = title (decoded part) /\
  no_newline (title (decoded part)) = true.
Proof.
  rewrite decoded_title. destruct (re_search title_re part) as [mt|] eqn:E; [|auto].
  split; [apply strip_idem|]. apply forallb_strip.
  destruct (search_g1_all _ title_re part mt eq_refl grp_title E) as [_ H]. exact H.
Qed.

Lemma decoded_short_shape part :
  strip (short_description (decoded part)) = short_description (decoded part) /\
  no_char 42 (short_description (decoded part)) = true.
Proof.
  rewrite decoded_short. destruct (re_search short_re part) as [mt|] eqn:E; [|auto].
  split; [apply strip_idem|]. apply forallb_strip.
  destruct (search_g1_all _ short_re part mt eq_refl grp_short E) as [_ H]. exact H.
Qed.

Lemma decoded_long_shape part :
  strip (long_description (decoded part)) = long_description (decoded part) /\
  no_char 60 (long_description (decoded part)) = true.
Proof.
  rewrite decoded_long. destruct (re_search long_re part) as [mt|] eqn:E; [|auto].
  destruct (long_ok mt); [|auto].
  split; [apply strip_idem|]. apply forallb_strip.
  destruct (search_g1_all _ long_re part mt eq_refl grp_long E) as [_ H]. exact H.
Qed.

Lemma decoded_technologies_shape part :
  Forall (fun t => t <> [] /\ no_char 60 t = true) (technologies (decoded part)).
Proof.
  rewrite decoded_technologies. destruct (re_search tech_re part); [|constructor].
  apply findall1_all; [reflexivity|apply grp_code].
Qed.

Lemma decoded_features_shape part :
  Forall (fun f => f <> [] /\ no_newline f = true) (features (decoded part)).
Proof.
  rewrite decoded_features. destruct (re_search features_re part); [|constructor].
  apply findall1_all; [reflexivity|apply grp_bullet].
Qed.
Lemma grp_screenshot_number :
  grp_all (fun v => v <> [] /\ forallb is_digit v = true) 1 screenshot_re.
Proof.
  simpl. repeat split; intros; try discriminate.
  apply matches_plus in H0 as [? ?]; auto.
  apply matches_plus in H0 as [? ?]; auto.
Qed.

Lemma grp_screenshot_ext : grp_all (fun v => In v screenshot_exts) 2 screenshot_re.
Proof.
  simpl. repeat split; intros; try discriminate.
  unfold screenshot_exts.
  repeat match goal with
         | X : matches (Alt _ _) _ _ _ _ |- _ =>
             inversion X; subst; clear X
         | X : matches (Str _) _ _ _ _ |- _ => apply matches_str in X; rewrite X
         end; in_list.
Qed.

Lemma decoded_screenshots_shape part :
  screenshots_local_paths (decoded part) = screenshots (decoded part) /\
  Forall (fun name => exists num ext,
            name = u "screenshot_" ++ num ++ u "." ++ ext /\
            num <> [] /\ forallb is_digit num = true /\ In ext screenshot_exts)
    (screenshots (decoded part)).
Proof.
  rewrite decoded_screenshots, decoded_screenshots_local_paths. split; [reflexivity|].
  apply List.Forall_forall. intros name (ne & <- & Hin)%in_map_iff.
  pose proof (findall2_all _ _ screenshot_re part eq_refl grp_screenshot_number
                eq_refl grp_screenshot_ext) as H.
  rewrite List.Forall_forall in H. destruct (H ne Hin) as ((Hn & Hd) & He).
  exists (fst ne), (snd ne). auto.
Qed.

Lemma decoded_styling part :
  In (border_style (decoded part)) border_styles /\
  (show_border (decoded part) = false -> border_style (decoded part) = u "rounded") /\
  In (screenshot_layout (decoded part)) layouts /\
  (0 <= screenshot_size (decoded part))%Z.
Proof.
  rewrite decoded_border_style, decoded_show_border, decoded_layout, decoded_size.
  repeat split.
  - unfold border_of. destruct (border_gate part); [|in_list].
    destruct (contains (u "border-radius: 12px") part); [in_list|].
    destruct (contains (u "dashed") part); in_list.
  - intros ->. reflexivity.
  - unfold layout_of. destruct (contains (u "<table") part); [in_list|].
    destruct (contains (u "align='center'") part && contains (u "<br>") part); in_list.
  - destruct (re_search size_re part) as [mt|]; [|lia].
    destruct (int (g1 mt)) as [n|e] eqn:E; [|lia]. apply int_nonneg in E. exact E.
Qed.
End DecodedShape.

(** X1: the identifier of every decoded record is the slug of its title,
    and so is the anchor the table of contents gives the record when
    the document is written again. *)
Theorem decoded_id_is_slug {U : Unicode} (self : App) (content : str) :
  exists app,
    _parse_md self content = Ok app /\
    Forall (fun p => id p = slug (title p)) (projects app) /\
    (forall i p, In (i, p) (enumerate 1 (projects app)) ->
       toc_entry (i, p)
       = u "| " ++ str_of_nat i ++ u " | [" ++ title p ++ u "](#" ++ id p ++ u ") | "
         ++ category_display p ++ u " |").
Proof.
  eexists. split; [apply parse_md_ok|]. cbn [projects]. split.
  - apply Forall_decoded. exact decoded_id_slug.
  - intros i p Hin. apply enumerate_In in Hin.
    apply in_map_iff in Hin as (part & <- & Hin). apply filter_In in Hin as [_ Hk].
    apply kept_title in Hk. unfold toc_entry. rewrite decoded_id_slug.
    destruct (title (decoded part)); [congruence|reflexivity].
Qed.

(** X2: the texts of every decoded record are trimmed: the title is one
    line without white space around it, the descriptions have no white
    space around them and hold no asterisk (the short one) and no
    opening angle bracket (the long one); a technology is never empty
    and holds no opening angle bracket, a feature is one line that is
    not empty. *)
Theorem decoded_texts_trimmed {U : Unicode} (self : App) (content : str) :
  exists app,
    _parse_md self content = Ok app /\
    Forall (fun p =>
              strip (title p) = title p /\ no_newline (title p) = true /\
              strip (short_description p) = short_description p /\
              no_char 42 (short_description p) = true /\
              strip (long_description p) = long_description p /\
              no_char 60 (long_description p) = true /\
              Forall (fun t => t <> [] /\ no_char 60 t = true) (technologies p) /\
              Forall (fun f => f <> [] /\ no_newline f = true) (features p))
      (projects app).
Proof.
  eexists. split; [apply parse_md_ok|]. cbn [projects]. apply Forall_decoded. intros part.
  destruct (decoded_title_shape part), (decoded_short_shape part), (decoded_long_shape part).
  repeat split; auto using decoded_technologies_shape, decoded_features_shape.
Qed.

(** X3: the decoder does not recover the path of a screenshot: in every
    decoded record the two lists of screenshots are equal, and each
    entry is [screenshot_N.ext] for a number [N] and one of the five
    extensions the decoder knows. *)
Theorem decoded_screenshots_renamed {U : Unicode} (self : App) (content : str) :
  exists app,
    _parse_md self content = Ok app /\
    Forall (fun p =>
              screenshots_local_paths p = screenshots p /\
              Forall (fun name => exists num ext,
                        name = u "screenshot_" ++ num ++ u "." ++ ext /\
                        num <> [] /\ forallb is_digit num = true /\ In ext screenshot_exts)
                (screenshots p))
      (projects app).
Proof.
  eexists. split; [apply parse_md_ok|]. cbn [projects]. apply Forall_decoded.
  exact decoded_screenshots_shape.
Qed.

(** X4: the styling of every decoded record is normalised: the border
    style is one of rounded, square and dashed, and rounded when there
    is no border; the layout is one of grid, vertical and horizontal;
    the width of the screenshots is not negative. *)
Theorem decoded_styling_normalised {U : Unicode} (self : App) (content : str) :
  exists app,
    _parse_md self content = Ok app /\
    Forall (fun p =>
              In (border_style p) border_styles /\
              (show_border p = false -> border_style p = u "rounded") /\
              In (screenshot_layout p) layouts /\
              (0 <= screenshot_size p)%Z)
      (projects app).
Proof.
  eexists. split; [apply parse_md_ok|]. cbn [projects]. apply Forall_decoded.
  exact decoded_styling.
Qed.

(** X5: three fields are written by no step of the decoder: whatever the
    document, and whatever the record a block was generated from, the
    decoded record has the colour, the logo position and the local
    banner path of the constructor. *)
Theorem decoded_never_recovered {U : Unicode} {OS : OsPath} :
  (forall self content,
     exists app,
       _parse_md self content = Ok app /\
       Forall (fun p => theme_color p = u "#000000" /\ logo_position p = u "center" /\
                        banner_local_path p = [])
         (projects app)) /\
  (forall p,
     exists q,
       parse_part (_generate_project_md p) = Ok q /\
       theme_color q = u "#000000" /\ logo_position q = u "center" /\
       banner_local_path q = []).
Proof.
  split.
  - intros self content. eexists. split; [apply parse_md_ok|]. cbn [projects].
    apply Forall_decoded. intros part.
    destruct (decoded_untouched part) as (? & ? & ?). auto.
  - intros p. eexists. split; [apply parse_part_ok|].
    destruct (decoded_untouched (_generate_project_md p)) as (? & ? & ?). auto.
Qed.

(** ** The parts of a document *)

Section SplitParts.
Context {U : Unicode}.

(** Every part [re.split] returns is a piece of the text. *)
Lemma split_parts_infix r : forall s cur skip part,
  (skip <> 0%nat -> cur = []) ->
  In part (split_go r cur skip s) -> infix_of part (cur ++ s).
Proof.
  induction s as [|c s IH]; intros cur skip part Hcur.
  - destruct skip; simpl.
    + destruct (match_at r []) as [[[|? ?] ?]|]; intros [<-|[]];
        exists [], []; rewrite !app_nil_r; reflexivity.
    + intros [<-|[]]. exists [], []. rewrite !app_nil_r. reflexivity.
  - destruct skip as [|n].
    + cbn [split_go].
      assert (Hstep : In part (split_go r (cur ++ [c]) 0 s) -> infix_of part (cur ++ c :: s)).
      { intros H. apply IH in H; [|congruence].
        rewrite <- app_assoc in H. exact H. }
      destruct (match_at r (c :: s)) as [[[|x t] g]|]; try exact Hstep.
      intros [<-|H].
      * exists [], (c :: s). reflexivity.
      * apply IH in H as (a & b & E); [|reflexivity]. cbn [app] in E.
        exists (cur ++ c :: a), b. rewrite E, <- app_assoc. reflexivity.
    + cbn [split_go]. rewrite (Hcur ltac:(discriminate)). intros H.
      apply IH in H as (a & b & E); [|reflexivity]. cbn [app] in E.
      exists (c :: a), b. cbn [app]. rewrite E. reflexivity.
Qed.

Lemma contains_infix L part s :
  infix_of part s -> contains L part = true -> contains L s = true.
Proof. intros (a & b & ->) H. apply contains_mid. exact H. Qed.

Lemma filter_none {A} (f : A -> bool) l :
  (forall x, In x l -> f x = false) -> List.filter f l = [].
Proof.
  induction l as [|a l IH]; intros H; simpl; [reflexivity|].
  rewrite (H a) by (left; reflexivity). apply IH. intros x Hx. apply H. right. exact Hx.
Qed.
End SplitParts.

Lemma parse_md_no_heading {U : Unicode} (self : App) (content : str) :
  contains (u "## ") content = false ->
  _parse_md self content = Ok {| projects := []; file_path := file_path self |}.
Proof.
  intros H. rewrite parse_md_ok. f_equal. f_equal.
  rewrite filter_none; [reflexivity|].
  intros part Hin. unfold kept, re_split in *.
  apply split_parts_infix in Hin; [|congruence].
  destruct (contains (u "## ") part) eqn:E; [|reflexivity].
  apply (contains_infix _ _ _ Hin) in E. cbn [app] in E. congruence.
Qed.

(** X6: a document in which the text [## ] does not occur holds no
    project. *)
Theorem document_without_heading {U : Unicode} (self : App) (content : str) :
  contains (u "## ") content = false ->
  _parse_md self content = Ok {| projects := []; file_path := file_path self |}.
Proof. apply parse_md_no_heading. Qed.

Lemma document_without_heading_demo :
  let U := ascii_tables in
  let content := u "# Notes" ++ nl ++ nl ++ u "<hr>" ++ nl ++ u "`Game` **nothing here**" in
  contains (u "## ") content = false /\
  _parse_md empty_app content = Ok {| projects := []; file_path := [] |}.
Proof.
  intros U content. split; [reflexivity|].
  apply (document_without_heading empty_app content). reflexivity.
Defined.

(** X7: projects are told apart by the separators only: a document with
    neither [<hr>] nor a line [---] is decoded as one block, whatever
    the number of its headings, and gives one project at most. *)
Theorem document_without_separator {U : Unicode} (self : App) (content : str) :
  contains (u "<hr>") content = false ->
  contains (nl ++ u "---" ++ nl) content = false ->
  exists q,
    parse_part content = Ok q /\
    _parse_md self content
    = Ok {| projects := if contains (u "## ") content && truthy (title q) then [q] else [];
            file_path := file_path self |}.
Proof.
  intros H1 H2. exists (decoded content). split; [apply parse_part_ok|].
  rewrite parse_md_ok, split_whole by assumption. cbn [List.filter].
  unfold kept. destruct (contains (u "## ") content && truthy (title (decoded content)));
    reflexivity.
Qed.

Lemma document_without_separator_demo :
  let U := ascii_tables in
  let content := u "## One" ++ nl ++ nl ++ u "## Two" ++ nl in
  contains (u "<hr>") content = false /\
  contains (nl ++ u "---" ++ nl) content = false /\
  exists q,
    parse_part content = Ok q /\
    _parse_md empty_app content
    = Ok {| projects := if contains (u "## ") content && truthy (title q) then [q] else [];
            file_path := [] |}.
Proof.
  intros U content. split; [reflexivity|]. split; [reflexivity|].
  apply (document_without_separator empty_app content); reflexivity.
Defined.

(** * Further properties of the encoder *)

(** ** Every block the encoder writes is kept by the decoder *)

Section Kept.
Context {U : Unicode}.

Lemma lstrip_nil_spaces s : lstrip s = [] -> forallb is_space s = true.
Proof.
  destruct (lstrip_split s) as (ws & E & Hws & _). intros H.
  rewrite H, app_nil_r in E. rewrite E. exact Hws.
Qed.

(** A text of white space only is what [strip] empties. *)
Lemma strip_nil_spaces s : strip s = [] -> forallb is_space s = true.
Proof.
  unfold strip, rstrip. intros H.
  destruct (lstrip_split s) as (ws & E & Hws & _).
  assert (H' : lstrip (rev (lstrip s)) = []).
  { apply (f_equal (@rev N)) in H. rewrite rev_involutive in H. exact H. }
  apply lstrip_nil_spaces in H'. rewrite E, forallb_app, Hws. cbn [andb].
  rewrite forallb_forall in *. intros x Hx. apply H'. apply in_rev in Hx. exact Hx.
Qed.

(** A greedy repetition before a continuation that always succeeds. *)
Lemma star_total {R} p (f : str -> R) : forall s,
  exists t s2, s = t ++ s2 /\ star p s (fun s' => Some (f s')) = Some (f s2).
Proof.
  induction s as [|x s IHs]; [exists [], []; auto|].
  destruct IHs as (t & s2 & E & IH). simpl. destruct (p x).
  - rewrite IH. exists (x :: t), s2. rewrite E. auto.
  - exists [], (x :: s). auto.
Qed.

(** [##\s+(.+)] after two hashes and white space, when a character
    that is not white space follows: the group starts at the first
    such character. *)
Lemma title_at_spaces x ws c r :
  is_space x = true -> forallb is_space ws = true -> is_space c = false ->
  exists t g, match_at title_re (u "##" ++ x :: ws ++ c :: r) = Some (t, [(1%nat, c :: g)]).
Proof.
  intros Hx Hws Hc.
  assert (Hc10 : negb (c =? 10) = true).
  { apply negb_true_iff. apply N.eqb_neq. intros ->. discriminate Hc. }
  destruct (star_total (cls_test Dot)
              (fun s' => (s', [(1%nat, consumed (c :: r) s')])) r) as (t & s2 & E & Hs).
  unfold match_at, title_re, Plus. lits. cbn [app]. simpl. rewrite Hx.
  rewrite (star_over (cls_test Space) ws (c :: r) _
             (s2, [(1%nat, consumed (c :: r) s2)])); try assumption.
  - rewrite E, consumed_cons_app. eauto.
  - simpl. rewrite Hc. reflexivity.
  - simpl. rewrite Hc10. exact Hs.
Qed.

Lemma search_from_exists r : forall pre s' i,
  match_at r s' <> None -> search_from r i (pre ++ s') <> None.
Proof.
  induction pre as [|x pre IH]; intros s' i H.
  - destruct s' as [|y s']; simpl; destruct (match_at r _) as [[t g]|]; congruence.
  - simpl. destruct (match_at r (x :: pre ++ s')) as [[t g]|]; [discriminate|].
    apply IH. exact H.
Qed.

Lemma tag_after pre x rest s :
  ends_with_tag s -> s = pre ++ u "##" ++ x :: rest -> is_space x = true -> In 62 rest.
Proof.
  intros (X & e & -> & He) E Hx. apply (f_equal (@rev N)) in E.
  rewrite !rev_app_distr in E. cbn [rev app] in E. rewrite <- !app_assoc in E. cbn [app] in E.
  apply in_rev. destruct He as [->| ->]; cbn [rev app] in E.
  - destruct (rev rest) as [|y l]; cbn [app] in E.
    + injection E as E _. subst x. discriminate Hx.
    + injection E as E _. subst y. left. reflexivity.
  - destruct (rev rest) as [|y [|z l]]; cbn [app] in E.
    + injection E as _ E _. discriminate E.
    + injection E as _ E _. subst x. discriminate Hx.
    + injection E as _ E _. subst z. right. left. reflexivity.
Qed.

Lemma first_after_spaces rest :
  In 62 rest ->
  exists ws c r, rest = ws ++ c :: r /\ forallb is_space ws = true /\ is_space c = false.
Proof.
  intros Hin. destruct (lstrip_split rest) as (ws & E & Hws & Hst).
  destruct (lstrip rest) as [|c r] eqn:El.
  - exfalso. rewrite app_nil_r in E. subst ws.
    rewrite forallb_forall in Hws. specialize (Hws 62 Hin). discriminate Hws.
  - exists ws, c, r. split; [exact E|]. split; [exact Hws|].
    simpl in Hst. apply negb_true_iff in Hst. exact Hst.
Qed.

(** In a text that ends with a tag and holds [## ], the search for a
    title succeeds, and what it finds is not white space only. *)
Lemma search_title_kept s :
  ends_with_tag s -> contains (u "## ") s = true ->
  exists mt, re_search title_re s = Some mt /\ strip (g1 mt) <> [].
Proof.
  intros Htag Hc.
  assert (Hex : re_search title_re s <> None).
  { apply contains_split in Hc as (t1 & s' & -> & Hs').
    apply startswith_spec in Hs' as [s2 ->].
    change (u "## " ++ s2) with (u "##" ++ 32 :: s2).
    pose proof (tag_after t1 32 s2 _ Htag eq_refl eq_refl) as Hin.
    destruct (first_after_spaces s2 Hin) as (ws & c & r & -> & Hws & Hcs).
    destruct (title_at_spaces 32 ws c r eq_refl Hws Hcs) as (t & g & Hm).
    apply search_from_exists. rewrite Hm. discriminate. }
  destruct (re_search title_re s) as [mt|] eqn:Hs; [|congruence].
  exists mt. split; [reflexivity|].
  apply search_from_sound in Hs as (pre & s' & -> & Hm).
  pose proof Hm as Hm'. apply match_at_sound in Hm' as (s1 & Hms & _).
  unfold title_re in Hms.
  inversion Hms as [| |a b s0 g0 sa ga sb gb Hab Hgrp| | | | | | | | |]; subst.
  inversion Hab as [| |a b s0 g0 sa' ga' sb' gb' Hstr Hplus| | | | | | | | |]; subst.
  inversion Hstr; subst.
  pose proof (matches_plus _ _ _ _ _ Hplus) as [Hne Hsp].
  apply matches_suffix in Hplus.
  destruct (consumed sa' sa) as [|x w] eqn:Ec; [congruence|].
  cbn [forallb] in Hsp. apply andb_true_iff in Hsp as [Hx Hw].
  rewrite Hplus in *. cbn [app] in *.
  pose proof (tag_after pre x (w ++ sa) _ Htag eq_refl Hx) as Hin.
  destruct (first_after_spaces _ Hin) as (ws & c & r & Er & Hws & Hcs).
  rewrite Er in Hm.
  destruct (title_at_spaces x ws c r Hx Hws Hcs) as (t & g & Hm2).
  rewrite Hm2 in Hm. injection Hm as _ Hg.
  unfold g1. rewrite <- Hg. change (strip (c :: g) <> []). intros Hst. apply strip_nil_spaces in Hst.
  cbn [forallb] in Hst. rewrite Hcs in Hst. discriminate Hst.
Qed.
End Kept.

Section KeptBlock.
Context {U : Unicode} {OS : OsPath}.

Lemma content_lines_title p :
  exists a b, content_lines p
              = (a ++ [u "## " ++ or_str (title p) (u "Untitled")] ++ b ++ [u "</div>"]) ++ [[]].
Proof.
  unfold content_lines, title_lines.
  exists ([u "<div align='center'>"; []] ++ logo_lines p),
    ([[]] ++ category_lines p ++ banner_lines p ++ description_lines p ++ links_lines p
     ++ tech_lines p ++ features_lines p ++ screenshots_section p).
  rewrite <- !app_assoc. reflexivity.
Qed.

(** The text of a block, around the line of its title. *)
Lemma generated_around_title p :
  exists a b e,
    _generate_project_md p
    = a ++ (u "## " ++ or_str (title p) (u "Untitled")) ++ b ++ u "</div" ++ 62 :: e /\
    (e = [] \/ e = [10]).
Proof.
  destruct (content_lines_title p) as (a & b & Hc).
  unfold _generate_project_md, project_lines.
  match goal with |- context [if ?c then _ else _] => destruct c end.
  - rewrite Hc. rewrite !app_assoc. rewrite join_unlines.
    rewrite !unlines_app, !unlines_cons, !unlines_nil, <- !app_assoc.
    exists (u "<div style='"
            ++ border_css_of (show_border p) (or_str (border_style p) (u "rounded"))
            ++ u "'>" ++ nl ++ nl ++ unlines a),
      (nl ++ unlines b ++ u "</div>" ++ nl ++ nl), [].
    split; [|left; reflexivity].
    change (u "</div>") with (u "</div" ++ [62]).
    rewrite <- !app_assoc. reflexivity.
  - rewrite Hc, join_unlines.
    rewrite !unlines_app, !unlines_cons, !unlines_nil, <- !app_assoc.
    exists (unlines a), (nl ++ unlines b), [10].
    split; [|right; reflexivity].
    change (u "</div>") with (u "</div" ++ [62]).
    rewrite <- !app_assoc. reflexivity.
Qed.

Lemma generated_kept p :
  contains (u "## ") (_generate_project_md p) = true /\
  ends_with_tag (_generate_project_md p).
Proof.
  destruct (generated_around_title p) as (a & b & e & -> & He). split.
  - apply contains_mid. reflexivity.
  - exists (a ++ (u "## " ++ or_str (title p) (u "Untitled")) ++ b ++ u "</div"), e.
    split; [|exact He]. rewrite <- !app_assoc. reflexivity.
Qed.
End KeptBlock.

(** X8: whatever the record, when the block the encoder writes for it
    holds neither [<hr>] nor a line [---], [_parse_md] applied to the
    block returns one project, and its title is not empty, also when
    the title of the record is empty or blank. *)
Theorem encoded_block_is_kept {U : Unicode} {OS : OsPath} (p : Project) (self : App) :
  contains (u "<hr>") (_generate_project_md p) = false ->
  contains (nl ++ u "---" ++ nl) (_generate_project_md p) = false ->
  exists q,
    _parse_md self (_generate_project_md p)
    = Ok {| projects := [q]; file_path := file_path self |} /\
    title q <> [].
Proof.
  intros H1 H2.
  destruct (generated_kept p) as [Hc Htag].
  destruct (search_title_kept _ Htag Hc) as (mt & Hs & Hne).
  assert (Ht : title (decoded (_generate_project_md p)) <> []).
  { rewrite decoded_title, Hs. exact Hne. }
  exists (decoded (_generate_project_md p)). split; [|exact Ht].
  rewrite parse_md_ok, split_whole by assumption.
  cbn [List.filter]. unfold kept. rewrite Hc, (truthy_nonempty _ Ht). reflexivity.
Qed.

Lemma encoded_block_is_kept_demo :
  let U := ascii_tables in
  let OS := Posix.os_path (fun _ => false) in
  let p := set_features [u "## not a title"; u "--- <hr/>"]
             (set_title (u "   ") Project_init) in
  contains (u "<hr>") (_generate_project_md p) = false /\
  contains (nl ++ u "---" ++ nl) (_generate_project_md p) = false /\
  exists q,
    _parse_md empty_app (_generate_project_md p)
    = Ok {| projects := [q]; file_path := [] |} /\
    title q <> [].
Proof.
  intros U OS p.
  assert (H1 : contains (u "<hr>") (_generate_project_md p) = false) by (vm_compute; reflexivity).
  assert (H2 : contains (nl ++ u "---" ++ nl) (_generate_project_md p) = false)
    by (vm_compute; reflexivity).
  split; [exact H1|]. split; [exact H2|].
  exact (encoded_block_is_kept p empty_app H1 H2).
Defined.

(** ** Records at the border of the round trip *)

Section BlockFields.
Context {U : Unicode}.
Variable p : Project.
Hypothesis Hrt : round_trip_ok p = true.

(** What the decoder reads in the block of a record of the round trip. *)
Lemma decoded_block :
  title (decoded (block_text p)) = title p /\
  categories (decoded (block_text p)) = categories p /\
  short_description (decoded (block_text p)) = short_description p /\
  long_description (decoded (block_text p)) = long_description p /\
  technologies (decoded (block_text p)) = technologies p /\
  features (decoded (block_text p)) = features p /\
  Forall (fun key => link_of (links (decoded (block_text p))) key = link_of (links p) key)
    link_keys /\
  show_border (decoded (block_text p)) = show_border p /\
  (show_border p = true -> border_style (decoded (block_text p)) = border_style p) /\
  (show_border p = false -> border_style (decoded (block_text p)) = u "rounded").
Proof.
  split.
  { rewrite decoded_title. destruct (scan_title p Hrt) as (mt & -> & Hg). exact Hg. }
  split; [rewrite decoded_categories; apply (scan_categories p Hrt)|].
  split; [rewrite decoded_short; apply (scan_short p Hrt)|].
  split; [rewrite decoded_long; apply (scan_long p Hrt)|].
  split; [rewrite decoded_technologies; apply (scan_tech p Hrt)|].
  split; [rewrite decoded_features; apply (scan_features p Hrt)|].
  split; [rewrite (scan_links p Hrt); apply put_links|].
  destruct (scan_border p Hrt) as [Hg Hs].
  split; [rewrite decoded_show_border; exact Hg|].
  split; intros Hb; rewrite decoded_border_style, Hg, Hb; [apply Hs; exact Hb|reflexivity].
Qed.
End BlockFields.

Section BorderEdge.
Context {U : Unicode} {OS : OsPath}.

Lemma unknown_style_css style :
  str_in style border_styles = false -> border_css_of true style = [].
Proof.
  unfold str_in, border_styles. cbn [existsb]. rewrite !orb_false_iff.
  intros (H1 & H2 & H3 & _). unfold border_css_of. rewrite H1, H2, H3. reflexivity.
Qed.

Lemma unknown_style_text p :
  show_border p = true ->
  str_in (or_str (border_style p) (u "rounded")) border_styles = false ->
  _generate_project_md p = _generate_project_md (set_show_border false p).
Proof.
  intros Hb Hs. unfold _generate_project_md, project_lines.
  rewrite Hb, (unknown_style_css _ Hs). reflexivity.
Qed.

Lemma untitled_text p :
  title p = [] -> truthy (logo_url p) = false -> truthy (banner_image p) = false ->
  _generate_project_md p = _generate_project_md (set_title (u "Untitled") p).
Proof.
  intros Ht Hl Hb. unfold _generate_project_md, project_lines, content_lines.
  unfold logo_lines, banner_lines, title_lines. cbn [set_title logo_url banner_image show_logo title].
  rewrite Ht, Hl, Hb, andb_false_r. reflexivity.
Qed.
End BorderEdge.

(** X9: a border whose style is none of rounded, square and dashed is
    not written: for every such record the block is the one of the
    record without border; and when the record without border is one
    of the round trip, [_parse_md] applied to the block returns one
    project, with the title of the record, the border switched off and
    the style [rounded]. *)
Theorem unknown_border_style_dropped {U : Unicode} {OS : OsPath} (p : Project) (self : App) :
  show_border p = true ->
  str_in (or_str (border_style p) (u "rounded")) border_styles = false ->
  _generate_project_md p = _generate_project_md (set_show_border false p) /\
  (round_trip_ok (set_show_border false p) = true ->
   exists q,
     _parse_md self (_generate_project_md p)
     = Ok {| projects := [q]; file_path := file_path self |} /\
     title q = title p /\ show_border q = false /\ border_style q = u "rounded").
Proof.
  intros Hb Hs. split; [apply unknown_style_text; assumption|].
  intros Hrt. rewrite (unknown_style_text p Hb Hs), (generated_text _ Hrt).
  eexists. split; [apply parse_md_block; exact Hrt|].
  destruct (decoded_block _ Hrt) as (Ht & _ & _ & _ & _ & _ & _ & Hsb & _ & Hst).
  split; [exact Ht|]. split; [exact Hsb|]. apply Hst. reflexivity.
Qed.

Lemma unknown_border_style_dropped_demo :
  let U := ascii_tables in
  let OS := Posix.os_path (fun _ => false) in
  let p := set_border_style (u "none") (set_show_border true (set_title (u "Demo") Project_init)) in
  show_border p = true /\
  str_in (or_str (border_style p) (u "rounded")) border_styles = false /\
  round_trip_ok (set_show_border false p) = true /\
  _generate_project_md p = _generate_project_md (set_show_border false p) /\
  exists q,
    _parse_md empty_app (_generate_project_md p)
    = Ok {| projects := [q]; file_path := [] |} /\
    title q = title p /\ show_border q = false /\ border_style q = u "rounded".
Proof.
  intros U OS p.
  assert (H1 : show_border p = true) by reflexivity.
  assert (H2 : str_in (or_str (border_style p) (u "rounded")) border_styles = false)
    by reflexivity.
  assert (H3 : round_trip_ok (set_show_border false p) = true) by (vm_compute; reflexivity).
  destruct (unknown_border_style_dropped p empty_app H1 H2) as [Ht Hd].
  split; [exact H1|]. split; [exact H2|]. split; [exact H3|]. split; [exact Ht|].
  exact (Hd H3).
Defined.

(** X10: a record without title is written under the title [Untitled]:
    when the record with that title is one of the round trip,
    [_parse_md] applied to the block returns one project, of the title
    [Untitled] and the identifier [untitled], its other texts as they
    were. *)
Theorem untitled_round_trip {U : Unicode} {OS : OsPath} (p : Project) (self : App) :
  title p = [] ->
  round_trip_ok (set_title (u "Untitled") p) = true ->
  exists q,
    _parse_md self (_generate_project_md p)
    = Ok {| projects := [q]; file_path := file_path self |} /\
    title q = u "Untitled" /\ id q = u "untitled" /\
    categories q = categories p /\
    short_description q = short_description p /\
    long_description q = long_description p /\
    technologies q = technologies p /\
    features q = features p /\
    Forall (fun key => link_of (links q) key = link_of (links p) key) link_keys.
Proof.
  intros Ht Hrt. destruct (rt_images _ Hrt) as (Hl & Hb & _ & _).
  rewrite (untitled_text p Ht Hl Hb), (generated_text _ Hrt).
  destruct (decoded_block _ Hrt) as (H1 & H2 & H3 & H4 & H5 & H6 & H7 & _).
  exists (decoded (block_text (set_title (u "Untitled") p))).
  split; [apply parse_md_block; exact Hrt|].
  split; [exact H1|]. split; [rewrite decoded_id_slug, H1; reflexivity|].
  repeat split; assumption.
Qed.

Lemma untitled_round_trip_demo :
  let U := ascii_tables in
  let OS := Posix.os_path (fun _ => false) in
  let p := set_short_description (u "No name yet") Project_init in
  title p = [] /\
  round_trip_ok (set_title (u "Untitled") p) = true /\
  exists q,
    _parse_md empty_app (_generate_project_md p)
    = Ok {| projects := [q]; file_path := [] |} /\
    title q = u "Untitled" /\ id q = u "untitled" /\
    categories q = categories p /\
    short_description q = short_description p /\
    long_description q = long_description p /\
    technologies q = technologies p /\
    features q = features p /\
    Forall (fun key => link_of (links q) key = link_of (links p) key) link_keys.
Proof.
  intros U OS p. split; [reflexivity|]. split; [vm_compute; reflexivity|].
  apply (untitled_round_trip p empty_app); [reflexivity|vm_compute; reflexivity].
Defined.

(** * The editor *)

(** ** The rows of the list of screenshots *)

Section Rows.

Lemma split_char_last c : forall s cur,
  no_char c s = true -> List.last (split_char_go c cur s) [] = cur ++ s.
Proof.
  induction s as [|x s IH]; intros cur; simpl.
  - intros _. rewrite app_nil_r. reflexivity.
  - rewrite andb_true_iff. intros [Hx Hs]. apply negb_true_iff in Hx. rewrite Hx.
    rewrite IH by exact Hs. rewrite <- app_assoc. reflexivity.
Qed.

Lemma split_char_go_nonempty c : forall s cur, split_char_go c cur s <> [].
Proof.
  induction s as [|x s IH]; intros cur; simpl; [discriminate|].
  destruct (x =? c); [discriminate|apply IH].
Qed.

Lemma last_cons_nonempty {A} (x : A) l d : l <> [] -> List.last (x :: l) d = List.last l d.
Proof. destruct l; [congruence|reflexivity]. Qed.

(** The last piece of a split is what follows the last separator. *)
Lemma split_char_after c a b : forall cur,
  no_char c b = true ->
  List.last (split_char_go c cur (a ++ c :: b)) [] = b.
Proof.
  induction a as [|x a IH]; intros cur Hb.
  - cbn [app split_char_go]. rewrite N.eqb_refl.
    rewrite last_cons_nonempty by apply split_char_go_nonempty.
    apply (split_char_last c b []). exact Hb.
  - cbn [app split_char_go]. destruct (x =? c).
    + rewrite last_cons_nonempty by apply split_char_go_nonempty. apply IH. exact Hb.
    + apply IH. exact Hb.
Qed.

Lemma contains_char c a b : contains [c] (a ++ c :: b) = true.
Proof.
  apply (contains_suffix_true [c] a (c :: b)). simpl. rewrite N.eqb_refl. reflexivity.
Qed.

Lemma rstrip_char_last c s :
  startswith [c] (rev s) = false -> rstrip_char c (s ++ [c]) = s.
Proof.
  intros H. unfold rstrip_char. rewrite rev_app_distr. cbn [rev app lstrip_char].
  rewrite N.eqb_refl.
  destruct (rev s) as [|x r] eqn:E.
  - apply (f_equal (@rev N)) in E. rewrite rev_involutive in E. subst s. reflexivity.
  - cbn [lstrip_char]. simpl in H. rewrite andb_true_r in H. rewrite N.eqb_sym, H.
    rewrite <- E. apply rev_involutive.
Qed.

(** The path read from a row is what stands between its last opening
    parenthesis and the closing parentheses that end it. *)
Lemma item_path_after X b :
  path_ok b = true -> item_path (X ++ 40 :: b ++ [41]) = b.
Proof.
  unfold path_ok. rewrite andb_true_iff. intros [Hn He]. apply negb_true_iff in He.
  unfold item_path. change (u "(") with [40]. change (u ")") with [41].
  rewrite contains_char.
  replace (X ++ 40 :: b ++ [41]) with ((X ++ 40 :: b) ++ 41 :: [])
    by (rewrite <- !app_assoc; reflexivity).
  rewrite contains_char. cbn [andb]. rewrite <- !app_assoc. cbn [app].
  unfold split_char. rewrite split_char_after.
  - apply rstrip_char_last. exact He.
  - unfold no_char in *. rewrite forallb_app, Hn. reflexivity.
Qed.

Lemma item_path_item {OS : OsPath} path :
  path_ok path = true -> item_path (screenshot_item path) = path.
Proof.
  intros H. unfold screenshot_item.
  change (u "  (" ++ path ++ u ")") with ([32; 32] ++ 40 :: path ++ [41]).
  rewrite app_assoc. apply item_path_after. exact H.
Qed.

Lemma item_path_cut {OS : OsPath} a b :
  path_ok b = true -> item_path (screenshot_item (a ++ 40 :: b)) = b.
Proof.
  intros H. unfold screenshot_item.
  change (u "  (" ++ (a ++ 40 :: b) ++ u ")") with ([32; 32] ++ 40 :: (a ++ 40 :: b) ++ [41]).
  replace (basename (a ++ 40 :: b) ++ [32; 32] ++ 40 :: (a ++ 40 :: b) ++ [41])
    with ((basename (a ++ 40 :: b) ++ [32; 32] ++ 40 :: a) ++ 40 :: b ++ [41])
    by (rewrite <- !app_assoc; reflexivity).
  apply item_path_after. exact H.
Qed.
End Rows.

(** ** Saving the form *)

Section SaveForm.
Context {U : Unicode} {OS : OsPath}.

Lemma fold_add_row l : forall p,
  fold_left add_row l p
  = set_screenshots (screenshots p ++ List.map item_path l)
      (set_screenshots_local_paths (screenshots_local_paths p ++ List.map item_path l) p).
Proof.
  induction l as [|item l IH]; intros p.
  - destruct p. cbn. rewrite !app_nil_r. reflexivity.
  - cbn [fold_left List.map]. rewrite IH. destruct p. cbn. rewrite <- !app_assoc. reflexivity.
Qed.

Lemma fold_add_row' l : forall p,
  fold_left (fun p item =>
               let path := item_path item in
               set_screenshots_local_paths (screenshots_local_paths p ++ [path])
                 (set_screenshots (screenshots p ++ [path]) p)) l p
  = fold_left add_row l p.
Proof.
  induction l as [|item l IH]; intros p; [reflexivity|].
  cbn [fold_left]. rewrite IH. reflexivity.
Qed.

Lemma read_size_ok f p : read_size f p = Ok (set_screenshot_size (size_of_form f) p).
Proof.
  unfold read_size, size_of_form. destruct (int_text (screenshot_size_var f)); reflexivity.
Qed.

(** [_save_current] never raises on the form, and leaves [saved]. *)
Lemma save_form_ok f p : save_form f p = Ok (saved f p).
Proof.
  unfold save_form, saved. rewrite fold_add_row, read_size_ok. cbn.
  destruct (path_exists (strip (banner_entry f))); reflexivity.
Qed.

Lemma get_current_ok f p :
  _get_current_project_data f = Ok (set_banner_local_path [] (saved f p)).
Proof.
  unfold _get_current_project_data. rewrite fold_add_row', fold_add_row, read_size_ok.
  reflexivity.
Qed.

Lemma save_current_ok e : _save_current e = Ok (save_state e).
Proof.
  unfold _save_current, save_state. destruct (selected_index e) as [i|]; [|reflexivity].
  destruct (Nat.leb_spec (length (projects (doc e))) i) as [H|H].
  - rewrite (lookup_ge_None_2 _ _ H). reflexivity.
  - destruct (lookup_lt_is_Some_2 _ _ H) as [p Hp]. rewrite Hp, save_form_ok. reflexivity.
Qed.

End SaveForm.

(** X11: the live preview shows what will be saved: the record
    [_get_current_project_data] reads from the form and the record
    [_save_current] leaves in the list are never an exception, differ
    in nothing but the local path of the banner, and have the same
    Markdown. *)
Theorem preview_shows_saved_record {U : Unicode} {OS : OsPath} (f : Form) (p : Project) :
  exists q q',
    _get_current_project_data f = Ok q /\
    save_form f p = Ok q' /\
    q = set_banner_local_path [] q' /\
    _generate_project_md q = _generate_project_md q'.
Proof.
  exists (set_banner_local_path [] (saved f p)), (saved f p).
  split; [apply get_current_ok|]. split; [apply save_form_ok|]. split; reflexivity.
Qed.

(** ** Numbers written and read back *)

Section Numbers.
Context {U : Unicode}.

Lemma u_String a s : u (String a s) = code_of_ascii a :: u s.
Proof. reflexivity. Qed.

Lemma horner_pos d : forall acc, horner (Npos acc) d = Npos (Pos.of_uint_acc d acc).
Proof.
  induction d; intros acc; cbn [horner Pos.of_uint_acc]; try reflexivity;
    rewrite <- IHd; f_equal; lia.
Qed.

Lemma horner_of_uint d : horner 0 d = N.of_uint d.
Proof.
  unfold N.of_uint. induction d; cbn [horner Pos.of_uint]; try reflexivity;
    try (change (10 * 0 + _) with (Npos 1); apply horner_pos);
    try (rewrite <- horner_pos; reflexivity).
  exact IHd.
Qed.

(** The digits [str] writes are read back by [int]. *)
Lemma literal_digits_uint d : forall acc b,
  (d <> Decimal.Nil \/ b = true) ->
  literal_digits acc b (digits_of_uint d) = Ok (horner acc d).
Proof.
  unfold digits_of_uint.
  induction d; intros acc b Hb; cbn [NilEmpty.string_of_uint horner];
    [destruct Hb as [Hb| ->]; [congruence|reflexivity]|..];
    rewrite u_String; cbn; apply IHd; right; reflexivity.
Qed.

Lemma digits_of_uint_digits d : forallb is_ascii_digit (digits_of_uint d) = true.
Proof.
  unfold digits_of_uint.
  induction d; cbn [NilEmpty.string_of_uint]; [reflexivity|..]; rewrite u_String; cbn;
    exact IHd.
Qed.

Lemma digit_not_int_space c : is_ascii_digit c = true -> is_int_space c = false.
Proof.
  unfold is_ascii_digit, is_int_space, in_range.
  rewrite andb_true_iff, !N.leb_le. intros [H1 H2].
  replace (c <? 128) with true by (symmetry; apply N.ltb_lt; lia).
  apply orb_false_iff. split.
  - apply andb_false_iff. right. apply N.leb_gt. lia.
  - apply N.eqb_neq. lia.
Qed.

Lemma skip_spaces_stops s :
  match s with c :: _ => is_int_space c = false | [] => True end -> skip_spaces s = s.
Proof. destruct s as [|c s]; [reflexivity|]. simpl. intros ->. reflexivity. Qed.

Lemma str_of_N_digits n :
  str_of_N n <> [] /\ forallb is_ascii_digit (str_of_N n) = true /\
  literal_digits 0 false (str_of_N n) = Ok n.
Proof.
  destruct n as [|p]; [repeat split; discriminate|].
  unfold str_of_N. split; [|split].
  - unfold digits_of_uint. pose proof (DecimalN.Unsigned.of_to (Npos p)) as H.
    destruct (N.to_uint (Npos p)); discriminate.
  - apply digits_of_uint_digits.
  - rewrite literal_digits_uint.
    + rewrite horner_of_uint. f_equal. apply DecimalN.Unsigned.of_to.
    + left. intros E. pose proof (DecimalN.Unsigned.of_to (Npos p)) as H.
      rewrite E in H. discriminate H.
Qed.

(** A text that starts and ends with characters [int] does not skip. *)
Lemma int_strip_id c s :
  is_int_space c = false ->
  match rev (c :: s) with x :: _ => is_int_space x = false | [] => True end ->
  rev (skip_spaces (rev (skip_spaces (c :: s)))) = c :: s.
Proof.
  intros Hc Hl. rewrite (skip_spaces_stops (c :: s)) by exact Hc.
  rewrite skip_spaces_stops by exact Hl. apply rev_involutive.
Qed.

Lemma rev_head_last (s : str) x : s <> [] -> forallb is_ascii_digit s = true ->
  match rev (x ++ s) with c :: _ => is_int_space c = false | [] => True end.
Proof.
  intros Hne Hd. rewrite rev_app_distr.
  destruct (rev s) as [|c r] eqn:E.
  - apply (f_equal (@rev N)) in E. rewrite rev_involutive in E. cbn in E. congruence.
  - cbn [app]. apply digit_not_int_space.
    rewrite forallb_forall in Hd. apply Hd. apply in_rev. rewrite E. left. reflexivity.
Qed.

(** [int(str(n))] is [n]. *)
Lemma int_text_str_of_Z n : int_text (str_of_Z n) = Ok n.
Proof.
  destruct n as [|p|p].
  - reflexivity.
  - destruct (str_of_N_digits (Npos p)) as (Hne & Hd & Hl).
    unfold str_of_Z, int_text. destruct (str_of_N (Npos p)) as [|c s] eqn:E; [congruence|].
    pose proof Hd as Hd'. cbn [forallb] in Hd'. apply andb_true_iff in Hd' as [Hc _].
    rewrite int_strip_id.
    + assert (Hcases : c = 48 \/ c = 49 \/ c = 50 \/ c = 51 \/ c = 52 \/ c = 53 \/ c = 54
                       \/ c = 55 \/ c = 56 \/ c = 57).
      { unfold is_ascii_digit, in_range in Hc. rewrite andb_true_iff, !N.leb_le in Hc. lia. }
      repeat destruct Hcases as [->|Hcases]; try subst c; cbv iota; rewrite Hl; reflexivity.
    + apply digit_not_int_space. exact Hc.
    + apply (rev_head_last (c :: s) []); [discriminate|exact Hd].
  - destruct (str_of_N_digits (Npos p)) as (Hne & Hd & Hl).
    unfold str_of_Z, int_text. change (u "-" ++ str_of_N (Npos p)) with (45 :: str_of_N (Npos p)).
    rewrite int_strip_id.
    + rewrite Hl. reflexivity.
    + reflexivity.
    + apply (rev_head_last (str_of_N (Npos p)) [45]); assumption.
Qed.
End Numbers.

(** ** A record loaded into the form and saved *)

Section LoadSave.
Context {U : Unicode} {OS : OsPath}.

Lemma lstrip_app_spaces ws t : forallb is_space ws = true -> lstrip (ws ++ t) = lstrip t.
Proof.
  induction ws as [|c ws IH]; [reflexivity|]. simpl.
  rewrite andb_true_iff. intros [-> H]. apply IH. exact H.
Qed.

Lemma rstrip_snoc_nl t : rstrip (t ++ nl) = rstrip t.
Proof. unfold rstrip, nl. rewrite rev_app_distr. reflexivity. Qed.

(** The newline that ends a text box goes with the white space. *)
Lemma strip_text_get s : strip (text_get s) = strip s.
Proof.
  unfold strip, text_get. destruct (lstrip_split s) as (ws & E & Hws & Hst).
  rewrite E at 1. rewrite <- app_assoc, lstrip_app_spaces by exact Hws.
  destruct (lstrip s) as [|c r] eqn:El; [reflexivity|].
  simpl in Hst. apply negb_true_iff in Hst.
  cbn [app lstrip]. rewrite Hst.
  change (c :: r ++ nl) with ((c :: r) ++ nl). apply rstrip_snoc_nl.
Qed.

Lemma loaded_categories cs (vars : list (str * bool)) :
  List.map fst (List.filter snd (List.map (fun '(cat, _) => (cat, str_in cat cs)) vars))
  = List.filter (fun c => str_in c cs) (List.map fst vars).
Proof.
  induction vars as [|[cat b] vars IH]; [reflexivity|].
  cbn [List.map List.filter fst snd]. destruct (str_in cat cs); cbn [List.map fst];
    rewrite IH; reflexivity.
Qed.

Lemma loaded_rows (f : str -> str) (l : list str) : forall pre,
  List.map (fun '(i, ss) => let local := match (pre ++ l) !! i with
                                          | Some x => x
                                          | None => ss
                                          end in f local)
           (enumerate (length pre) l)
  = List.map f l.
Proof.
  induction l as [|x l IH]; intros pre; [reflexivity|].
  cbn [enumerate List.map]. f_equal.
  - rewrite lookup_app_r by lia. rewrite Nat.sub_diag. reflexivity.
  - specialize (IH (pre ++ [x])). rewrite length_app, <- app_assoc in IH.
    cbn [length app] in IH. rewrite Nat.add_1_r in IH. exact IH.
Qed.

Lemma rows_read_back l :
  forallb path_ok l = true -> List.map item_path (List.map screenshot_item l) = l.
Proof.
  induction l as [|x l IH]; [reflexivity|]. cbn [forallb List.map].
  rewrite andb_true_iff. intros [Hx Hl]. rewrite item_path_item, IH by assumption.
  reflexivity.
Qed.

Lemma or_str_nonempty s d : s <> [] -> or_str s d = s.
Proof. destruct s; [congruence|reflexivity]. Qed.

Lemma get_truthy_five d k :
  In k link_keys -> get_truthy (five_links d) k = get_truthy d k.
Proof.
  unfold link_keys, five_links, get_truthy, dict_get. cbn [In].
  intros [<-|[<-|[<-|[<-|[<-|[]]]]]];
    rewrite ?lookup_insert_ne by key_ne; rewrite lookup_insert_eq;
    destruct (d !! _) as [v|]; reflexivity.
Qed.

Lemma link_badges_five d t : link_badges (five_links d) t = link_badges d t.
Proof.
  unfold link_badges. rewrite !get_truthy_five by (unfold link_keys; in_list). reflexivity.
Qed.

(** The encoder reads the links through the five keys only. *)
Lemma generate_five_links p :
  _generate_project_md (set_links (five_links (links p)) p) = _generate_project_md p.
Proof.
  unfold _generate_project_md, project_lines, content_lines, links_lines.
  cbn [set_links links theme_color show_border border_style].
  rewrite link_badges_five. reflexivity.
Qed.

Lemma loaded_links p f0 :
  Forall (fun key => strip (dict_get (links p) key) = dict_get (links p) key)
    [u "playStore"; u "appStore"; u "website"; u "github"; u "apk"] ->
  form_links (_load_project p f0) = five_links (links p).
Proof.
  intros H. unfold form_links, five_links, _load_project.
  cbn [link_playstore link_appstore link_website link_github link_apk].
  repeat match goal with
         | X : Forall _ (_ :: _) |- _ => apply Forall_cons_1 in X as [? X]
         end.
  repeat match goal with E : strip _ = _ |- _ => rewrite E; clear E end. reflexivity.
Qed.
End LoadSave.

(** X12: a record as the editor writes it goes through the editor
    unchanged but for its links: loading it into the form and saving
    the form gives the record back with all five keys in [links], a key
    that was absent holding the empty text; and the Markdown of the
    record is the same before and after. *)
Theorem normal_record_survives_editing {U : Unicode} {OS : OsPath} (p : Project) (f0 : Form) :
  editor_normal p -> form_ok f0 ->
  save_form (_load_project p f0) p = Ok (set_links (five_links (links p)) p) /\
  _generate_project_md (set_links (five_links (links p)) p) = _generate_project_md p.
Proof.
  intros (Hid & Ht & Hc & Hs & Hl & Hk & Hb & Hbl & Hsl & Hss & Hlu & Hlp & Hbs & Hly & Hsz
          & Htc & Htcs) Hf.
  split; [|apply generate_five_links].
  rewrite save_form_ok. f_equal. unfold saved.
  rewrite (loaded_links p f0 Hk).
  unfold size_of_form, _load_project.
  cbn [id_entry title_entry category_vars short_desc_entry long_desc_text tech_listbox
       features_listbox banner_entry screenshots_listbox show_logo_var logo_url_entry
       logo_position_var show_border_var border_style_var screenshot_layout_var
       screenshot_size_var theme_color_entry].
  rewrite strip_text_get, loaded_categories, Hf, <- Hc, Hid, Ht, Hs, Hl, Hb, Hlu.
  rewrite Hsl, (loaded_rows screenshot_item (screenshots p) []), (rows_read_back _ Hss).
  rewrite !or_str_nonempty by assumption. rewrite Htcs.
  rewrite int_text_str_of_Z.
  destruct (Z.eqb_spec (screenshot_size p) 0) as [E|_]; [congruence|].
  assert (Hbl' : (if path_exists (banner_image p) then banner_image p else banner_local_path p)
                 = banner_local_path p).
  { destruct (path_exists (banner_image p)); [symmetry; apply Hbl|]; reflexivity. }
  rewrite Hbl'. destruct p. cbn in *. rewrite Hsl. reflexivity.
Qed.

Lemma normal_record_survives_editing_demo :
  let U := ascii_tables in
  let OS := Posix.os_path (fun _ => false) in
  editor_normal editor_demo /\ form_ok Form_init /\
  save_form (_load_project editor_demo Form_init) editor_demo
  = Ok (set_links (five_links (links editor_demo)) editor_demo) /\
  _generate_project_md (set_links (five_links (links editor_demo)) editor_demo)
  = _generate_project_md editor_demo.
Proof.
  intros U OS.
  assert (Hn : editor_normal editor_demo).
  { unfold editor_normal. repeat split; try reflexivity; try discriminate.
    repeat constructor. }
  split; [exact Hn|]. split; [reflexivity|].
  apply (normal_record_survives_editing editor_demo Form_init Hn). reflexivity.
Defined.

(** ** The commands of the list of projects *)

Section WindowFacts.
Context {U : Unicode} {OS : OsPath}.

Lemma refresh_shown e : list_shown (_refresh_list e).
Proof. split; reflexivity. Qed.

Lemma save_state_length e :
  length (projects (doc (save_state e))) = length (projects (doc e)).
Proof.
  unfold save_state. destruct (selected_index e) as [i|]; [|reflexivity].
  destruct (projects (doc e) !! i); [|reflexivity].
  cbn. apply length_insert.
Qed.

Lemma save_state_selected e : selected_index (save_state e) = selected_index e.
Proof.
  unfold save_state. destruct (selected_index e) as [i|] eqn:E; [|exact E].
  destruct (projects (doc e) !! i); [|exact E]. exact E.
Qed.

Lemma save_state_form e : form (save_state e) = form e.
Proof.
  unfold save_state. destruct (selected_index e) as [i|]; [|reflexivity].
  destruct (projects (doc e) !! i); reflexivity.
Qed.

Lemma save_state_ok e : window_ok e -> window_ok (save_state e).
Proof.
  intros [Hs Hl]. split.
  - unfold selection_ok. rewrite save_state_selected, save_state_length. exact Hs.
  - unfold save_state. destruct (selected_index e) as [i|]; [|exact Hl].
    destruct (projects (doc e) !! i); [apply refresh_shown|exact Hl].
Qed.

Lemma selection_lt e i :
  selection_ok e = true -> selected_index e = Some i -> (i < length (projects (doc e)))%nat.
Proof. unfold selection_ok. intros H E. rewrite E in H. apply Nat.ltb_lt. exact H. Qed.

Lemma swap_ok i j (l : list Project) :
  (i < length l)%nat -> (j < length l)%nat ->
  exists l', swap i j l = Ok l' /\ length l' = length l.
Proof.
  intros Hi Hj. unfold swap.
  destruct (lookup_lt_is_Some_2 _ _ Hi) as [a ->], (lookup_lt_is_Some_2 _ _ Hj) as [b ->].
  eexists. split; [reflexivity|]. rewrite !length_insert. reflexivity.
Qed.

Lemma shown_length e : list_shown e -> length (project_listbox e) = length (projects (doc e)).
Proof. intros [-> _]. rewrite length_map, enumerate_length. reflexivity. Qed.
End WindowFacts.

Section CommandFacts.
Context {U : Unicode} {OS : OsPath}.

Lemma add_project_ok e :
  window_ok e ->
  exists e',
    _add_project e = Ok e' /\ window_ok e' /\
    selected_index e' = Some (length (projects (doc e))) /\
    has_changes e' = true /\
    exists p,
      projects (doc e') = projects (doc (save_state e)) ++ [p] /\
      title p = u "New Project " ++ str_of_nat (length (projects (doc e)) + 1) /\
      id p = u "new-project-" ++ str_of_nat (length (projects (doc e)) + 1) /\
      title_entry (form e') = title p /\ id_entry (form e') = id p.
Proof.
  intros Hw. unfold _add_project. rewrite save_current_ok, bind_Ok. cbv zeta.
  eexists. split; [reflexivity|].
  pose proof (save_state_length e) as Hlen.
  split; [split|].
  - unfold selection_ok. cbn. rewrite length_app. cbn. apply Nat.ltb_lt. lia.
  - split; reflexivity.
  - cbn. rewrite length_app, Hlen. cbn. split; [f_equal; lia|]. split; [reflexivity|].
    eexists. split; [reflexivity|]. cbn. repeat split; reflexivity.
Qed.

Lemma delete_project_ok askyesno e :
  window_ok e -> exists e', _delete_project askyesno e = Ok e' /\ window_ok e'.
Proof.
  intros Hw. unfold _delete_project.
  destruct (selected_index e) as [i|] eqn:Ei; [|exists e; auto].
  destruct (lookup_lt_is_Some_2 _ _ (selection_lt e i (proj1 Hw) Ei)) as [p ->].
  destruct (askyesno _ _); cbn [negb]; [|exists e; auto]. cbv zeta.
  generalize (delete i (projects (doc e))). intros ps.
  eexists. split; [reflexivity|].
  destruct ps as [|p0 ps]; (split; [reflexivity|split; reflexivity]).
Qed.

Lemma move_up_ok e :
  window_ok e -> exists e', _move_up e = Ok e' /\ window_ok e'.
Proof.
  intros Hw. unfold _move_up.
  destruct (selected_index e) as [i|] eqn:Ei; [|exists e; auto].
  destruct (Nat.eqb_spec i 0) as [_|Hi]; [exists e; auto|].
  rewrite save_current_ok, bind_Ok.
  pose proof (selection_lt e i (proj1 Hw) Ei) as Hlt.
  destruct (swap_ok i (i - 1) (projects (doc (save_state e)))) as (l' & -> & Hl');
    rewrite ?save_state_length; try lia.
  rewrite bind_Ok. cbv zeta. eexists. split; [reflexivity|]. split.
  - unfold selection_ok. cbn. rewrite Hl', save_state_length. apply Nat.ltb_lt. lia.
  - split; reflexivity.
Qed.

Lemma move_down_ok e :
  window_ok e -> exists e', _move_down e = Ok e' /\ window_ok e'.
Proof.
  intros Hw. unfold _move_down.
  destruct (selected_index e) as [i|] eqn:Ei; [|exists e; auto].
  destruct (Nat.leb_spec (length (projects (doc e)) - 1) i) as [_|Hi]; [exists e; auto|].
  rewrite save_current_ok, bind_Ok.
  destruct (swap_ok i (i + 1) (projects (doc (save_state e)))) as (l' & -> & Hl');
    rewrite ?save_state_length; try lia.
  rewrite bind_Ok. cbv zeta. eexists. split; [reflexivity|]. split.
  - unfold selection_ok. cbn. rewrite Hl', save_state_length. apply Nat.ltb_lt. lia.
  - split; reflexivity.
Qed.

Lemma on_select_ok i sel e :
  window_ok e -> (i < length (project_listbox e))%nat ->
  exists e', _on_select (i :: sel) e = Ok e' /\ window_ok e' /\ selected_index e' = Some i.
Proof.
  intros Hw Hi. rewrite (shown_length e (proj2 Hw)) in Hi.
  unfold _on_select. rewrite save_current_ok, bind_Ok. cbv zeta.
  cbn [doc set_selected_index].
  rewrite <- save_state_length in Hi.
  destruct (lookup_lt_is_Some_2 _ _ Hi) as [p ->].
  eexists. split; [reflexivity|]. split; [|reflexivity].
  destruct (save_state_ok e Hw) as [_ Hl]. split.
  - unfold selection_ok. cbn. apply Nat.ltb_lt. exact Hi.
  - exact Hl.
Qed.

End CommandFacts.

(** X13: the commands of the list of projects never raise on a
    consistent window, and leave it consistent: saving the form,
    adding, deleting (whatever the answer to the question), moving up
    and down, and selecting a row of the list box. *)
Theorem commands_keep_window_consistent {U : Unicode} {OS : OsPath}
    (e : Editor) (askyesno : str -> str -> bool) :
  window_ok e ->
  (exists e', _save_current e = Ok e' /\ window_ok e') /\
  (exists e', _add_project e = Ok e' /\ window_ok e') /\
  (exists e', _delete_project askyesno e = Ok e' /\ window_ok e') /\
  (exists e', _move_up e = Ok e' /\ window_ok e') /\
  (exists e', _move_down e = Ok e' /\ window_ok e') /\
  (forall i sel, (i < length (project_listbox e))%nat ->
     exists e', _on_select (i :: sel) e = Ok e' /\ window_ok e' /\
                selected_index e' = Some i) /\
  _on_select [] e = Ok e.
Proof.
  intros Hw.
  split; [exists (save_state e); split; [apply save_current_ok|apply save_state_ok; exact Hw]|].
  split; [destruct (add_project_ok e Hw) as (e' & H1 & H2 & _); eauto|].
  split; [apply delete_project_ok; exact Hw|].
  split; [apply move_up_ok; exact Hw|].
  split; [apply move_down_ok; exact Hw|].
  split; [|reflexivity].
  intros i sel Hi. apply on_select_ok; assumption.
Qed.

Lemma commands_keep_window_consistent_demo :
  let U := ascii_tables in
  let OS := Posix.os_path (fun _ => false) in
  let e := window_demo in
  let askyesno := fun _ _ : str => true in
  window_ok e /\
  (exists e', _save_current e = Ok e' /\ window_ok e') /\
  (exists e', _add_project e = Ok e' /\ window_ok e') /\
  (exists e', _delete_project askyesno e = Ok e' /\ window_ok e') /\
  (exists e', _move_up e = Ok e' /\ window_ok e') /\
  (exists e', _move_down e = Ok e' /\ window_ok e') /\
  (forall i sel, (i < length (project_listbox e))%nat ->
     exists e', _on_select (i :: sel) e = Ok e' /\ window_ok e' /\
                selected_index e' = Some i) /\
  _on_select [] e = Ok e.
Proof.
  intros U OS e askyesno.
  assert (Hw : window_ok e) by (split; [reflexivity|split; reflexivity]).
  split; [exact Hw|]. apply (commands_keep_window_consistent e askyesno Hw).
Defined.

(** ** Opening a document without projects *)

Section StaleSelection.
Context {U : Unicode} {OS : OsPath}.

Lemma open_file_no_heading path content e :
  path <> [] -> contains (u "## ") content = false ->
  projects (doc (_open_file path (Ok content) e)) = [] /\
  selected_index (_open_file path (Ok content) e) = selected_index e /\
  file_path (doc (_open_file path (Ok content) e)) = path /\
  has_changes (_open_file path (Ok content) e) = false.
Proof.
  intros Hp Hc. unfold _open_file. rewrite (truthy_nonempty _ Hp). cbn [negb].
  rewrite bind_Ok. unfold parse_and_refresh.
  rewrite (parse_md_no_heading (doc e) content Hc), !bind_Ok. cbv zeta.
  repeat split; reflexivity.
Qed.
End StaleSelection.

(** X14: opening a document that holds no project leaves the index of
    the project being edited as it was: with a project selected
    before, the window then has an empty list and an index that is not
    one of it; deleting raises [IndexError], and so does moving up
    unless the index is 0. *)
Theorem open_empty_document_keeps_selection {U : Unicode} {OS : OsPath}
    (e : Editor) (path content : str) (i : nat) (askyesno : str -> str -> bool) :
  selected_index e = Some i -> path <> [] -> contains (u "## ") content = false ->
  projects (doc (_open_file path (Ok content) e)) = [] /\
  selected_index (_open_file path (Ok content) e) = Some i /\
  selection_ok (_open_file path (Ok content) e) = false /\
  _delete_project askyesno (_open_file path (Ok content) e) = Raise IndexError /\
  (i <> 0%nat -> _move_up (_open_file path (Ok content) e) = Raise IndexError).
Proof.
  intros Hi Hp Hc.
  destruct (open_file_no_heading path content e Hp Hc) as (Hps & Hs & _ & _).
  rewrite Hi in Hs. generalize dependent (_open_file path (Ok content) e). intros e' Hps Hs.
  split; [exact Hps|]. split; [exact Hs|]. split; [|split].
  - unfold selection_ok. rewrite Hs, Hps. reflexivity.
  - unfold _delete_project. rewrite Hs, Hps. reflexivity.
  - intros Hne. unfold _move_up. rewrite Hs.
    destruct (Nat.eqb_spec i 0) as [E|_]; [congruence|].
    rewrite save_current_ok, bind_Ok.
    assert (Hl : projects (doc (save_state e')) = []).
    { apply nil_length_inv. rewrite save_state_length, Hps. reflexivity. }
    unfold swap. rewrite Hl. reflexivity.
Qed.

Lemma open_empty_document_keeps_selection_demo :
  let U := ascii_tables in
  let OS := Posix.os_path (fun _ => false) in
  let e := window_demo in
  let path := u "notes.md" in
  let content := u "# Notes" ++ nl ++ u "nothing yet" in
  let askyesno := fun _ _ : str => true in
  selected_index e = Some 1%nat /\ path <> [] /\ contains (u "## ") content = false /\
  projects (doc (_open_file path (Ok content) e)) = [] /\
  selected_index (_open_file path (Ok content) e) = Some 1%nat /\
  selection_ok (_open_file path (Ok content) e) = false /\
  _delete_project askyesno (_open_file path (Ok content) e) = Raise IndexError /\
  (1%nat <> 0%nat -> _move_up (_open_file path (Ok content) e) = Raise IndexError).
Proof.
  intros U OS e path content askyesno.
  split; [reflexivity|]. split; [discriminate|]. split; [reflexivity|].
  apply (open_empty_document_keeps_selection e path content 1 askyesno);
    [reflexivity|discriminate|reflexivity].
Defined.

(** ** Moving a project *)

Section Moves.
Context {U : Unicode} {OS : OsPath}.

Lemma saved_idem f p : saved f (saved f p) = saved f p.
Proof. unfold saved. cbn. destruct (path_exists (strip (banner_entry f))); reflexivity. Qed.

(** Saving again what was just saved changes nothing in the list. *)
Lemma save_state_fixed e k q :
  selected_index e = Some k -> projects (doc e) !! k = Some q -> saved (form e) q = q ->
  projects (doc (save_state e)) = projects (doc e).
Proof.
  intros Hk Hq Hs. unfold save_state. rewrite Hk, Hq, Hs. cbn.
  apply list_insert_id. exact Hq.
Qed.

Lemma save_state_lookup e i :
  selected_index e = Some i -> (i < length (projects (doc e)))%nat ->
  exists p, projects (doc e) !! i = Some p /\
            projects (doc (save_state e)) = <[i := saved (form e) p]> (projects (doc e)).
Proof.
  intros Hi Hlt. destruct (lookup_lt_is_Some_2 _ _ Hlt) as [p Hp].
  exists p. split; [exact Hp|]. unfold save_state. rewrite Hi, Hp. reflexivity.
Qed.

(** Exchanging two elements twice gives the list back. *)
Lemma swap_back i j (l l1 : list Project) :
  swap i j l = Ok l1 -> swap j i l1 = Ok l /\ swap i j l1 = Ok l.
Proof.
  unfold swap. destruct (l !! j) as [b|] eqn:Hj; [|discriminate].
  destruct (l !! i) as [a|] eqn:Hi; [|discriminate]. intros [= <-].
  pose proof (lookup_lt_Some _ _ _ Hi) as Hil. pose proof (lookup_lt_Some _ _ _ Hj) as Hjl.
  assert (Hli : <[j:=a]> (<[i:=b]> l) !! i = Some (if decide (i = j) then a else b)).
  { destruct (decide (i = j)) as [->|Hne].
    - rewrite list_lookup_insert_eq by (rewrite length_insert; exact Hjl). reflexivity.
    - rewrite list_lookup_insert_ne by congruence.
      rewrite list_lookup_insert_eq by exact Hil. reflexivity. }
  assert (Hlj : <[j:=a]> (<[i:=b]> l) !! j = Some a).
  { rewrite list_lookup_insert_eq by (rewrite length_insert; exact Hjl). reflexivity. }
  assert (E1 : <[i := a]> (<[j := b]> (<[j:=a]> (<[i:=b]> l))) = l).
  { apply list_eq. intros k.
    destruct (decide (k = i)) as [->|Hki].
    - rewrite list_lookup_insert_eq by (rewrite !length_insert; exact Hil). symmetry. exact Hi.
    - rewrite list_lookup_insert_ne by congruence.
      destruct (decide (k = j)) as [->|Hkj].
      + rewrite list_lookup_insert_eq by (rewrite !length_insert; exact Hjl). symmetry. exact Hj.
      + rewrite !list_lookup_insert_ne by congruence. reflexivity. }
  assert (E2 : <[j := if decide (i = j) then a else b]> (<[i := a]> (<[j:=a]> (<[i:=b]> l))) = l).
  { apply list_eq. intros k.
    destruct (decide (k = j)) as [->|Hkj].
    - rewrite list_lookup_insert_eq by (rewrite !length_insert; exact Hjl).
      destruct (decide (i = j)) as [->|Hne]; [congruence|symmetry; exact Hj].
    - rewrite list_lookup_insert_ne by congruence.
      destruct (decide (k = i)) as [->|Hki].
      + rewrite list_lookup_insert_eq by (rewrite !length_insert; exact Hil). symmetry. exact Hi.
      + rewrite !list_lookup_insert_ne by congruence. reflexivity. }
  split.
  - rewrite Hli, Hlj. f_equal.
    destruct (decide (i = j)) as [->|Hne]; [assert (a = b) by congruence; subst b|]; exact E1.
  - rewrite Hlj, Hli. f_equal. exact E2.
Qed.
End Moves.

Section MoveBack.
Context {U : Unicode} {OS : OsPath}.

Lemma swap_lookup i j (l l1 : list Project) :
  swap i j l = Ok l1 -> l1 !! j = l !! i /\ length l1 = length l.
Proof.
  unfold swap. destruct (l !! j) as [b|] eqn:Hj; [|discriminate].
  destruct (l !! i) as [a|] eqn:Hi; [|discriminate]. intros [= <-].
  pose proof (lookup_lt_Some _ _ _ Hj) as Hjl.
  split; [|rewrite !length_insert; reflexivity].
  rewrite list_lookup_insert_eq by (rewrite length_insert; exact Hjl). reflexivity.
Qed.

Lemma move_up_down e i :
  window_ok e -> selected_index e = Some i -> i <> 0%nat ->
  exists e1 e2,
    _move_up e = Ok e1 /\ _move_down e1 = Ok e2 /\
    selected_index e1 = Some (i - 1)%nat /\
    projects (doc e2) = projects (doc (save_state e)) /\
    selected_index e2 = Some i /\ form e2 = form e /\ has_changes e2 = true.
Proof.
  intros Hw Hi Hne. pose proof (selection_lt e i (proj1 Hw) Hi) as Hlt.
  destruct (save_state_lookup e i Hi Hlt) as (p & Hp & Hps).
  destruct (swap_ok i (i - 1) (projects (doc (save_state e)))) as (l1 & Hsw & Hl1);
    rewrite ?save_state_length; try lia.
  destruct (swap_lookup _ _ _ _ Hsw) as [Hl1i _].
  assert (Ha : l1 !! (i - 1)%nat = Some (saved (form e) p)).
  { rewrite Hl1i, Hps. apply list_lookup_insert_eq. exact Hlt. }
  unfold _move_up. rewrite Hi.
  destruct (Nat.eqb_spec i 0) as [E|_]; [congruence|].
  rewrite save_current_ok, bind_Ok, Hsw, bind_Ok. cbv zeta.
  eexists. eexists. split; [reflexivity|].
  set (e1 := set_has_changes true _).
  assert (Hs1 : selected_index e1 = Some (i - 1)%nat) by reflexivity.
  assert (Hp1 : projects (doc e1) = l1) by reflexivity.
  assert (Hf1 : form e1 = form e) by (unfold e1; cbn; apply save_state_form).
  assert (Hfix : projects (doc (save_state e1)) = l1).
  { rewrite <- Hp1. apply (save_state_fixed e1 (i - 1) (saved (form e) p)).
    - exact Hs1.
    - rewrite Hp1. exact Ha.
    - rewrite Hf1. apply saved_idem. }
  assert (Hdown : _move_down e1
                  = Ok (set_has_changes true
                          (_refresh_list
                             (set_selected_index (Some (i - 1 + 1)%nat)
                                (set_projects (projects (doc (save_state e)))
                                   (save_state e1)))))).
  { unfold _move_down. rewrite Hs1, Hp1.
    destruct (Nat.leb_spec (length l1 - 1) (i - 1)) as [Hle|_];
      [rewrite Hl1, save_state_length in Hle; lia|].
    rewrite save_current_ok, bind_Ok, Hfix.
    replace (i - 1 + 1)%nat with i by lia.
    rewrite (proj1 (swap_back _ _ _ _ Hsw)), bind_Ok. reflexivity. }
  split; [exact Hdown|]. split; [exact Hs1|]. split; [reflexivity|].
  split; [cbn; f_equal; lia|]. split; [|reflexivity].
  cbn. rewrite save_state_form. exact Hf1.
Qed.
End MoveBack.

Section StatusLine.
Context {U : Unicode} {OS : OsPath}.

Lemma save_state_has_changes e : has_changes (save_state e) = has_changes e.
Proof.
  unfold save_state. destruct (selected_index e) as [i|]; [|reflexivity].
  destruct (projects (doc e) !! i); reflexivity.
Qed.

(** The two status lines of a window, with and without the mark of
    unsaved changes, are different texts. *)
Lemma status_mark_differs name n rest :
  name ++ [] ++ u " " ++ [8226] ++ u " " ++ str_of_nat n ++ rest
  <> name ++ (u " " ++ [8226]) ++ u " " ++ [8226] ++ u " " ++ str_of_nat n ++ rest.
Proof.
  intros E. apply app_inv_head in E. change (u " ") with [32] in E. cbn [app] in E.
  injection E as E.
  destruct (str_of_N_digits (U := U) (N.of_nat n)) as (Hne & Hd & _).
  unfold str_of_nat in E. destruct (str_of_N (N.of_nat n)) as [|c s]; [congruence|].
  cbn [app] in E. injection E as E _. subst c. discriminate Hd.
Qed.

Lemma move_up_status e i :
  window_ok e -> selected_index e = Some i -> i <> 0%nat -> has_changes e = false ->
  exists e',
    _move_up e = Ok e' /\ has_changes e' = true /\
    status_label e' = status_label (_update_status (set_has_changes false e')) /\
    status_label e' <> status_label (_update_status e').
Proof.
  intros Hw Hi Hne Hc. pose proof (selection_lt e i (proj1 Hw) Hi) as Hlt.
  destruct (swap_ok i (i - 1) (projects (doc (save_state e)))) as (l1 & Hsw & Hl1);
    rewrite ?save_state_length; try lia.
  unfold _move_up. rewrite Hi.
  destruct (Nat.eqb_spec i 0) as [E|_]; [congruence|].
  rewrite save_current_ok, bind_Ok, Hsw, bind_Ok. cbv zeta.
  eexists. split; [reflexivity|]. split; [reflexivity|].
  unfold _update_status, _refresh_list.
  cbn [status_label has_changes doc set_has_changes set_selected_index set_projects set_doc
       projects file_path].
  rewrite save_state_has_changes, Hc. split; [reflexivity|]. apply status_mark_differs.
Qed.
End StatusLine.

(** X15: moving the project being edited up and then down gives the
    list back: after the two commands the projects are those the list
    had once the form was saved, the same project is being edited and
    the form is as it was. *)
Theorem move_up_then_down {U : Unicode} {OS : OsPath} (e : Editor) (i : nat) :
  window_ok e -> selected_index e = Some i -> i <> 0%nat ->
  exists e0 e1 e2,
    _save_current e = Ok e0 /\ _move_up e = Ok e1 /\ _move_down e1 = Ok e2 /\
    selected_index e1 = Some (i - 1)%nat /\
    projects (doc e2) = projects (doc e0) /\
    selected_index e2 = Some i /\ form e2 = form e /\ has_changes e2 = true.
Proof.
  intros Hw Hi Hne.
  destruct (move_up_down e i Hw Hi Hne) as (e1 & e2 & H1 & H2 & H3 & H4 & H5 & H6 & H7).
  exists (save_state e), e1, e2. split; [apply save_current_ok|]. auto 10.
Qed.

Lemma move_up_then_down_demo :
  let U := ascii_tables in
  let OS := Posix.os_path (fun _ => false) in
  let e := window_demo in
  window_ok e /\ selected_index e = Some 1%nat /\ 1%nat <> 0%nat /\
  exists e0 e1 e2,
    _save_current e = Ok e0 /\ _move_up e = Ok e1 /\ _move_down e1 = Ok e2 /\
    selected_index e1 = Some (1 - 1)%nat /\
    projects (doc e2) = projects (doc e0) /\
    selected_index e2 = Some 1%nat /\ form e2 = form e /\ has_changes e2 = true.
Proof.
  intros U OS e.
  assert (Hw : window_ok e) by (split; [reflexivity|split; reflexivity]).
  split; [exact Hw|]. split; [reflexivity|]. split; [discriminate|].
  apply (move_up_then_down e 1 Hw); [reflexivity|discriminate].
Defined.

(** X16: moving a project in a document without unsaved changes sets
    the flag of unsaved changes but not the status line: the line is
    the one of an unchanged document, and differs from the line
    [_update_status] would write. *)
Theorem move_leaves_status_line {U : Unicode} {OS : OsPath} (e : Editor) (i : nat) :
  window_ok e -> selected_index e = Some i -> i <> 0%nat -> has_changes e = false ->
  exists e',
    _move_up e = Ok e' /\ has_changes e' = true /\
    status_label e' = status_label (_update_status (set_has_changes false e')) /\
    status_label e' <> status_label (_update_status e').
Proof. apply move_up_status. Qed.

Lemma move_leaves_status_line_demo :
  let U := ascii_tables in
  let OS := Posix.os_path (fun _ => false) in
  let e := window_demo in
  window_ok e /\ selected_index e = Some 1%nat /\ 1%nat <> 0%nat /\ has_changes e = false /\
  exists e',
    _move_up e = Ok e' /\ has_changes e' = true /\
    status_label e' = status_label (_update_status (set_has_changes false e')) /\
    status_label e' <> status_label (_update_status e').
Proof.
  intros U OS e.
  assert (Hw : window_ok e) by (split; [reflexivity|split; reflexivity]).
  split; [exact Hw|]. split; [reflexivity|]. split; [discriminate|]. split; [reflexivity|].
  apply (move_leaves_status_line e 1 Hw); [reflexivity|discriminate|reflexivity].
Defined.

(** X17: a screenshot is kept in the list box as the row
    [name  (path)], and read back as what stands after the last
    opening parenthesis of the row: a path without opening parenthesis
    that does not end with a closing one is read back as it is, and of
    a path with an opening parenthesis only what follows the last one
    is read back. *)
Theorem screenshot_row_read_back {OS : OsPath} (a b : str) :
  path_ok b = true ->
  item_path (screenshot_item b) = b /\
  item_path (screenshot_item (a ++ 40 :: b)) = b.
Proof. intros H. split; [apply item_path_item|apply item_path_cut]; exact H. Qed.

Lemma screenshot_row_read_back_demo :
  let OS := Posix.os_path (fun _ => true) in
  let a := u "/home/me/shots " in
  let b := u "1)/home.png" in
  path_ok b = true /\
  item_path (screenshot_item b) = b /\
  item_path (screenshot_item (a ++ 40 :: b)) = b.
Proof.
  intros OS a b. split; [reflexivity|].
  apply (screenshot_row_read_back a b). reflexivity.
Defined.

Section AddScreenshots.
Context {U : Unicode} {OS : OsPath}.

Lemma add_screenshots_rows paths e :
  screenshots_listbox (form (_add_screenshots paths e))
  = screenshots_listbox (form e) ++ List.map screenshot_item paths /\
  selected_index (_add_screenshots paths e) = selected_index e /\
  doc (_add_screenshots paths e) = doc e.
Proof.
  destruct paths as [|x paths]; [rewrite app_nil_r; auto|]. repeat split; reflexivity.
Qed.

Lemma added_screenshots_saved e paths i p :
  selected_index e = Some i -> projects (doc e) !! i = Some p ->
  forallb path_ok paths = true ->
  exists e' q,
    _save_current (_add_screenshots paths e) = Ok e' /\
    projects (doc e') !! i = Some q /\
    screenshots q = List.map item_path (screenshots_listbox (form e)) ++ paths /\
    screenshots_local_paths q = screenshots q.
Proof.
  intros Hi Hp Hok. destruct (add_screenshots_rows paths e) as (Hr & Hs & Hd).
  rewrite save_current_ok. unfold save_state. rewrite Hs, Hd, Hi, Hp.
  eexists. eexists. split; [reflexivity|]. split.
  - cbn. apply list_lookup_insert_eq. apply (lookup_lt_Some _ _ _ Hp).
  - cbn [saved screenshots screenshots_local_paths]. split; [|reflexivity].
    rewrite Hr, List.map_app, rows_read_back by exact Hok. reflexivity.
Qed.
End AddScreenshots.

(** X18: the screenshots added through the file dialog reach the
    project being edited: after [_add_screenshots] and
    [_save_current], the project holds, in both of its lists, the
    paths of the rows the list box had followed by the paths added,
    when these can be read back from their rows. *)
Theorem added_screenshots_are_saved {U : Unicode} {OS : OsPath}
    (e : Editor) (paths : list str) (i : nat) (p : Project) :
  selected_index e = Some i -> projects (doc e) !! i = Some p ->
  forallb path_ok paths = true ->
  exists e' q,
    _save_current (_add_screenshots paths e) = Ok e' /\
    projects (doc e') !! i = Some q /\
    screenshots q = List.map item_path (screenshots_listbox (form e)) ++ paths /\
    screenshots_local_paths q = screenshots q.
Proof. apply added_screenshots_saved. Qed.

Lemma added_screenshots_are_saved_demo :
  let U := ascii_tables in
  let OS := Posix.os_path (fun _ => true) in
  let e := window_demo in
  let paths := [u "/tmp/new one.png"; u "/tmp/two.jpg"] in
  selected_index e = Some 1%nat /\ projects (doc e) !! 1%nat = Some editor_demo /\
  forallb path_ok paths = true /\
  exists e' q,
    _save_current (_add_screenshots paths e) = Ok e' /\
    projects (doc e') !! 1%nat = Some q /\
    screenshots q = List.map item_path (screenshots_listbox (form e)) ++ paths /\
    screenshots_local_paths q = screenshots q.
Proof.
  intros U OS e paths. split; [reflexivity|]. split; [reflexivity|]. split; [reflexivity|].
  apply (added_screenshots_are_saved e paths 1 editor_demo); reflexivity.
Defined.

(** X19: [_add_project] appends one project named after the length of
    the list, selects it and shows it in the form; the name is
    [New Project n] and the identifier [new-project-n] for a list that
    had [n - 1] projects, whatever the names in use: adding two
    projects, deleting the first and adding another gives two projects
    of the same title and identifier. *)
Theorem add_project_names_by_length :
  (forall (U : Unicode) (OS : OsPath) (e : Editor),
     window_ok e ->
     exists e0 e' p,
       _save_current e = Ok e0 /\ _add_project e = Ok e' /\
       projects (doc e') = projects (doc e0) ++ [p] /\
       title p = u "New Project " ++ str_of_nat (length (projects (doc e)) + 1) /\
       id p = u "new-project-" ++ str_of_nat (length (projects (doc e)) + 1) /\
       selected_index e' = Some (length (projects (doc e))) /\ has_changes e' = true /\
       title_entry (form e') = title p /\ id_entry (form e') = id p) /\
  (let U := ascii_tables in
   let OS := Posix.os_path (fun _ => false) in
   (e ← _add_project Editor_init;
    e ← _add_project e;
    e ← _on_select [0%nat] e;
    e ← _delete_project (fun _ _ => true) e;
    e ← _add_project e;
    Ok (List.map (fun p => (title p, id p)) (projects (doc e))))
   = Ok [(u "New Project 2", u "new-project-2"); (u "New Project 2", u "new-project-2")]).
Proof.
  split.
  - intros U OS e Hw.
    destruct (add_project_ok e Hw) as (e' & H1 & _ & H3 & H4 & p & H5 & H6 & H7 & H8 & H9).
    exists (save_state e), e', p. split; [apply save_current_ok|]. auto 10.
  - vm_compute. reflexivity.
Qed.

(** * Exporting the images *)

(** ** Paths under the folder of a project *)

Section PosixPaths.

Lemma endswith_slash_snoc a c : Posix.endswith_slash (a ++ [c]) = (c =? Posix.slash).
Proof. unfold Posix.endswith_slash. rewrite rev_app_distr. reflexivity. Qed.

Lemma no_slash_head (s : str) :
  no_char 47 s = true -> startswith [Posix.slash] s = false.
Proof.
  destruct s as [|c s]; [reflexivity|]. cbn [no_char forallb startswith].
  rewrite andb_true_iff. intros [Hc _]. apply negb_true_iff in Hc.
  unfold Posix.slash. rewrite N.eqb_sym, Hc. reflexivity.
Qed.

Lemma no_slash_last (s : str) :
  s <> [] -> no_char 47 s = true -> forall a, Posix.endswith_slash (a ++ s) = false.
Proof.
  intros Hne Hn a. destruct (exists_last Hne) as (s' & c & ->).
  rewrite app_assoc, endswith_slash_snoc.
  unfold no_char in Hn. rewrite forallb_app in Hn. apply andb_true_iff in Hn as [_ Hn].
  cbn [forallb] in Hn. rewrite andb_true_r in Hn. apply negb_true_iff in Hn. exact Hn.
Qed.

(** Joining a name that is not empty onto a folder that does not end
    with a slash. *)
Lemma join_plain a b :
  a <> [] -> Posix.endswith_slash a = false -> startswith [Posix.slash] b = false ->
  Posix.join a b = a ++ [Posix.slash] ++ b.
Proof.
  intros Ha He Hb. unfold Posix.join. rewrite Hb, He. destruct a; [congruence|reflexivity].
Qed.

(** The file [name] of the project [pid], from the folder of the
    document: the path the program builds by joining [images], the
    identifier and the name is the reference [images/pid/name] taken
    from that folder. *)
Lemma join_images base pid name :
  pid <> [] -> no_char 47 pid = true -> startswith [Posix.slash] name = false ->
  Posix.join (Posix.join (Posix.join base (u "images")) pid) name
  = Posix.join base (u "images/" ++ pid ++ u "/" ++ name).
Proof.
  intros Hne Hn Hname.
  assert (Hj : exists B, Posix.join base (u "images") = B ++ u "images" /\
                         Posix.join base (u "images/" ++ pid ++ u "/" ++ name)
                         = B ++ u "images/" ++ pid ++ u "/" ++ name).
  { unfold Posix.join. change (startswith [Posix.slash] (u "images")) with false.
    change (startswith [Posix.slash] (u "images/" ++ pid ++ u "/" ++ name)) with false.
    cbv iota.
    destruct (match base with [] => true | _ :: _ => Posix.endswith_slash base end).
    - exists base. auto.
    - exists (base ++ [Posix.slash]). rewrite <- !app_assoc. auto. }
  destruct Hj as (B & -> & ->).
  rewrite (join_plain (B ++ u "images") pid).
  - rewrite join_plain.
    + rewrite <- !app_assoc. reflexivity.
    + destruct B; discriminate.
    + rewrite (app_assoc _ [Posix.slash] pid).
      apply no_slash_last; assumption.
    + exact Hname.
  - destruct B; discriminate.
  - change (u "images") with (u "image" ++ [115]). rewrite app_assoc.
    apply endswith_slash_snoc.
  - apply no_slash_head. exact Hn.
Qed.
End PosixPaths.

(** ** What is copied, and where *)

Section CopiedImages.
Context {U : Unicode} {OS : OsPath}.

Lemma in_copy_images (self : App) (p : Project) (x : str * str) :
  file_path self <> [] -> In p (projects self) ->
  In x (project_copies (dirname (file_path self)) p) -> In x (_copy_images self).
Proof.
  intros Hf Hp Hx. unfold _copy_images.
  destruct (file_path self) as [|c s] eqn:E; [congruence|]. cbn [truthy negb].
  apply in_concat. eexists. split; [|exact Hx]. apply in_map. exact Hp.
Qed.

Lemma in_project_copies_logo base p :
  id p <> [] -> show_logo p = true -> logo_url p <> [] -> path_exists (logo_url p) = true ->
  In (logo_url p,
      path_join (path_join (path_join base (u "images")) (id p))
        (u "logo" ++ snd (splitext (logo_url p))))
     (project_copies base p).
Proof.
  intros Hid Hs Hl He. unfold project_copies.
  destruct (id p) eqn:E; [congruence|]. cbn [truthy negb]. rewrite Hs, He.
  destruct (logo_url p); [congruence|]. cbn [truthy andb]. left. reflexivity.
Qed.

Lemma in_project_copies_banner base p :
  id p <> [] -> banner_image p <> [] -> path_exists (banner_image p) = true ->
  In (banner_image p,
      path_join (path_join (path_join base (u "images")) (id p))
        (u "banner" ++ snd (splitext (banner_image p))))
     (project_copies base p).
Proof.
  intros Hid Hb He. unfold project_copies.
  destruct (id p) eqn:E; [congruence|]. cbn [truthy negb]. rewrite He.
  destruct (banner_image p); [congruence|]. cbn [truthy andb].
  apply in_or_app. right. apply in_or_app. left. left. reflexivity.
Qed.

Lemma in_project_copies_screenshot base p i ss :
  id p <> [] -> In (i, ss) (enumerate 1 (screenshots_local_paths p)) ->
  path_exists ss = true ->
  In (ss,
      path_join (path_join (path_join base (u "images")) (id p))
        (str_of_nat i ++ snd (splitext ss)))
     (project_copies base p).
Proof.
  intros Hid Hin He. unfold project_copies.
  destruct (id p) eqn:E; [congruence|]. cbn [truthy negb].
  apply in_or_app. right. apply in_or_app. right.
  apply in_concat. eexists. split.
  - apply in_map_iff. exists (i, ss). split; [reflexivity|exact Hin].
  - cbv beta iota. rewrite He. left. reflexivity.
Qed.

Lemma str_of_nat_no_slash (i : nat) (ext : str) :
  startswith [Posix.slash] (str_of_nat i ++ ext) = false.
Proof.
  destruct (str_of_N_digits (U := U) (N.of_nat i)) as (Hne & Hd & _).
  unfold str_of_nat. destruct (str_of_N (N.of_nat i)) as [|c s]; [congruence|].
  cbn [forallb] in Hd. apply andb_true_iff in Hd as [Hc _].
  unfold is_ascii_digit, in_range in Hc. rewrite andb_true_iff, !N.leb_le in Hc.
  cbn [app startswith]. unfold Posix.slash.
  destruct (N.eqb_spec 47 c); [lia|reflexivity].
Qed.
End CopiedImages.

(** X20: with the paths of a POSIX system, a document that has a path
    and a project whose identifier is not empty and has no slash:
    [_copy_images] copies the logo, the banner and each screenshot on
    the disk to the place, under the folder of the document, that the
    Markdown of the project refers to, except for a screenshot whose
    name has no extension: the Markdown refers to [images/id/n.png] and
    the copy is named [images/id/n]. *)
Theorem copied_images_match_references {U : Unicode}
    (fs : str -> bool) (self : App) (p : Project) :
  file_path self <> [] -> In p (projects self) ->
  id p <> [] -> no_char 47 (id p) = true ->
  screenshots_local_paths p = screenshots p ->
  (show_logo p = true -> logo_url p <> [] -> fs (logo_url p) = true ->
   In (logo_url p,
       Posix.join (Posix.dirname (file_path self))
         (image_path (OS := Posix.os_path fs) p (u "logo") (logo_url p)))
      (_copy_images (OS := Posix.os_path fs) self)) /\
  (banner_image p <> [] -> fs (banner_image p) = true ->
   In (banner_image p,
       Posix.join (Posix.dirname (file_path self))
         (image_path (OS := Posix.os_path fs) p (u "banner") (banner_image p)))
      (_copy_images (OS := Posix.os_path fs) self)) /\
  (forall i ss,
     In (i, ss) (enumerate 1 (screenshots p)) -> fs ss = true ->
     (snd (Posix.splitext ss) <> [] ->
      In (ss,
          Posix.join (Posix.dirname (file_path self))
            (screenshot_src (OS := Posix.os_path fs) p i ss))
         (_copy_images (OS := Posix.os_path fs) self)) /\
     (snd (Posix.splitext ss) = [] ->
      In (ss,
          Posix.join (Posix.dirname (file_path self))
            (u "images/" ++ id p ++ u "/" ++ str_of_nat i))
         (_copy_images (OS := Posix.os_path fs) self) /\
      screenshot_src (OS := Posix.os_path fs) p i ss
      = u "images/" ++ id p ++ u "/" ++ str_of_nat i ++ u ".png")).
Proof.
  intros Hf Hp Hid Hn Hss. split; [|split].
  - intros Hs Hl He. unfold image_path. cbn [path_exists Posix.os_path splitext].
    rewrite He. rewrite <- join_images by (assumption || reflexivity).
    apply (in_copy_images (OS := Posix.os_path fs) self p); [assumption..|].
    apply (in_project_copies_logo (OS := Posix.os_path fs)); assumption.
  - intros Hb He. unfold image_path. cbn [path_exists Posix.os_path splitext].
    rewrite He. rewrite <- join_images by (assumption || reflexivity).
    apply (in_copy_images (OS := Posix.os_path fs) self p); [assumption..|].
    apply (in_project_copies_banner (OS := Posix.os_path fs)); assumption.
  - intros i ss Hin He. rewrite <- Hss in Hin.
    pose proof (in_copy_images (OS := Posix.os_path fs) self p _ Hf Hp
                  (in_project_copies_screenshot (OS := Posix.os_path fs)
                     (Posix.dirname (file_path self)) p i ss Hid Hin He)) as Hc.
    cbn [path_join Posix.os_path splitext] in Hc.
    rewrite join_images in Hc by (assumption || apply str_of_nat_no_slash).
    unfold screenshot_src. cbn [splitext Posix.os_path].
    split.
    + intros Hext. destruct (snd (Posix.splitext ss)) eqn:E; [congruence|exact Hc].
    + intros Hext. rewrite Hext in *. rewrite app_nil_r in Hc. split; [exact Hc|reflexivity].
Qed.

Lemma copied_images_match_references_demo :
  let U := ascii_tables in
  let fs := fun _ : str => true in
  let self := export_app in
  let p := export_demo in
  file_path self <> [] /\ In p (projects self) /\
  id p <> [] /\ no_char 47 (id p) = true /\
  screenshots_local_paths p = screenshots p /\
  In (u "/pics/mark.svg", u "/out/images/shop/logo.svg")
     (_copy_images (OS := Posix.os_path fs) self) /\
  In (u "/pics/top.jpg", u "/out/images/shop/banner.jpg")
     (_copy_images (OS := Posix.os_path fs) self) /\
  In (u "/pics/home.png", u "/out/images/shop/1.png")
     (_copy_images (OS := Posix.os_path fs) self) /\
  In (u "/pics/raw", u "/out/images/shop/2")
     (_copy_images (OS := Posix.os_path fs) self) /\
  screenshot_src (OS := Posix.os_path fs) p 2 (u "/pics/raw") = u "images/shop/2.png".
Proof.
  intros U fs self p.
  assert (Hf : file_path self <> []) by discriminate.
  assert (Hp : In p (projects self)) by (left; reflexivity).
  assert (Hid : id p <> []) by discriminate.
  assert (Hn : no_char 47 (id p) = true) by reflexivity.
  assert (Hss : screenshots_local_paths p = screenshots p) by reflexivity.
  destruct (copied_images_match_references fs self p Hf Hp Hid Hn Hss) as (Hl & Hb & Hs).
  repeat (split; [assumption|]).
  split; [apply Hl; [reflexivity|discriminate|reflexivity]|].
  split; [apply Hb; [discriminate|reflexivity]|].
  split; [apply (Hs 1%nat (u "/pics/home.png")); [left; reflexivity|reflexivity|discriminate]|].
  apply (Hs 2%nat (u "/pics/raw")); [right; left; reflexivity|reflexivity|reflexivity].
Defined.

(** ** What the export offers to copy *)

Section Infix.

Lemma infix_refl (s : str) : infix_of s s.
Proof. exists [], []. rewrite app_nil_r. reflexivity. Qed.

Lemma infix_trans (a b c : str) : infix_of a b -> infix_of b c -> infix_of a c.
Proof.
  intros (x & y & ->) (x' & y' & ->). exists (x' ++ x), (y ++ y').
  rewrite <- !app_assoc. reflexivity.
Qed.

Lemma infix_join sep (x : str) (l : list str) : In x l -> infix_of x (join sep l).
Proof.
  induction l as [|a l IH]; [intros []|].
  intros [->|H].
  - destruct l as [|b l]; [apply infix_refl|].
    exists [], (sep ++ join sep (b :: l)). reflexivity.
  - destruct l as [|b l]; [destruct H|].
    destruct (IH H) as (x1 & x2 & E).
    exists (a ++ sep ++ x1), x2. change (join sep (a :: b :: l)) with (a ++ sep ++ join sep (b :: l)).
    rewrite E, <- !app_assoc. reflexivity.
Qed.

Lemma In_enumerate {A} (l : list A) (a : A) :
  In a l -> forall k, exists i, In (i, a) (enumerate k l).
Proof.
  induction l as [|x l IH]; [intros []|].
  intros [->|H] k.
  - exists k. left. reflexivity.
  - destruct (IH H (S k)) as [i Hi]. exists i. right. exact Hi.
Qed.
End Infix.

Section ExportFacts.
Context {U : Unicode} {OS : OsPath}.

(** The Markdown of a document holds the Markdown of each project. *)
Lemma full_md_holds_project (self : App) (today : str) (p : Project) :
  In p (projects self) -> infix_of (_generate_project_md p) (_generate_full_md self today).
Proof.
  intros Hp. unfold _generate_full_md. apply infix_join.
  apply in_or_app. right. apply in_or_app. right. apply in_or_app. left.
  unfold project_blocks. destruct (In_enumerate _ _ Hp 0%nat) as [i Hi].
  apply in_concat. eexists. split.
  - apply in_map_iff. exists (i, p). split; [reflexivity|exact Hi].
  - cbv beta iota. apply in_or_app. right. left. reflexivity.
Qed.

Lemma project_md_holds_logo (p : Project) :
  show_logo p = true -> logo_url p <> [] ->
  infix_of (u "<img src='" ++ image_path p (u "logo") (logo_url p) ++ u "' alt='")
           (_generate_project_md p).
Proof.
  intros Hs Hl. unfold _generate_project_md.
  apply (infix_trans _ (u "<img src='" ++ image_path p (u "logo") (logo_url p) ++ u "' alt='"
                          ++ title p ++ u " logo' height='64'>")).
  - exists [], (title p ++ u " logo' height='64'>"). cbn [app]. rewrite <- !app_assoc.
    reflexivity.
  - apply infix_join.
    assert (Hc : In (u "<img src='" ++ image_path p (u "logo") (logo_url p) ++ u "' alt='"
                       ++ title p ++ u " logo' height='64'>") (content_lines p)).
    { unfold content_lines. apply in_or_app. right. apply in_or_app. left.
      unfold logo_lines. rewrite Hs. destruct (logo_url p); [congruence|].
      cbn [truthy andb]. left. reflexivity. }
    unfold project_lines.
    match goal with |- context [if ?c then _ else _] => destruct c end; [|exact Hc].
    apply in_or_app. right. apply in_or_app. left. exact Hc.
Qed.
End ExportFacts.

(** X21: [_export_file] on a document that has or is given a path, when
    the file can be written: if no project has a banner or a
    screenshot on the disk, no copy is made and no question is asked,
    also for a project whose logo is on the disk.  The Markdown
    written refers to the logo as [images/id/logo.ext], the file
    [_copy_images] would have written. *)
Theorem export_leaves_logo_behind {U : Unicode} {OS : OsPath}
    (name today : str) (askyesno : str -> str -> bool) (e e0 : Editor) (p : Project) :
  _save_current e = Ok e0 ->
  file_path (doc e0) <> [] \/ name <> [] ->
  In p (projects (doc e0)) -> id p <> [] ->
  show_logo p = true -> logo_url p <> [] -> path_exists (logo_url p) = true ->
  has_images (projects (doc e0)) = false ->
  exists e' text,
    _export_file name today true askyesno e
    = Ok (e', {| written := Some (file_path (doc e'), text); copies := [] |}) /\
    projects (doc e') = projects (doc e0) /\ has_changes e' = false /\
    infix_of (u "<img src='images/" ++ id p ++ u "/logo" ++ snd (splitext (logo_url p))
                ++ u "' alt='") text /\
    In (logo_url p,
        path_join (path_join (path_join (dirname (file_path (doc e'))) (u "images")) (id p))
          (u "logo" ++ snd (splitext (logo_url p))))
       (_copy_images (doc e')).
Proof.
  intros Hsave Hpath Hp Hid Hs Hl He Hi.
  unfold _export_file. rewrite Hsave, bind_Ok.
  set (path := if truthy (file_path (doc e0)) then file_path (doc e0) else name).
  assert (Hne : path <> []).
  { unfold path. destruct (file_path (doc e0)); cbn [truthy].
    - destruct Hpath; [congruence|assumption].
    - discriminate. }
  assert (Ht : truthy path = true) by (destruct path; [congruence|reflexivity]).
  clearbody path. rewrite Ht. cbv zeta. cbn [negb projects doc set_file_path set_doc].
  rewrite Hi. cbn [andb].
  exists (_update_status (set_has_changes false (set_file_path path e0))),
         (_generate_full_md {| projects := projects (doc e0); file_path := path |} today).
  split; [reflexivity|].
  cbn [projects doc set_file_path set_doc set_has_changes _update_status has_changes file_path].
  split; [reflexivity|]. split; [reflexivity|]. split.
  - eapply infix_trans; [|apply full_md_holds_project; exact Hp].
    pose proof (project_md_holds_logo p Hs Hl) as H. unfold image_path in H.
    rewrite He in H. rewrite <- !app_assoc in H. exact H.
  - apply (in_copy_images {| projects := projects (doc e0); file_path := path |} p).
    + exact Hne.
    + exact Hp.
    + apply in_project_copies_logo; assumption.
Qed.

Lemma export_leaves_logo_behind_demo :
  let U := ascii_tables in
  let OS := Posix.os_path logo_only_fs in
  let e := logo_only_window in
  let p := logo_only_demo in
  _save_current e = Ok e /\
  (file_path (doc e) <> [] \/ (u "/elsewhere.md") <> []) /\
  In p (projects (doc e)) /\ id p <> [] /\
  show_logo p = true /\ logo_url p <> [] /\ path_exists (logo_url p) = true /\
  has_images (projects (doc e)) = false /\
  exists e' text,
    _export_file (u "/elsewhere.md") (u "May 01, 2024") true (fun _ _ => true) e
    = Ok (e', {| written := Some (file_path (doc e'), text); copies := [] |}) /\
    projects (doc e') = projects (doc e) /\ has_changes e' = false /\
    infix_of (u "<img src='images/" ++ id p ++ u "/logo" ++ snd (splitext (logo_url p))
                ++ u "' alt='") text /\
    In (logo_url p,
        path_join (path_join (path_join (dirname (file_path (doc e'))) (u "images")) (id p))
          (u "logo" ++ snd (splitext (logo_url p))))
       (_copy_images (doc e')).
Proof.
  intros U OS e p.
  assert (H1 : _save_current e = Ok e) by reflexivity.
  assert (H2 : file_path (doc e) <> [] \/ (u "/elsewhere.md") <> []) by (left; discriminate).
  assert (H3 : In p (projects (doc e))) by (left; reflexivity).
  assert (H4 : id p <> []) by discriminate.
  assert (H5 : show_logo p = true) by reflexivity.
  assert (H6 : logo_url p <> []) by discriminate.
  assert (H7 : path_exists (logo_url p) = true) by reflexivity.
  assert (H8 : has_images (projects (doc e)) = false) by reflexivity.
  repeat (split; [assumption|]).
  exact (export_leaves_logo_behind (u "/elsewhere.md") (u "May 01, 2024") (fun _ _ => true)
           e e p H1 H2 H3 H4 H5 H6 H7 H8).
Defined.

(** ** Removing screenshots *)

Section RemoveScreenshots.
Context {U : Unicode} {OS : OsPath}.

Lemma map_delete {A B} (f : A -> B) (l : list A) : forall k,
  List.map f (delete k l) = delete k (List.map f l).
Proof.
  induction l as [|x l IH]; intros [|k]; try reflexivity.
  cbn. rewrite IH. reflexivity.
Qed.

Lemma saved_rows e rows i p :
  selected_index e = Some i -> projects (doc e) !! i = Some p ->
  let e1 := _on_change (set_form (_update_screenshot_count
                                    (set_screenshots_listbox rows (form e))) e) in
  exists e' q,
    _save_current e1 = Ok e' /\ projects (doc e') !! i = Some q /\
    screenshots q = List.map item_path rows /\
    screenshots_local_paths q = List.map item_path rows /\
    ss_count_label (form e') = screenshot_count_text (length rows).
Proof.
  intros Hi Hp e1. rewrite save_current_ok. unfold save_state.
  change (selected_index e1) with (selected_index e).
  change (projects (doc e1)) with (projects (doc e)). rewrite Hi, Hp.
  eexists. eexists. split; [reflexivity|]. split.
  - cbn. apply list_lookup_insert_eq. apply (lookup_lt_Some _ _ _ Hp).
  - repeat split; reflexivity.
Qed.
End RemoveScreenshots.

(** X22: with a project being edited whose screenshots are shown in
    the list, each under a path that can be read back from its row:
    after [_remove_screenshot] and [_save_current] the project holds
    the screenshots it had without the one of the first selected row,
    in the order they had, and after [_clear_screenshots] and
    [_save_current] none, so that its Markdown has no section of
    screenshots; the counter shows the number left.  With no row
    selected [_remove_screenshot] does nothing. *)
Theorem removed_screenshots_are_saved {U : Unicode} {OS : OsPath}
    (e : Editor) (i : nat) (p : Project) (paths : list str) :
  selected_index e = Some i -> projects (doc e) !! i = Some p ->
  screenshots_listbox (form e) = List.map screenshot_item paths ->
  forallb path_ok paths = true ->
  (forall k sel,
     exists e' q,
       _save_current (_remove_screenshot (k :: sel) e) = Ok e' /\
       projects (doc e') !! i = Some q /\
       screenshots q = delete k paths /\
       screenshots_local_paths q = delete k paths /\
       ss_count_label (form e') = screenshot_count_text (length (delete k paths))) /\
  (exists e' q,
     _save_current (_clear_screenshots e) = Ok e' /\
     projects (doc e') !! i = Some q /\
     screenshots q = [] /\ screenshots_local_paths q = [] /\
     screenshots_section q = [] /\
     ss_count_label (form e') = u "0 screenshots") /\
  _remove_screenshot [] e = e.
Proof.
  intros Hi Hp Hrows Hok. split; [|split; [|reflexivity]].
  - intros k sel.
    destruct (saved_rows e (delete k (screenshots_listbox (form e))) i p Hi Hp)
      as (e' & q & H1 & H2 & H3 & H4 & H5).
    exists e', q. split; [exact H1|]. split; [exact H2|].
    rewrite Hrows in H3, H4, H5.
    rewrite map_delete, rows_read_back in H3, H4 by exact Hok.
    rewrite <- map_delete, length_map in H5. auto.
  - destruct (saved_rows e [] i p Hi Hp) as (e' & q & H1 & H2 & H3 & H4 & H5).
    exists e', q. split; [exact H1|]. split; [exact H2|].
    split; [exact H3|]. split; [exact H4|]. split; [|exact H5].
    unfold screenshots_section. cbn [List.map] in H3. rewrite H3. reflexivity.
Qed.

Lemma removed_screenshots_are_saved_demo :
  let U := ascii_tables in
  let OS := Posix.os_path (fun _ => false) in
  let e := window_demo in
  let paths := [u "shots/home.png"; u "shots/cart.png"] in
  selected_index e = Some 1%nat /\ projects (doc e) !! 1%nat = Some editor_demo /\
  screenshots_listbox (form e) = List.map screenshot_item paths /\
  forallb path_ok paths = true /\
  exists e' q,
    _save_current (_remove_screenshot [0%nat] e) = Ok e' /\
    projects (doc e') !! 1%nat = Some q /\
    screenshots q = [u "shots/cart.png"] /\
    screenshots_local_paths q = [u "shots/cart.png"] /\
    ss_count_label (form e') = u "1 screenshot".
Proof.
  intros U OS e paths.
  assert (H1 : selected_index e = Some 1%nat) by reflexivity.
  assert (H2 : projects (doc e) !! 1%nat = Some editor_demo) by reflexivity.
  assert (H3 : screenshots_listbox (form e) = List.map screenshot_item paths) by reflexivity.
  assert (H4 : forallb path_ok paths = true) by reflexivity.
  repeat (split; [assumption|]).
  exact (proj1 (removed_screenshots_are_saved e 1 editor_demo paths H1 H2 H3 H4) 0%nat []).
Defined.
